(* ===== verification/_CoqProject ===== *)
-Q . S2P
Prelude.v
PyText.v
Protocol.v
Parser.v
Usb.v
Inbox.v
Managed.v
Coordinator.v
Walk.v
LongPoll.v
CatchUp.v
Arbiter.v
Locks.v
Paths.v
Device.v
Json.v
Schema.v
JsonText.v
IpAddr.v
Http.v
Status.v
WireLog.v
Stack.v
Threads.v
Urb.v
UrbLogic.v
UrbRace.v
Usbfs.v
Report.v
CliArgs.v
Token.v
Cli.v
Argv.v
ArgvText.v
Live.v
LiveTool.v
Recorder.v
Preempt.v
Probes.v
HttpProbes.v
