(* ===== verification/Prelude.v ===== *)
(** * A verification of motu-proxy

    motu-proxy lets HTTP clients talk to a MOTU AVB audio interface over USB.
    The device keeps a tree of settings, the datastore, read and written with
    HTTP-like requests inside a framed USB protocol.  This library models the
    program's own logic, from bytes on the wire to the HTTP front end, and proves
    the properties that make each part correct.

    ** The program and the files

    - [Prelude]: Python values, the exceptions of the program, the error monad
      [result], the state and exception monad [M] (an exception keeps the state
      changes made before it), Hoare triples, tactics and generic lemmas.
    - [PyText]: the text and byte-string operations of Python that are used.
    - [Protocol] (motu_proxy/protocol.py, fixtures.py): checksums, sized words,
      query fields, host sequence numbers and the request frames, with an
      independent decoder of frames as specification.
    - [Parser] (motu_proxy/parser.py): response frames, joining of segments,
      classification of UTOM and text responses, extraction of JSON.
    - [Usb] (class MotuUsbDatastore of motu_proxy/datastore.py): the client
      object, logical frames over USB transfers, the response collection loop,
      get, post, init.  Transport, clock and callbacks are the class [UsbEnv].
      [Inbox]: what a response is made of, over a transport that keeps what it
      delivered ([UsbInbox]).
    - [Managed] (class ManagedDatastore, open_datastore): sessions that are
      opened, lost and reopened with backoff, over the class [SessionOps];
      [usb_session] discharges it with the client of [Usb].
    - [Coordinator] (class DatastoreCoordinator): the ETag history, long polls,
      reads, writes and the poller's body, over the class [CoordEnv]; a pass of the
      poller is in two parts, what it captures before it waits for the device and
      what it does with that once it has it.
      [usb_coordinator] discharges [CoordEnv] with the session manager.  [Walk]: what
      every computation of client, manager, sessions and coordinator keeps, for
      any preorder on the world that transfers follow.  [LongPoll]: the waits end,
      for a clock with the laws [CoordClock].  [CatchUp]: what a client is given
      that asks again and again, after any steps of the threads, for a device with
      the laws [CountingDevice].
    - [Arbiter] (same class): who may use the device, as a step relation over any
      number of foreground threads and the poller.
    - [Locks] (datastore.py, transports/usbfs.py, http_server.py, cli.py): every
      method reduced to the locks it takes, and the threads of the server as a pool
      of such code.
    - [Device] (motu_proxy/device.py): discovery of the device and its control
      interface, over the class [Sysfs] of file system operations.
    - [Paths] (motu_proxy/paths.py), [Json] (Python numbers and JSON values),
      [Schema] (motu_proxy/schema.py): path normalization, the schema table and
      the validation of writes.
    - [JsonText] (motu_proxy/json_body.py): the reading and printing of JSON texts
      as Python's [json] does it, and [load_json_object]; [IpAddr]: the loopback
      test of [ipaddress].
    - [Http] (motu_proxy/http_server.py): query fields, the guards of writes,
      dispatch, the request handler with its responses and error statuses, over
      the classes [HttpLib] and [Backend]; [Status]: the status page, built from
      the states of [Coordinator], [Arbiter] and [Managed].
    - [WireLog]: the requests among the frames a transport was given ([UsbLog]);
      [Stack]: the HTTP handler over the coordinator ([CoordWire]), the session
      manager and the USB client down to the frames on the wire, as a server that
      runs through requests and the two parts of poller passes.
    - [Threads]: concurrent programs as trees of atomic actions, a weakest
      precondition with rely and guarantee, and pools of threads.  [Urb]
      (class UsbFsCancellableBulkRead of motu_proxy/transports/usbfs.py) is
      written in it over any kernel of the class [UrbKernel]; [UrbLogic] proves
      its parts and [UrbRace] the whole, for the laws [UrbLaws].
    - [Usbfs] (class UsbFsTransport): request numbers, the device file, claiming
      and releasing, transfers; it discharges [UsbEnv] and composes discovery,
      transport and client into the program's own [open_datastore].
    - [Report] (motu_proxy/datastore.py, parser.py, cli.py): the text of a
      response and the capability report.
    - [CliArgs], [Token], [Cli] (motu_proxy/cli.py): the options and the
      configuration, the write-token file over the class [TokenFs] with the laws
      [TokenFsLaws], and the commands over [CliEnv] and [ServeEnv].  [Argv]: the
      argument parser of [build_parser] with the part of [argparse] it uses, and
      [main] from the argument vector to the exit code; [ArgvText]: its inverse.
    - [Live], [LiveTool] (tools/live_validate_response_frames.py): the validator
      of live frames with its own decoder, and its program.
    - [Recorder], [Preempt] (tools/live_validate_foreground_preemption.py): the
      recording transport, which discharges [UsbEnv] and [UsbLog], and the
      validator of foreground preemption with its waits, checks and clean-up.
    - [Probes] (six scripts under research/spike-metering/probes): the measuring
      probes over USB, on the client of [Usb]; [HttpProbes] (the other three): those
      over HTTP, as trees of operations with their threads.

    Definitions keep the source's names.  The mutable objects of the source are
    records; a method is a computation on its record and on the world outside.

    ** What is shown

    - Frames: a built POST or GET frame decodes back to the request, and a POST
      is built exactly when its body is within the computed maximum; a response
      packet is accepted exactly when it is the encoding of a well-formed frame,
      any single corrupted payload byte is detected, and segments join exactly
      when numbered in order.
    - The USB client: a collected response is exactly the segments delivered for
      it, for any transport; the collection terminates; a whole GET and POST with a device that answers; and
      the effect of a request on the object on every branch.
    - Sessions: an invariant over all sequences of calls, the outcome of a call
      on every branch, exponential backoff over all call times, finality of
      [close].
    - The coordinator: bounds and soundness of the history, the complete outcome
      of a long poll, no wait while something is new, the end of every wait,
      suppression of a client's own changes, forgetting after a new session; a
      client that keeps asking is given consecutive changes and catches up.
    - Arbitration: exclusive access, cancellation of the poller's read while a
      request waits, precedence of requests, and the end of polling after
      [close], in every interleaving.
    - The locks: the threads of the server never deadlock, in any interleaving; a
      thread that waits for a lock waits for one that runs.
    - Discovery: the device returned is the only one that matches, with the
      endpoints that are listed under its least free control interface.
    - Validation: the best schema match, and that exactly the documented writes
      are accepted.
    - JSON: printing and reading back is the identity on values without floats;
      the write bodies accepted are exactly the objects without constants that JSON
      does not have, and every other text is refused in one way.
    - HTTP: no write reaches the device unless every guard passed; for every request
      exactly one response is begun, of a known form.
    - The whole proxy: over any sequence of requests, polls, failures and
      reconnections, the writes on the wire are at most one for each write
      request, with the path, client and bytes of that request, all checked.
    - The cancellable read, with cancels at any time: no URB is left in flight by
      a read that ends regularly, no cancel is missed, and a read that nobody
      cancels takes at most three passes.
    - Sessions over usbfs: no failure on the way leaks the device file.
    - The command line: every command can be said and is understood; whatever the
      arguments, only [post] writes without serving, and a server is only as open as
      they say;
      options give configurations within the client's bounds;
      a write is checked before the device is opened; the smoke test's exit code
      is right; a server starts only safely and cleans up however it ends; the
      token gets into no file but a private one; the report is what the device
      shows, one line per value.
    - The live validator accepts exactly what the proxy's parser accepts, and its
      exit code says so.
    - The preemption validator: its recorder is transparent, it closes what it
      opened, a regular end means that every dispatch was seen on the wire, and
      the value it writes back is the one it read.
    - The probes: they ask and never write; the timed listening ends and accounts
      for every packet; the concurrent measurement counts its responses.

    ** Conventions and bounds

    Integers are [Z] with the wrap-around and the range checks of the code
    written out; times are integer microseconds.  Loops run on fuel that is
    proved to be enough: the reassembly of a frame reads at most as many chunks
    as bytes are missing ([read_chunks_fuel]), a collection makes at most
    [max_reads] rounds ([collect_loop_enough]), the drain likewise
    ([drain_loop_fuel]), and the header loop of a UTOM response consumes bytes
    ([utom_headers_enough]).  The wait of a long poll is bounded by the
    clock: its loop returns [None] when its fuel ends, and two passes for each
    microsecond of the waiting time are enough ([wait_loop_ends]); the fuel of the
    coordinator's [get] is that ([long_poll_fuel]), and the waits of the preemption
    validator have one for each microsecond ([passes_within]); so has the listening
    of a probe ([listen_ends]), whose other timed loops are bounded alike
    ([while_time_ends]).  The loops of the JSON reader
    are bounded by the length of the text ([scan_once_scanner]), a capture of the
    live validator by its limit on reads ([capture_loop_fuel]), and the reaping
    loop of a read by three passes while nobody cancels it.

    ** What is not modelled

    Usage texts, debug output and most texts of error messages; the socket layer of
    [http.server]; what the libraries do when threads start and join; the rounding of
    the figures the probes print; reading back of printed floats; and the two scripts
    under research/camilladsp-meters-comparison, which call the client library of
    another program.  Parameters: the kernel's URBs, sysfs and other system calls, the
    clock, the authority check of [urlparse], what depends on the interpreter
    ([Interpreter]), what a command does with an empty list that [argparse] gave it
    for the text [--], and the function [datastore_payload] that five probes import and
    the program does not have. *)
From stdpp Require Export base list strings pretty numbers option.
From Stdlib Require Export ZArith Lia.

#[global] Open Scope Z_scope.

(** * Python values *)

(** Python [bytes] are lists of integers; a well-formed one has every element
    in [0, 256).  Python [str] are lists of Unicode code points. *)
Abbreviation bytes := (list Z).
Abbreviation pystr := (list Z).

Definition is_byte (b : Z) : Prop := 0 <= b < 256.
Definition bytes_ok (l : bytes) : Prop := Forall is_byte l.

(** A literal of the source, as the code points of an ASCII string. *)
Definition lit (s : string) : list Z :=
  (λ a, Z.of_N (Ascii.N_of_ascii a)) <$> String.list_ascii_of_string s.

Declare Scope py_scope.
Delimit Scope py_scope with py.
#[global] Open Scope py_scope.
Notation "'s!' x" := (lit x%string) (at level 1, x at level 0) : py_scope.

(** [len(l)], [l[:n]], [l[n:]], [l[a:b]] for non-negative indices. *)
Definition zlen {A} (l : list A) : Z := Z.of_nat (length l).
Definition ztake {A} (n : Z) (l : list A) : list A := take (Z.to_nat n) l.
Definition zdrop {A} (n : Z) (l : list A) : list A := drop (Z.to_nat n) l.
Definition zslice {A} (a b : Z) (l : list A) : list A :=
  ztake (b - a) (zdrop a l).

(** Equality of byte strings and of texts as a test. *)
Definition zl_eqb (a b : list Z) : bool := bool_decide (a = b).

Fixpoint starts_with (p l : list Z) : bool :=
  match p, l with
  | [], _ => true
  | x :: p', y :: l' => (x =? y) && starts_with p' l'
  | _, [] => false
  end.

(** * Exceptions *)

(** Why [parser.parse_response_frame] or [join_parsed_response_frames] raised
    [ResponseFrameError]: one constructor per [raise] of the source, with the
    values its message shows. *)
Inductive frame_error :=
  | ShortFrame (got : Z)
  | WrapperType (t : Z)
  | WrapperLength (n : Z)
  | TruncatedFrame (got wrapper_len : Z)
  | FrameHeader (h : bytes)
  | MessageSeq (got expected : Z)
  | FinalField (f : Z)
  | PayloadLength (n : Z)
  | TrailerLength (n : Z)
  | CrcMismatch (stored computed : Z)
  | TrailerMismatch (trailer wrapper : bytes)
  | SegmentIndex (got expected : Z)
  | EarlyFinal (i : Z)
  | MissingFinal.

(** Why a response wait ended ([DatastoreTimeout] and its relatives). *)
Inductive wait_reason :=
  | ReadLimit (max_reads : Z)
  | TimedOut (timeout_ms : Z)
  | NoneAfter (timeout_ms : Z)
  | IgnoredLimit (max_ignored : Z)
  | DrainLimit (max_reads : Z)
  | PreemptionBudget.

Inductive limit_reason :=
  | StaleFrames (n : Z)
  | StaleBytes (n : Z)
  | ResponseFrames (n : Z)
  | ResponseBytes (n : Z).

(** The exceptions the modelled code raises or lets through. *)
Inductive exn :=
  | ValueError
  | JSONDecodeError
  | UnicodeEncodeError
  | UnicodeDecodeError
  | StructError
  | OverflowError
  | ZeroDivisionError
  | IndexError
  | TypeError
  | AssertionError
  | TimeoutError
  | InterruptedError
  | PermissionError
  | OSError (errno : Z)
  | RuntimeError (message : pystr)
  | ProtocolFrameTooLarge (len max : Z)
  | InvalidHostSequence
  | ResponseFrameError (why : frame_error)
  | ShortUsbFrame (got expected : Z)
  | ShortUsbWrite (written expected : Z)
  | DatastoreNoResponse (why : wait_reason)
  | DatastoreTimeout (why : wait_reason)
  | DatastoreResponseLimit (why : limit_reason)
  | DatastoreCancelled
  | DatastoreDeviceUnavailable
  | DeviceDiscoveryError (caused_by_permission : bool) (message : pystr)
  | NoDeviceFound
  | MultipleDevicesFound
  | NoControlInterfaceFound
  | InvalidJsonBody
  | DatastorePermissionError (path : pystr)
  | DatastoreValidationError (path : pystr)
  | WritesDisabled
  | CrossOriginWrite
  | HostNotAllowed
  | WriteTokenRequired
  | RequestBodyTooLarge
  | RequestBodyTimeout
  | BadRequest.

(** The classes of the exceptions: [RuntimeError] (the program's own are derived
    from it) and [OSError]. *)
Definition is_os_error (e : exn) : bool :=
  match e with
  | TimeoutError | InterruptedError | PermissionError | OSError _ => true
  | _ => false
  end.
Definition is_runtime_error (e : exn) : bool :=
  match e with
  | ValueError | JSONDecodeError | UnicodeEncodeError | UnicodeDecodeError
  | StructError | OverflowError | ZeroDivisionError | IndexError | TypeError | AssertionError => false
  | _ => negb (is_os_error e)
  end.

(** What depends on the interpreter: the nesting a JSON text may have, whether
    an IPv6 address that maps an IPv4 one is a loopback address when that one
    is, the text of an exception, and which characters print as themselves. *)
Class Interpreter := {
  json_depth : nat;
  mapped_loopback : bool;
  exn_text : exn → pystr;
  printable : Z → bool
}.

(** One for the examples. *)
Definition demo_python : Interpreter :=
  {| json_depth := 100; mapped_loopback := true; exn_text := λ _, []; printable := λ _, true |}.

(** * Fallible code *)

Inductive result (A : Type) :=
  | Ok (a : A)
  | Err (e : exn).
Arguments Ok {_} _.
Arguments Err {_} _.

#[global] Instance result_ret : MRet result := @Ok.
#[global] Instance result_bind : MBind result := λ A B f m,
  match m with Ok a => f a | Err e => Err e end.
#[global] Instance result_fmap : FMap result := λ A B f m,
  match m with Ok a => Ok (f a) | Err e => Err e end.

Definition is_ok {A} (r : result A) : bool :=
  match r with Ok _ => true | Err _ => false end.

(** Evaluation of a list of fallible items from left to right. *)
Fixpoint mapR {A B} (f : A → result B) (l : list A) : result (list B) :=
  match l with
  | [] => Ok []
  | x :: l' => y ← f x; ys ← mapR f l'; Ok (y :: ys)
  end.

(** Stateful fallible code: an exception leaves the state changes made before
    it in place, as a Python exception does. *)
Definition M (S A : Type) : Type := S → result A * S.

#[global] Instance M_ret {S} : MRet (M S) := λ A a s, (Ok a, s).
#[global] Instance M_bind {S} : MBind (M S) := λ A B f m s,
  match m s with
  | (Ok a, s') => f a s'
  | (Err e, s') => (Err e, s')
  end.
Definition mget {S} : M S S := λ s, (Ok s, s).
Definition mputs {S} (f : S → S) : M S unit := λ s, (Ok tt, f s).
Definition mraise {S A} (e : exn) : M S A := λ s, (Err e, s).
Definition mlift {S A} (r : result A) : M S A := λ s, (r, s).

(** [try: m except: h], [try: m finally: f]. *)
Definition mcatch {S A} (m : M S A) (h : exn → M S A) : M S A := λ s,
  match m s with
  | (Ok a, s') => (Ok a, s')
  | (Err e, s') => h e s'
  end.
Definition mfinally {S A} (m : M S A) (f : M S unit) : M S A := λ s,
  let '(r, s') := m s in
  match f s' with
  | (Ok _, s'') => (r, s'')
  | (Err e, s'') => (Err e, s'')
  end.

(** * Automation *)

Create HintDb motu.
Create HintDb keep.
Create Rewrite HintDb motu.

(** Closes goals about boolean comparisons on integers. *)
Ltac zbool :=
  repeat match goal with
  | H : (_ <? _) = true |- _ => apply Z.ltb_lt in H
  | H : (_ <? _) = false |- _ => apply Z.ltb_ge in H
  | H : (_ <=? _) = true |- _ => apply Z.leb_le in H
  | H : (_ <=? _) = false |- _ => apply Z.leb_gt in H
  | H : (_ =? _) = true |- _ => apply Z.eqb_eq in H
  | H : (_ =? _) = false |- _ => apply Z.eqb_neq in H
  | H : negb _ = true |- _ => apply negb_true_iff in H
  | H : negb _ = false |- _ => apply negb_false_iff in H
  | H : _ && _ = true |- _ => apply andb_true_iff in H as [? ?]
  | H : _ || _ = false |- _ => apply orb_false_iff in H as [? ?]
  end.

(** Splits the first conditional of a hypothesis or of the goal. *)
Ltac case_if_in H :=
  match type of H with
  | context [if ?b then _ else _] => destruct b eqn:?
  end.

Ltac case_if :=
  match goal with
  | |- context [if ?b then _ else _] =>
      lazymatch b with context [if _ then _ else _] => fail | _ => destruct b eqn:? end
  end.

(** Case analysis on every bind and conditional of a successful run. *)
Ltac inv_result :=
  repeat match goal with
  | H : Ok _ = Ok _ |- _ => injection H as H; try subst
  | H : Err _ = Err _ |- _ => injection H as H; try subst
  | H : Ok _ = Err _ |- _ => discriminate H
  | H : Err _ = Ok _ |- _ => discriminate H
  | H : (?m ≫= _) = Ok _ |- _ =>
      let E := fresh "E" in
      destruct m eqn:E; simpl in H; [| discriminate H]
  | H : mret _ = Ok _ |- _ => unfold mret, result_ret in H
  end.

(** * Generic lemmas *)

Section ResultLemmas.
Context {A B : Type}.

Lemma result_bind_ok (m : result A) (f : A → result B) b :
  m ≫= f = Ok b ↔ ∃ a, m = Ok a ∧ f a = Ok b.
Proof. destruct m; simpl; naive_solver. Qed.

Lemma result_bind_eq (m : result A) (f : A → result B) a :
  m = Ok a → m ≫= f = f a.
Proof. by intros ->. Qed.

Lemma result_bind_err (m : result A) (f : A → result B) e :
  m ≫= f = Err e ↔ m = Err e ∨ ∃ a, m = Ok a ∧ f a = Err e.
Proof. destruct m; simpl; naive_solver. Qed.

Lemma mapR_ok (f : A → result B) l ys :
  mapR f l = Ok ys ↔ Forall2 (λ x y, f x = Ok y) l ys.
Proof.
  revert ys. induction l as [|x l IH]; intros ys; simpl.
  - split; [intros [= <-]; constructor | by inversion 1].
  - split.
    + intros H. inv_result. constructor; [done|]. by apply IH.
    + inversion 1 as [|???? Hx Hl]; subst. rewrite Hx. simpl.
      apply IH in Hl. by rewrite Hl.
Qed.

Lemma mapR_map (f : A → result B) (g : A → B) l :
  (∀ x, x ∈ l → f x = Ok (g x)) → mapR f l = Ok (g <$> l).
Proof.
  induction l as [|x l IH]; intros H; simpl; [done|].
  rewrite H by constructor. simpl. rewrite IH; [done|].
  intros y Hy. apply H. by constructor.
Qed.
End ResultLemmas.

Section ListLemmas.
Context {A : Type}.
Implicit Types l k : list A.

Lemma zlen_nonneg l : 0 <= zlen l.
Proof. unfold zlen. lia. Qed.

Lemma zlen_app l k : zlen (l ++ k) = zlen l + zlen k.
Proof. unfold zlen. rewrite length_app. lia. Qed.

Lemma zlen_cons (x : A) l : zlen (x :: l) = 1 + zlen l.
Proof. unfold zlen. simpl length. lia. Qed.

Lemma zlen_nil : zlen (@nil A) = 0.
Proof. done. Qed.

Lemma zlen_zero l : zlen l = 0 ↔ l = [].
Proof. unfold zlen. destruct l; simpl; split; try done; lia. Qed.

Lemma ztake_app l k n : n = zlen l → ztake n (l ++ k) = l.
Proof. intros ->. unfold ztake, zlen. rewrite Nat2Z.id. apply take_app_length. Qed.

Lemma zdrop_app l k n : n = zlen l → zdrop n (l ++ k) = k.
Proof. intros ->. unfold zdrop, zlen. rewrite Nat2Z.id. apply drop_app_length. Qed.

Lemma ztake_zdrop l n : ztake n l ++ zdrop n l = l.
Proof. apply take_drop. Qed.

Lemma zlen_ztake l n : 0 <= n <= zlen l → zlen (ztake n l) = n.
Proof. unfold zlen, ztake. rewrite length_take. lia. Qed.

Lemma zlen_zdrop l n : 0 <= n <= zlen l → zlen (zdrop n l) = zlen l - n.
Proof. unfold zlen, zdrop. rewrite length_drop. lia. Qed.

Lemma zslice_mid l1 l2 l3 a b :
  a = zlen l1 → b = zlen l1 + zlen l2 → zslice a b (l1 ++ l2 ++ l3) = l2.
Proof.
  intros -> ->. unfold zslice. rewrite zdrop_app by done.
  apply ztake_app. lia.
Qed.

Lemma zslice_drop l a b :
  0 <= a <= b → b <= zlen l → l = ztake a l ++ zslice a b l ++ zdrop b l.
Proof.
  intros. unfold zslice. rewrite <- (ztake_zdrop l a) at 1. f_equal.
  rewrite <- (ztake_zdrop (zdrop a l) (b - a)) at 1. f_equal.
  unfold zdrop. rewrite drop_drop. f_equal. lia.
Qed.

Lemma zlen_zslice l a b :
  0 <= a <= b → b <= zlen l → zlen (zslice a b l) = b - a.
Proof.
  intros. unfold zslice. rewrite zlen_ztake; [done|].
  rewrite zlen_zdrop; lia.
Qed.
End ListLemmas.

#[export] Hint Rewrite @zlen_app @zlen_cons @zlen_nil : motu.
#[export] Hint Resolve zlen_nonneg : motu.

Lemma zl_eqb_eq a b : zl_eqb a b = true ↔ a = b.
Proof. apply bool_decide_eq_true. Qed.

Lemma zl_eqb_refl a : zl_eqb a a = true.
Proof. by apply zl_eqb_eq. Qed.

Lemma zl_eqb_neq a b : zl_eqb a b = false ↔ a ≠ b.
Proof. apply bool_decide_eq_false. Qed.

Lemma starts_with_app p l : starts_with p (p ++ l) = true.
Proof. induction p; simpl; [done|]. by rewrite Z.eqb_refl. Qed.

Lemma starts_with_spec p l : starts_with p l = true ↔ ∃ k, l = p ++ k.
Proof.
  split.
  - revert l. induction p as [|x p IH]; intros [|y l]; simpl; try done; eauto.
    intros [->%Z.eqb_eq (k & ->)%IH]%andb_true_iff. eauto.
  - intros [k ->]. apply starts_with_app.
Qed.

Lemma bytes_ok_app l k : bytes_ok (l ++ k) ↔ bytes_ok l ∧ bytes_ok k.
Proof. apply Forall_app. Qed.

Lemma bytes_ok_cons b l : bytes_ok (b :: l) ↔ is_byte b ∧ bytes_ok l.
Proof. apply Forall_cons_iff. Qed.

Lemma bytes_ok_take n l : bytes_ok l → bytes_ok (ztake n l).
Proof. apply Forall_take. Qed.

Lemma bytes_ok_drop n l : bytes_ok l → bytes_ok (zdrop n l).
Proof. apply Forall_drop. Qed.

#[export] Hint Resolve bytes_ok_take bytes_ok_drop zl_eqb_refl : motu.

(** Replaces a bind whose first item is known to succeed. *)
Ltac rbind H := rewrite (result_bind_eq _ _ _ H); cbv beta.

(** One step of a successful computation: the value of the first item, then
    the rest with it. *)
Ltac rstep v :=
  apply result_bind_ok; exists v; split; cbv beta.

(** * Reasoning about stateful code *)

(** [triple P m Q]: from a state in [P], [m] ends with an outcome and state in
    [Q]; there is no other way for it to end. *)
Definition triple {S A} (P : S → Prop) (m : M S A) (Q : result A → S → Prop) : Prop :=
  ∀ s, P s → Q (m s).1 (m s).2.

Section Triples.
Context {S : Type}.
Implicit Types P R : S → Prop.

Lemma triple_ret {A} (a : A) (Q : result A → S → Prop) : triple (Q (Ok a)) (mret a) Q.
Proof. intros s H. exact H. Qed.

Lemma triple_raise {A} e (Q : result A → S → Prop) : triple (Q (Err e)) (mraise e) Q.
Proof. intros s H. exact H. Qed.

Lemma triple_lift {A} (r : result A) (Q : result A → S → Prop) :
  triple (Q r) (mlift r) Q.
Proof. intros s H. exact H. Qed.

Lemma triple_bind {A B} P (m : M S A) (f : A → M S B) (R : A → S → Prop)
    (Q : result B → S → Prop) :
  triple P m (λ r s, match r with Ok a => R a s | Err e => Q (Err e) s end) →
  (∀ a, triple (R a) (f a) Q) → triple P (m ≫= f) Q.
Proof.
  intros Hm Hf s HP. specialize (Hm s HP). unfold mbind, M_bind.
  destruct (m s) as [[a|e] s']; simpl in *; [by apply Hf | done].
Qed.

Lemma triple_catch {A} P (m : M S A) h (R : exn → S → Prop) (Q : result A → S → Prop) :
  triple P m (λ r s, match r with Ok a => Q (Ok a) s | Err e => R e s end) →
  (∀ e, triple (R e) (h e) Q) → triple P (mcatch m h) Q.
Proof.
  intros Hm Hh s HP. specialize (Hm s HP). unfold mcatch.
  destruct (m s) as [[a|e] s']; simpl in *; [done | by apply Hh].
Qed.

Lemma triple_finally {A} P (m : M S A) f (R Q : result A → S → Prop) :
  triple P m R →
  (∀ r, triple (R r) f (λ x s, match x with Ok _ => Q r s | Err e => Q (Err e) s end)) →
  triple P (mfinally m f) Q.
Proof.
  intros Hm Hf s HP. specialize (Hm s HP). unfold mfinally.
  destruct (m s) as [r s'] eqn:E. simpl in Hm. specialize (Hf r s' Hm).
  destruct (f s') as [[u|e] s'']; done.
Qed.

Lemma triple_conseq {A} P P' (m : M S A) (Q Q' : result A → S → Prop) :
  triple P' m Q' → (∀ s, P s → P' s) → (∀ r s, Q' r s → Q r s) → triple P m Q.
Proof. intros H HP HQ s Hs. auto. Qed.

Lemma triple_if {A} P (b : bool) (m1 m2 : M S A) Q :
  (b = true → triple P m1 Q) → (b = false → triple P m2 Q) →
  triple P (if b then m1 else m2) Q.
Proof. destruct b; auto. Qed.

(** A pure assumption moves out of the precondition. *)
Lemma triple_pure {A} (X : Prop) P (m : M S A) Q :
  (X → triple P m Q) → triple (λ s, X ∧ P s) m Q.
Proof. intros H s [HX HP]. by apply H. Qed.
End Triples.

Lemma M_bind_ok {S A B} (m : M S A) (f : A → M S B) s b s' :
  (m ≫= f) s = (Ok b, s') ↔ ∃ a s1, m s = (Ok a, s1) ∧ f a s1 = (Ok b, s').
Proof.
  unfold mbind, M_bind. destruct (m s) as [[a|e] s1]; split; try done.
  - eauto.
  - by intros (? & ? & [= -> ->] & ?).
  - by intros (? & ? & [=] & ?).
Qed.

Lemma M_bind_eq {S A B} (m : M S A) (f : A → M S B) s a s1 :
  m s = (Ok a, s1) → (m ≫= f) s = f a s1.
Proof. unfold mbind, M_bind. by intros ->. Qed.

Lemma M_bind_err {S A B} (m : M S A) (f : A → M S B) s e s1 :
  m s = (Err e, s1) → (m ≫= f) s = (Err e, s1).
Proof. intros E. unfold mbind, M_bind. by rewrite E. Qed.

(** Binds with continuations that agree on the reachable results agree. *)
Lemma M_bind_ext {S A B} (m : M S A) (f g : A → M S B) s :
  (∀ a s1, m s = (Ok a, s1) → f a s1 = g a s1) → (m ≫= f) s = (m ≫= g) s.
Proof. unfold mbind, M_bind. destruct (m s) as [[a|e] s1]; auto. Qed.
