(* ===== verification/PyText.v ===== *)
(** Python text and byte-string operations the program uses: UTF-8 and ASCII
    encoding, stripping, splitting, searching, [int], [str] and [str.isdecimal].
    Texts are lists of code points, so that each operation is the one of the
    language and not of an ASCII fragment of it (Unicode 14 tables, CPython
    3.11). *)
From S2P Require Import Prelude.

(** * Encoding *)

Definition is_surrogate (c : Z) : bool := (0xD800 <=? c) && (c <=? 0xDFFF).

(** A Python [str] holds code points up to 0x10FFFF. *)
Definition str_ok (s : pystr) : Prop := Forall (λ c, 0 <= c <= 0x10FFFF) s.

Definition utf8_bytes (c : Z) : bytes :=
  if c <? 0x80 then [c]
  else if c <? 0x800 then [0xC0 + c / 64; 0x80 + c mod 64]
  else if c <? 0x10000 then
    [0xE0 + c / 4096; 0x80 + (c / 64) mod 64; 0x80 + c mod 64]
  else [0xF0 + c / 262144; 0x80 + (c / 4096) mod 64;
        0x80 + (c / 64) mod 64; 0x80 + c mod 64].

(** [s.encode("utf-8")]: lone surrogates raise. *)
Definition utf8_encode (s : pystr) : result bytes :=
  if existsb is_surrogate s then Err UnicodeEncodeError
  else Ok (concat (utf8_bytes <$> s)).

(** [s.encode("ascii")]. *)
Definition ascii_encode (s : pystr) : result bytes :=
  if forallb (λ c, c <? 128) s then Ok s else Err UnicodeEncodeError.

(** * Characters *)

(** [str.isspace] of one character. *)
Definition is_space (c : Z) : bool :=
  ((9 <=? c) && (c <=? 13)) || ((28 <=? c) && (c <=? 32)) || (c =? 133)
  || (c =? 160) || (c =? 5760) || ((8192 <=? c) && (c <=? 8202))
  || (c =? 8232) || (c =? 8233) || (c =? 8239) || (c =? 8287) || (c =? 12288).

(** The whitespace [bytes.strip] removes. *)
Definition is_space_byte (c : Z) : bool :=
  ((9 <=? c) && (c <=? 13)) || (c =? 32).

(** First code point of each run of ten decimal digits (category Nd). *)
Definition nd_zeros : list Z :=
  [48; 1632; 1776; 1984; 2406; 2534; 2662; 2790; 2918; 3046; 3174; 3302; 3430;
   3558; 3664; 3792; 3872; 4160; 4240; 6112; 6160; 6470; 6608; 6784; 6800; 6992;
   7088; 7232; 7248; 42528; 43216; 43264; 43472; 43504; 43600; 44016; 65296;
   66720; 68912; 69734; 69872; 69942; 70096; 70384; 70736; 70864; 71248; 71360;
   71472; 71904; 72016; 72784; 73040; 73120; 92768; 92864; 93008; 120782; 120792;
   120802; 120812; 120822; 123200; 123632; 125264; 130032].

(** The decimal value of a character, when it has one. *)
Definition decimal_value (c : Z) : option Z :=
  match list_find (λ z, z <= c < z + 10) nd_zeros with
  | Some (_, z) => Some (c - z)
  | None => None
  end.

Definition is_decimal_char (c : Z) : bool := bool_decide (is_Some (decimal_value c)).

(** [s.isdecimal()]: false on the empty text. *)
Definition isdecimal (s : pystr) : bool :=
  negb (zl_eqb s []) && forallb is_decimal_char s.

(** [str.lower] on characters below 256, all the program applies it to when it
    compares with an ASCII constant. *)
Definition lower_char (c : Z) : Z :=
  if ((65 <=? c) && (c <=? 90)) || ((0xC0 <=? c) && (c <=? 0xDE) && negb (c =? 0xD7))
  then c + 32 else c.
Definition lower (s : pystr) : pystr := lower_char <$> s.

(** * Stripping, splitting, searching *)

Fixpoint lstrip_by (p : Z → bool) (s : pystr) : pystr :=
  match s with
  | c :: s' => if p c then lstrip_by p s' else s
  | [] => []
  end.
Definition rstrip_by (p : Z → bool) (s : pystr) : pystr :=
  reverse (lstrip_by p (reverse s)).
Definition strip_by (p : Z → bool) (s : pystr) : pystr :=
  rstrip_by p (lstrip_by p s).

(** [s.strip()] of a text and of a byte string. *)
Definition strip (s : pystr) : pystr := strip_by is_space s.
Definition bytes_strip (s : bytes) : bytes := strip_by is_space_byte s.

(** [s.find(sub)]: the first index, or [None] for -1. *)
Fixpoint find_sub (sub s : list Z) : option Z :=
  if starts_with sub s then Some 0
  else match s with
       | [] => None
       | _ :: s' => Z.succ <$> find_sub sub s'
       end.

Definition contains (sub s : list Z) : bool := bool_decide (is_Some (find_sub sub s)).

(** [s.split(c)] for a one-character separator: never empty. *)
Fixpoint split_on (c : Z) (s : pystr) : list pystr :=
  match s with
  | [] => [[]]
  | x :: s' =>
      if x =? c then [] :: split_on c s'
      else match split_on c s' with
           | w :: ws => (x :: w) :: ws
           | [] => [[x]]
           end
  end.

(** [s.partition(c)]: the separator is reported as found or not. *)
Fixpoint partition_on (c : Z) (s : pystr) : pystr * bool * pystr :=
  match s with
  | [] => ([], false, [])
  | x :: s' =>
      if x =? c then ([], true, s')
      else let '(a, f, b) := partition_on c s' in (x :: a, f, b)
  end.

(** The part of a text before its first whitespace, and the rest. *)
Fixpoint span_word (s : pystr) : pystr * pystr :=
  match s with
  | [] => ([], [])
  | c :: s' => if is_space c then ([], s)
               else let '(w, r) := span_word s' in (c :: w, r)
  end.

(** [s.split(None, n)]: at most [n] splits on runs of whitespace. *)
Fixpoint split_ws (n : nat) (s : pystr) : list pystr :=
  match lstrip_by is_space s with
  | [] => []
  | s' => match n with
          | O => [s']
          | S n' => let '(w, r) := span_word s' in w :: split_ws n' r
          end
  end.

(** [s.replace(old, new)] on a text, scanning left to right; the fuel is the
    length of the text. *)
Fixpoint replace_fuel (fuel : nat) (old new s : pystr) : pystr :=
  match fuel with
  | O => s
  | S fuel' =>
      match s with
      | [] => []
      | c :: s' => if starts_with old s
                   then new ++ replace_fuel fuel' old new (drop (length old) s)
                   else c :: replace_fuel fuel' old new s'
      end
  end.
Definition replace (old new s : pystr) : pystr := replace_fuel (length s) old new s.

(** * Numbers *)

(** [str(n)]. *)
Definition str_of_int (n : Z) : pystr := lit (pretty n).

(** The digits of an integer literal, with single underscores between them;
    [prev_digit] says whether a digit was just read. *)
Fixpoint digits_value (acc : Z) (prev_digit : bool) (s : pystr) : option Z :=
  match s with
  | [] => if prev_digit then Some acc else None
  | c :: s' =>
      if (c =? 95) && prev_digit then digits_value acc false s'
      else match decimal_value c with
           | Some d => digits_value (10 * acc + d) true s'
           | None => None
           end
  end.

(** Whitespace [int] skips: C space characters, and non-ASCII spaces. *)
Definition is_int_space (c : Z) : bool :=
  is_space c && negb ((28 <=? c) && (c <=? 31)).

Definition max_str_digits : Z := 4300.

(** [int(s, 10)]: [None] for the [ValueError]. *)
Definition int10 (s : pystr) : option Z :=
  let s := strip_by is_int_space s in
  let '(sign, body) :=
    match s with
    | 43 :: s' => (1, s')
    | 45 :: s' => (-1, s')
    | _ => (1, s)
    end in
  if max_str_digits <? zlen (filter (λ c, is_decimal_char c = true) body)
  then None
  else (λ v, sign * v) <$> digits_value 0 false body.

(** * Order *)

(** Python's order of texts and stable sorting by a comparison. *)
Fixpoint text_leb (a b : pystr) : bool :=
  match a, b with
  | [], _ => true
  | _ :: _, [] => false
  | x :: a', y :: b' => (x <? y) || ((x =? y) && text_leb a' b')
  end.

Fixpoint insert_by {A} (leb : A → A → bool) (x : A) (l : list A) : list A :=
  match l with
  | [] => [x]
  | y :: l' => if leb x y then x :: l else y :: insert_by leb x l'
  end.
Definition sort_by {A} (leb : A → A → bool) (l : list A) : list A :=
  foldr (insert_by leb) [] l.

(** * Lemmas *)

Lemma utf8_encode_app s t bs bt :
  utf8_encode s = Ok bs → utf8_encode t = Ok bt →
  utf8_encode (s ++ t) = Ok (bs ++ bt).
Proof.
  unfold utf8_encode. rewrite existsb_app.
  destruct (existsb _ s), (existsb _ t); simpl; try done.
  intros [= <-] [= <-]. by rewrite fmap_app, concat_app.
Qed.

Lemma utf8_bytes_ok c : 0 <= c <= 0x10FFFF → bytes_ok (utf8_bytes c).
Proof.
  intros Hc. unfold utf8_bytes, bytes_ok, is_byte.
  repeat case_match; zbool; repeat (apply Forall_cons_iff; split);
    try apply Forall_nil_2; Z.div_mod_to_equations; lia.
Qed.

Lemma utf8_encode_ok s b : str_ok s → utf8_encode s = Ok b → bytes_ok b.
Proof.
  unfold utf8_encode. intros Hs. case_match; [done|]. intros [= <-].
  clear H. induction Hs; simpl; [constructor|].
  apply bytes_ok_app. eauto using utf8_bytes_ok.
Qed.

Lemma ascii_utf8 s :
  forallb (λ c, (0 <=? c) && (c <? 128)) s = true → utf8_encode s = Ok s.
Proof.
  unfold utf8_encode. induction s as [|c s IH]; [done|]. cbn [forallb].
  intros [Hc Hs]%andb_true_iff. specialize (IH Hs). zbool.
  cbn [existsb fmap list_fmap concat].
  destruct (existsb is_surrogate s); [done|]. simpl in IH. injection IH as IH.
  unfold is_surrogate. replace (0xD800 <=? c) with false by (symmetry; lia).
  simpl. unfold utf8_bytes at 1. replace (c <? 0x80) with true by (symmetry; lia).
  simpl. by rewrite IH.
Qed.

Lemma strip_by_nil p : strip_by p [] = [].
Proof. done. Qed.

Lemma lstrip_by_all p l s :
  forallb p l = true → lstrip_by p (l ++ s) = lstrip_by p s.
Proof.
  induction l as [|c l IH]; [done|]. simpl. by intros [-> Hl%IH]%andb_true_iff.
Qed.

Lemma lstrip_by_head p c s : p c = false → lstrip_by p (c :: s) = c :: s.
Proof. simpl. by intros ->. Qed.

Lemma rstrip_by_all p l s :
  forallb p l = true → rstrip_by p (s ++ l) = rstrip_by p s.
Proof.
  intros Hl. unfold rstrip_by. rewrite reverse_app. f_equal.
  apply lstrip_by_all. rewrite forallb_forall in *. intros x Hx.
  apply Hl. rewrite <- list_elem_of_In, elem_of_reverse, list_elem_of_In in Hx. done.
Qed.

Lemma rstrip_by_last p c s : p c = false → rstrip_by p (s ++ [c]) = s ++ [c].
Proof.
  intros Hc. unfold rstrip_by. rewrite reverse_snoc, lstrip_by_head by done.
  by rewrite reverse_cons, reverse_involutive.
Qed.

Lemma find_sub_Some sub s i :
  find_sub sub s = Some i →
  0 <= i ∧ ∃ k, s = ztake i s ++ sub ++ k ∧ zlen (ztake i s) = i.
Proof.
  revert i. induction s as [|c s IH]; intros i; simpl.
  - destruct sub; simpl; [|done]. intros [= <-]. split; [done|].
    by exists [].
  - case_match eqn:Hs.
    + intros [= <-]. split; [done|]. apply starts_with_spec in Hs as [k Hk].
      exists k. unfold ztake. simpl. done.
    + destruct (find_sub sub s) as [j|]; [|done]. intros [= <-].
      destruct (IH j) as (Hj & k & Hk & Hlen); [done|].
      split; [lia|]. exists k. unfold ztake in *.
      replace (Z.to_nat (Z.succ j)) with (S (Z.to_nat j)) by lia. simpl.
      split; [by rewrite <- Hk | rewrite zlen_cons; lia].
Qed.

Lemma split_on_nonempty c s : split_on c s ≠ [].
Proof. destruct s; simpl; repeat case_match; done. Qed.

(** Joining the pieces with the separator gives the text back. *)
Definition join_on (c : Z) (ws : list pystr) : pystr :=
  match ws with
  | [] => []
  | w :: ws => w ++ concat ((λ v, c :: v) <$> ws)
  end.

Lemma join_split c s : join_on c (split_on c s) = s.
Proof.
  induction s as [|x s IH]; simpl; [done|].
  pose proof (split_on_nonempty c s).
  destruct (x =? c) eqn:E, (split_on c s) as [|w ws]; try done; zbool; subst.
  all: simpl in *; f_equal; exact IH.
Qed.

(** * Sorting *)

Lemma elem_of_insert_by {A} (leb : A → A → bool) x y l :
  x ∈ insert_by leb y l ↔ x = y ∨ x ∈ l.
Proof.
  induction l as [|z l IH]; simpl; [by rewrite elem_of_cons|].
  destruct (leb y z); rewrite !elem_of_cons; [done|]. rewrite IH. tauto.
Qed.

Lemma elem_of_sort_by {A} (leb : A → A → bool) x l : x ∈ sort_by leb l ↔ x ∈ l.
Proof.
  induction l as [|y l IH]; simpl; [done|]. by rewrite elem_of_insert_by, elem_of_cons, IH.
Qed.

Section HeadMin.
Context {A : Type} (leb : A → A → bool).
Hypothesis leb_total : ∀ x y, leb x y = true ∨ leb y x = true.
Hypothesis leb_trans : ∀ x y z, leb x y = true → leb y z = true → leb x z = true.

(** The first of a sorted list is a least element. *)
Lemma sort_by_head_min l x : head (sort_by leb l) = Some x → ∀ y, y ∈ l → leb x y = true.
Proof.
  revert x. induction l as [|z l IH]; intros x Hx y Hy; [by apply not_elem_of_nil in Hy|].
  assert (leb x x = true) as Hrefl by (by destruct (leb_total x x)).
  simpl in Hx. destruct (sort_by leb l) as [|h t] eqn:El.
  - simpl in Hx. injection Hx as ->. apply elem_of_cons in Hy as [-> | Hy]; [done|].
    apply (elem_of_sort_by leb) in Hy. rewrite El in Hy. by apply not_elem_of_nil in Hy.
  - simpl in Hx. destruct (leb z h) eqn:Ez; injection Hx as ->.
    + apply elem_of_cons in Hy as [-> | Hy]; [done|].
      apply (leb_trans _ h); [done|]. by apply (IH h).
    + apply elem_of_cons in Hy as [-> | Hy]; [|by apply (IH x)].
      destruct (leb_total x z); congruence.
Qed.
End HeadMin.

Lemma text_leb_total a b : text_leb a b = true ∨ text_leb b a = true.
Proof.
  revert b. induction a as [|x a IH]; intros [|y b]; simpl; auto.
  destruct (IH b) as [E|E]; rewrite E, !orb_true_iff, !andb_true_iff, !Z.ltb_lt, !Z.eqb_eq;
    destruct (Z.lt_trichotomy x y) as [?|[?|?]]; auto.
Qed.

Lemma text_leb_trans a b c : text_leb a b = true → text_leb b c = true → text_leb a c = true.
Proof.
  revert b c. induction a as [|x a IH]; intros [|y b] [|z c]; simpl; try done.
  rewrite !orb_true_iff, !andb_true_iff, !Z.ltb_lt, !Z.eqb_eq.
  intros [?|[-> ?]] [?|[-> ?]]; auto; try (left; lia). right. split; [done|]. by eapply IH.
Qed.

(** * Decimal texts *)

(** ASCII digits. *)
Definition is_digit (c : Z) : bool := (48 <=? c) && (c <=? 57).

Definition digits_number (acc : Z) (l : pystr) : Z := foldl (λ a c, 10 * a + (c - 48)) acc l.

Lemma decimal_value_digit c : is_digit c = true → decimal_value c = Some (c - 48).
Proof.
  unfold is_digit, decimal_value. intros Hc. zbool. cbn [list_find nd_zeros].
  by rewrite decide_True by lia.
Qed.

Lemma digits_value_digits acc b l :
  forallb is_digit l = true → l ≠ [] → digits_value acc b l = Some (digits_number acc l).
Proof.
  revert acc b. induction l as [|c l IH]; intros acc b Hl Hn; [done|]. simpl in Hl.
  apply andb_true_iff in Hl as [Hc Hl]. cbn [digits_value].
  rewrite decimal_value_digit by done.
  assert ((c =? 95) = false) as -> by (unfold is_digit in Hc; zbool; lia). cbn [andb].
  destruct l as [|d l]; [done|]. rewrite IH by done. done.
Qed.

Lemma lit_cons a s : lit (String a s) = Z.of_N (Ascii.N_of_ascii a) :: lit s.
Proof. done. Qed.

Lemma pretty_N_char_code x : (x < 10)%N → Z.of_N (Ascii.N_of_ascii (pretty_N_char x)) = 48 + Z.of_N x.
Proof.
  intros Hx. assert (x = 0 ∨ x = 1 ∨ x = 2 ∨ x = 3 ∨ x = 4 ∨ x = 5 ∨ x = 6 ∨ x = 7 ∨ x = 8 ∨ x = 9)%N
    as Hc by lia. by destruct_or! Hc; subst.
Qed.

(** The digits of a number, first digit first. *)
Lemma pretty_go_digits x :
  ∃ l, (∀ s, lit (pretty_N_go x s) = l ++ lit s) ∧ forallb is_digit l = true ∧
       digits_number 0 l = Z.of_N x ∧ ((0 < x)%N → ∃ c l', l = c :: l' ∧ c ≠ 48).
Proof.
  induction (N.lt_wf_0 x) as [x _ IH]. destruct (decide (x = 0)%N) as [->|Hx].
  { exists []. split_and!; [intros s; by rewrite pretty_N_go_0|done|done|lia]. }
  destruct (IH (x / 10)%N) as (l & Hl & Hd & Hv & Hh); [apply N.div_lt; lia|].
  assert (x mod 10 < 10)%N as Hm by (apply N.mod_lt; lia).
  exists (l ++ [48 + Z.of_N (x mod 10)]). split_and!.
  - intros s. rewrite pretty_N_go_step by lia. rewrite Hl, lit_cons, pretty_N_char_code by done.
    by rewrite <-(assoc_L (++)).
  - rewrite forallb_app, Hd. simpl. unfold is_digit.
    rewrite andb_true_r, andb_true_iff, !Z.leb_le. clear -Hm. revert Hm. generalize (x mod 10)%N. lia.
  - unfold digits_number in *. rewrite foldl_app, Hv. simpl.
    pose proof (N.div_mod x 10 ltac:(done)) as E. clear -E. revert E.
    generalize (x mod 10)%N (x / 10)%N. lia.
  - intros _. destruct (decide (x / 10 = 0)%N) as [E|E].
    + pose proof (N.div_mod x 10 ltac:(done)) as Hdm. destruct l as [|c l].
      * exists (48 + Z.of_N (x mod 10)), []. split; [done|]. rewrite E in Hdm. clear -Hdm Hx.
        revert Hdm. generalize (x mod 10)%N. lia.
      * exists c, (l ++ [48 + Z.of_N (x mod 10)]). split; [done|].
        specialize (Hl EmptyString). rewrite E in Hl. by rewrite pretty_N_go_0 in Hl.
    + destruct Hh as (c & l' & -> & Hc); [by apply N.neq_0_lt_0|].
      exists c, (l' ++ [48 + Z.of_N (x mod 10)]). done.
Qed.

(** The text of a number: a sign and digits, the first of which is 0 only alone. *)
Lemma str_of_int_digits n :
  ∃ c l, str_of_int n = (if n <? 0 then [45] else []) ++ c :: l ∧
         forallb is_digit (c :: l) = true ∧ digits_number 0 (c :: l) = Z.abs n ∧
         (c = 48 → l = []).
Proof.
  assert (∀ p, ∃ c l, lit (pretty (N.pos p)) = c :: l ∧ forallb is_digit (c :: l) = true ∧
                      digits_number 0 (c :: l) = Z.pos p ∧ (c = 48 → l = [])) as Hpos.
  { intros p. destruct (pretty_go_digits (N.pos p)) as (l & Hl & Hd & Hv & Hh).
    destruct (Hh eq_refl) as (c & l' & -> & Hc). exists c, l'.
    split_and!; [|done|by rewrite Hv|done]. unfold pretty, pretty_N. rewrite decide_False by done.
    rewrite Hl. apply (right_id_L [] (++)). }
  destruct n as [|p|p].
  - by exists 48, [].
  - destruct (Hpos p) as (c & l & E & ?). exists c, l. split; [exact E|done].
  - destruct (Hpos p) as (c & l & E & ?). exists c, l. split; [|done].
    change (str_of_int (Z.neg p)) with (45 :: lit (pretty (N.pos p))). by rewrite E.
Qed.

Lemma digit_not_space c : is_digit c = true → is_int_space c = false.
Proof. unfold is_digit, is_int_space, is_space. intros Hc. zbool. repeat (rewrite andb_false_iff || rewrite orb_false_iff || rewrite Z.leb_gt || rewrite Z.eqb_neq). lia. Qed.

Lemma strip_by_id p s : forallb (λ c, negb (p c)) s = true → strip_by p s = s.
Proof.
  intros Hs. unfold strip_by, rstrip_by.
  assert (∀ l, forallb (λ c, negb (p c)) l = true → lstrip_by p l = l) as Hl.
  { intros [|c l]; [done|]. simpl. intros [Hc _]%andb_true_iff. by destruct (p c). }
  rewrite (Hl s Hs), (Hl (reverse s)), reverse_involutive; [done|].
  rewrite forallb_forall in *. intros x Hx. apply Hs.
  by rewrite <-list_elem_of_In, elem_of_reverse, list_elem_of_In in Hx.
Qed.

(** Reading the text of a number. *)
Lemma int10_str_of_int n :
  zlen (str_of_int n) <= max_str_digits → int10 (str_of_int n) = Some n.
Proof.
  destruct (str_of_int_digits n) as (c & l & E & Hd & Hv & _). rewrite E. intros Hlen.
  assert (∀ x, is_digit x = true → is_int_space x = false) as Hsp by apply digit_not_space.
  assert (is_digit c = true) as Hc by (by apply andb_true_iff in Hd as [? _]).
  assert (zlen (filter (λ x, is_decimal_char x = true) (c :: l)) <= max_str_digits) as Hlim.
  { pose proof (length_filter (λ x, is_decimal_char x = true) (c :: l)).
    unfold zlen in *. rewrite length_app in Hlen. lia. }
  assert (forallb (λ x, negb (is_int_space x)) (c :: l) = true) as Hns.
  { rewrite forallb_forall in *. intros x Hx. by rewrite Hsp by auto. }
  unfold int10. destruct (n <? 0) eqn:En; zbool; cbn [app].
  - rewrite strip_by_id by (simpl in *; by rewrite Hns).
    rewrite (proj2 (Z.ltb_ge _ _) Hlim), digits_value_digits, Hv by done. simpl. f_equal. lia.
  - rewrite strip_by_id by done.
    assert (match c :: l with 43 :: s' => (1, s') | 45 :: s' => (-1, s') | _ => (1, c :: l) end
            = (1, c :: l)) as ->.
    { unfold is_digit in Hc. zbool. destruct c as [|p|p]; [done| |done].
      do 6 (destruct p as [p|p|]; try done; try lia). }
    rewrite (proj2 (Z.ltb_ge _ _) Hlim), digits_value_digits, Hv by done. simpl. f_equal. lia.
Qed.

Lemma insert_by_permutation {A} (leb : A → A → bool) x l : insert_by leb x l ≡ₚ x :: l.
Proof.
  induction l as [|y l IH]; [done|]. simpl. destruct (leb x y); [done|].
  rewrite IH. by apply Permutation_swap.
Qed.

Lemma sort_by_permutation {A} (leb : A → A → bool) l : sort_by leb l ≡ₚ l.
Proof. induction l as [|x l IH]; [done|]. simpl. by rewrite insert_by_permutation, IH. Qed.
