(* ===== verification/Protocol.v ===== *)
(** MOTU USB datastore frame construction (motu_proxy/protocol.py): host
    sequence numbers, length-prefixed words, GET and POST request frames, the
    single-frame size budget, and the captured fixtures of
    motu_proxy/fixtures.py.

    [struct.pack] and text encoding are fallible, so every builder returns a
    [result].  [zlib.crc32] is computed by the bitwise definition of the CRC.
    [Wire] is the specification side: a decoder of request frames, written
    from the frame layout and not from the builders, against which the builders
    are proved. *)
From S2P Require Import Prelude PyText.

(** * Constants *)

Definition MOTU_VID : Z := 0x07FD.
Definition MOTU_AVB_PID : Z := 0x0005.
Definition DEFAULT_TIMEOUT_MS : Z := 600.
Definition DEFAULT_SEQ_START : Z := 0x20.
Definition DEFAULT_MESSAGE_SEQ : Z := 2.
Definition DEFAULT_MAX_USB_CHUNK : Z := 512.
Definition HOST_SEQ_MIN : Z := 0x20.
Definition HOST_SEQ_COUNT : Z := 0x20.
Definition HOST_SEQ_MAX_EXCLUSIVE : Z := HOST_SEQ_MIN + HOST_SEQ_COUNT.
Definition MAX_U16 : Z := 0xFFFF.
Definition USB_LOGICAL_HEADER_BYTES : Z := 4.
Definition MOTU_FRAME_CONTROL_BYTES : Z := 16.
Definition UTOM_REQUEST_PREFIX_BYTES : Z := 20.
Definition POST_BODY_PREFIX_BYTES : Z := 12.

(** * Checksums and integers *)

(** [zlib.crc32]: the reflected CRC-32 with polynomial 0xEDB88320. *)
Definition crc_bit (c : Z) : Z :=
  if Z.odd c then Z.lxor (Z.shiftr c 1) 0xEDB88320 else Z.shiftr c 1.
Definition crc_byte (c b : Z) : Z := Nat.iter 8 crc_bit (Z.lxor c b).
Definition zlib_crc32 (data : bytes) : Z :=
  Z.lxor (foldl crc_byte 0xFFFFFFFF data) 0xFFFFFFFF.

Definition crc32 (data : bytes) : Z := Z.land (zlib_crc32 data) 0xFFFFFFFF.

(** Little-endian digits; [struct.pack] raises out of range. *)
Definition le16 (v : Z) : bytes := [v mod 256; (v / 256) mod 256].
Definition le32 (v : Z) : bytes :=
  [v mod 256; (v / 256) mod 256; (v / 65536) mod 256; (v / 16777216) mod 256].

Arguments le16 : simpl never.
Arguments le32 : simpl never.

Definition u16 (value : Z) : result bytes :=
  if (0 <=? value) && (value <=? 0xFFFF) then Ok (le16 value) else Err StructError.
Definition u32 (value : Z) : result bytes :=
  if (0 <=? value) && (value <=? 0xFFFFFFFF) then Ok (le32 value) else Err StructError.

(** * Length-prefixed words *)

Inductive str_or_bytes :=
  | Str (s : pystr)
  | Bytes (b : bytes).

Definition _value_bytes (value : str_or_bytes) : result bytes :=
  match value with
  | Str s => utf8_encode s
  | Bytes b => Ok b
  end.

Definition sized_word (value : str_or_bytes) : result bytes :=
  value ← _value_bytes value;
  n ← u32 (zlen value);
  Ok (n ++ value).

Definition sized_word_len (value : str_or_bytes) : result Z :=
  value ← _value_bytes value;
  Ok (4 + zlen value).

(** * Query fields *)

Inductive QueryFieldValue :=
  | QStr (s : pystr)
  | QInt (n : Z).

(** [str(value)]. *)
Definition qstr (v : QueryFieldValue) : pystr :=
  match v with QStr s => s | QInt n => str_of_int n end.

(** The [fields] argument: [None], a bare client value, or an iterable. *)
Inductive fields_arg :=
  | FNone
  | FValue (v : QueryFieldValue)
  | FFields (fields : list (pystr * QueryFieldValue)).

Definition fields_of_client (client : option QueryFieldValue) : fields_arg :=
  match client with None => FNone | Some v => FValue v end.

Definition _normalize_query_fields (fields : fields_arg)
    (client : option QueryFieldValue) : list (pystr * pystr) :=
  let normalized :=
    match fields with
    | FNone => []
    | FValue v => [(s! "client", qstr v)]
    | FFields fs => (λ '(name, value), (name, qstr value)) <$> fs
    end in
  match client with
  | None => normalized
  | Some c => normalized ++ [(s! "client", qstr c)]
  end.

Definition encode_field (f : pystr * pystr) : result bytes :=
  n ← sized_word (Str f.1); v ← sized_word (Str f.2); Ok (n ++ v).

Definition encode_query_fields (fields : fields_arg)
    (client : option QueryFieldValue) : result bytes :=
  let normalized := _normalize_query_fields fields client in
  count ← u32 (zlen normalized);
  words ← mapR encode_field normalized;
  Ok (count ++ concat words).

Definition query_fields (fields : fields_arg)
    (client : option QueryFieldValue) : result bytes :=
  encode_query_fields fields client.

Definition field_len (f : pystr * pystr) : result Z :=
  n ← sized_word_len (Str f.1); v ← sized_word_len (Str f.2); Ok (n + v).

Definition sum (l : list Z) : Z := foldr Z.add 0 l.

Definition query_fields_len (fields : fields_arg)
    (client : option QueryFieldValue) : result Z :=
  let normalized := _normalize_query_fields fields client in
  lens ← mapR field_len normalized;
  Ok (4 + sum lens).

(** * Host sequence numbers *)

Definition next_host_seq (seq : Z) : Z :=
  ((seq + 1 - HOST_SEQ_MIN) mod HOST_SEQ_COUNT) + HOST_SEQ_MIN.

Definition validate_host_seq (seq : Z) : result Z :=
  if negb ((HOST_SEQ_MIN <=? seq) && (seq <? HOST_SEQ_MAX_EXCLUSIVE))
  then Err InvalidHostSequence else Ok seq.

Record HostSequencer := { _next : Z }.

Definition HostSequencer_init (seq_start : Z) : result HostSequencer :=
  s ← validate_host_seq seq_start; Ok {| _next := s |}.

Definition take_seq (h : HostSequencer) : Z * HostSequencer :=
  (_next h, {| _next := next_host_seq (_next h) |}).

(** * Frames *)

Definition _header_bytes (header : pystr) : result bytes :=
  encoded ← ascii_encode header;
  if negb (zlen encoded =? 4) then Err ValueError else Ok encoded.

Definition max_motu_payload_bytes (header : pystr) : result Z :=
  hb ← _header_bytes header;
  Ok (MAX_U16 - USB_LOGICAL_HEADER_BYTES - zlen hb - MOTU_FRAME_CONTROL_BYTES).

Definition max_post_json_body_bytes (path header : pystr)
    (client : option QueryFieldValue) : result Z :=
  m ← sized_word_len (Str (s! "POST"));
  p ← sized_word_len (Str path);
  a ← sized_word_len (Str (s! "Unsecure-Auth-MOTU"));
  k ← sized_word_len (Str (s! "unicorn666"));
  q ← query_fields_len (fields_of_client client) None;
  let request_len := m + p + 4 + a + k + q in
  let fixed_payload_len :=
    UTOM_REQUEST_PREFIX_BYTES + request_len + 4 + POST_BODY_PREFIX_BYTES in
  top ← max_motu_payload_bytes header;
  Ok (top - fixed_payload_len).

Definition validate_post_frame_size (path : pystr) (json_body : bytes)
    (header : pystr) (client : option QueryFieldValue) : result unit :=
  max_body_len ← max_post_json_body_bytes path header client;
  if max_body_len <? zlen json_body
  then Err (ProtocolFrameTooLarge (zlen json_body) max_body_len)
  else Ok tt.

Definition build_motu_frame (seq : Z) (header : pystr) (message_seq : Z)
    (motu_payload : bytes) : result bytes :=
  header_bytes ← _header_bytes header;
  max_payload_len ← max_motu_payload_bytes header;
  if max_payload_len <? zlen motu_payload
  then Err (ProtocolFrameTooLarge (zlen motu_payload) max_payload_len)
  else
    c ← u32 (crc32 motu_payload);
    m ← u32 message_seq;
    one ← u32 1;
    zero ← u16 0;
    n ← u16 (zlen motu_payload);
    let body := header_bytes ++ c ++ m ++ one ++ zero ++ n ++ motu_payload in
    total ← u16 (zlen body + 4);
    Ok ([Z.land seq 0xFF; 0x80] ++ total ++ body).

(** The UTOM envelope both builders put around the request. *)
Definition utom_prefix (request : bytes) : result bytes :=
  a ← u32 8; b ← u32 1; c ← u32 0; n ← u32 (zlen request);
  Ok (s! "UTOM" ++ a ++ b ++ c ++ n ++ request).

Definition build_get_frame (seq message_seq : Z) (path etag header : pystr)
    (client : option QueryFieldValue)
    (fields : option (list (pystr * QueryFieldValue))) : result bytes :=
  w ← sized_word (Str (s! "GET"));
  p ← sized_word (Str path);
  one ← u32 1;
  h ← sized_word (Str (s! "If-None-Match"));
  e ← sized_word (Str etag);
  q ← encode_query_fields
        (match fields with None => FNone | Some fs => FFields fs end) client;
  motu_payload ← utom_prefix (w ++ p ++ one ++ h ++ e ++ q);
  build_motu_frame seq header message_seq motu_payload.

Definition build_post_frame (seq message_seq : Z) (path : pystr)
    (json_body : bytes) (header : pystr) (client : option QueryFieldValue)
    : result bytes :=
  w ← sized_word (Str (s! "POST"));
  p ← sized_word (Str path);
  one ← u32 1;
  a ← sized_word (Str (s! "Unsecure-Auth-MOTU"));
  k ← sized_word (Str (s! "unicorn666"));
  q ← query_fields (fields_of_client client) None;
  let request := w ++ p ++ one ++ a ++ k ++ q in
  _ ← validate_post_frame_size path json_body header client;
  j ← sized_word (Str (s! "json"));
  b ← sized_word (Bytes json_body);
  let body := j ++ b in
  prefix ← utom_prefix request;
  n ← u32 (zlen body);
  build_motu_frame seq header message_seq (prefix ++ n ++ body).

Definition build_ack (seq : Z) : bytes := [Z.land seq 0xFF; 0x81; 0x04; 0x00].
Definition build_init (seq : Z) : bytes := [Z.land seq 0xFF; 0x82; 0x04; 0x00].

(** * Captured fixtures (fixtures.py) *)

Definition EXPECTED_GET_DATASTORE : bytes :=
  [0x24; 0x80; 0x5f; 0x00; 0x4e; 0x52; 0x45; 0x4b; 0x43; 0x48; 0xd1; 0xac; 0x02; 0x00; 0x00; 0x00; 0x01; 0x00; 0x00; 0x00;
   0x00; 0x00; 0x47; 0x00; 0x55; 0x54; 0x4f; 0x4d; 0x08; 0x00; 0x00; 0x00; 0x01; 0x00; 0x00; 0x00; 0x00; 0x00; 0x00; 0x00;
   0x33; 0x00; 0x00; 0x00; 0x03; 0x00; 0x00; 0x00; 0x47; 0x45; 0x54; 0x0a; 0x00; 0x00; 0x00; 0x2f; 0x64; 0x61; 0x74; 0x61;
   0x73; 0x74; 0x6f; 0x72; 0x65; 0x01; 0x00; 0x00; 0x00; 0x0d; 0x00; 0x00; 0x00; 0x49; 0x66; 0x2d; 0x4e; 0x6f; 0x6e; 0x65;
   0x2d; 0x4d; 0x61; 0x74; 0x63; 0x68; 0x01; 0x00; 0x00; 0x00; 0x30; 0x00; 0x00; 0x00; 0x00].

Definition EXPECTED_POST_HOST_OS : bytes :=
  [0x23; 0x80; 0x96; 0x00; 0x50; 0x54; 0x54; 0x48; 0x73; 0x2e; 0xe0; 0x07; 0x02; 0x00; 0x00; 0x00; 0x01; 0x00; 0x00; 0x00;
   0x00; 0x00; 0x7e; 0x00; 0x55; 0x54; 0x4f; 0x4d; 0x08; 0x00; 0x00; 0x00; 0x01; 0x00; 0x00; 0x00; 0x00; 0x00; 0x00; 0x00;
   0x4a; 0x00; 0x00; 0x00; 0x04; 0x00; 0x00; 0x00; 0x50; 0x4f; 0x53; 0x54; 0x12; 0x00; 0x00; 0x00; 0x2f; 0x64; 0x61; 0x74;
   0x61; 0x73; 0x74; 0x6f; 0x72; 0x65; 0x2f; 0x68; 0x6f; 0x73; 0x74; 0x2f; 0x6f; 0x73; 0x01; 0x00; 0x00; 0x00; 0x12; 0x00;
   0x00; 0x00; 0x55; 0x6e; 0x73; 0x65; 0x63; 0x75; 0x72; 0x65; 0x2d; 0x41; 0x75; 0x74; 0x68; 0x2d; 0x4d; 0x4f; 0x54; 0x55;
   0x0a; 0x00; 0x00; 0x00; 0x75; 0x6e; 0x69; 0x63; 0x6f; 0x72; 0x6e; 0x36; 0x36; 0x36; 0x00; 0x00; 0x00; 0x00; 0x1c; 0x00;
   0x00; 0x00; 0x04; 0x00; 0x00; 0x00; 0x6a; 0x73; 0x6f; 0x6e; 0x10; 0x00; 0x00; 0x00; 0x7b; 0x22; 0x76; 0x61; 0x6c; 0x75;
   0x65; 0x22; 0x3a; 0x20; 0x22; 0x77; 0x69; 0x6e; 0x22; 0x7d].

(** * The request wire format *)

Module Wire.

(** A request frame as its receiver reads it. *)
Record request := {
  rq_seq : Z;
  rq_header : bytes;
  rq_message_seq : Z;
  rq_method : bytes;
  rq_path : bytes;
  rq_headers : list (bytes * bytes);
  rq_fields : list (bytes * bytes);
  rq_body : option (bytes * bytes)
}.

Definition get8 (l : bytes) : option (Z * bytes) :=
  match l with b :: r => Some (b, r) | [] => None end.
Definition get16 (l : bytes) : option (Z * bytes) :=
  match l with a :: b :: r => Some (a + 256 * b, r) | _ => None end.
Definition get32 (l : bytes) : option (Z * bytes) :=
  match l with
  | a :: b :: c :: d :: r => Some (a + 256 * b + 65536 * c + 16777216 * d, r)
  | _ => None
  end.

Definition expect (v : Z) (p : option (Z * bytes)) : option bytes :=
  '(x, r) ← p; guard (x = v);; Some r.

Definition get_n (n : Z) (l : bytes) : option (bytes * bytes) :=
  guard (n <= zlen l);; Some (ztake n l, zdrop n l).

Definition get_sized (l : bytes) : option (bytes * bytes) :=
  '(n, l) ← get32 l; get_n n l.

Definition get_pair (l : bytes) : option (bytes * bytes * bytes) :=
  '(a, l) ← get_sized l; '(b, l) ← get_sized l; Some (a, b, l).

Fixpoint get_pairs (n : nat) (l : bytes) : option (list (bytes * bytes) * bytes) :=
  match n with
  | O => Some ([], l)
  | S n => '(a, b, l) ← get_pair l; '(ps, l) ← get_pairs n l;
           Some ((a, b) :: ps, l)
  end.

Definition get_counted (l : bytes) : option (list (bytes * bytes) * bytes) :=
  '(n, l) ← get32 l; get_pairs (Z.to_nat n) l.

(** The request line, one header block and the query fields. *)
Definition decode_request (l : bytes)
    : option (bytes * bytes * list (bytes * bytes) * list (bytes * bytes)) :=
  '(m, l) ← get_sized l;
  '(p, l) ← get_sized l;
  '(hs, l) ← get_counted l;
  '(fs, l) ← get_counted l;
  guard (l = []);; Some (m, p, hs, fs).

(** Nothing after the request, or a format tag and the data. *)
Definition decode_body (l : bytes) : option (option (bytes * bytes)) :=
  match l with
  | [] => Some None
  | _ => '(n, l) ← get32 l; guard (n = zlen l);;
         '(a, b, l) ← get_pair l; guard (l = []);; Some (Some (a, b))
  end.

Definition decode (f : bytes) : option request :=
  '(seq, l) ← get8 f;
  l ← expect 0x80 (get8 l);
  l ← expect (zlen f) (get16 l);
  '(header, l) ← get_n 4 l;
  '(crc, l) ← get32 l;
  '(mseq, l) ← get32 l;
  l ← expect 1 (get32 l);
  l ← expect 0 (get16 l);
  l ← expect (zlen l - 2) (get16 l);
  guard (crc = crc32 l);;
  '(magic, l) ← get_n 4 l;
  guard (magic = s! "UTOM");;
  l ← expect 8 (get32 l);
  l ← expect 1 (get32 l);
  l ← expect 0 (get32 l);
  '(n, l) ← get32 l;
  '(rq, l) ← get_n n l;
  '(m, p, hs, fs) ← decode_request rq;
  body ← decode_body l;
  Some {| rq_seq := seq; rq_header := header; rq_message_seq := mseq;
          rq_method := m; rq_path := p; rq_headers := hs; rq_fields := fs;
          rq_body := body |}.

Arguments get16 : simpl never.
Arguments get32 : simpl never.
Arguments get_n : simpl never.
Arguments get_sized : simpl never.
Arguments get_pair : simpl never.
Arguments get_counted : simpl never.
Arguments decode_request : simpl never.
Arguments decode_body : simpl never.
Arguments expect : simpl never.

End Wire.

(** * Little-endian lemmas *)

Lemma zlen_le16 v : zlen (le16 v) = 2.
Proof. done. Qed.
Lemma zlen_le32 v : zlen (le32 v) = 4.
Proof. done. Qed.
#[export] Hint Rewrite zlen_le16 zlen_le32 : motu.

Lemma le16_bytes v : bytes_ok (le16 v).
Proof. repeat constructor; unfold is_byte; apply Z.mod_pos_bound; lia. Qed.
Lemma le32_bytes v : bytes_ok (le32 v).
Proof. repeat constructor; unfold is_byte; apply Z.mod_pos_bound; lia. Qed.
#[export] Hint Resolve le16_bytes le32_bytes : motu.

Lemma le16_value v :
  0 <= v <= 0xFFFF → v mod 256 + 256 * ((v / 256) mod 256) = v.
Proof. intros. Z.div_mod_to_equations. lia. Qed.

Lemma le32_value v :
  0 <= v <= 0xFFFFFFFF →
  v mod 256 + 256 * ((v / 256) mod 256) + 65536 * ((v / 65536) mod 256)
    + 16777216 * ((v / 16777216) mod 256) = v.
Proof.
  intros. assert (v / 65536 = v / 256 / 256) as -> by (rewrite Z.div_div by lia; done).
  assert (v / 16777216 = v / 256 / 256 / 256) as -> by (rewrite !Z.div_div by lia; done).
  Z.div_mod_to_equations. lia.
Qed.

Lemma le16_of_bytes a b : is_byte a → is_byte b → le16 (a + 256 * b) = [a; b].
Proof.
  unfold is_byte, le16. intros. repeat f_equal; Z.div_mod_to_equations; lia.
Qed.

Lemma le32_of_bytes a b c d :
  is_byte a → is_byte b → is_byte c → is_byte d →
  le32 (a + 256 * b + 65536 * c + 16777216 * d) = [a; b; c; d].
Proof.
  unfold is_byte, le32. intros. repeat f_equal; Z.div_mod_to_equations; lia.
Qed.

Lemma u16_ok v w : u16 v = Ok w ↔ 0 <= v <= 0xFFFF ∧ w = le16 v.
Proof.
  unfold u16. destruct (_ && _) eqn:E; zbool.
  - split; [intros [= <-]; split; [lia|done] | intros [? ->]; done].
  - split; [done|]. intros [? ->]. lia.
Qed.

Lemma u32_ok v w : u32 v = Ok w ↔ 0 <= v <= 0xFFFFFFFF ∧ w = le32 v.
Proof.
  unfold u32. destruct (_ && _) eqn:E; zbool.
  - split; [intros [= <-]; split; [lia|done] | intros [? ->]; done].
  - split; [done|]. intros [? ->]. lia.
Qed.

Lemma crc32_range data : 0 <= crc32 data <= 0xFFFFFFFF.
Proof.
  unfold crc32. change 0xFFFFFFFF with (Z.ones 32).
  rewrite Z.land_ones by lia. pose proof (Z.mod_pos_bound (zlib_crc32 data) (2 ^ 32)).
  change (Z.ones 32) with (2 ^ 32 - 1). lia.
Qed.

(** ** Error detection of the checksum

    One CRC step is a bijection of 32-bit words (the polynomial has its top bit
    set, so the top bit of the result tells which branch was taken); hence two
    messages of equal length that differ in one byte have different
    checksums. *)

Definition word32 (c : Z) : Prop := 0 <= c < 2 ^ 32.

Lemma lxor_word32 c d : word32 c → word32 d → word32 (Z.lxor c d).
Proof.
  unfold word32. intros Hc Hd. split; [apply Z.lxor_nonneg; lia|].
  destruct (Z.eq_dec (Z.lxor c d) 0) as [->|Hne]; [lia|].
  apply Z.log2_lt_pow2; [pose proof (Z.lxor_nonneg c d); lia|].
  eapply Z.le_lt_trans; [apply Z.log2_lxor; lia|].
  apply Z.max_lub_lt.
  - destruct (Z.eq_dec c 0) as [->|]; [done|]. apply Z.log2_lt_pow2; lia.
  - destruct (Z.eq_dec d 0) as [->|]; [done|]. apply Z.log2_lt_pow2; lia.
Qed.

Lemma shiftr1_word32 c : word32 c → 0 <= Z.shiftr c 1 < 2 ^ 31.
Proof. unfold word32. rewrite Z.shiftr_div_pow2 by lia. intros. Z.div_mod_to_equations. lia. Qed.

Lemma testbit31_small c : 0 <= c < 2 ^ 31 → Z.testbit c 31 = false.
Proof.
  intros. destruct (Z.eq_dec c 0) as [->|]; [done|].
  apply Z.bits_above_log2; [lia|]. apply Z.log2_lt_pow2; lia.
Qed.

Lemma crc_bit_word32 c : word32 c → word32 (crc_bit c).
Proof.
  intros Hc. pose proof (shiftr1_word32 c Hc). unfold crc_bit. case_match.
  - apply lxor_word32; unfold word32; lia.
  - unfold word32. lia.
Qed.

Lemma shiftr1_odd_inj c d :
  Z.shiftr c 1 = Z.shiftr d 1 → Z.odd c = Z.odd d → c = d.
Proof.
  rewrite !Z.shiftr_div_pow2 by lia. intros H Ho.
  rewrite (Z.div_mod c 2), (Z.div_mod d 2) by lia.
  rewrite !Zmod_odd, Ho. change (2 ^ 1) with 2 in H. by rewrite H.
Qed.

Lemma crc_bit_inj c d : word32 c → word32 d → crc_bit c = crc_bit d → c = d.
Proof.
  intros Hc%shiftr1_word32 Hd%shiftr1_word32 H. unfold crc_bit in H.
  apply testbit31_small in Hc, Hd. pose proof (f_equal (λ z, Z.testbit z 31) H) as Hb.
  destruct (Z.odd c) eqn:Oc, (Z.odd d) eqn:Od; cbv beta in Hb;
    rewrite ?Z.lxor_spec, ?Hc, ?Hd in Hb; try discriminate Hb.
  - apply shiftr1_odd_inj; [|congruence].
    apply (f_equal (λ z, Z.lxor z 0xEDB88320)) in H.
    by rewrite !Z.lxor_assoc, Z.lxor_nilpotent, !Z.lxor_0_r in H.
  - apply shiftr1_odd_inj; [done|congruence].
Qed.

Lemma crc_iter_word32 n c : word32 c → word32 (Nat.iter n crc_bit c).
Proof. intros. induction n; simpl; auto using crc_bit_word32. Qed.

Lemma crc_iter_inj n c d :
  word32 c → word32 d → Nat.iter n crc_bit c = Nat.iter n crc_bit d → c = d.
Proof.
  intros Hc Hd. induction n as [|n IH]; simpl; [done|].
  intros H. apply IH. apply crc_bit_inj; auto using crc_iter_word32.
Qed.

Lemma lxor_inj_l a b c : Z.lxor a b = Z.lxor a c → b = c.
Proof.
  intros H. apply (f_equal (Z.lxor a)) in H.
  by rewrite <- !Z.lxor_assoc, Z.lxor_nilpotent, !Z.lxor_0_l in H.
Qed.

Lemma byte_word32 b : is_byte b → word32 b.
Proof. unfold is_byte, word32. lia. Qed.

Lemma crc_byte_word32 c b : word32 c → is_byte b → word32 (crc_byte c b).
Proof. intros. apply crc_iter_word32, lxor_word32; auto using byte_word32. Qed.

Lemma crc_fold_word32 l c : word32 c → bytes_ok l → word32 (foldl crc_byte c l).
Proof.
  revert c. induction l as [|b l IH]; intros c Hc Hl; simpl; [done|].
  apply bytes_ok_cons in Hl as [Hb Hl]. auto using crc_byte_word32.
Qed.

Lemma crc_fold_inj l c d :
  word32 c → word32 d → bytes_ok l →
  foldl crc_byte c l = foldl crc_byte d l → c = d.
Proof.
  revert c d. induction l as [|b l IH]; intros c d Hc Hd Hl; simpl; [done|].
  apply bytes_ok_cons in Hl as [Hb Hl]. intros H.
  apply IH in H; auto using crc_byte_word32.
  apply crc_iter_inj in H; auto using lxor_word32, byte_word32.
  rewrite !(Z.lxor_comm _ b) in H. by apply lxor_inj_l in H.
Qed.

Lemma crc32_fold data :
  bytes_ok data → crc32 data = Z.lxor (foldl crc_byte 0xFFFFFFFF data) 0xFFFFFFFF.
Proof.
  intros H. unfold crc32, zlib_crc32. change 0xFFFFFFFF with (Z.ones 32) at 3.
  rewrite Z.land_ones by lia. apply Z.mod_small.
  apply lxor_word32; [apply crc_fold_word32|]; done.
Qed.

Lemma crc32_detects_byte p q a b :
  bytes_ok p → bytes_ok q → is_byte a → is_byte b →
  crc32 (p ++ a :: q) = crc32 (p ++ b :: q) → a = b.
Proof.
  intros Hp Hq Ha Hb H. rewrite !crc32_fold in H
    by (apply bytes_ok_app; split; [done|by apply bytes_ok_cons]).
  rewrite !(Z.lxor_comm _ 0xFFFFFFFF) in H. apply lxor_inj_l in H.
  rewrite !foldl_app in H. simpl in H.
  assert (word32 (foldl crc_byte 0xFFFFFFFF p)) by by apply crc_fold_word32.
  apply crc_fold_inj in H; auto using crc_byte_word32.
  apply crc_iter_inj in H; auto using lxor_word32, byte_word32.
  by apply lxor_inj_l in H.
Qed.

(** Conversion never needs to run the checksum in a proof. *)
#[global] Opaque crc32.

(** * Layout lemmas: what the builders emit *)

(** A sized word, a counted list of pairs, a request and a frame as byte
    strings. *)
Definition sized (b : bytes) : bytes := le32 (zlen b) ++ b.
Definition pair_bytes (p : bytes * bytes) : bytes := sized p.1 ++ sized p.2.
Definition counted (ps : list (bytes * bytes)) : bytes :=
  le32 (zlen ps) ++ concat (pair_bytes <$> ps).
Definition request_bytes (m p : bytes) (hs fs : list (bytes * bytes)) : bytes :=
  sized m ++ sized p ++ counted hs ++ counted fs.
Definition utom_bytes (rq : bytes) : bytes :=
  s! "UTOM" ++ le32 8 ++ le32 1 ++ le32 0 ++ le32 (zlen rq) ++ rq.
Definition frame_bytes (seq : Z) (hb : bytes) (mseq : Z) (payload : bytes) : bytes :=
  [seq; 0x80] ++ le16 (24 + zlen payload) ++ hb ++ le32 (crc32 payload)
    ++ le32 mseq ++ le32 1 ++ le16 0 ++ le16 (zlen payload) ++ payload.

Arguments sized : simpl never.
Arguments pair_bytes : simpl never.
Arguments counted : simpl never.
Arguments utom_bytes : simpl never.

Definition fits32 (b : bytes) : Prop := zlen b <= 0xFFFFFFFF.
Definition pairs_fit (ps : list (bytes * bytes)) : Prop :=
  zlen ps <= 0xFFFFFFFF ∧ Forall (λ p, fits32 p.1 ∧ fits32 p.2) ps.

Lemma sized_word_ok v w :
  sized_word v = Ok w ↔ ∃ b, _value_bytes v = Ok b ∧ fits32 b ∧ w = sized b.
Proof.
  unfold sized_word, fits32. split.
  - intros H. inv_result. apply u32_ok in E0 as [? ->]. subst. eauto with lia.
  - intros (b & -> & ? & ->). simpl. pose proof (zlen_nonneg b).
    by rewrite (proj2 (u32_ok _ (le32 (zlen b)))) by (split; [lia|done]).
Qed.

Lemma encode_field_ok f w :
  encode_field f = Ok w ↔
  ∃ a b, utf8_encode f.1 = Ok a ∧ utf8_encode f.2 = Ok b ∧ fits32 a ∧ fits32 b ∧
         w = pair_bytes (a, b).
Proof.
  unfold encode_field. split.
  - intros H. inv_result.
    apply sized_word_ok in E as (x & Hx & ? & ->).
    apply sized_word_ok in E0 as (y & Hy & ? & ->). simpl in *. subst.
    exists x, y. done.
  - intros (x & y & Hx & Hy & ? & ? & ->).
    rewrite (proj2 (sized_word_ok (Str f.1) (sized x))) by eauto.
    simpl. by rewrite (proj2 (sized_word_ok (Str f.2) (sized y))) by eauto.
Qed.

(** Both texts of a field, encoded. *)
Definition utf8_pair (f : pystr * pystr) (p : bytes * bytes) : Prop :=
  utf8_encode f.1 = Ok p.1 ∧ utf8_encode f.2 = Ok p.2.

Lemma encode_fields_ok fs ws :
  mapR encode_field fs = Ok ws ↔
  ∃ ps, Forall2 utf8_pair fs ps ∧ Forall (λ p, fits32 p.1 ∧ fits32 p.2) ps ∧
        ws = pair_bytes <$> ps.
Proof.
  rewrite mapR_ok. split.
  - induction 1 as [|f w fs ws Hf _ (ps & Hps & Hfit & ->)]; [by exists []|].
    apply encode_field_ok in Hf as (a & b & ? & ? & ? & ? & ->).
    exists ((a, b) :: ps). by repeat constructor.
  - intros (ps & Hps & Hfit & ->). induction Hps as [|f p fs ps [? ?] _ IH]; [done|].
    apply Forall_cons_iff in Hfit as [[? ?] ?]. constructor; [|by apply IH].
    apply encode_field_ok. exists p.1, p.2. by destruct p.
Qed.

Lemma encode_query_fields_ok fields client w :
  encode_query_fields fields client = Ok w ↔
  ∃ ps, Forall2 utf8_pair (_normalize_query_fields fields client) ps ∧
        pairs_fit ps ∧ w = counted ps.
Proof.
  unfold encode_query_fields, pairs_fit, counted. split.
  - intros H. inv_result. apply u32_ok in E as [? ->].
    apply encode_fields_ok in E0 as (ps & Hps & ? & ->). exists ps.
    assert (zlen (_normalize_query_fields fields client) = zlen ps) as Hl.
    { unfold zlen. by rewrite (Forall2_length Hps). }
    rewrite <- Hl. eauto with lia.
  - intros (ps & Hps & [? ?] & ->).
    assert (zlen (_normalize_query_fields fields client) = zlen ps) as Hl.
    { unfold zlen. by rewrite (Forall2_length Hps). }
    rewrite Hl, (proj2 (u32_ok _ (le32 (zlen ps)))).
    2: { split; [|done]. pose proof (zlen_nonneg ps). lia. }
    simpl. by rewrite (proj2 (encode_fields_ok _ (pair_bytes <$> ps))) by eauto.
Qed.

Lemma zlen_sized b : zlen (sized b) = 4 + zlen b.
Proof. unfold sized. by autorewrite with motu. Qed.
Lemma zlen_utom rq : zlen (utom_bytes rq) = 20 + zlen rq.
Proof. unfold utom_bytes. autorewrite with motu. change (zlen (s! "UTOM")) with 4. lia. Qed.
#[export] Hint Rewrite zlen_sized zlen_utom : motu.

Lemma header_bytes_len header hb : _header_bytes header = Ok hb → zlen hb = 4.
Proof.
  unfold _header_bytes. intros H. inv_result. case_if_in H; inv_result. by zbool.
Qed.

Lemma max_motu_payload_ok header hb :
  _header_bytes header = Ok hb → max_motu_payload_bytes header = Ok 65511.
Proof.
  intros H. unfold max_motu_payload_bytes. rewrite H. simpl.
  by rewrite (header_bytes_len _ _ H).
Qed.

Lemma build_motu_frame_ok seq header mseq payload f :
  build_motu_frame seq header mseq payload = Ok f ↔
  ∃ hb, _header_bytes header = Ok hb ∧ 0 <= mseq <= 0xFFFFFFFF ∧
        zlen payload <= 65511 ∧ f = frame_bytes (Z.land seq 0xFF) hb mseq payload.
Proof.
  unfold build_motu_frame. split.
  - intros H. inv_result. rewrite (max_motu_payload_ok _ _ E) in E0. inv_result.
    case_if_in H; [done|]. zbool. inv_result.
    repeat match goal with
    | E : u16 _ = Ok _ |- _ => apply u16_ok in E as [? ->]
    | E : u32 _ = Ok _ |- _ => apply u32_ok in E as [? ->]
    end. exists a. repeat split; try done; try lia. unfold frame_bytes.
    autorewrite with motu. rewrite (header_bytes_len _ _ E).
    match goal with |- context [le16 (?x + 4)] =>
      replace (x + 4) with (24 + zlen payload) by lia end. done.
  - intros (hb & Hh & Hm & Hp & ->). rewrite Hh. simpl.
    rewrite (max_motu_payload_ok _ _ Hh). simpl.
    replace (65511 <? zlen payload) with false by (symmetry; lia).
    pose proof (crc32_range payload). pose proof (zlen_nonneg payload).
    rewrite (proj2 (u32_ok (crc32 payload) _)) by (split; [lia|done]).
    rewrite (proj2 (u32_ok mseq _)) by (split; [lia|done]).
    rewrite (proj2 (u16_ok (zlen payload) _)) by (split; [lia|done]). simpl.
    autorewrite with motu. rewrite (header_bytes_len _ _ Hh).
    rewrite (proj2 (u16_ok _ (le16 (24 + zlen payload)))); [done|].
    split; [lia|]. f_equal. lia.
Qed.

(** * Decoding what the builders emit *)

Section WireLemmas.
Import Wire.

#[local] Ltac ocbn := cbn [mbind option_bind fst snd].


Lemma get32_le32 v r : 0 <= v <= 0xFFFFFFFF → get32 (le32 v ++ r) = Some (v, r).
Proof. intros H. unfold le32, get32. simpl. by rewrite le32_value. Qed.

Lemma get16_le16 v r : 0 <= v <= 0xFFFF → get16 (le16 v ++ r) = Some (v, r).
Proof. intros H. unfold le16, get16. simpl. by rewrite le16_value. Qed.

Lemma expect_some v r : expect v (Some (v, r)) = Some r.
Proof. unfold expect. ocbn. by rewrite option_guard_True. Qed.

Lemma get_n_app n l r : n = zlen l → get_n n (l ++ r) = Some (l, r).
Proof.
  intros ->. unfold get_n. rewrite option_guard_True.
  - by rewrite ztake_app, zdrop_app.
  - rewrite zlen_app. pose proof (zlen_nonneg r). lia.
Qed.

Lemma get_sized_sized b r : fits32 b → get_sized (sized b ++ r) = Some (b, r).
Proof.
  intros Hb. unfold get_sized, sized. rewrite <- app_assoc, get32_le32.
  - ocbn. by apply get_n_app.
  - pose proof (zlen_nonneg b). unfold fits32 in Hb. lia.
Qed.

Lemma get_pair_bytes p r :
  fits32 p.1 → fits32 p.2 → get_pair (pair_bytes p ++ r) = Some (p.1, p.2, r).
Proof.
  intros. unfold get_pair, pair_bytes. rewrite <- app_assoc.
  rewrite get_sized_sized by done. ocbn. by rewrite get_sized_sized.
Qed.

Lemma get_pairs_concat ps r :
  Forall (λ p, fits32 p.1 ∧ fits32 p.2) ps →
  get_pairs (length ps) (concat (pair_bytes <$> ps) ++ r) = Some (ps, r).
Proof.
  induction 1 as [|p ps [? ?] _ IH]; [done|].
  cbn [length fmap list_fmap concat get_pairs].
  rewrite <- app_assoc, get_pair_bytes by done. ocbn. rewrite IH. ocbn.
  by destruct p.
Qed.

Lemma get_counted_counted ps r :
  pairs_fit ps → get_counted (counted ps ++ r) = Some (ps, r).
Proof.
  intros [Hn Hps]. unfold get_counted, counted. pose proof (zlen_nonneg ps).
  rewrite <- app_assoc, get32_le32 by lia. ocbn.
  unfold zlen. rewrite Nat2Z.id. by apply get_pairs_concat.
Qed.

Lemma decode_request_bytes m p hs fs :
  fits32 m → fits32 p → pairs_fit hs → pairs_fit fs →
  decode_request (request_bytes m p hs fs) = Some (m, p, hs, fs).
Proof.
  intros. unfold decode_request, request_bytes.
  rewrite get_sized_sized by done. ocbn. rewrite get_sized_sized by done. ocbn.
  rewrite get_counted_counted by done. ocbn.
  rewrite <- (app_nil_r (counted fs)), get_counted_counted by done. ocbn.
  by rewrite option_guard_True.
Qed.

(** A frame decodes to its fields, whatever the request and what follows it. *)
Lemma decode_frame_bytes seq hb mseq m p hs fs tail body :
  let rq := request_bytes m p hs fs in
  let payload := utom_bytes rq ++ tail in
  zlen hb = 4 → 0 <= mseq <= 0xFFFFFFFF → zlen payload <= 65511 →
  fits32 m → fits32 p → pairs_fit hs → pairs_fit fs →
  decode_body tail = Some body →
  decode (frame_bytes seq hb mseq payload) =
    Some {| rq_seq := seq; rq_header := hb; rq_message_seq := mseq;
            rq_method := m; rq_path := p; rq_headers := hs; rq_fields := fs;
            rq_body := body |}.
Proof.
  intros rq payload Hhb Hm Hlen Hfm Hfp Hhs Hfs Hbody.
  pose proof (crc32_range payload) as Hcrc.
  pose proof (zlen_nonneg payload). pose proof (zlen_nonneg rq).
  pose proof (zlen_nonneg tail).
  assert (zlen rq <= 65511).
  { unfold payload in Hlen. autorewrite with motu in Hlen. lia. }
  assert (zlen (frame_bytes seq hb mseq payload) = 24 + zlen payload) as Hzl.
  { unfold frame_bytes. autorewrite with motu. lia. }
  unfold decode. rewrite Hzl. unfold frame_bytes. cbn [app get8]. ocbn.
  cbn [get8]. rewrite expect_some. ocbn. rewrite get16_le16 by lia. rewrite expect_some. ocbn.
  rewrite get_n_app by done. ocbn. rewrite get32_le32 by lia. ocbn.
  rewrite get32_le32 by lia. ocbn. rewrite get32_le32 by lia. rewrite expect_some. ocbn.
  rewrite get16_le16 by lia. rewrite expect_some. ocbn.
  rewrite get16_le16 by lia. autorewrite with motu.
  replace (2 + zlen payload - 2) with (zlen payload) by lia.
  rewrite expect_some. ocbn. rewrite option_guard_True by done.
  unfold payload, utom_bytes. rewrite <- !app_assoc.
  rewrite get_n_app by done. ocbn. rewrite option_guard_True by done.
  rewrite get32_le32 by lia. rewrite expect_some. ocbn.
  rewrite get32_le32 by lia. rewrite expect_some. ocbn.
  rewrite get32_le32 by lia. rewrite expect_some. ocbn.
  rewrite get32_le32 by lia. ocbn. rewrite get_n_app by done. ocbn.
  unfold rq at 1. rewrite decode_request_bytes by done. ocbn. by rewrite Hbody.
Qed.

Lemma decode_json_body j :
  zlen j <= 65511 →
  decode_body (le32 (zlen (sized (s! "json") ++ sized j)) ++ sized (s! "json") ++ sized j)
  = Some (Some (s! "json", j)).
Proof.
  intros Hj. pose proof (zlen_nonneg j).
  set (b := sized (s! "json") ++ sized j).
  assert (zlen b = 12 + zlen j) as Hb.
  { unfold b. autorewrite with motu. change (zlen (s! "json")) with 4. lia. }
  unfold decode_body. destruct (le32 (zlen b) ++ b) eqn:E; [done|].
  rewrite <- E, get32_le32 by lia. ocbn. rewrite option_guard_True by done.
  rewrite <- (app_nil_r b). unfold b. rewrite <- app_assoc.
  change (sized (s! "json") ++ sized j ++ []) with
    (sized (s! "json") ++ (sized j ++ [])).
  rewrite app_assoc. rewrite (get_pair_bytes (s! "json", j)).
  - ocbn. by rewrite option_guard_True.
  - unfold fits32. ocbn. vm_compute. done.
  - unfold fits32. ocbn. lia.
Qed.
End WireLemmas.

(** * Properties *)

Lemma utom_prefix_fits rq : fits32 rq → utom_prefix rq = Ok (utom_bytes rq).
Proof.
  intros H. unfold utom_prefix. pose proof (zlen_nonneg rq). unfold fits32 in H.
  by rewrite (proj2 (u32_ok (zlen rq) _)) by (split; [lia|done]).
Qed.

Lemma sized_word_str s b :
  utf8_encode s = Ok b → fits32 b → sized_word (Str s) = Ok (sized b).
Proof. intros. apply sized_word_ok. eauto. Qed.

Lemma sized_word_len_str s b :
  utf8_encode s = Ok b → sized_word_len (Str s) = Ok (zlen (sized b)).
Proof. intros H. unfold sized_word_len. simpl. by rewrite H, zlen_sized. Qed.

Lemma build_motu_frame_fits seq header hb mseq payload :
  _header_bytes header = Ok hb → 0 <= mseq <= 0xFFFFFFFF →
  build_motu_frame seq header mseq payload =
    if zlen payload <=? 65511
    then Ok (frame_bytes (Z.land seq 0xFF) hb mseq payload)
    else Err (ProtocolFrameTooLarge (zlen payload) 65511).
Proof.
  intros Hh Hm. destruct (zlen payload <=? 65511) eqn:E; zbool.
  - apply build_motu_frame_ok. eauto with lia.
  - unfold build_motu_frame. rewrite Hh, (max_motu_payload_ok _ _ Hh). simpl.
    by replace (65511 <? zlen payload) with true by (symmetry; lia).
Qed.

Lemma field_len_bytes f p :
  utf8_pair f p → field_len f = Ok (zlen (pair_bytes p)).
Proof.
  intros [Ha Hb]. unfold field_len.
  rewrite (sized_word_len_str _ _ Ha). simpl.
  rewrite (sized_word_len_str _ _ Hb). simpl. unfold pair_bytes. by rewrite zlen_app.
Qed.

Lemma query_fields_len_bytes fields client ps :
  Forall2 utf8_pair (_normalize_query_fields fields client) ps →
  query_fields_len fields client = Ok (zlen (counted ps)).
Proof.
  unfold query_fields_len. intros H.
  assert (mapR field_len (_normalize_query_fields fields client)
          = Ok ((λ p, zlen (pair_bytes p)) <$> ps)) as ->.
  { apply mapR_ok. induction H; constructor; [by apply field_len_bytes|done]. }
  simpl. f_equal. unfold counted. autorewrite with motu. f_equal. clear H.
  unfold sum in *. induction ps as [|p ps IH]; [done|].
  cbn [fmap list_fmap concat foldr]. by rewrite zlen_app, <- IH.
Qed.

(** The size budget of a POST body, as [max_post_json_body_bytes] computes it
    from lengths alone, is what the request really leaves free. *)
Lemma max_post_json_body_value path header client hb pb fs :
  _header_bytes header = Ok hb → utf8_encode path = Ok pb →
  Forall2 utf8_pair (_normalize_query_fields (fields_of_client client) None) fs →
  max_post_json_body_bytes path header client =
    Ok (65511 - 36 - zlen (request_bytes (s! "POST") pb
          [(s! "Unsecure-Auth-MOTU", s! "unicorn666")] fs)).
Proof.
  intros Hh Hp Hfs. unfold max_post_json_body_bytes.
  rewrite (sized_word_len_str (s! "POST") (s! "POST") eq_refl). cbn [mbind result_bind].
  rewrite (sized_word_len_str _ _ Hp). cbn [mbind result_bind].
  rewrite (sized_word_len_str (s! "Unsecure-Auth-MOTU") (s! "Unsecure-Auth-MOTU") eq_refl).
  cbn [mbind result_bind].
  rewrite (sized_word_len_str (s! "unicorn666") (s! "unicorn666") eq_refl). cbn [mbind result_bind].
  rewrite (query_fields_len_bytes _ _ _ Hfs). cbn [mbind result_bind].
  rewrite (max_motu_payload_ok _ _ Hh). cbn [mbind result_bind]. f_equal.
  unfold request_bytes, counted at 2, UTOM_REQUEST_PREFIX_BYTES, POST_BODY_PREFIX_BYTES.
  cbn [fmap list_fmap concat]. unfold pair_bytes. autorewrite with motu. simpl. lia.
Qed.

(** What a GET frame carries. *)
Definition get_request (seq : Z) (hb : bytes) (mseq : Z) (pb eb : bytes)
    (fs : list (bytes * bytes)) : Wire.request :=
  {| Wire.rq_seq := Z.land seq 0xFF; Wire.rq_header := hb;
     Wire.rq_message_seq := mseq; Wire.rq_method := s! "GET"; Wire.rq_path := pb;
     Wire.rq_headers := [(s! "If-None-Match", eb)]; Wire.rq_fields := fs;
     Wire.rq_body := None |}.

(** What a POST frame carries. *)
Definition post_request (seq : Z) (hb : bytes) (mseq : Z) (pb : bytes)
    (fs : list (bytes * bytes)) (body : bytes) : Wire.request :=
  {| Wire.rq_seq := Z.land seq 0xFF; Wire.rq_header := hb;
     Wire.rq_message_seq := mseq; Wire.rq_method := s! "POST"; Wire.rq_path := pb;
     Wire.rq_headers := [(s! "Unsecure-Auth-MOTU", s! "unicorn666")];
     Wire.rq_fields := fs; Wire.rq_body := Some (s! "json", body) |}.

(** The bytes of the request and of the JSON part of a POST. *)
Definition post_rq (pb : bytes) (fs : list (bytes * bytes)) : bytes :=
  request_bytes (s! "POST") pb [(s! "Unsecure-Auth-MOTU", s! "unicorn666")] fs.
Definition json_part (body : bytes) : bytes := sized (s! "json") ++ sized body.

Lemma zlen_json_part body : zlen (json_part body) = 12 + zlen body.
Proof.
  unfold json_part. autorewrite with motu. change (zlen (s! "json")) with 4. lia.
Qed.

#[local] Ltac rcbn := cbn [mbind result_bind].

(** The request part of a POST is built whatever the body is. *)
Lemma post_request_part path client pb fs :
  utf8_encode path = Ok pb → fits32 pb →
  Forall2 utf8_pair (_normalize_query_fields (fields_of_client client) None) fs →
  pairs_fit fs →
  ∃ w p one a k q,
    sized_word (Str (s! "POST")) = Ok w ∧ sized_word (Str path) = Ok p ∧
    u32 1 = Ok one ∧ sized_word (Str (s! "Unsecure-Auth-MOTU")) = Ok a ∧
    sized_word (Str (s! "unicorn666")) = Ok k ∧
    query_fields (fields_of_client client) None = Ok q ∧
    w ++ p ++ one ++ a ++ k ++ q = post_rq pb fs.
Proof.
  intros Hp Hpb Hfs Hfit. do 6 eexists.
  split; [by apply (sized_word_str _ (s! "POST"))|].
  split; [by apply (sized_word_str _ _ Hp Hpb)|]. split; [done|].
  split; [by apply (sized_word_str _ (s! "Unsecure-Auth-MOTU"))|].
  split; [by apply (sized_word_str _ (s! "unicorn666"))|].
  split; [apply encode_query_fields_ok; eauto|].
  unfold post_rq, request_bytes, counted at 2, pair_bytes.
  cbn [fmap list_fmap concat]. rewrite app_nil_r, <- !app_assoc. done.
Qed.

(** The part of [build_post_frame] after the size check. *)
Lemma post_body_part seq mseq header hb rq body :
  _header_bytes header = Ok hb → 0 <= mseq <= 0xFFFFFFFF →
  zlen body <= 65511 - 36 - zlen rq →
  (j ← sized_word (Str (s! "json"));
   b ← sized_word (Bytes body);
   prefix ← utom_prefix rq;
   n ← u32 (zlen (j ++ b));
   build_motu_frame seq header mseq (prefix ++ n ++ j ++ b))
  = Ok (frame_bytes (Z.land seq 0xFF) hb mseq
          (utom_bytes rq ++ le32 (zlen (json_part body)) ++ json_part body)).
Proof.
  intros Hh Hm Hlen. pose proof (zlen_nonneg body). pose proof (zlen_nonneg rq).
  rstep (sized (s! "json")); [by apply (sized_word_str _ (s! "json"))|].
  rstep (sized body).
  { apply sized_word_ok. exists body. unfold fits32. split; [done|]. split; [lia|done]. }
  rstep (utom_bytes rq); [apply utom_prefix_fits; unfold fits32; lia|].
  fold (json_part body).
  rstep (le32 (zlen (json_part body))).
  { apply u32_ok. rewrite zlen_json_part. split; [lia|done]. }
  apply build_motu_frame_ok. exists hb. split; [done|]. split; [lia|].
  split; [|reflexivity]. autorewrite with motu. rewrite zlen_json_part. lia.
Qed.

Lemma build_post_frame_value seq mseq path body header client hb pb fs :
  _header_bytes header = Ok hb → 0 <= mseq <= 0xFFFFFFFF →
  utf8_encode path = Ok pb → fits32 pb →
  Forall2 utf8_pair (_normalize_query_fields (fields_of_client client) None) fs →
  pairs_fit fs →
  let max := 65511 - 36 - zlen (post_rq pb fs) in
  build_post_frame seq mseq path body header client =
    if zlen body <=? max
    then Ok (frame_bytes (Z.land seq 0xFF) hb mseq
               (utom_bytes (post_rq pb fs)
                ++ le32 (zlen (json_part body)) ++ json_part body))
    else Err (ProtocolFrameTooLarge (zlen body) max).
Proof.
  intros Hh Hm Hp Hpb Hfs Hfit max.
  pose proof (max_post_json_body_value _ _ _ _ _ _ Hh Hp Hfs) as Hmax.
  unfold build_post_frame.
  destruct (post_request_part path client pb fs Hp Hpb Hfs Hfit)
    as (w & p & one & a & k & q & -> & -> & -> & -> & -> & -> & Hrq).
  rcbn. rewrite Hrq. unfold validate_post_frame_size. rewrite Hmax. rcbn.
  change (65511 - 36 - zlen (request_bytes _ _ _ _)) with max.
  destruct (zlen body <=? max) eqn:E; zbool.
  - replace (max <? zlen body) with false by (symmetry; lia).
    by apply post_body_part.
  - by replace (max <? zlen body) with true by (symmetry; lia).
Qed.

(** C21. POST frames: for every encodable request, the body budget computed by
    [max_post_json_body_bytes] is exact.  A body within it is framed, the
    unused budget is exactly what the frame leaves free of its 16-bit length,
    and a receiver decodes the frame to the path, credentials, client field and
    body that were given.  A larger body raises [ProtocolFrameTooLarge]; no
    other exception is possible. *)
Theorem build_post_frame_exact seq mseq path body header client hb pb fs :
  _header_bytes header = Ok hb → 0 <= mseq <= 0xFFFFFFFF →
  utf8_encode path = Ok pb → fits32 pb →
  Forall2 utf8_pair (_normalize_query_fields (fields_of_client client) None) fs →
  pairs_fit fs →
  ∃ max, max_post_json_body_bytes path header client = Ok max ∧
    if zlen body <=? max
    then ∃ f, build_post_frame seq mseq path body header client = Ok f ∧
              zlen f + (max - zlen body) = MAX_U16 ∧
              Wire.decode f = Some (post_request seq hb mseq pb fs body)
    else build_post_frame seq mseq path body header client
         = Err (ProtocolFrameTooLarge (zlen body) max).
Proof.
  intros Hh Hm Hp Hpb Hfs Hfit.
  eexists. split; [by apply (max_post_json_body_value _ _ _ hb pb fs)|].
  fold (post_rq pb fs). rewrite (build_post_frame_value _ _ _ _ _ _ hb pb fs) by done.
  pose proof (zlen_nonneg body). pose proof (zlen_nonneg (post_rq pb fs)).
  destruct (_ <=? _) eqn:E; zbool; [|done].
  eexists. split; [done|]. split.
  - unfold frame_bytes, MAX_U16. autorewrite with motu.
    rewrite (header_bytes_len _ _ Hh), zlen_json_part. lia.
  - apply decode_frame_bytes; try done.
    + by apply (header_bytes_len header).
    + fold (post_rq pb fs). autorewrite with motu. rewrite zlen_json_part. lia.
    + split; [done|]. by repeat constructor.
    + apply decode_json_body. lia.
Qed.

Lemma build_post_frame_exact_witness :
  ∃ max, max_post_json_body_bytes (s! "/datastore/host/os") (s! "PTTH") (Some (QInt 7))
         = Ok max.
Proof.
  destruct (build_post_frame_exact 0x23 2 (s! "/datastore/host/os") [123; 125] (s! "PTTH")
    (Some (QInt 7)) (s! "PTTH") (s! "/datastore/host/os") [(s! "client", s! "7")]
    eq_refl ltac:(lia) eq_refl ltac:(by vm_compute)
    ltac:(repeat constructor) ltac:(split; [by vm_compute | repeat constructor; by vm_compute]))
    as (max & Hmax & _).
  exists max. exact Hmax.
Defined.

(** The request bytes of a GET. *)
Definition get_rq (pb eb : bytes) (fs : list (bytes * bytes)) : bytes :=
  request_bytes (s! "GET") pb [(s! "If-None-Match", eb)] fs.

Lemma get_rq_fits pb eb fs : fits32 (get_rq pb eb fs) → fits32 pb ∧ fits32 eb.
Proof.
  intros Hrq. unfold fits32, get_rq, request_bytes, counted, pair_bytes in *.
  cbn [fmap list_fmap concat fst snd] in Hrq. autorewrite with motu in Hrq.
  pose proof (zlen_nonneg pb). pose proof (zlen_nonneg eb).
  match type of Hrq with context [zlen (concat ?l)] =>
    pose proof (zlen_nonneg (concat l)) end.
  pose proof (zlen_nonneg (s! "GET")). pose proof (zlen_nonneg (s! "If-None-Match")).
  lia.
Qed.

Lemma get_rq_parts pb eb fs :
  sized (s! "GET") ++ sized pb ++ le32 1 ++ sized (s! "If-None-Match") ++ sized eb
    ++ counted fs = get_rq pb eb fs.
Proof.
  unfold get_rq, request_bytes, counted at 2, pair_bytes.
  cbn [fmap list_fmap concat fst snd]. rewrite app_nil_r, <- !app_assoc. done.
Qed.

Lemma build_get_frame_value seq mseq path etag header client fields pb eb fs :
  utf8_encode path = Ok pb → utf8_encode etag = Ok eb →
  encode_query_fields (from_option FFields FNone fields) client = Ok (counted fs) →
  fits32 (get_rq pb eb fs) →
  build_get_frame seq mseq path etag header client fields
  = build_motu_frame seq header mseq (utom_bytes (get_rq pb eb fs)).
Proof.
  intros Hp He Hfs Hrq. destruct (get_rq_fits _ _ _ Hrq) as [Hpb Heb].
  unfold build_get_frame.
  rbind (sized_word_str (s! "GET") (s! "GET") eq_refl ltac:(done)).
  rbind (sized_word_str _ _ Hp Hpb). rbind (proj2 (u32_ok 1 (le32 1)) ltac:(done)).
  rbind (sized_word_str (s! "If-None-Match") (s! "If-None-Match") eq_refl ltac:(done)).
  rbind (sized_word_str _ _ He Heb). rbind Hfs.
  rewrite get_rq_parts. by rbind (utom_prefix_fits _ Hrq).
Qed.

(** C22. GET frames: for every encodable request the frame is built exactly
    when it fits a single MOTU frame, its total length is the 16-bit length it
    carries, and a receiver decodes it to the path, the [If-None-Match] value
    and the query fields that were given, in order.  An oversized request
    raises [ProtocolFrameTooLarge] with its payload size. *)
Theorem build_get_frame_roundtrip seq mseq path etag header client fields hb pb eb fs :
  _header_bytes header = Ok hb → 0 <= mseq <= 0xFFFFFFFF →
  utf8_encode path = Ok pb → utf8_encode etag = Ok eb →
  Forall2 utf8_pair
    (_normalize_query_fields (from_option FFields FNone fields) client) fs →
  pairs_fit fs → fits32 (get_rq pb eb fs) →
  let payload := utom_bytes (get_rq pb eb fs) in
  if zlen payload <=? 65511
  then ∃ f, build_get_frame seq mseq path etag header client fields = Ok f ∧
            zlen f = 24 + zlen payload ∧
            Wire.decode f = Some (get_request seq hb mseq pb eb fs)
  else build_get_frame seq mseq path etag header client fields
       = Err (ProtocolFrameTooLarge (zlen payload) 65511).
Proof.
  intros Hh Hm Hp He Hfs Hfit Hrq payload.
  rewrite (build_get_frame_value _ _ _ _ _ _ _ pb eb fs)
    by (try apply encode_query_fields_ok; eauto).
  rewrite (build_motu_frame_fits _ _ _ _ _ Hh Hm). fold payload.
  destruct (zlen payload <=? 65511) eqn:E; [|done]. zbool.
  destruct (get_rq_fits _ _ _ Hrq) as [Hpb Heb].
  eexists. split; [done|]. split.
  - unfold frame_bytes. autorewrite with motu. rewrite (header_bytes_len _ _ Hh). lia.
  - rewrite <- (app_nil_r payload). apply decode_frame_bytes; try done.
    + by apply (header_bytes_len header).
    + by rewrite app_nil_r.
    + split; [done|]. by repeat constructor.
Qed.

Lemma build_get_frame_roundtrip_witness :
  ∃ f, build_get_frame 0x24 2 (s! "/datastore") (s! "0") (s! "NREK") None
         (Some [(s! "meters", QStr (s! "mix/level"))]) = Ok f ∧ zlen f = 118.
Proof.
  destruct (build_get_frame_roundtrip 0x24 2 (s! "/datastore") (s! "0") (s! "NREK") None
    (Some [(s! "meters", QStr (s! "mix/level"))]) (s! "NREK") (s! "/datastore") (s! "0")
    [(s! "meters", s! "mix/level")] eq_refl ltac:(lia) eq_refl eq_refl
    ltac:(repeat constructor)
    ltac:(split; [by vm_compute | repeat constructor; by vm_compute])
    ltac:(by vm_compute)) as (f & Hf & Hlen & _).
  exists f. split; [exact Hf | rewrite Hlen; reflexivity].
Defined.

(** ** Host sequence numbers *)

(** [n] calls of [HostSequencer.take]. *)
Fixpoint takes (n : nat) (h : HostSequencer) : list Z * HostSequencer :=
  match n with
  | O => ([], h)
  | S n => let '(s, h) := take_seq h in
           let '(l, h) := takes n h in (s :: l, h)
  end.

Definition seq_valid (h : HostSequencer) : Prop :=
  HOST_SEQ_MIN <= _next h < HOST_SEQ_MAX_EXCLUSIVE.

Lemma next_host_seq_valid s :
  HOST_SEQ_MIN <= next_host_seq s < HOST_SEQ_MAX_EXCLUSIVE.
Proof.
  unfold next_host_seq, HOST_SEQ_MAX_EXCLUSIVE, HOST_SEQ_MIN, HOST_SEQ_COUNT.
  pose proof (Z.mod_pos_bound (s + 1 - 0x20) 0x20). lia.
Qed.

Lemma take_seq_valid h : seq_valid (take_seq h).2.
Proof. apply next_host_seq_valid. Qed.

Lemma init_seq_valid s h : HostSequencer_init s = Ok h → seq_valid h ∧ _next h = s.
Proof.
  unfold HostSequencer_init, validate_host_seq, seq_valid.
  destruct (_ && _) eqn:E; simpl; [|done]. intros [= <-]. zbool. simpl. lia.
Qed.

Lemma takes_nth n h i :
  seq_valid h → (i < n)%nat →
  (takes n h).1 !! i
  = Some (HOST_SEQ_MIN + (_next h - HOST_SEQ_MIN + Z.of_nat i) mod HOST_SEQ_COUNT).
Proof.
  revert h i. induction n as [|n IH]; intros h i Hh Hi; [lia|]. simpl.
  destruct (takes n _) as [l h'] eqn:E. simpl. destruct i as [|i]; simpl.
  - unfold seq_valid, HOST_SEQ_MAX_EXCLUSIVE, HOST_SEQ_MIN, HOST_SEQ_COUNT in *.
    f_equal. rewrite Z.mod_small; lia.
  - change l with (l, h').1. rewrite <- E, IH; [|apply next_host_seq_valid|lia].
    f_equal. f_equal. simpl _next. unfold next_host_seq, HOST_SEQ_MIN, HOST_SEQ_COUNT.
    replace ((_next h + 1 - 0x20) mod 0x20 + 0x20 - 0x20 + Z.of_nat i)
      with ((_next h + 1 - 0x20) mod 0x20 + Z.of_nat i) by lia.
    rewrite Z.add_mod_idemp_l by lia. f_equal. lia.
Qed.

(** The host sequencer: from any accepted start it hands out the numbers
    0x20..0x3f cyclically, the [i]-th being [start + i] wrapped into the range,
    and any 32 consecutive ones are pairwise different; a start outside the
    range is refused. *)
Theorem host_sequencer_cycles start n i j :
  match HostSequencer_init start with
  | Ok h =>
      ((i < n)%nat → (takes n h).1 !! i
         = Some (HOST_SEQ_MIN + (start - HOST_SEQ_MIN + Z.of_nat i) mod HOST_SEQ_COUNT)) ∧
      ((i < j < n)%nat → (j - i < 32)%nat → (takes n h).1 !! i ≠ (takes n h).1 !! j)
  | Err e => e = InvalidHostSequence ∧ ¬ HOST_SEQ_MIN <= start < HOST_SEQ_MAX_EXCLUSIVE
  end.
Proof.
  destruct (HostSequencer_init start) as [h|e] eqn:E.
  - apply init_seq_valid in E as [Hh <-]. split; [by apply takes_nth|].
    intros Hij Hd. rewrite !takes_nth by (done || lia). intros [= H].
    unfold HOST_SEQ_MIN, HOST_SEQ_COUNT in H. Z.div_mod_to_equations. lia.
  - unfold HostSequencer_init, validate_host_seq in E.
    destruct (_ && _) eqn:Hb; simpl in E; [done|]. injection E as <-.
    split; [done|]. intros [? ?]. apply andb_false_iff in Hb as [Hb|Hb]; zbool; lia.
Qed.

(** ** Self test *)

(** The body of [command_selftest] up to its message. *)
Definition command_selftest : result Z :=
  got_get ← build_get_frame 0x24 2 (s! "/datastore") (s! "0") (s! "NREK") None None;
  got_post ← build_post_frame 0x23 2 (s! "/datastore/host/os")
    ([123; 34] ++ s! "value" ++ [34; 58; 32; 34] ++ s! "win" ++ [34; 125])
    (s! "PTTH") None;
  if negb (zl_eqb got_get EXPECTED_GET_DATASTORE) then Err AssertionError
  else if negb (zl_eqb got_post EXPECTED_POST_HOST_OS) then Err AssertionError
  else if negb (crc32 (s! "123456789") =? 0xCBF43926) then Err AssertionError
  else Ok 0.

(** The self test passes: the builders reproduce the two captured frames
    byte for byte and the checksum has its published check value. *)
Theorem selftest_passes : command_selftest = Ok 0.
Proof. vm_compute. reflexivity. Qed.
