(* ===== verification/Parser.v ===== *)
(** Response parsing (motu_proxy/parser.py): one response frame, the segments
    of a response, the UTOM and text envelopes of a datastore payload, and the
    classification of bodies.

    [ResponseFrameError] is raised with a reason per [raise] of the source.
    [encode_response_frame] is the specification of the frame layout, written
    from the device's side; the parser is proved to accept exactly the frames
    it produces. *)
From S2P Require Import Prelude PyText Protocol.

(** * Data *)

Record ResponseFrame := {
  header : bytes;
  wrapper_seq : Z;
  wrapper_type : Z;
  wrapper_len : Z;
  message_seq : Z;
  final : bool;
  segment_index : Z;
  payload : bytes
}.

Record DatastorePayload := {
  body : bytes;
  etag : option pystr;
  status : option Z;
  content_type : option pystr
}.

Definition not_modified (p : DatastorePayload) : bool :=
  match status p with Some s => s =? 304 | None => false end.

(** * Frames *)

(** [data[i]] inside the bounds. *)
Definition byte_at (data : bytes) (i : Z) : Z := nth (Z.to_nat i) data 0.

Definition is_device_ack (packet : bytes) : bool :=
  (zlen packet =? 8) && zl_eqb (ztake 4 packet) (zdrop 4 packet)
  && (byte_at packet 1 =? 0) && zl_eqb (zslice 2 4 packet) [8; 0].

(** [struct.unpack_from]: raises when the buffer is too short. *)
Definition _u16 (data : bytes) (offset : Z) : result Z :=
  if zlen data <? offset + 2 then Err StructError
  else Ok (byte_at data offset + 256 * byte_at data (offset + 1)).

Definition _u32 (data : bytes) (offset : Z) : result Z :=
  if zlen data <? offset + 4 then Err StructError
  else Ok (byte_at data offset + 256 * byte_at data (offset + 1)
           + 65536 * byte_at data (offset + 2) + 16777216 * byte_at data (offset + 3)).

Definition frame_err {A} (why : frame_error) : result A := Err (ResponseFrameError why).

Definition is_response_header (h : bytes) : bool :=
  zl_eqb h (s! "NREK") || zl_eqb h (s! "PTTH").

Definition parse_response_frame (packet : bytes) (expected_message_seq : Z)
    : result ResponseFrame :=
  if zlen packet <? 28 then frame_err (ShortFrame (zlen packet)) else
  let wrapper_seq := byte_at packet 0 in
  let wrapper_type := byte_at packet 1 in
  wrapper_len ← _u16 packet 2;
  if negb (wrapper_type =? 0) then frame_err (WrapperType wrapper_type) else
  if wrapper_len <? 28 then frame_err (WrapperLength wrapper_len) else
  if zlen packet <? wrapper_len
  then frame_err (TruncatedFrame (zlen packet) wrapper_len) else
  let logical_packet := ztake wrapper_len packet in
  let wrapper := ztake 4 logical_packet in
  let body := zdrop 4 logical_packet in
  let header := ztake 4 body in
  if negb (is_response_header header) then frame_err (FrameHeader header) else
  stored_crc ← _u32 body 4;
  message_seq ← _u32 body 8;
  final_field ← _u32 body 12;
  segment_index ← _u16 body 16;
  payload_len ← _u16 body 18;
  let payload_end := 20 + payload_len in
  let trailer_end := payload_end + 4 in
  if negb (message_seq =? expected_message_seq)
  then frame_err (MessageSeq message_seq expected_message_seq) else
  if negb ((final_field =? 0) || (final_field =? 1))
  then frame_err (FinalField final_field) else
  if zlen body <? trailer_end then frame_err (PayloadLength payload_len) else
  if negb (trailer_end =? zlen body)
  then frame_err (TrailerLength (zlen body - payload_end)) else
  let payload := zslice 20 payload_end body in
  let computed_crc := crc32 payload in
  if negb (stored_crc =? computed_crc)
  then frame_err (CrcMismatch stored_crc computed_crc) else
  let trailer := zslice payload_end trailer_end body in
  if negb (zl_eqb trailer wrapper) then frame_err (TrailerMismatch trailer wrapper) else
  Ok {| header := header; wrapper_seq := wrapper_seq; wrapper_type := wrapper_type;
        wrapper_len := wrapper_len; message_seq := message_seq;
        final := negb (final_field =? 0); segment_index := segment_index;
        payload := payload |}.

(** The loop of [join_parsed_response_frames] from [expected_index]; [n] is
    [len(frames)]. *)
Fixpoint join_from (n expected_index : Z) (frames : list ResponseFrame) : result bytes :=
  match frames with
  | [] => Ok []
  | frame :: rest =>
      if negb (segment_index frame =? expected_index)
      then frame_err (SegmentIndex (segment_index frame) expected_index) else
      if final frame && negb (expected_index =? n - 1)
      then frame_err (EarlyFinal expected_index) else
      if negb (final frame) && (expected_index =? n - 1)
      then frame_err MissingFinal else
      pieces ← join_from n (expected_index + 1) rest;
      Ok (payload frame ++ pieces)
  end.

Definition join_parsed_response_frames (frames : list ResponseFrame) : result bytes :=
  match frames with
  | [] => Ok []
  | _ => join_from (zlen frames) 0 frames
  end.

Definition join_response_frames (frames : list bytes) (expected_message_seq : Z)
    : result bytes :=
  parsed ← mapR (λ frame, parse_response_frame frame expected_message_seq) frames;
  join_parsed_response_frames parsed.

(** * JSON extraction and classification *)

(** The scanning loop of [extract_json_bytes]: the number of bytes up to the
    brace that closes the first one, if any. *)
Fixpoint json_end (depth : Z) (in_string escape : bool) (l : bytes) : option Z :=
  match l with
  | [] => None
  | byte :: l' =>
      if in_string then
        if escape then Z.succ <$> json_end depth true false l'
        else if byte =? 92 then Z.succ <$> json_end depth true true l'
        else if byte =? 34 then Z.succ <$> json_end depth false false l'
        else Z.succ <$> json_end depth true false l'
      else if byte =? 34 then Z.succ <$> json_end depth true escape l'
      else if byte =? 123 then Z.succ <$> json_end (depth + 1) false escape l'
      else if byte =? 125 then
        if depth - 1 =? 0 then Some 1
        else Z.succ <$> json_end (depth - 1) false escape l'
      else Z.succ <$> json_end depth false escape l'
  end.

Definition extract_json_bytes (response : bytes) : option bytes :=
  start ← find_sub [123] response;
  let tail := zdrop start response in
  n ← json_end 0 false false tail;
  Some (ztake n tail).

Definition is_json_ws (c : Z) : bool :=
  (c =? 32) || (c =? 9) || (c =? 13) || (c =? 10).

(** The scanning loop of [is_single_json_container]; an empty remainder when
    the stack empties is [index == end - 1]. *)
Fixpoint container_scan (stack : list Z) (in_string escaped : bool) (l : bytes) : bool :=
  match l with
  | [] => false
  | byte :: l' =>
      if in_string then
        if escaped then container_scan stack true false l'
        else if byte =? 92 then container_scan stack true true l'
        else if byte =? 34 then container_scan stack false false l'
        else container_scan stack true false l'
      else if byte =? 34 then container_scan stack true escaped l'
      else if byte =? 123 then container_scan (125 :: stack) false escaped l'
      else if byte =? 91 then container_scan (93 :: stack) false escaped l'
      else if (byte =? 125) || (byte =? 93) then
        match stack with
        | [] => false
        | top :: stack' =>
            if negb (byte =? top) then false
            else match stack' with
                 | [] => match l' with [] => true | _ => false end
                 | _ => container_scan stack' false escaped l'
                 end
        end
      else container_scan stack false escaped l'
  end.

Definition is_single_json_container (body : bytes) : bool :=
  match strip_by is_json_ws body with
  | [] => false
  | c :: l =>
      if c =? 123 then container_scan [125] false false l
      else if c =? 91 then container_scan [93] false false l
      else false
  end.

Definition datastore_body_content_type (body : bytes) : pystr :=
  if is_single_json_container body then s! "application/json"
  else s! "application/octet-stream".

(** * Datastore payloads *)

Definition _read_sized_value (data : bytes) (offset end_ : Z) : result (option bytes * Z) :=
  if end_ <? offset + 4 then Ok (None, offset) else
  size ← _u32 data offset;
  let value_start := offset + 4 in
  let value_end := value_start + size in
  if (4096 <? size) || (end_ <? value_end) then Ok (None, offset)
  else Ok (Some (zslice value_start value_end data), value_end).

Definition _decode_header_value (value : bytes) : option pystr :=
  if existsb (λ byte, (byte <? 0x20) || (0x7E <? byte)) value then None
  else match ascii_encode value with
       | Err _ => None
       | Ok v => let decoded := strip v in
                 if zl_eqb decoded [] then None else Some decoded
       end.

(** The header loop of [_parse_utom_response]: it returns the ETag.  Each round
    that continues consumes at least eight bytes, so the length of the response
    is enough fuel whatever [count] says (see [utom_headers_fuel]). *)
Fixpoint utom_headers (fuel : nat) (response : bytes) (metadata_end count offset : Z)
    (etag : option pystr) : result (option pystr) :=
  match fuel with
  | O => Ok etag
  | S fuel =>
      if count <=? 0 then Ok etag else
      '(name, offset) ← _read_sized_value response offset metadata_end;
      '(value, offset) ← _read_sized_value response offset metadata_end;
      match name, value with
      | Some name, Some value =>
          let etag :=
            match _decode_header_value name with
            | Some decoded_name =>
                if zl_eqb (lower decoded_name) (s! "etag")
                then _decode_header_value value else etag
            | None => etag
            end in
          utom_headers fuel response metadata_end (count - 1) offset etag
      | _, _ => Ok etag
      end
  end.

Definition in_status_range (s : Z) : bool := (100 <=? s) && (s <=? 599).

Definition _parse_utom_response (response : bytes)
    : result (option (bytes * option pystr * option Z)) :=
  if (zlen response <? 28) || negb (starts_with (s! "UTOM") response) then Ok None else
  metadata_len ← _u32 response 16;
  let metadata_end := 20 + metadata_len in
  if (zlen response <? metadata_end) || (metadata_len <? 8) then Ok None else
  raw_status ← _u32 response 20;
  let status := if in_status_range raw_status then Some raw_status else None in
  header_count ← _u32 response 24;
  etag ← utom_headers (length response) response metadata_end header_count 28 None;
  Ok (Some (zdrop metadata_end response, etag, status)).

Definition _split_text_http_response (response : bytes) : option (bytes * bytes) :=
  if negb (starts_with (s! "HTTP/") response) then None else
  match find_sub [13; 10; 13; 10] response with
  | Some index => Some (ztake index response, zdrop (index + 4) response)
  | None =>
      match find_sub [10; 10] response with
      | Some index => Some (ztake index response, zdrop (index + 2) response)
      | None => None
      end
  end.

Definition _parse_text_status (status_line : pystr) : option Z :=
  match split_ws 2 (strip status_line) with
  | _ :: code :: _ =>
      s ← int10 code; if in_status_range s then Some s else None
  | _ => None
  end.

(** One header line updates the ETag found so far. *)
Definition text_header (etag : option pystr) (line : pystr) : option pystr :=
  let '(name, separator, value) := partition_on 58 line in
  if separator && zl_eqb (lower (strip name)) (s! "etag")
  then let value := strip value in if zl_eqb value [] then None else Some value
  else etag.

Definition _parse_text_http_response (response : bytes)
    : option (bytes * option pystr * option Z) :=
  '(header_block, body) ← _split_text_http_response response;
  let text := header_block in
  let lines := split_on 10 (replace [13] [10] (replace [13; 10] [10] text)) in
  let status := _parse_text_status (default [] (head lines)) in
  Some (body, foldl text_header None (tail lines), status).

Definition parse_datastore_response (response : bytes) (classify_body : bool)
    : result DatastorePayload :=
  utom ← _parse_utom_response response;
  let parsed :=
    match utom with
    | Some p => Some p
    | None => _parse_text_http_response response
    end in
  let '(body, etag, status) :=
    match parsed with None => (response, None, None) | Some p => p end in
  Ok {| body := body; etag := etag; status := status;
        content_type := if classify_body
                        then Some (datastore_body_content_type body) else None |}.

Definition extract_response_etag (response : bytes) : result (option pystr) :=
  p ← parse_datastore_response response false; Ok (etag p).
Definition response_status_code (response : bytes) : result (option Z) :=
  p ← parse_datastore_response response false; Ok (status p).
Definition extract_datastore_body (response : bytes) : result bytes :=
  p ← parse_datastore_response response false; Ok (body p).

(** * The frame layout *)

(** A response frame with every field free, as the device could send it: a
    wrapper, then the body. *)
Definition raw_body (h : bytes) (crc mseq fin seg plen : Z) (pay tr : bytes) : bytes :=
  h ++ le32 crc ++ le32 mseq ++ le32 fin ++ le16 seg ++ le16 plen ++ pay ++ tr.
Definition raw_wrapper (seq ty len : Z) : bytes := [seq; ty] ++ le16 len.
Definition raw_frame (seq ty len : Z) (h : bytes) (crc mseq fin seg plen : Z)
    (pay tr : bytes) : bytes :=
  raw_wrapper seq ty len ++ raw_body h crc mseq fin seg plen pay tr.

(** The wrapper that starts a frame and is repeated at its end. *)
Definition wrapper_bytes (f : ResponseFrame) : bytes :=
  raw_wrapper (wrapper_seq f) (wrapper_type f) (wrapper_len f).

Definition encode_response_frame (f : ResponseFrame) : bytes :=
  raw_frame (wrapper_seq f) (wrapper_type f) (wrapper_len f) (header f)
    (crc32 (payload f)) (message_seq f) (if final f then 1 else 0) (segment_index f)
    (zlen (payload f)) (payload f) (wrapper_bytes f).

(** The frames the device may send. *)
Record frame_wf (f : ResponseFrame) : Prop := {
  wf_header : header f = s! "NREK" ∨ header f = s! "PTTH";
  wf_seq : is_byte (wrapper_seq f);
  wf_type : wrapper_type f = 0;
  wf_len : wrapper_len f = 28 + zlen (payload f);
  wf_max : wrapper_len f <= 0xFFFF;
  wf_mseq : 0 <= message_seq f <= 0xFFFFFFFF;
  wf_seg : 0 <= segment_index f <= 0xFFFF;
  wf_payload : bytes_ok (payload f)
}.

Lemma byte_at_app_l l k i : 0 <= i < zlen l → byte_at (l ++ k) i = byte_at l i.
Proof. unfold byte_at, zlen. intros. apply app_nth1. lia. Qed.

Lemma byte_at_app_r l k i : zlen l <= i → byte_at (l ++ k) i = byte_at k (i - zlen l).
Proof.
  unfold byte_at, zlen. intros. rewrite app_nth2 by lia. f_equal. lia.
Qed.

(** Reading an integer after a prefix of known length. *)
Lemma u16_at l v k i :
  i = zlen l → 0 <= v <= 0xFFFF → _u16 (l ++ le16 v ++ k) i = Ok v.
Proof.
  intros -> Hv. unfold _u16. autorewrite with motu.
  pose proof (zlen_nonneg k). replace (_ <? _) with false by (symmetry; lia).
  rewrite (byte_at_app_r l _ (zlen l)), (byte_at_app_r l _ (zlen l + 1)) by lia.
  rewrite Z.sub_diag, Z.add_simpl_l. unfold le16, byte_at. simpl. by rewrite le16_value.
Qed.

Lemma u32_at l v k i :
  i = zlen l → 0 <= v <= 0xFFFFFFFF → _u32 (l ++ le32 v ++ k) i = Ok v.
Proof.
  intros -> Hv. unfold _u32. autorewrite with motu.
  pose proof (zlen_nonneg k). replace (_ <? _) with false by (symmetry; lia).
  rewrite (byte_at_app_r l _ (zlen l)), (byte_at_app_r l _ (zlen l + 1)),
    (byte_at_app_r l _ (zlen l + 2)), (byte_at_app_r l _ (zlen l + 3)) by lia.
  rewrite Z.sub_diag, !Z.add_simpl_l. unfold le32, byte_at. simpl. by rewrite le32_value.
Qed.

(** The fields of a body, read where the parser reads them. *)
Lemma raw_body_fields h crc mseq fin seg plen pay tr :
  zlen h = 4 → 0 <= crc <= 0xFFFFFFFF → 0 <= mseq <= 0xFFFFFFFF →
  0 <= fin <= 0xFFFFFFFF → 0 <= seg <= 0xFFFF → 0 <= plen <= 0xFFFF →
  let b := raw_body h crc mseq fin seg plen pay tr in
  ztake 4 b = h ∧ _u32 b 4 = Ok crc ∧ _u32 b 8 = Ok mseq ∧ _u32 b 12 = Ok fin ∧
  _u16 b 16 = Ok seg ∧ _u16 b 18 = Ok plen.
Proof.
  intros Hh Hcrc Hm Hf Hseg Hp b. unfold b, raw_body.
  split; [apply ztake_app; lia|].
  split; [apply u32_at; lia|].
  split; [rewrite (app_assoc h); apply u32_at; autorewrite with motu; lia|].
  split; [rewrite 2!app_assoc; apply u32_at; autorewrite with motu; lia|].
  split; [rewrite 3!app_assoc; apply u16_at; autorewrite with motu; lia|].
  rewrite 4!app_assoc; apply u16_at; autorewrite with motu; lia.
Qed.

Lemma raw_body_payload h crc mseq fin seg plen pay tr :
  zlen h = 4 → zlen tr = 4 →
  let b := raw_body h crc mseq fin seg plen pay tr in
  zslice 20 (20 + zlen pay) b = pay ∧
  zslice (20 + zlen pay) (20 + zlen pay + 4) b = tr ∧ zlen b = 24 + zlen pay.
Proof.
  intros Hh Htr b. unfold b, raw_body. split; [|split].
  - rewrite 5!app_assoc. apply zslice_mid; autorewrite with motu; lia.
  - rewrite 6!app_assoc. rewrite <- (app_nil_r tr) at 1.
    apply zslice_mid; autorewrite with motu; lia.
  - autorewrite with motu. lia.
Qed.

(** The parser on a frame whose lengths are consistent: the checks that remain,
    in order. *)
Lemma parse_raw_frame seq ty h crc mseq fin seg pay tr pad s :
  let len := 28 + zlen pay in
  len <= 0xFFFF → zlen h = 4 → zlen tr = 4 → 0 <= crc <= 0xFFFFFFFF →
  0 <= mseq <= 0xFFFFFFFF → 0 <= fin <= 0xFFFFFFFF → 0 <= seg <= 0xFFFF →
  parse_response_frame
    (raw_frame seq ty len h crc mseq fin seg (zlen pay) pay tr ++ pad) s =
  if negb (ty =? 0) then frame_err (WrapperType ty) else
  if negb (is_response_header h) then frame_err (FrameHeader h) else
  if negb (mseq =? s) then frame_err (MessageSeq mseq s) else
  if negb ((fin =? 0) || (fin =? 1)) then frame_err (FinalField fin) else
  if negb (crc =? crc32 pay) then frame_err (CrcMismatch crc (crc32 pay)) else
  if negb (zl_eqb tr (raw_wrapper seq ty len))
  then frame_err (TrailerMismatch tr (raw_wrapper seq ty len)) else
  Ok {| header := h; wrapper_seq := seq; wrapper_type := ty; wrapper_len := len;
        message_seq := mseq; final := negb (fin =? 0); segment_index := seg;
        payload := pay |}.
Proof.
  intros len Hlen Hh Htr Hcrc Hm Hf Hseg.
  pose proof (zlen_nonneg pay). pose proof (zlen_nonneg pad).
  destruct (raw_body_fields h crc mseq fin seg (zlen pay) pay tr)
    as (E4 & E5 & E8 & E12 & E16 & E18); try done; try lia.
  destruct (raw_body_payload h crc mseq fin seg (zlen pay) pay tr Hh Htr)
    as (Ep & Et & Hb).
  unfold raw_frame. set (bod := raw_body _ _ _ _ _ _ _ _) in *.
  assert (zlen (raw_wrapper seq ty len) = 4) as Hw by done.
  unfold parse_response_frame. rewrite !zlen_app, Hw, Hb.
  replace (_ <? 28) with false by (symmetry; lia).
  change (byte_at ((raw_wrapper seq ty len ++ bod) ++ pad) 0) with seq.
  change (byte_at ((raw_wrapper seq ty len ++ bod) ++ pad) 1) with ty.
  assert (_u16 ((raw_wrapper seq ty len ++ bod) ++ pad) 2 = Ok len) as Hu.
  { unfold raw_wrapper. rewrite <- !app_assoc. apply u16_at; [done|lia]. }
  rbind Hu. case_match; [done|].
  replace (len <? 28) with false by (symmetry; lia).
  replace (_ <? len) with false by (symmetry; lia).
  rewrite (ztake_app (_ ++ bod) pad) by (rewrite zlen_app; lia).
  rewrite (ztake_app _ bod), (zdrop_app _ bod) by done.
  rewrite E4. case_match; [done|].
  rbind E5. rbind E8. rbind E12. rbind E16. rbind E18.
  case_match; [done|]. case_match; [done|]. rewrite Hb.
  replace (_ <? _) with false by (symmetry; lia).
  replace (_ =? 24 + zlen pay) with true by (symmetry; lia). simpl negb.
  rewrite Ep, Et. done.
Qed.

Lemma byte_at_ztake n l i : 0 <= i < n → byte_at (ztake n l) i = byte_at l i.
Proof.
  intros. unfold byte_at, ztake.
  assert (Z.to_nat i < Z.to_nat n)%nat as Hi by lia. revert Hi.
  generalize (Z.to_nat n) (Z.to_nat i). intros a b. revert l b.
  induction a as [|a IH]; intros [|x l] [|b] Hb; simpl; try done; try lia.
  apply IH. lia.
Qed.

Lemma byte_at_zdrop n l i : 0 <= n → 0 <= i → byte_at (zdrop n l) i = byte_at l (n + i).
Proof.
  intros. unfold byte_at, zdrop. rewrite Z2Nat.inj_add by lia.
  generalize (Z.to_nat n) (Z.to_nat i). intros a b. revert l.
  induction a as [|a IH]; intros [|x l]; simpl; try done. by destruct b.
Qed.

Lemma u16_value data i v :
  _u16 data i = Ok v → v = byte_at data i + 256 * byte_at data (i + 1).
Proof. unfold _u16. case_match; [done|]. by intros [= <-]. Qed.

Lemma byte_at_ok data i : bytes_ok data → is_byte (byte_at data i).
Proof.
  intros H. unfold byte_at. destruct (nth_in_or_default (Z.to_nat i) data 0) as [Hin| ->].
  - unfold bytes_ok in H. rewrite List.Forall_forall in H. auto.
  - unfold is_byte. lia.
Qed.

(** What a successful parse says of the lengths in the packet. *)
Lemma parse_ok_lengths p s f :
  parse_response_frame p s = Ok f →
  let wl := byte_at p 2 + 256 * byte_at p 3 in
  let plen := byte_at p 22 + 256 * byte_at p 23 in
  28 <= wl <= zlen p ∧ wl = 28 + plen.
Proof.
  intros H. unfold parse_response_frame in H. case_if_in H; [done|]. zbool.
  apply result_bind_ok in H as (wl & Hwl & H). apply u16_value in Hwl.
  repeat (case_if_in H; [done|]). zbool. clear Heqb3.
  apply result_bind_ok in H as (crc & _ & H). apply result_bind_ok in H as (mseq & _ & H).
  apply result_bind_ok in H as (fin & _ & H). apply result_bind_ok in H as (seg & _ & H).
  apply result_bind_ok in H as (plen & Hp & H). apply u16_value in Hp.
  repeat (case_if_in H; [done|]). zbool.
  assert (zlen (zdrop 4 (ztake wl p)) = wl - 4) as Hb.
  { rewrite zlen_zdrop; rewrite zlen_ztake; lia. }
  rewrite !byte_at_zdrop, !byte_at_ztake in Hp by lia.
  replace (4 + 18) with 22 in Hp by lia. replace (4 + (18 + 1)) with 23 in Hp by lia.
  simpl. change (2 + 1) with 3 in Hwl. lia.
Qed.

(** A packet with consistent lengths is a raw frame with padding. *)
Lemma packet_is_raw p :
  bytes_ok p →
  let wl := byte_at p 2 + 256 * byte_at p 3 in
  let plen := byte_at p 22 + 256 * byte_at p 23 in
  28 <= wl <= zlen p → wl = 28 + plen →
  ∃ seq ty h crc mseq fin seg pay tr pad,
    p = raw_frame seq ty (28 + zlen pay) h crc mseq fin seg (zlen pay) pay tr ++ pad ∧
    zlen h = 4 ∧ zlen tr = 4 ∧ 28 + zlen pay = wl ∧ bytes_ok pay ∧ is_byte seq ∧
    0 <= crc <= 0xFFFFFFFF ∧ 0 <= mseq <= 0xFFFFFFFF ∧ 0 <= fin <= 0xFFFFFFFF ∧
    0 <= seg <= 0xFFFF.
Proof.
  intros Hok wl plen Hwl Hp.
  do 24 (destruct p as [|? p]; [autorewrite with motu in Hwl; lia|]).
  repeat (apply bytes_ok_cons in Hok as [? Hok]).
  unfold byte_at in wl, plen. simpl in wl, plen.
  autorewrite with motu in Hwl.
  assert (zlen (ztake plen p) = plen) as Hpl
    by (apply zlen_ztake; unfold plen, is_byte in *; lia).
  assert (zlen (zdrop plen p) = zlen p - plen) as Hdl
    by (apply zlen_zdrop; unfold plen, is_byte in *; lia).
  eexists z, z0, [z3; z4; z5; z6],
    (z7 + 256 * z8 + 65536 * z9 + 16777216 * z10),
    (z11 + 256 * z12 + 65536 * z13 + 16777216 * z14),
    (z15 + 256 * z16 + 65536 * z17 + 16777216 * z18),
    (z19 + 256 * z20), (ztake plen p), (ztake 4 (zdrop plen p)), (zdrop 4 (zdrop plen p)).
  split_and!; eauto with motu; try (unfold is_byte in *; lia).
  - unfold raw_frame, raw_wrapper, raw_body. rewrite Hpl. rewrite <- Hp. unfold wl, plen.
    rewrite !le16_of_bytes, !le32_of_bytes by done. simpl.
    fold plen. rewrite <- app_assoc. do 24 f_equal. by rewrite !ztake_zdrop.
  - apply zlen_ztake. lia.
Qed.

Lemma is_response_header_iff h :
  is_response_header h = true ↔ h = s! "NREK" ∨ h = s! "PTTH".
Proof. unfold is_response_header. by rewrite orb_true_iff, !zl_eqb_eq. Qed.

#[local] Ltac frame_cbn :=
  cbn [header wrapper_seq wrapper_type wrapper_len message_seq final segment_index payload] in *.

Lemma parse_encode f pad :
  frame_wf f → parse_response_frame (encode_response_frame f ++ pad) (message_seq f) = Ok f.
Proof.
  intros [Hh Hs Ht Hl Hmax Hm Hseg Hp]. unfold encode_response_frame, wrapper_bytes.
  destruct f as [h ws wt wl ms fin seg pay]; frame_cbn; subst wt wl.
  rewrite parse_raw_frame; try done; try lia.
  - rewrite (proj2 (is_response_header_iff _) Hh), !Z.eqb_refl, zl_eqb_refl.
    by destruct fin.
  - destruct Hh as [-> | ->]; done.
  - apply crc32_range.
  - destruct fin; lia.
Qed.

(** What is accepted: the encodings of well-formed frames, with padding. *)
Lemma parse_frame_iff p s f :
  bytes_ok p →
  parse_response_frame p s = Ok f ↔
  frame_wf f ∧ message_seq f = s ∧ ∃ pad, p = encode_response_frame f ++ pad.
Proof.
  intros Hok. split.
  2: { intros (Hwf & <- & pad & ->). by apply parse_encode. }
  intros H. destruct (parse_ok_lengths _ _ _ H) as [Hwl Hp].
  destruct (packet_is_raw p Hok Hwl Hp) as
    (seq & ty & h & crc & mseq & fin & seg & pay & tr & pad & -> & Hh & Htr & Hlen & Hpay
     & Hseq & Hcrc & Hm & Hf & Hsg).
  assert (28 + zlen pay <= 0xFFFF) as Hmax.
  { pose proof (le16_bytes (28 + zlen pay)) as Hb. revert Hlen.
    unfold raw_frame, raw_wrapper, byte_at, le16. simpl.
    pose proof (Z.mod_pos_bound (28 + zlen pay) 256).
    pose proof (Z.mod_pos_bound ((28 + zlen pay) / 256) 256). lia. }
  rewrite parse_raw_frame in H by done.
  repeat (case_if_in H; [done|]). zbool. injection H as <-.
  apply is_response_header_iff in Heqb0. apply zl_eqb_eq in Heqb4.
  subst. split; [by constructor|]. split; [done|]. exists pad. do 2 f_equal.
  unfold encode_response_frame. simpl. f_equal.
  by apply orb_true_iff in Heqb2 as [->%Z.eqb_eq | ->%Z.eqb_eq].
Qed.

(** C8. A response frame is accepted exactly when it is the encoding of a
    well-formed frame with the expected message sequence, possibly followed by
    transport padding, and then the parsed frame is that frame: nothing else is
    accepted (lengths, header tag, final flag, checksum and trailer are all
    enforced) and nothing well formed is refused. *)
Theorem parse_response_frame_iff p s f :
  bytes_ok p →
  parse_response_frame p s = Ok f ↔
  frame_wf f ∧ message_seq f = s ∧ ∃ pad, p = encode_response_frame f ++ pad.
Proof. apply parse_frame_iff. Qed.

Definition sample_frame : ResponseFrame :=
  {| header := s! "NREK"; wrapper_seq := 5; wrapper_type := 0; wrapper_len := 30;
     message_seq := 2; final := true; segment_index := 0; payload := [123; 125] |}.

Lemma sample_frame_wf : frame_wf sample_frame.
Proof. constructor; simpl; try done; try (left; done); repeat constructor; done. Qed.

Lemma parse_response_frame_iff_witness :
  bytes_ok (encode_response_frame sample_frame ++ [0]) ∧
  parse_response_frame (encode_response_frame sample_frame ++ [0]) 2 = Ok sample_frame.
Proof.
  assert (bytes_ok (encode_response_frame sample_frame ++ [0])) as Hok.
  { unfold bytes_ok, is_byte. vm_compute. repeat constructor; done. }
  split; [exact Hok|]. apply (parse_response_frame_iff _ 2 sample_frame Hok).
  split; [exact sample_frame_wf|]. split; [reflexivity|]. by exists [0].
Defined.

(** Corruption of one payload byte is always detected: a well-formed frame
    in which a single byte of the payload was changed is refused with the CRC
    mismatch, whatever follows it. *)
Theorem corrupted_byte_rejected f p a b q pad :
  frame_wf f → payload f = p ++ a :: q → is_byte b → a ≠ b →
  let pay := p ++ b :: q in
  parse_response_frame
    (raw_frame (wrapper_seq f) (wrapper_type f) (wrapper_len f) (header f)
       (crc32 (payload f)) (message_seq f) (if final f then 1 else 0) (segment_index f)
       (zlen (payload f)) pay (wrapper_bytes f) ++ pad) (message_seq f)
  = frame_err (CrcMismatch (crc32 (payload f)) (crc32 pay)).
Proof.
  intros [Hh Hs Ht Hl Hmax Hm Hseg Hp] Hpay Hb Hne pay.
  assert (zlen (payload f) = zlen pay) as Hz
    by (rewrite Hpay; unfold pay; autorewrite with motu; lia).
  rewrite Hl, Hz. rewrite parse_raw_frame; try done; try lia.
  - rewrite Ht, Z.eqb_refl, (proj2 (is_response_header_iff _) Hh), Z.eqb_refl.
    replace (_ || _) with true by (destruct (final f); done). simpl negb. cbv iota.
    destruct (crc32 (payload f) =? crc32 pay) eqn:E; [|done]. zbool.
    rewrite Hpay in E, Hp. apply bytes_ok_app in Hp as [? [? ?]%bytes_ok_cons].
    apply crc32_detects_byte in E; done.
  - destruct Hh as [-> | ->]; done.
  - apply crc32_range.
  - destruct (final f); lia.
Qed.

Lemma corrupted_byte_rejected_witness :
  frame_wf sample_frame ∧
  parse_response_frame
    (raw_frame 5 0 30 (s! "NREK") (crc32 [123; 125]) 2 1 0 2 [123; 124] [5; 0; 30; 0] ++ []) 2
  = frame_err (CrcMismatch (crc32 [123; 125]) (crc32 [123; 124])).
Proof.
  split; [exact sample_frame_wf|].
  exact (corrupted_byte_rejected sample_frame [123] 125 124 [] []
    sample_frame_wf eq_refl ltac:(unfold is_byte; lia) ltac:(lia)).
Defined.

(** * Segments *)

(** The segments of a response, as the device numbers them from [i]. *)
Fixpoint segments_ok (i : Z) (frames : list ResponseFrame) : Prop :=
  match frames with
  | [] => True
  | f :: rest => segment_index f = i ∧ final f = bool_decide (rest = []) ∧
                 segments_ok (i + 1) rest
  end.

Lemma join_from_ok n i frames b :
  i + zlen frames = n →
  join_from n i frames = Ok b ↔ segments_ok i frames ∧ b = concat (payload <$> frames).
Proof.
  revert i b. induction frames as [|f rest IH]; intros i b Hn.
  { simpl. split; [by intros [= <-]|by intros [_ ->]]. }
  rewrite zlen_cons in Hn. simpl.
  assert ((i =? n - 1) = bool_decide (rest = [])) as Hlast.
  { destruct (i =? n - 1) eqn:E; symmetry; zbool.
    - apply bool_decide_eq_true, zlen_zero. lia.
    - apply bool_decide_eq_false. intros ->. rewrite zlen_nil in Hn. lia. }
  rewrite Hlast. destruct (segment_index f =? i) eqn:E; zbool; simpl.
  2: { split; [done|]. by intros [[? _] _]. }
  destruct (final f) eqn:Ef, (bool_decide (rest = [])) eqn:Er; simpl;
    try (split; [done | by intros [(_ & ? & _) _]]).
  all: rewrite result_bind_ok; setoid_rewrite IH; [|lia];
    split; [intros (c & [? ->] & [= <-]) | intros [(_ & _ & ?) ->]]; eauto 6.
Qed.

Lemma join_parsed_ok frames b :
  join_parsed_response_frames frames = Ok b ↔
  segments_ok 0 frames ∧ b = concat (payload <$> frames).
Proof.
  destruct frames as [|f rest].
  - simpl. split; [by intros [= <-] | by intros [_ ->]].
  - apply join_from_ok. lia.
Qed.

(** Joining segments: the frames of a response join exactly when they are
    numbered from 0 in order and the final flag is on the last one and only on
    it, and the result is the concatenation of their payloads. *)
Theorem join_parsed_response_frames_iff frames b :
  join_parsed_response_frames frames = Ok b ↔
  segments_ok 0 frames ∧ b = concat (payload <$> frames).
Proof. apply join_parsed_ok. Qed.

(** The device's side: a message cut into chunks, sent as numbered segments. *)
Definition segment_frame (hd : bytes) (s i : Z) (fin : bool) (chunk : bytes) : ResponseFrame :=
  {| header := hd; wrapper_seq := Z.land (i + 1) 0xFF; wrapper_type := 0;
     wrapper_len := 28 + zlen chunk; message_seq := s; final := fin;
     segment_index := i; payload := chunk |}.

Fixpoint segment (hd : bytes) (s i : Z) (chunks : list bytes) : list ResponseFrame :=
  match chunks with
  | [] => []
  | c :: cs => segment_frame hd s i (bool_decide (cs = [])) c :: segment hd s (i + 1) cs
  end.

Definition chunk_ok (c : bytes) : Prop := bytes_ok c ∧ zlen c <= 0xFFFF - 28.

Lemma land_255_byte z : is_byte (Z.land z 0xFF).
Proof.
  unfold is_byte. change 0xFF with (Z.ones 8). rewrite Z.land_ones by lia.
  apply Z.mod_pos_bound. lia.
Qed.

Lemma segment_wf hd s i chunks :
  (hd = s! "NREK" ∨ hd = s! "PTTH") → 0 <= s <= 0xFFFFFFFF →
  0 <= i → i + zlen chunks <= 0x10000 → Forall chunk_ok chunks →
  Forall frame_wf (segment hd s i chunks).
Proof.
  intros Hhd Hs. revert i. induction chunks as [|c cs IH]; intros i Hi Hn Hc; [done|].
  rewrite zlen_cons in Hn. pose proof (zlen_nonneg cs).
  apply Forall_cons_iff in Hc as [[? ?] ?]. simpl. constructor; [|apply IH; auto; lia].
  constructor; simpl; auto using land_255_byte; lia.
Qed.

Lemma segment_segments hd s i chunks :
  segments_ok i (segment hd s i chunks) ∧
  payload <$> segment hd s i chunks = chunks.
Proof.
  revert i. induction chunks as [|c cs IH]; intros i; [done|].
  destruct (IH (i + 1)) as [? Hp].
  cbn [segment segments_ok segment_frame segment_index final fmap list_fmap payload].
  change (list_fmap _ _ payload (segment hd s (i + 1) cs))
    with (payload <$> segment hd s (i + 1) cs).
  rewrite Hp. split_and!; auto. apply bool_decide_ext. by destruct cs.
Qed.

Lemma segment_mseq hd s i chunks f : f ∈ segment hd s i chunks → message_seq f = s.
Proof.
  revert i. induction chunks as [|c cs IH]; intros i; simpl; [by inversion 1|].
  rewrite elem_of_cons. intros [-> | Hf]; [done|]. by apply IH in Hf.
Qed.

(** Reassembly: whatever chunks the device cuts a response into, parsing
    and joining the frames it sends for them, each with its own transport
    padding, gives the response back. *)
Theorem join_response_frames_roundtrip hd s chunks pads :
  (hd = s! "NREK" ∨ hd = s! "PTTH") → 0 <= s <= 0xFFFFFFFF →
  zlen chunks <= 0x10000 → Forall chunk_ok chunks → length pads = length chunks →
  join_response_frames
    (zip_with (λ f pad, encode_response_frame f ++ pad) (segment hd s 0 chunks) pads) s
  = Ok (concat chunks).
Proof.
  intros Hhd Hs Hn Hc Hl. unfold join_response_frames. set (fs := segment hd s 0 chunks).
  assert (Forall frame_wf fs) as Hwf by (apply segment_wf; auto; lia).
  assert (∀ f, f ∈ fs → message_seq f = s) as Hms by (intros f; apply segment_mseq).
  assert (length pads = length fs) as Hl'.
  { rewrite Hl. unfold fs. clear. generalize 0.
    induction chunks; intros i; simpl; auto. }
  rstep fs.
  - clear Hl. clearbody fs. revert pads Hl'.
    induction Hwf as [|f fs Hf _ IH]; intros [|pad pads] Hl'; try done. cbn [zip_with mapR].
    rewrite <- (Hms f) by constructor. rstep f; [by apply parse_encode|].
    rstep fs; [|done]. rewrite (Hms f) by constructor.
    apply IH; [intros g Hg; apply Hms; by constructor|]. by injection Hl'.
  - apply join_parsed_ok. destruct (segment_segments hd s 0 chunks) as [? Hp].
    split; [done|]. unfold fs. by rewrite Hp.
Qed.

Lemma join_response_frames_roundtrip_witness :
  join_response_frames
    (zip_with (λ f pad, encode_response_frame f ++ pad)
       (segment (s! "NREK") 7 0 [[1; 2]; [3]]) [[]; [0; 0]]) 7 = Ok [1; 2; 3].
Proof.
  apply (join_response_frames_roundtrip (s! "NREK") 7 [[1; 2]; [3]] [[]; [0; 0]]);
    [by left | lia | by vm_compute | | done].
  repeat constructor; unfold is_byte; try lia; by vm_compute.
Defined.

(** * Bracketed texts *)

(** The inside of a JSON string literal: no bare quote, backslash escapes the
    next byte. *)
Inductive str_body : bytes → Prop :=
  | sb_nil : str_body []
  | sb_char c l : c ≠ 34 → c ≠ 92 → str_body l → str_body (c :: l)
  | sb_esc c l : str_body l → str_body (92 :: c :: l).

(** Texts whose brackets match outside string literals. *)
Inductive balanced : bytes → Prop :=
  | bal_nil : balanced []
  | bal_char c l : c ∉ [34; 123; 125; 91; 93] → balanced l → balanced (c :: l)
  | bal_str s l : str_body s → balanced l → balanced (34 :: s ++ 34 :: l)
  | bal_obj m l : balanced m → balanced l → balanced (123 :: m ++ 125 :: l)
  | bal_arr m l : balanced m → balanced l → balanced (91 :: m ++ 93 :: l).

(** One object or one array. *)
Definition container (l : bytes) : Prop :=
  ∃ m, balanced m ∧ (l = 123 :: m ++ [125] ∨ l = 91 :: m ++ [93]).

Lemma balanced_app l k : balanced l → balanced k → balanced (l ++ k).
Proof.
  intros Hl Hk. induction Hl; simpl; rewrite <- ?app_assoc; simpl;
    [done | by constructor ..].
Qed.

Lemma str_body_snoc_split s r k :
  str_body s → container_scan k true false (s ++ 34 :: r) = container_scan k false false r.
Proof.
  induction 1; simpl; [done| |done].
  apply Z.eqb_neq in H, H0. by rewrite H, H0.
Qed.

(** The scanner passes over a balanced text without changing its stack. *)
Lemma scan_balanced m stack r :
  balanced m → stack ≠ [] →
  container_scan stack false false (m ++ r) = container_scan stack false false r.
Proof.
  intros Hm. revert stack r. induction Hm as [|c l Hc _ IH|s l Hs _ IH|m l _ IHm _ IHl|m l _ IHm _ IHl];
    intros stack r Hst; simpl; [done| | | |].
  - rewrite !not_elem_of_cons in Hc. destruct Hc as (H1 & H2 & H3 & H4 & H5 & _).
    apply Z.eqb_neq in H1, H2, H3, H4, H5. rewrite H1, H2, H3, H4, H5. simpl. by apply IH.
  - rewrite <- app_assoc. simpl. rewrite str_body_snoc_split by done. by apply IH.
  - rewrite <- app_assoc. simpl. rewrite IHm by done. simpl.
    destruct stack; [done|]. by apply IHl.
  - rewrite <- app_assoc. simpl. rewrite IHm by done. simpl.
    destruct stack; [done|]. by apply IHl.
Qed.

(** Reading a string literal to its closing quote. *)
Lemma scan_string_inv k l esc :
  container_scan k true esc l = true →
  ∃ s r, l = s ++ 34 :: r ∧ container_scan k false false r = true ∧
         (if esc then ∃ c s', s = c :: s' ∧ str_body s' else str_body s).
Proof.
  revert esc. induction l as [|c l IH]; intros esc; simpl; [done|].
  destruct esc.
  { intros (s & r & -> & Hr & Hs)%IH. exists (c :: s), r. eauto 6. }
  destruct (c =? 92) eqn:E92; zbool; [subst|].
  { intros (s & r & -> & Hr & (c & s' & -> & Hs))%IH.
    exists (92 :: c :: s'), r. split_and!; eauto using str_body. }
  destruct (c =? 34) eqn:E34; zbool; [subst|].
  { intros Hr. exists [], l. split_and!; eauto using str_body. }
  intros (s & r & -> & Hr & Hs)%IH. exists (c :: s), r. split_and!; eauto using str_body.
Qed.

(** The text closes the brackets of the stack one after the other. *)
Fixpoint closes (stack : list Z) (l : bytes) : Prop :=
  match stack with
  | [] => False
  | t :: stack' =>
      ∃ m r, balanced m ∧ l = m ++ t :: r ∧
             match stack' with [] => r = [] | _ => closes stack' r end
  end.

Lemma closes_prepend x stack l : balanced x → closes stack l → closes stack (x ++ l).
Proof.
  intros Hx. destruct stack as [|t stack]; simpl; [done|].
  intros (m & r & Hm & -> & Hr). exists (x ++ m), r.
  rewrite <- app_assoc. eauto using balanced_app.
Qed.

(** A bracketed group in front of what closes the stack. *)
Lemma closes_open o t stack l :
  (o = 123 ∧ t = 125 ∨ o = 91 ∧ t = 93) → stack ≠ [] →
  closes (t :: stack) l → closes stack (o :: l).
Proof.
  intros Ho Hst (m & r & Hm & -> & Hr). destruct stack as [|u st]; [done|].
  replace (o :: m ++ t :: r) with ((o :: m ++ [t]) ++ r) by (simpl; by rewrite <- app_assoc).
  apply closes_prepend; [|done].
  destruct Ho as [[-> ->] | [-> ->]];
    [apply (bal_obj m []) | apply (bal_arr m [])]; by try constructor.
Qed.

Lemma scan_closes n stack l :
  (length l < n)%nat → stack ≠ [] → container_scan stack false false l = true →
  closes stack l.
Proof.
  revert stack l. induction n as [|n IH]; intros stack l Hn Hst; [lia|].
  destruct l as [|c l]; [done|]. cbn [container_scan]. simpl in Hn.
  destruct (c =? 34) eqn:E34; zbool; [subst|].
  { intros (s & r & -> & Hr & Hs)%scan_string_inv. rewrite length_app in Hn. simpl in Hn.
    apply IH in Hr; [|lia|done].
    replace (34 :: s ++ 34 :: r) with ((34 :: s ++ [34]) ++ r)
      by (simpl; by rewrite <- app_assoc).
    apply closes_prepend; [apply (bal_str s []); by try constructor | done]. }
  destruct (c =? 123) eqn:E123; zbool; [subst|].
  { intros H. apply (closes_open 123 125); auto. apply IH; [lia|done|done]. }
  destruct (c =? 91) eqn:E91; zbool; [subst|].
  { intros H. apply (closes_open 91 93); auto. apply IH; [lia|done|done]. }
  destruct (_ || _) eqn:Ec.
  - destruct stack as [|t st]; [done|]. destruct (c =? t) eqn:Et; [|done]. zbool. subst t.
    simpl negb. cbv iota. intros H. exists [], l. split; [constructor|]. split; [done|].
    destruct st as [|u st]; [by destruct l|]. apply IH; [lia|done|done].
  - zbool. intros Hscan. apply (closes_prepend [c]); [|apply IH; [lia|done|done]].
    constructor; [|constructor]. rewrite !not_elem_of_cons.
    split_and!; try done. apply not_elem_of_nil.
Qed.

Lemma container_head_ws c l :
  container (c :: l) → is_json_ws c = false ∧ ∃ m d, c :: l = m ++ [d] ∧ is_json_ws d = false.
Proof.
  intros (m & _ & [[= -> ->] | [= -> ->]]); split; try done.
  - by exists (123 :: m), 125.
  - by exists (91 :: m), 93.
Qed.

Lemma container_scan_iff c l :
  container (c :: l) ↔
  (if c =? 123 then container_scan [125] false false l
   else if c =? 91 then container_scan [93] false false l else false) = true.
Proof.
  split.
  - intros (m & Hm & [[= -> ->] | [= -> ->]]); simpl; by rewrite scan_balanced.
  - destruct (c =? 123) eqn:E; zbool; [subst|destruct (c =? 91) eqn:E'; zbool; [subst|done]];
      intros H; apply (scan_closes (S (length l))) in H as (m & r & Hm & -> & ->);
      try done; try lia; exists m; auto.
Qed.

Lemma lstrip_by_split p l : ∃ w, l = w ++ lstrip_by p l ∧ forallb p w = true.
Proof.
  induction l as [|c l (w & Hl & Hw)]; [by exists []|]. simpl.
  destruct (p c) eqn:E; [|by exists []].
  exists (c :: w). simpl. rewrite E, Hw. split; [by f_equal|done].
Qed.

Lemma forallb_reverse (p : Z → bool) l : forallb p (reverse l) = forallb p l.
Proof.
  apply eq_true_iff_eq. rewrite !forallb_forall. setoid_rewrite <- list_elem_of_In.
  by setoid_rewrite elem_of_reverse.
Qed.

Lemma strip_by_split p l :
  ∃ w1 w2, l = w1 ++ strip_by p l ++ w2 ∧ forallb p w1 = true ∧ forallb p w2 = true.
Proof.
  destruct (lstrip_by_split p l) as (w1 & Hl & Hw1).
  destruct (lstrip_by_split p (reverse (lstrip_by p l))) as (w2 & Hr & Hw2).
  exists w1, (reverse w2). rewrite forallb_reverse. split_and!; [|done|done].
  rewrite Hl at 1. f_equal. apply (f_equal reverse) in Hr.
  rewrite reverse_involutive, reverse_app in Hr. exact Hr.
Qed.

Lemma strip_by_pad p w1 l w2 c d m :
  forallb p w1 = true → forallb p w2 = true → l = c :: m → p c = false →
  (∃ n, l = n ++ [d]) → p d = false → strip_by p (w1 ++ l ++ w2) = l.
Proof.
  intros H1 H2 -> Hc [n Hd] Hpd. unfold strip_by.
  rewrite lstrip_by_all by done. simpl app. rewrite lstrip_by_head by done.
  change (c :: m ++ w2) with ((c :: m) ++ w2).
  rewrite rstrip_by_all by done. rewrite Hd. by apply rstrip_by_last.
Qed.

(** Body classification: a body is reported as JSON exactly when it is one
    object or array, brackets matching outside string literals, between
    optional JSON whitespace. *)
Theorem is_single_json_container_iff b :
  is_single_json_container b = true ↔
  ∃ w1 c w2, b = w1 ++ c ++ w2 ∧ container c ∧
             forallb is_json_ws w1 = true ∧ forallb is_json_ws w2 = true.
Proof.
  unfold is_single_json_container. split.
  - destruct (strip_by_split is_json_ws b) as (w1 & w2 & Hb & Hw1 & Hw2).
    destruct (strip_by is_json_ws b) as [|c l] eqn:E; [done|].
    intros H%container_scan_iff. eauto 7.
  - intros (w1 & c & w2 & -> & Hc & Hw1 & Hw2).
    destruct c as [|c l]; [by destruct Hc as (? & _ & [? | ?])|].
    pose proof (container_head_ws c l Hc) as (Hws & m & d & Hm & Hd).
    rewrite (strip_by_pad is_json_ws w1 _ w2 c d l) by eauto.
    by apply container_scan_iff.
Qed.

(** ** Extraction *)

#[local] Ltac shift_eq :=
  autorewrite with motu;
  match goal with |- context [json_end ?d false false ?r] =>
    destruct (json_end d false false r); simpl; [f_equal; lia|done] end.

Lemma json_end_string s d r :
  str_body s →
  json_end d true false (s ++ 34 :: r) = (Z.add (zlen s + 1)) <$> json_end d false false r.
Proof.
  induction 1 as [|c l H1 H2 _ IH|c l _ IH]; simpl.
  - shift_eq.
  - apply Z.eqb_neq in H1, H2. rewrite H1, H2, IH, zlen_cons.
    shift_eq.
  - rewrite IH, !zlen_cons. shift_eq.
Qed.

Lemma json_end_balanced m d r :
  balanced m → 1 <= d →
  json_end d false false (m ++ r) = (Z.add (zlen m)) <$> json_end d false false r.
Proof.
  intros Hm. revert d r.
  induction Hm as [|c l Hc _ IH|s l Hs _ IH|m l _ IHm _ IHl|m l _ IHm _ IHl];
    intros d r Hd.
  - simpl. shift_eq.
  - rewrite !not_elem_of_cons in Hc. destruct Hc as (H1 & H2 & H3 & _).
    apply Z.eqb_neq in H1, H2, H3. simpl. rewrite H1, H2, H3, IH, zlen_cons by done.
    shift_eq.
  - simpl. rewrite <- app_assoc. simpl. rewrite json_end_string, IH by done.
    shift_eq.
  - simpl. rewrite <- app_assoc. simpl. rewrite IHm by lia. simpl.
    replace (d + 1 - 1) with d by lia.
    replace (d =? 0) with false by (symmetry; lia).
    rewrite IHl by lia. shift_eq.
  - simpl. rewrite <- app_assoc. simpl. rewrite IHm by lia. simpl.
    rewrite IHl by lia. shift_eq.
Qed.

Lemma find_sub_brace pre r : 123 ∉ pre → find_sub [123] (pre ++ 123 :: r) = Some (zlen pre).
Proof.
  induction pre as [|c pre IH]; intros Hp; [done|].
  rewrite not_elem_of_cons in Hp. destruct Hp as [Hc Hp].
  cbn [app find_sub starts_with]. replace (123 =? c) with false by (symmetry; lia).
  rewrite andb_false_l, (IH Hp), zlen_cons. simpl. f_equal. lia.
Qed.

(** JSON extraction: out of a response with framing noise around it, the
    first object comes back byte for byte, whatever brackets or quotes its
    strings contain and whatever follows it. *)
Theorem extract_json_bytes_object pre m post :
  123 ∉ pre → balanced m →
  extract_json_bytes (pre ++ (123 :: m ++ [125]) ++ post) = Some (123 :: m ++ [125]).
Proof.
  intros Hp Hm. unfold extract_json_bytes.
  change ((123 :: m ++ [125]) ++ post) with (123 :: ((m ++ [125]) ++ post)).
  rewrite find_sub_brace by done. cbn [mbind option_bind].
  rewrite zdrop_app by done. rewrite <- app_assoc.
  assert (json_end 0 false false (123 :: m ++ [125] ++ post) = Some (2 + zlen m)) as ->.
  { cbn [json_end]. simpl Z.eqb. cbv iota. rewrite json_end_balanced by (done || lia).
    simpl. f_equal. lia. }
  cbn [mbind option_bind]. f_equal. change (123 :: m ++ [125] ++ post) with
    ((123 :: m) ++ [125] ++ post). rewrite app_assoc. apply ztake_app.
  autorewrite with motu. lia.
Qed.

Lemma extract_json_bytes_object_witness :
  extract_json_bytes ([85; 0] ++ (123 :: [34; 123; 92; 34; 34; 58; 91; 49; 93] ++ [125]) ++ [125])
  = Some (123 :: [34; 123; 92; 34; 34; 58; 91; 49; 93] ++ [125]).
Proof.
  apply (extract_json_bytes_object [85; 0] [34; 123; 92; 34; 34; 58; 91; 49; 93] [125]).
  - apply (bool_decide_unpack _). by vm_compute.
  - apply (bal_str [123; 92; 34] [58; 91; 49; 93]).
    + apply sb_char; [lia|lia|]. apply sb_esc. constructor.
    + apply bal_char; [apply (bool_decide_unpack _); by vm_compute|].
      apply (bal_arr [49] []); [|constructor].
      apply bal_char; [apply (bool_decide_unpack _); by vm_compute|constructor].
Defined.

(** * Payload envelopes *)

Lemma u32_total data i : i + 4 <= zlen data → ∃ v, _u32 data i = Ok v.
Proof. intros. unfold _u32. replace (_ <? _) with false by (symmetry; lia). eauto. Qed.

Lemma u32_nonneg data i v : bytes_ok data → _u32 data i = Ok v → 0 <= v.
Proof.
  intros Hd. unfold _u32. case_match; [done|]. intros [= <-].
  pose proof (byte_at_ok data i Hd). pose proof (byte_at_ok data (i + 1) Hd).
  pose proof (byte_at_ok data (i + 2) Hd). pose proof (byte_at_ok data (i + 3) Hd).
  unfold is_byte in *. lia.
Qed.

Lemma read_sized_cases data off end_ :
  bytes_ok data → end_ <= zlen data → 0 <= off →
  _read_sized_value data off end_ = Ok (None, off) ∨
  ∃ b off', _read_sized_value data off end_ = Ok (Some b, off') ∧ off + 4 <= off' <= end_.
Proof.
  intros Hok Hend Hoff. unfold _read_sized_value.
  destruct (end_ <? off + 4) eqn:E; [by left|]. zbool.
  destruct (u32_total data off) as [v Hv]; [lia|].
  pose proof (u32_nonneg _ _ _ Hok Hv). rewrite Hv. simpl.
  destruct (_ || _) eqn:E2; [by left|]. zbool. right. eauto with lia.
Qed.

Section UtomHeaders.
Context (response : bytes) (metadata_end : Z).
Context (Hok : bytes_ok response) (Hend : metadata_end <= zlen response).

(** One round of the header loop: it stops, or goes on further in the data. *)
Lemma utom_headers_round off :
  0 <= off →
  (∃ off1, _read_sized_value response off metadata_end = Ok (None, off1) ∧ off1 = off) ∨
  ∃ n off1, _read_sized_value response off metadata_end = Ok (Some n, off1) ∧ off + 4 <= off1 <= metadata_end.
Proof.
  intros H. destruct (read_sized_cases response off metadata_end) as [E|(b & o & E & ?)]; eauto 6.
Qed.

Lemma utom_headers_total fuel count off e :
  0 <= off → ∃ e', utom_headers fuel response metadata_end count off e = Ok e'.
Proof.
  revert count off e. induction fuel as [|fuel IH]; intros count off e Hoff; simpl; [eauto|].
  case_match; [eauto|].
  destruct (utom_headers_round off Hoff) as [(o & -> & ->)|(n & o & -> & Ho)]; simpl;
    [destruct (utom_headers_round off Hoff) as [(o & -> & ->)|(n & o & -> & Ho)]; simpl; eauto|].
  destruct (utom_headers_round o) as [(o2 & -> & ->)|(v & o2 & -> & Ho2)]; simpl; [lia|eauto|].
  apply IH. lia.
Qed.

(** Enough fuel: beyond the bytes left, more rounds change nothing. *)
Lemma utom_headers_fuel fuel count off e :
  0 <= off → metadata_end - off < Z.of_nat fuel →
  utom_headers (S fuel) response metadata_end count off e
  = utom_headers fuel response metadata_end count off e.
Proof.
  revert count off e. induction fuel as [|fuel IH]; intros count off e Hoff Hf.
  - cbn [utom_headers]. case_match; [done|].
    destruct (utom_headers_round off Hoff) as [(o & -> & ->)|(n & o & -> & Ho)]; [|lia].
    simpl. destruct (utom_headers_round off Hoff) as [(o & -> & ->)|(n & o & -> & Ho)]; done.
  - cbn [utom_headers]. case_match; [done|].
    destruct (utom_headers_round off Hoff) as [(o & -> & ->)|(n & o & -> & Ho)]; simpl.
    + destruct (utom_headers_round off Hoff) as [(o & -> & ->)|(n & o & -> & Ho)]; done.
    + destruct (utom_headers_round o) as [(o2 & -> & ->)|(v & o2 & -> & Ho2)]; [lia|done|].
      simpl. apply IH; lia.
Qed.

Lemma utom_headers_enough k fuel count off e :
  0 <= off → metadata_end - off < Z.of_nat fuel →
  utom_headers (k + fuel) response metadata_end count off e
  = utom_headers fuel response metadata_end count off e.
Proof.
  intros. induction k as [|k IH]; [done|]. rewrite <- IH. apply utom_headers_fuel; lia.
Qed.
End UtomHeaders.

Lemma parse_utom_total response :
  bytes_ok response →
  ∃ r, _parse_utom_response response = Ok r ∧
    match r with
    | None => True
    | Some (b, _, st) => (∃ pre, response = pre ++ b) ∧
                         ∀ s, st = Some s → 100 <= s <= 599
    end.
Proof.
  intros Hok. unfold _parse_utom_response. destruct (_ || _) eqn:E; [by exists None|]. zbool.
  destruct (u32_total response 16) as [ml Hml]; [lia|]. rbind Hml.
  destruct (_ || _) eqn:E2; [by exists None|]. zbool.
  destruct (u32_total response 20) as [rs Hrs]; [lia|]. rbind Hrs.
  destruct (u32_total response 24) as [hc Hhc]; [lia|]. rbind Hhc.
  destruct (utom_headers_total response (20 + ml) Hok ltac:(lia) (length response) hc 28 None)
    as [e He]; [lia|]. rbind He. eexists. split; [done|]. cbv beta. split.
  - exists (ztake (20 + ml) response). by rewrite ztake_zdrop.
  - intros s. unfold in_status_range. destruct (_ && _) eqn:Er; [|done].
    zbool. intros [= <-]. lia.
Qed.

Lemma text_status_range l s : _parse_text_status l = Some s → 100 <= s <= 599.
Proof.
  unfold _parse_text_status, in_status_range.
  destruct (split_ws 2 (strip l)) as [|? [|code ?]]; try done.
  destruct (int10 code) as [v|]; simpl; [|done].
  destruct (_ && _) eqn:E; [|done]. intros [= <-]. zbool. lia.
Qed.

Lemma parse_text_suffix response b e st :
  _parse_text_http_response response = Some (b, e, st) →
  (∃ pre, response = pre ++ b) ∧ ∀ s, st = Some s → 100 <= s <= 599.
Proof.
  unfold _parse_text_http_response. destruct (_split_text_http_response response)
    as [[hb tb]|] eqn:E; simpl; [|done]. intros [= <- <- <-]. split.
  - unfold _split_text_http_response in E. repeat case_match; try done;
      injection E as _ <-; eexists; symmetry; apply ztake_zdrop.
  - intros s. apply text_status_range.
Qed.

Lemma parse_datastore_spec response classify :
  bytes_ok response →
  ∃ p, parse_datastore_response response classify = Ok p ∧
    (∃ pre, response = pre ++ body p) ∧
    (∀ s, status p = Some s → 100 <= s <= 599) ∧
    content_type p = (if classify then Some (datastore_body_content_type (body p)) else None).
Proof.
  intros Hok. unfold parse_datastore_response.
  destruct (parse_utom_total response Hok) as (r & Hr & Hspec). rbind Hr.
  destruct r as [[[b e] st]|].
  - eexists. split; [done|]. simpl. tauto.
  - destruct (_parse_text_http_response response) as [[[b e] st]|] eqn:E.
    + apply parse_text_suffix in E as [? ?]. eexists. split; [done|]. simpl. tauto.
    + eexists. split; [done|]. simpl. split_and!; [by exists []|done|done].
Qed.

(** Response classification never raises, on any byte string, however
    large the header count it announces: the body is always a suffix of the
    response, a reported status is a three-digit HTTP status, and the content
    type is computed when asked for. *)
Theorem parse_datastore_response_total response classify :
  bytes_ok response →
  ∃ p, parse_datastore_response response classify = Ok p ∧
    (∃ pre, response = pre ++ body p) ∧
    (∀ s, status p = Some s → 100 <= s <= 599) ∧
    content_type p = (if classify then Some (datastore_body_content_type (body p)) else None).
Proof. apply parse_datastore_spec. Qed.

Lemma parse_datastore_response_total_witness :
  bytes_ok (s! "HTTP/1.1 200 OK" ++ [10; 10; 123; 125]) ∧
  ∃ p, parse_datastore_response (s! "HTTP/1.1 200 OK" ++ [10; 10; 123; 125]) true = Ok p.
Proof.
  assert (bytes_ok (s! "HTTP/1.1 200 OK" ++ [10; 10; 123; 125])) as Hok
    by (unfold bytes_ok, is_byte; vm_compute; repeat constructor; done).
  split; [exact Hok|].
  destruct (parse_datastore_response_total _ true Hok) as (p & Hp & _). exists p. exact Hp.
Defined.

(** The device's side of a UTOM response. *)
Definition utom_metadata (st : Z) (hs : list (bytes * bytes)) : bytes :=
  le32 st ++ le32 (zlen hs) ++ concat (pair_bytes <$> hs).
Definition utom_response (a b c st : Z) (hs : list (bytes * bytes)) (bod : bytes) : bytes :=
  s! "UTOM" ++ le32 a ++ le32 b ++ le32 c ++ le32 (zlen (utom_metadata st hs))
    ++ utom_metadata st hs ++ bod.

(** The ETag a header list carries: the last header named so, decoded. *)
Definition header_etag (e : option pystr) (h : bytes * bytes) : option pystr :=
  match _decode_header_value h.1 with
  | Some name => if zl_eqb (lower name) (s! "etag") then _decode_header_value h.2 else e
  | None => e
  end.

Lemma read_sized_at pre b r end_ :
  zlen b <= 4096 → zlen pre + 4 + zlen b <= end_ →
  _read_sized_value (pre ++ sized b ++ r) (zlen pre) end_
  = Ok (Some b, zlen pre + 4 + zlen b).
Proof.
  intros Hb Hend. pose proof (zlen_nonneg b). unfold _read_sized_value, sized.
  replace (_ <? _) with false by (symmetry; lia). rewrite <- app_assoc.
  rbind (u32_at pre (zlen b) (b ++ r) (zlen pre) eq_refl ltac:(lia)).
  replace (_ <? _) with false by (symmetry; lia).
  replace (_ <? _) with false by (symmetry; lia). cbn [orb]. do 3 f_equal.
  rewrite (app_assoc pre). apply zslice_mid; autorewrite with motu; lia.
Qed.

Definition small_headers (hs : list (bytes * bytes)) : Prop :=
  Forall (λ p, zlen p.1 <= 4096 ∧ zlen p.2 <= 4096) hs.

Lemma utom_headers_pairs fuel pre hs bod e :
  small_headers hs → (length hs <= fuel)%nat →
  utom_headers fuel (pre ++ concat (pair_bytes <$> hs) ++ bod)
    (zlen (pre ++ concat (pair_bytes <$> hs))) (zlen hs) (zlen pre) e
  = Ok (foldl header_etag e hs).
Proof.
  revert fuel pre e. induction hs as [|[n v] hs IH]; intros fuel pre e Hs Hf.
  { destruct fuel; done. }
  destruct fuel as [|fuel]; [simpl in Hf; lia|].
  apply Forall_cons_iff in Hs as [[Hn Hv] Hs]. simpl in Hn, Hv.
  pose proof (zlen_nonneg hs). pose proof (zlen_nonneg (concat (pair_bytes <$> hs))).
  pose proof (zlen_nonneg n). pose proof (zlen_nonneg v).
  cbn [utom_headers fmap list_fmap concat]. rewrite zlen_cons.
  replace (_ <=? 0) with false by (symmetry; lia).
  change (list_fmap _ _ pair_bytes hs) with (pair_bytes <$> hs).
  change (pair_bytes (n, v)) with (sized n ++ sized v). rewrite <- !app_assoc.
  rewrite read_sized_at by (autorewrite with motu; lia). cbn [mbind result_bind].
  rewrite (app_assoc pre). replace (zlen pre + 4 + zlen n) with (zlen (pre ++ sized n))
    by (autorewrite with motu; lia).
  rewrite read_sized_at by (autorewrite with motu; lia). cbn [mbind result_bind].
  rewrite (app_assoc (pre ++ sized n)).
  replace (zlen (pre ++ sized n) + 4 + zlen v) with (zlen ((pre ++ sized n) ++ sized v))
    by (autorewrite with motu; lia).
  replace (1 + zlen hs - 1) with (zlen hs) by lia.
  match goal with |- utom_headers _ _ ?x _ _ _ = _ =>
    replace x with (zlen (((pre ++ sized n) ++ sized v) ++ concat (pair_bytes <$> hs)))
      by (autorewrite with motu; lia) end.
  rewrite IH by (done || simpl in Hf; lia). done.
Qed.

Lemma length_pairs hs : (length hs <= length (concat (pair_bytes <$> hs)))%nat.
Proof.
  induction hs as [|[n v] hs IH]; [done|].
  cbn [length fmap list_fmap concat]. rewrite length_app.
  change (list_fmap _ _ pair_bytes hs) with (pair_bytes <$> hs).
  assert (8 <= length (pair_bytes (n, v)))%nat; [|lia].
  unfold pair_bytes, sized, le32. simpl. rewrite length_app. simpl. lia.
Qed.

(** Where the parser finds the fields of a UTOM response. *)
Lemma utom_response_layout a b c st hs bod :
  let ps := concat (pair_bytes <$> hs) in
  let r := utom_response a b c st hs bod in
  0 <= st <= 0xFFFFFFFF → 8 + zlen ps <= 0xFFFFFFFF →
  ∃ p3, r = p3 ++ ps ++ bod ∧ zlen p3 = 28 ∧ starts_with (s! "UTOM") r = true ∧
    _u32 r 16 = Ok (8 + zlen ps) ∧ _u32 r 20 = Ok st ∧ _u32 r 24 = Ok (zlen hs).
Proof.
  intros ps r Hst Hm. pose proof (zlen_nonneg hs). pose proof (zlen_nonneg ps).
  assert (zlen hs <= 0xFFFFFFFF) as Hhs.
  { pose proof (length_pairs hs). fold ps in H1. unfold zlen in *. lia. }
  set (pre := s! "UTOM" ++ le32 a ++ le32 b ++ le32 c).
  assert (zlen (utom_metadata st hs) = 8 + zlen ps) as Hml
    by (unfold utom_metadata; autorewrite with motu; fold ps; lia).
  assert (r = pre ++ le32 (8 + zlen ps) ++ le32 st ++ le32 (zlen hs) ++ ps ++ bod) as Hr.
  { unfold r, utom_response, pre. rewrite Hml. unfold utom_metadata.
    rewrite <- !app_assoc. done. }
  exists (pre ++ le32 (8 + zlen ps) ++ le32 st ++ le32 (zlen hs)). split_and!.
  - rewrite Hr, <- !app_assoc. done.
  - unfold pre. autorewrite with motu. done.
  - apply starts_with_app.
  - rewrite Hr. apply u32_at; [done|lia].
  - rewrite Hr, (app_assoc pre). apply u32_at; [done|lia].
  - rewrite Hr, (app_assoc pre), (app_assoc (pre ++ _)). apply u32_at; [done|lia].
Qed.

(** UTOM round trip: a UTOM response with any status, headers of at most
    4096 bytes and any body parses to exactly that body, to the ETag its
    headers carry, and to its status when that is an HTTP status. *)
Theorem utom_response_roundtrip a b c st hs bod classify :
  0 <= st <= 0xFFFFFFFF → small_headers hs →
  zlen (utom_metadata st hs) <= 0xFFFFFFFF →
  parse_datastore_response (utom_response a b c st hs bod) classify =
    Ok {| body := bod; etag := foldl header_etag None hs;
          status := if in_status_range st then Some st else None;
          content_type := if classify then Some (datastore_body_content_type bod) else None |}.
Proof.
  intros Hst Hs Hm. set (ps := concat (pair_bytes <$> hs)).
  assert (zlen (utom_metadata st hs) = 8 + zlen ps) as Hml
    by (unfold utom_metadata; autorewrite with motu; fold ps; lia).
  destruct (utom_response_layout a b c st hs bod Hst) as (p3 & Hr & Hp3 & Hsw & H16 & H20 & H24);
    [fold ps; lia|].
  pose proof (zlen_nonneg ps). pose proof (zlen_nonneg bod).
  assert (zlen (utom_response a b c st hs bod) = 28 + zlen ps + zlen bod) as Hlen
    by (rewrite Hr; fold ps; autorewrite with motu; lia).
  unfold parse_datastore_response, _parse_utom_response.
  rewrite Hlen, Hsw. replace (_ <? 28) with false by (symmetry; lia). cbn [negb orb].
  rbind H16. fold ps. replace (_ <? 20 + _) with false by (symmetry; lia).
  replace (_ <? 8) with false by (symmetry; lia). cbn [orb]. rbind H20. rbind H24.
  rewrite Hr. fold ps.
  assert (length hs <= length (p3 ++ ps ++ bod))%nat as Hfuel
    by (pose proof (length_pairs hs); rewrite !length_app; unfold ps; lia).
  pose proof (utom_headers_pairs _ p3 hs bod None Hs Hfuel) as Hh.
  fold ps in Hh. rewrite zlen_app, Hp3 in Hh.
  replace (20 + (8 + zlen ps)) with (28 + zlen ps) by lia. rewrite Hh.
  cbn [mbind result_bind]. by rewrite (app_assoc p3), zdrop_app by (rewrite zlen_app; lia).
Qed.

Lemma utom_response_roundtrip_witness :
  parse_datastore_response
    (utom_response 8 1 0 200 [(s! "ETag", s! "5678")] [123; 125]) false
  = Ok {| body := [123; 125]; etag := Some (s! "5678"); status := Some 200;
          content_type := None |}.
Proof.
  rewrite (utom_response_roundtrip 8 1 0 200 [(s! "ETag", s! "5678")] [123; 125] false);
    [by vm_compute | lia | repeat constructor; by vm_compute | by vm_compute].
Defined.
