(* ===== verification/Usb.v ===== *)
(** The USB datastore client (class [MotuUsbDatastore] of
    motu_proxy/datastore.py): framing over a transport, the response collection
    loop, [get], [post], [init] and the quiet drain.

    The transport, the clock and the caller's callbacks are the environment:
    the class [UsbEnv] gives their signatures over a world type [W], so every
    theorem holds for any device, timing and failure.  Times are integer
    microseconds.  The mutable object is the record [datastore]; methods are
    computations of the state and exception monad over [datastore * W], so the
    effects made before an exception stay.

    Loops run on fuel that is proved sufficient: [read_chunks_fuel] for the
    reassembly of one logical frame, [collect_loop_fuel] for the response
    collection, [drain_loop_fuel] for the drain. *)
From S2P Require Import Prelude PyText Protocol Parser.

(** * Environment *)

(** Operations of the transport and the clock.  [cancellable_read] is [read()]
    on the transfer that [begin_cancellable_bulk_read] made: it raises
    [InterruptedError] when that was cancelled. *)
Class UsbEnv (W : Type) := {
  monotonic : W → Z * W;
  bulk_write : bytes → W → result Z * W;
  bulk_read : Z → Z → W → result bytes * W;
  supports_cancellable_bulk_reads : bool;
  begin_cancellable_bulk_read : Z → Z → W → result unit * W;
  cancellable_read : W → result bytes * W;
  max_packet_size : Z
}.

(** * State *)

Record ResponseStats := {
  rs_timeout_ms : Z;
  rs_elapsed_us : Z;
  rs_reads : Z;
  rs_accepted_frames : Z;
  rs_ignored_packets : Z;
  rs_ack_packets : Z;
  rs_response_bytes : Z
}.

Record datastore := {
  host_seq : HostSequencer;
  msg_seq : Z;
  last_response_stats : option ResponseStats;
  last_response_etag : option pystr;
  last_response_payload : option DatastorePayload
}.

Definition MAX_MESSAGE_SEQ : Z := 0xFFFFFFFF.
Definition DEFAULT_RESPONSE_TIMEOUT_MS : Z := DEFAULT_TIMEOUT_MS * 2.
Definition DEFAULT_MAX_RESPONSE_FRAMES : Z := 256.
Definition DEFAULT_MAX_IGNORED_PACKETS : Z := 32.
Definition DEFAULT_MAX_RESPONSE_READS : Z :=
  DEFAULT_MAX_RESPONSE_FRAMES * 2 + DEFAULT_MAX_IGNORED_PACKETS + 2.
Definition DEFAULT_MAX_BYTES : Z := 1024 * 1024.

Definition set_host_seq (h : HostSequencer) (d : datastore) : datastore :=
  {| host_seq := h; msg_seq := msg_seq d; last_response_stats := last_response_stats d;
     last_response_etag := last_response_etag d;
     last_response_payload := last_response_payload d |}.
Definition set_msg_seq (m : Z) (d : datastore) : datastore :=
  {| host_seq := host_seq d; msg_seq := m; last_response_stats := last_response_stats d;
     last_response_etag := last_response_etag d;
     last_response_payload := last_response_payload d |}.
Definition set_stats (s : option ResponseStats) (d : datastore) : datastore :=
  {| host_seq := host_seq d; msg_seq := msg_seq d; last_response_stats := s;
     last_response_etag := last_response_etag d;
     last_response_payload := last_response_payload d |}.
Definition set_etag (e : option pystr) (d : datastore) : datastore :=
  {| host_seq := host_seq d; msg_seq := msg_seq d;
     last_response_stats := last_response_stats d; last_response_etag := e;
     last_response_payload := last_response_payload d |}.
Definition set_payload (p : option DatastorePayload) (d : datastore) : datastore :=
  {| host_seq := host_seq d; msg_seq := msg_seq d;
     last_response_stats := last_response_stats d;
     last_response_etag := last_response_etag d; last_response_payload := p |}.

(** [MotuUsbDatastore.__init__]. *)
Definition MotuUsbDatastore_init (seq_start message_seq : Z) : result datastore :=
  h ← HostSequencer_init seq_start;
  Ok {| host_seq := h; msg_seq := message_seq; last_response_stats := None;
        last_response_etag := None; last_response_payload := None |}.

Definition _response_message_seq (packet : bytes) : result (option Z) :=
  if zlen packet <? 16 then Ok None else
  wrapper_len ← _u16 packet 2;
  if (wrapper_len <? 16) || (zlen packet <? wrapper_len) then Ok None else
  let body := zslice 4 wrapper_len packet in
  if (zlen body <? 12) || negb (is_response_header (ztake 4 body)) then Ok None else
  s ← _u32 body 8; Ok (Some s).

Section Client.
Context {W : Type} `{UsbEnv W}.

Definition St : Type := datastore * W.

(** * Primitive effects *)

Definition env {A} (f : W → A * W) : M St A := λ s,
  let '(a, w) := f s.2 in (Ok a, (s.1, w)).
Definition envR {A} (f : W → result A * W) : M St A := λ s,
  let '(r, w) := f s.2 in (r, (s.1, w)).
Definition obj (f : datastore → datastore) : M St unit := λ s, (Ok tt, (f s.1, s.2)).
Definition this {A} (f : datastore → A) : M St A := λ s, (Ok (f s.1), s).

Definition _next_host_seq : M St Z := λ s,
  let '(q, h) := take_seq (host_seq s.1) in (Ok q, (set_host_seq h s.1, s.2)).

Definition _current_message_seq (d : datastore) : Z := Z.land (msg_seq d) MAX_MESSAGE_SEQ.

Definition _advance_message_seq : M St unit :=
  obj (λ d, set_msg_seq (Z.land (_current_message_seq d + 1) MAX_MESSAGE_SEQ) d).

Definition _write_frame (frame : bytes) : M St unit :=
  written ← envR (bulk_write frame);
  if negb (written =? zlen frame)
  then mraise (ShortUsbWrite written (zlen frame)) else mret tt.

(** * Logical frames *)

(** The callbacks of a call: [should_cancel] and [read_started]. *)
Record callbacks := {
  should_cancel : option (W → bool * W);
  read_timeout_slice_ms : option Z;
  use_cancellable_read : bool;
  read_started : option (bool → W → W)
}.

Definition no_callbacks : callbacks :=
  {| should_cancel := None; read_timeout_slice_ms := None;
     use_cancellable_read := false; read_started := None |}.

Definition notify (cb : callbacks) (active : bool) : M St unit :=
  match read_started cb with
  | None => mret tt
  | Some f => env (λ w, (tt, f active w))
  end.

Definition _bulk_read (size timeout_ms : Z) (cb : callbacks) : M St bytes :=
  if negb (use_cancellable_read cb) then envR (bulk_read size timeout_ms)
  else if negb supports_cancellable_bulk_reads
  then mraise (RuntimeError (s! "transport does not support cancellable bulk reads"))
  else
    _ ← envR (begin_cancellable_bulk_read size timeout_ms);
    _ ← notify cb true;
    mfinally
      (mcatch (envR cancellable_read)
         (λ e, match e with
               | InterruptedError => mraise DatastoreCancelled
               | _ => mraise e
               end))
      (notify cb false).

(** [getattr(transport, "max_packet_size", 512) or 512]. *)
Definition max_chunk : Z :=
  if max_packet_size =? 0 then DEFAULT_MAX_USB_CHUNK else max_packet_size.

(** The loop [while got < expected]. *)
Fixpoint read_chunks (fuel : nat) (timeout_ms : Z) (cb : callbacks) (expected got : Z)
    (chunks : bytes) : M St (Z * bytes) :=
  if negb (got <? expected) then mret (got, chunks) else
  match fuel with
  | O => mret (got, chunks)
  | S fuel =>
      chunk ← _bulk_read max_chunk timeout_ms cb;
      if zl_eqb chunk [] then mret (got, chunks)
      else read_chunks fuel timeout_ms cb expected (got + zlen chunk) (chunks ++ chunk)
  end.

Definition _read_logical_frame (timeout_ms : Z) (cb : callbacks) : M St bytes :=
  first ← _bulk_read max_chunk timeout_ms cb;
  if zl_eqb first [] then mret [] else
  if zlen first <? 4 then mraise (ShortUsbFrame (zlen first) 4) else
  expected ← mlift (_u16 first 2);
  if expected <? 4 then mraise (ShortUsbFrame (zlen first) expected) else
  '(got, chunks) ← read_chunks (Z.to_nat expected) timeout_ms cb expected (zlen first) first;
  if got <? expected then mraise (ShortUsbFrame got expected) else mret chunks.

(** * Response collection *)

(** Limits and times of one [_collect_response] call. *)
Record collect_cfg := {
  cc_expected : Z;
  cc_max_bytes : Z;
  cc_timeout_ms : Z;
  cc_max_reads : Z;
  cc_max_ignored : Z;
  cc_max_frames : Z;
  cc_started : Z;
  cc_deadline : Z
}.

(** The local variables of its loop. *)
Record collecting := {
  c_frames : list ResponseFrame;
  c_total : Z;
  c_quiet : Z;
  c_reads : Z;
  c_ignored : Z;
  c_acks : Z;
  c_stale_seq : option Z;
  c_stale_frames : Z;
  c_stale_total : Z
}.

Definition collecting0 : collecting :=
  {| c_frames := []; c_total := 0; c_quiet := 0; c_reads := 0; c_ignored := 0;
     c_acks := 0; c_stale_seq := None; c_stale_frames := 0; c_stale_total := 0 |}.

Definition with_quiet (q : Z) (c : collecting) : collecting :=
  {| c_frames := c_frames c; c_total := c_total c; c_quiet := q; c_reads := c_reads c;
     c_ignored := c_ignored c; c_acks := c_acks c; c_stale_seq := c_stale_seq c;
     c_stale_frames := c_stale_frames c; c_stale_total := c_stale_total c |}.
Definition with_reads (n : Z) (c : collecting) : collecting :=
  {| c_frames := c_frames c; c_total := c_total c; c_quiet := c_quiet c; c_reads := n;
     c_ignored := c_ignored c; c_acks := c_acks c; c_stale_seq := c_stale_seq c;
     c_stale_frames := c_stale_frames c; c_stale_total := c_stale_total c |}.
Definition with_ignored (n : Z) (c : collecting) : collecting :=
  {| c_frames := c_frames c; c_total := c_total c; c_quiet := c_quiet c;
     c_reads := c_reads c; c_ignored := n; c_acks := c_acks c;
     c_stale_seq := c_stale_seq c; c_stale_frames := c_stale_frames c;
     c_stale_total := c_stale_total c |}.
Definition with_acks (n : Z) (c : collecting) : collecting :=
  {| c_frames := c_frames c; c_total := c_total c; c_quiet := c_quiet c;
     c_reads := c_reads c; c_ignored := c_ignored c; c_acks := n;
     c_stale_seq := c_stale_seq c; c_stale_frames := c_stale_frames c;
     c_stale_total := c_stale_total c |}.
Definition with_stale (s : option Z) (n t : Z) (c : collecting) : collecting :=
  {| c_frames := c_frames c; c_total := c_total c; c_quiet := c_quiet c;
     c_reads := c_reads c; c_ignored := c_ignored c; c_acks := c_acks c;
     c_stale_seq := s; c_stale_frames := n; c_stale_total := t |}.
Definition with_frame (f : ResponseFrame) (n : Z) (c : collecting) : collecting :=
  {| c_frames := c_frames c ++ [f]; c_total := c_total c + n; c_quiet := c_quiet c;
     c_reads := c_reads c; c_ignored := c_ignored c; c_acks := c_acks c;
     c_stale_seq := c_stale_seq c; c_stale_frames := c_stale_frames c;
     c_stale_total := c_stale_total c |}.

Definition _record_response_stats (k : collect_cfg) (c : collecting) : M St unit :=
  now ← env monotonic;
  obj (set_stats (Some {| rs_timeout_ms := cc_timeout_ms k;
                          rs_elapsed_us := now - cc_started k;
                          rs_reads := c_reads c;
                          rs_accepted_frames := zlen (c_frames c);
                          rs_ignored_packets := c_ignored c;
                          rs_ack_packets := c_acks c;
                          rs_response_bytes := c_total c |})).

(** Record the statistics, then raise. *)
Definition fail {A} (k : collect_cfg) (c : collecting) (e : exn) : M St A :=
  _ ← _record_response_stats k c; mraise e.

(** One more ignored packet than allowed ends the wait. *)
Definition check_ignored (k : collect_cfg) (c : collecting) : M St (collecting * bool) :=
  if cc_max_ignored k <? c_ignored c
  then fail k c (DatastoreTimeout (IgnoredLimit (cc_max_ignored k)))
  else mret (c, false).

Definition ack : M St unit :=
  q ← _next_host_seq; _write_frame (build_ack q).

(** A response packet with another message sequence: it is acknowledged and
    counted, and the stale response it belongs to is bounded. *)
Definition stale_packet (k : collect_cfg) (c : collecting) (packet : bytes) (mseq : Z)
    : M St (collecting * bool) :=
  match parse_response_frame packet mseq with
  | Err (ResponseFrameError _) =>
      let c := with_ignored (c_ignored c + 1) c in
      _ ← ack; check_ignored k c
  | Err e => mraise e
  | Ok parsed_stale =>
      let c := if bool_decide (c_stale_seq c = Some mseq) then c
               else with_stale (Some mseq) 0 0 c in
      let c := with_stale (c_stale_seq c) (c_stale_frames c + 1)
                 (c_stale_total c + zlen packet) c in
      let c := with_ignored (c_ignored c + 1) c in
      _ ← ack;
      if cc_max_frames k <? c_stale_frames c
      then fail k c (DatastoreResponseLimit (StaleFrames (cc_max_frames k))) else
      if cc_max_bytes k <? c_stale_total c
      then fail k c (DatastoreResponseLimit (StaleBytes (cc_max_bytes k))) else
      mret ((if final parsed_stale then with_stale None 0 0 c else c), false)
  end.

(** A response packet with the expected sequence, or none readable. *)
Definition current_packet (k : collect_cfg) (c : collecting) (packet : bytes)
    (mseq : option Z) : M St (collecting * bool) :=
  match parse_response_frame packet (cc_expected k) with
  | Err (ResponseFrameError why) =>
      if bool_decide (mseq = Some (cc_expected k))
      then fail k c (ResponseFrameError why)
      else check_ignored k (with_ignored (c_ignored c + 1) c)
  | Err e => mraise e
  | Ok parsed =>
      let c := with_frame parsed (zlen packet) c in
      if cc_max_frames k <? zlen (c_frames c)
      then fail k c (DatastoreResponseLimit (ResponseFrames (cc_max_frames k))) else
      _ ← ack;
      if cc_max_bytes k <? c_total c
      then fail k c (DatastoreResponseLimit (ResponseBytes (cc_max_bytes k))) else
      mret (c, final parsed)
  end.

(** A packet that was read: [true] is the [break] after the final segment. *)
Definition handle_packet (k : collect_cfg) (c : collecting) (packet : bytes)
    : M St (collecting * bool) :=
  if is_device_ack packet then mret (with_acks (c_acks c + 1) c, false) else
  let body := if 4 <=? zlen packet then zdrop 4 packet else packet in
  if starts_with (s! "NREK") body || starts_with (s! "PTTH") body then
    mseq ← mlift (_response_message_seq packet);
    match mseq with
    | Some m => if negb (m =? cc_expected k) then stale_packet k c packet m
                else current_packet k c packet mseq
    | None => current_packet k c packet None
    end
  else check_ignored k (with_ignored (c_ignored c + 1) c).

(** One round of [while quiet_reads < 2]. *)
Definition collect_round (k : collect_cfg) (cb : callbacks) (c : collecting)
    : M St (collecting * bool) :=
  cancelled ← match should_cancel cb with Some f => env f | None => mret false end;
  if (cancelled : bool) then fail k c DatastoreCancelled else
  if cc_max_reads k <=? c_reads c
  then fail k c (DatastoreTimeout (ReadLimit (cc_max_reads k))) else
  now ← env monotonic;
  if cc_deadline k <=? now
  then fail k c (if negb (bool_decide (c_frames c = []))
                 then DatastoreTimeout (TimedOut (cc_timeout_ms k))
                 else DatastoreNoResponse (NoneAfter (cc_timeout_ms k))) else
  let read_timeout_ms := Z.max 1 ((cc_deadline k - now) / 1000) in
  let read_timeout_ms :=
    match read_timeout_slice_ms cb with
    | Some slice => Z.min read_timeout_ms (Z.max 1 slice)
    | None => read_timeout_ms
    end in
  packet ← mcatch (_read_logical_frame read_timeout_ms cb)
             (λ e, match e with
                   | DatastoreCancelled => fail k c DatastoreCancelled
                   | _ => mraise e
                   end);
  let c := with_reads (c_reads c + 1) c in
  if zl_eqb packet [] then
    early ← match read_timeout_slice_ms cb with
            | Some _ => now ← env monotonic; mret (now <? cc_deadline k)
            | None => mret false
            end;
    mret ((if (early : bool) then c else with_quiet (c_quiet c + 1) c), false)
  else handle_packet k (with_quiet 0 c) packet.

Fixpoint collect_loop (fuel : nat) (k : collect_cfg) (cb : callbacks) (c : collecting)
    : M St collecting :=
  if negb (c_quiet c <? 2) then mret c else
  match fuel with
  | O => mret c
  | S fuel =>
      '(c, stop) ← collect_round k cb c;
      if (stop : bool) then mret c else collect_loop fuel k cb c
  end.

(** What happens after the loop. *)
Definition finish (k : collect_cfg) (c : collecting) : M St bytes :=
  if bool_decide (c_frames c = [])
  then fail k c (DatastoreNoResponse (NoneAfter (cc_timeout_ms k))) else
  match join_parsed_response_frames (c_frames c) with
  | Err (ResponseFrameError why) => fail k c (ResponseFrameError why)
  | Err e => mraise e
  | Ok response =>
      p ← mlift (parse_datastore_response response false);
      _ ← obj (set_payload (Some p));
      _ ← obj (set_etag (etag p));
      _ ← _record_response_stats k c;
      mret response
  end.

Definition _collect_response_with (expected max_bytes timeout_ms max_reads max_ignored
    max_frames : Z) (cb : callbacks) : M St bytes :=
  _ ← obj (set_stats None);
  _ ← obj (set_etag None);
  _ ← obj (set_payload None);
  started ← env monotonic;
  now ← env monotonic;
  let k := {| cc_expected := expected; cc_max_bytes := max_bytes;
              cc_timeout_ms := timeout_ms; cc_max_reads := max_reads;
              cc_max_ignored := max_ignored; cc_max_frames := max_frames;
              cc_started := started; cc_deadline := now + timeout_ms * 1000 |} in
  c ← collect_loop (S (Z.to_nat max_reads)) k cb collecting0;
  finish k c.

(** [_collect_response] with its default limits. *)
Definition _collect_response (expected timeout_ms : Z) (cb : callbacks) : M St bytes :=
  _collect_response_with expected DEFAULT_MAX_BYTES timeout_ms DEFAULT_MAX_RESPONSE_READS
    DEFAULT_MAX_IGNORED_PACKETS DEFAULT_MAX_RESPONSE_FRAMES cb.

(** * Requests *)

Definition get (path etag : pystr) (client : option QueryFieldValue) (timeout_ms : Z)
    (cb : callbacks) (fields : option (list (pystr * QueryFieldValue))) : M St bytes :=
  message_seq ← this _current_message_seq;
  q ← _next_host_seq;
  frame ← mlift (build_get_frame q message_seq path etag (s! "NREK") client fields);
  _ ← _write_frame frame;
  _ ← _advance_message_seq;
  _collect_response message_seq timeout_ms cb.

Definition post (path : pystr) (json_body : bytes) (client : option QueryFieldValue)
    (timeout_ms : Z) : M St bytes :=
  message_seq ← this _current_message_seq;
  q ← _next_host_seq;
  frame ← mlift (build_post_frame q message_seq path json_body (s! "NREK") client);
  _ ← _write_frame frame;
  _ ← _advance_message_seq;
  _collect_response message_seq timeout_ms no_callbacks.

(** The loop of [_drain_quiet]. *)
Fixpoint drain_loop (fuel : nat) (quiet_reads timeout_ms max_reads quiet reads : Z)
    (packets : list bytes) : M St (list bytes) :=
  if negb (quiet <? quiet_reads) then mret packets else
  match fuel with
  | O => mret packets
  | S fuel =>
      if max_reads <=? reads then mraise (DatastoreTimeout (DrainLimit max_reads)) else
      packet ← _read_logical_frame timeout_ms no_callbacks;
      if negb (zl_eqb packet [])
      then drain_loop fuel quiet_reads timeout_ms max_reads 0 (reads + 1)
             (packets ++ [packet])
      else drain_loop fuel quiet_reads timeout_ms max_reads (quiet + 1) (reads + 1) packets
  end.

Definition _drain_quiet (quiet_reads timeout_ms max_reads : Z) : M St (list bytes) :=
  drain_loop (S (Z.to_nat max_reads)) quiet_reads timeout_ms max_reads 0 0 [].

Definition init : M St unit :=
  q ← _next_host_seq;
  _ ← _write_frame (build_init q);
  _ ← _drain_quiet 1 200 16;
  mret tt.

End Client.

(** * Termination *)

Section Termination.
Context {W : Type} `{UsbEnv W}.

(** Replaces the head bind by its result when it is known. *)
#[local] Ltac step_ok H := apply M_bind_ok in H as (? & ? & ? & H).

(** The reassembly loop reads at most as many chunks as bytes are missing. *)
Lemma read_chunks_fuel fuel t cb expected got chunks s :
  expected - got <= Z.of_nat fuel →
  read_chunks (S fuel) t cb expected got chunks s
  = read_chunks fuel t cb expected got chunks s.
Proof.
  revert got chunks s. induction fuel as [|fuel IH]; intros got chunks s Hf.
  { cbn [read_chunks]. by replace (got <? expected) with false by (symmetry; lia). }
  remember (S fuel) as fuel1. cbn [read_chunks]. subst fuel1. cbn [read_chunks].
  destruct (got <? expected); [|done]. cbn [negb].
  apply M_bind_ext. intros chunk s1 _. destruct (zl_eqb chunk []) eqn:E; [done|].
  apply IH. apply zl_eqb_neq in E.
  assert (zlen chunk ≠ 0) by (by rewrite zlen_zero).
  pose proof (zlen_nonneg chunk). lia.
Qed.

Lemma fail_not_ok {A} k c e s a s' : fail (A:=A) k c e s ≠ (Ok a, s').
Proof.
  unfold fail. intros E. apply M_bind_ok in E as (? & ? & _ & E). done.
Qed.

(** A round that ends without an exception has read once more. *)
Lemma check_ignored_reads k c s c' b s' :
  check_ignored k c s = (Ok (c', b), s') → c' = c ∧ b = false.
Proof.
  unfold check_ignored. case_if.
  - by intros E%fail_not_ok.
  - by intros [= <- <- _].
Qed.

Lemma current_packet_reads k c p m s c' b s' :
  current_packet k c p m s = (Ok (c', b), s') → c_reads c' = c_reads c.
Proof.
  unfold current_packet. destruct (parse_response_frame p _) as [f|e].
  - cbv zeta. case_if; [by intros ?%fail_not_ok|].
    intros E1. apply M_bind_ok in E1 as (? & ? & _ & E1). revert E1.
    case_if; [by intros ?%fail_not_ok|]. by intros [= <- _ _].
  - destruct e; try done. case_if; [by intros ?%fail_not_ok|].
    by intros [-> ->]%check_ignored_reads.
Qed.

Lemma stale_packet_reads k c p m s c' b s' :
  stale_packet k c p m s = (Ok (c', b), s') → c_reads c' = c_reads c.
Proof.
  unfold stale_packet. destruct (parse_response_frame p m) as [f|e].
  - intros E1. apply M_bind_ok in E1 as (? & ? & _ & E1). revert E1.
    destruct (bool_decide (c_stale_seq c = Some m)).
    all: case_if; [by intros ?%fail_not_ok|]; case_if; [by intros ?%fail_not_ok|].
    all: intros [= <- _ _]; by destruct (final f).
  - destruct e; try done. intros E1. apply M_bind_ok in E1 as (? & ? & _ & E1).
    by apply check_ignored_reads in E1 as [-> ->].
Qed.

Lemma handle_packet_reads k c p s c' b s' :
  handle_packet k c p s = (Ok (c', b), s') → c_reads c' = c_reads c.
Proof.
  unfold handle_packet. destruct (is_device_ack p); [by intros [= <- <- _]|].
  destruct (starts_with _ _ || _); [|by intros [-> ->]%check_ignored_reads].
  intros E. apply M_bind_ok in E as ([m|] & s1 & _ & E).
  - destruct (m =? cc_expected k); simpl in E;
      [by apply current_packet_reads in E | by apply stale_packet_reads in E].
  - by apply current_packet_reads in E.
Qed.

(** A round that ends without an exception has read exactly once more, and was
    below the read limit. *)
Lemma collect_round_reads k cb c s c' b s' :
  collect_round k cb c s = (Ok (c', b), s') →
  c_reads c < cc_max_reads k ∧ c_reads c' = c_reads c + 1.
Proof.
  unfold collect_round. intros E. apply M_bind_ok in E as ([] & s1 & _ & E);
    [by apply fail_not_ok in E|].
  destruct (cc_max_reads k <=? c_reads c) eqn:Er; [by apply fail_not_ok in E|]. zbool.
  split; [done|]. apply M_bind_ok in E as (now & s2 & _ & E).
  destruct (cc_deadline k <=? now); [by apply fail_not_ok in E|].
  apply M_bind_ok in E as (p & s3 & _ & E). destruct (zl_eqb p []).
  - apply M_bind_ok in E as (y & s4 & _ & E). injection E as <- _ _. by destruct y.
  - by apply handle_packet_reads in E.
Qed.

Lemma collect_loop_S fuel k cb c :
  collect_loop (S fuel) k cb c =
  if negb (c_quiet c <? 2) then mret c
  else '(c, stop) ← collect_round k cb c;
       if (stop : bool) then mret c else collect_loop fuel k cb c.
Proof. done. Qed.

(** The collection loop makes at most [max_reads] complete rounds, so more fuel
    changes nothing. *)
Lemma collect_loop_fuel fuel k cb c s :
  cc_max_reads k - c_reads c <= Z.of_nat fuel →
  collect_loop (S (S fuel)) k cb c s = collect_loop (S fuel) k cb c s.
Proof.
  revert c s. induction fuel as [|fuel IH]; intros c s Hf;
    rewrite (collect_loop_S (S _)), (collect_loop_S _ k cb c);
    (destruct (c_quiet c <? 2); [|done]); cbn [negb];
    apply M_bind_ext; intros [c' []] s1 E; try done;
    apply collect_round_reads in E as [? ?]; [lia | apply IH; lia].
Qed.

Lemma collect_loop_enough extra fuel k cb c s :
  cc_max_reads k - c_reads c <= Z.of_nat fuel →
  collect_loop (extra + S fuel) k cb c s = collect_loop (S fuel) k cb c s.
Proof.
  intros. induction extra as [|extra IH]; [done|]. rewrite <- IH.
  replace (extra + S fuel)%nat with (S (extra + fuel))%nat by lia.
  replace (S extra + S fuel)%nat with (S (S (extra + fuel)))%nat by lia.
  apply (collect_loop_fuel (extra + fuel)). lia.
Qed.

Lemma drain_loop_S fuel quiet_reads t max_reads quiet reads ps :
  drain_loop (S fuel) quiet_reads t max_reads quiet reads ps =
  if negb (quiet <? quiet_reads) then mret ps else
  if max_reads <=? reads then mraise (DatastoreTimeout (DrainLimit max_reads)) else
  packet ← _read_logical_frame t no_callbacks;
  if negb (zl_eqb packet [])
  then drain_loop fuel quiet_reads t max_reads 0 (reads + 1) (ps ++ [packet])
  else drain_loop fuel quiet_reads t max_reads (quiet + 1) (reads + 1) ps.
Proof. done. Qed.

Lemma drain_loop_fuel fuel quiet_reads t max_reads quiet reads ps s :
  max_reads - reads <= Z.of_nat fuel →
  drain_loop (S (S fuel)) quiet_reads t max_reads quiet reads ps s
  = drain_loop (S fuel) quiet_reads t max_reads quiet reads ps s.
Proof.
  revert quiet reads ps s. induction fuel as [|fuel IH]; intros quiet reads ps s Hf;
    rewrite (drain_loop_S (S _)), (drain_loop_S _ quiet_reads t max_reads quiet);
    (destruct (quiet <? quiet_reads); [|done]); cbn [negb];
    (destruct (max_reads <=? reads) eqn:E; [done|]); zbool; [lia|].
  apply M_bind_ext. intros p s1 _. case_if; apply IH; lia.
Qed.
End Termination.

(** * What a collected response is *)

Section Soundness.
Context {W : Type} `{UsbEnv W}.

(** What the loop keeps of its variables: every frame was parsed with the
    expected sequence, and the limits hold. *)
Record collecting_ok (k : collect_cfg) (c : collecting) : Prop := {
  co_parsed : Forall (λ f, ∃ p, parse_response_frame p (cc_expected k) = Ok f) (c_frames c);
  co_frames : zlen (c_frames c) <= cc_max_frames k;
  co_total : c_total c <= cc_max_bytes k;
  co_reads : 0 <= c_reads c <= cc_max_reads k;
  co_final : Forall (λ f, final f = false) (c_frames c)
}.

(** The [break]: the last frame is the final segment. *)
Definition finished (k : collect_cfg) (c : collecting) : Prop :=
  ∃ c0 f n, c_frames c = c_frames c0 ++ [f] ∧ final f = true ∧
    collecting_ok k c0 ∧ (∃ p, parse_response_frame p (cc_expected k) = Ok f ∧ zlen p = n) ∧
    c_total c = c_total c0 + n ∧ c_total c <= cc_max_bytes k ∧
    zlen (c_frames c) <= cc_max_frames k ∧ c_reads c <= cc_max_reads k.

(** Changes of the counters alone. *)
Lemma collecting_ok_same k c c' :
  c_frames c' = c_frames c → c_total c' = c_total c → c_reads c' = c_reads c →
  collecting_ok k c → collecting_ok k c'.
Proof. intros E1 E2 E3 []. constructor; rewrite ?E1, ?E2, ?E3; done. Qed.

Lemma collecting_ok_frame k c f p :
  collecting_ok k c → parse_response_frame p (cc_expected k) = Ok f →
  zlen (c_frames (with_frame f (zlen p) c)) <= cc_max_frames k →
  c_total (with_frame f (zlen p) c) <= cc_max_bytes k →
  if final f then finished k (with_frame f (zlen p) c)
  else collecting_ok k (with_frame f (zlen p) c).
Proof.
  intros Hc Hp Hf Ht. destruct (final f) eqn:Ef.
  - exists c, f, (zlen p). pose proof (co_reads _ _ Hc).
    split_and!; eauto. simpl. lia.
  - destruct Hc. constructor; simpl in *; try done; apply Forall_app; eauto.
Qed.

(** The outcome of a round or of a part of one. *)
Definition round_post (k : collect_cfg) (r : result (collecting * bool)) (s : St (W:=W)) : Prop :=
  match r with
  | Ok (c, true) => finished k c
  | Ok (c, false) => collecting_ok k c
  | Err _ => True
  end.

Lemma fail_post k c e : triple (λ _, True) (fail k c e) (round_post k).
Proof.
  intros s _. destruct (fail k c e s) as [[a|e'] s'] eqn:E; simpl; [|done].
  by apply fail_not_ok in E.
Qed.

Lemma check_ignored_post k c :
  collecting_ok k c → triple (λ _, True) (check_ignored k c) (round_post k).
Proof.
  intros Hc. unfold check_ignored. apply triple_if; intros _; [apply fail_post|].
  by intros s _.
Qed.

Lemma stale_packet_post k c p m :
  collecting_ok k c → triple (λ _, True) (stale_packet k c p m) (round_post k).
Proof.
  intros Hc. unfold stale_packet. destruct (parse_response_frame p m) as [f|e].
  - eapply triple_bind with (R := λ _ _, True).
    { intros s _. by destruct (ack s) as [[]]. }
    intros _. apply triple_if; intros _; [apply fail_post|].
    apply triple_if; intros _; [apply fail_post|]. intros s _. simpl.
    destruct (bool_decide _), (final f); by eapply collecting_ok_same, Hc.
  - destruct e; try (by intros s _).
    eapply triple_bind with (R := λ _ _, True).
    { intros s _. by destruct (ack s) as [[]]. }
    intros _. apply check_ignored_post. by eapply collecting_ok_same, Hc.
Qed.

Lemma current_packet_post k c p m :
  collecting_ok k c → triple (λ _, True) (current_packet k c p m) (round_post k).
Proof.
  intros Hc. unfold current_packet.
  destruct (parse_response_frame p (cc_expected k)) as [f|e] eqn:Ep.
  - apply triple_if; intros E1; [apply fail_post|].
    eapply triple_bind with (R := λ _ _, True).
    { intros s _. by destruct (ack s) as [[]]. }
    intros _. apply triple_if; intros E2; [apply fail_post|]. intros s _. simpl. zbool.
    pose proof (collecting_ok_frame k c f p Hc Ep E1 E2). by destruct (final f).
  - destruct e; try (by intros s _). apply triple_if; intros _; [apply fail_post|].
    apply check_ignored_post. by eapply collecting_ok_same, Hc.
Qed.

Lemma handle_packet_post k c p :
  collecting_ok k c → triple (λ _, True) (handle_packet k c p) (round_post k).
Proof.
  intros Hc. unfold handle_packet. apply triple_if; intros _.
  { intros s _. by eapply collecting_ok_same, Hc. }
  apply triple_if; intros _.
  - eapply triple_bind with (R := λ _ _, True).
    { intros s _. by destruct (_response_message_seq p). }
    intros [m|]; [|by apply current_packet_post].
    apply triple_if; intros _; [by apply stale_packet_post | by apply current_packet_post].
  - apply check_ignored_post. by eapply collecting_ok_same, Hc.
Qed.

Lemma collect_round_post k cb c :
  collecting_ok k c → triple (λ _, True) (collect_round k cb c) (round_post k).
Proof.
  intros Hc. unfold collect_round.
  eapply triple_bind with (R := λ _ _, True); [by intros s _; case_match|].
  intros []; [apply fail_post|]. apply triple_if; intros Er; [apply fail_post|]. zbool.
  eapply triple_bind with (R := λ _ _, True); [by intros s _; case_match|].
  intros now. apply triple_if; intros _; [apply fail_post|].
  eapply triple_bind with (R := λ _ _, True); [by intros s _; case_match|].
  assert (collecting_ok k (with_reads (c_reads c + 1) c)) as Hc'.
  { destruct Hc. constructor; simpl; try done. lia. }
  intros p. apply triple_if; intros _.
  - eapply triple_bind with (R := λ _ _, True); [by intros s _; case_match|].
    intros [] s _; by eapply collecting_ok_same, Hc'.
  - apply handle_packet_post. by eapply collecting_ok_same, Hc'.
Qed.

(** The loop ends by its condition (two quiet reads) or by its [break], never
    for lack of fuel. *)
Lemma collect_loop_exit fuel k cb c :
  collecting_ok k c → cc_max_reads k - c_reads c <= Z.of_nat fuel →
  triple (λ _, True) (collect_loop (S fuel) k cb c)
    (λ r _, match r with
            | Ok c' => collecting_ok k c' ∧ 2 <= c_quiet c' ∨ finished k c'
            | Err _ => True
            end).
Proof.
  revert c. induction fuel as [|fuel IH]; intros c Hc Hf;
    rewrite collect_loop_S; apply triple_if; intros Eq; zbool;
    try (intros s _; left; split; [done|lia]);
    (eapply triple_bind with (R := λ '(c', stop) s,
       if stop : bool then finished k c'
       else collecting_ok k c' ∧ c_reads c < cc_max_reads k ∧ c_reads c' = c_reads c + 1);
     [| intros [c' []]; [by intros s Hs; right|] ]).
  1, 3: intros s _; destruct (collect_round k cb c s) as [[[c' []]|e] s'] eqn:E; simpl;
    try done; pose proof (collect_round_post k cb c Hc s I) as Hr; rewrite E in Hr;
    [done | apply collect_round_reads in E; by split].
  - intros s (_ & ? & ?). lia.
  - intros s (Hc' & ? & ?). apply (IH c' Hc'); [lia|done].
Qed.

(** The end of a collection. *)
Lemma finish_post k c :
  collecting_ok k c ∧ 2 <= c_quiet c ∨ finished k c →
  triple (λ _, True) (finish (W:=W) k c)
    (λ r s, match r with
            | Err _ => True
            | Ok r => ∃ p st, finished k c ∧ join_parsed_response_frames (c_frames c) = Ok r ∧
                parse_datastore_response r false = Ok p ∧
                last_response_payload s.1 = Some p ∧ last_response_etag s.1 = etag p ∧
                last_response_stats s.1 = Some st ∧
                rs_accepted_frames st = zlen (c_frames c) ∧ rs_reads st = c_reads c ∧
                rs_response_bytes st = c_total c
            end).
Proof.
  intros Hc s _. destruct (finish k c s) as [[r|e] s'] eqn:E; simpl; [|done].
  unfold finish in E. destruct (bool_decide (c_frames c = [])) eqn:En;
    [by apply fail_not_ok in E|]. apply bool_decide_eq_false in En.
  destruct (join_parsed_response_frames (c_frames c)) as [x|[]] eqn:Ej; try done;
    [|by apply fail_not_ok in E].
  assert (finished k c) as Hfin.
  { destruct Hc as [[Hok _]|Hfin]; [exfalso | done].
    apply join_parsed_ok in Ej as [Hs _]. pose proof (co_final _ _ Hok) as Hnf.
    revert Hnf Hs En. generalize (c_frames c) 0. clear. intros l.
    induction l as [|f l IH]; intros i Hnf Hs Hne; [done|].
    apply Forall_cons_iff in Hnf as [Hf Hnf]. destruct Hs as (_ & Hs & Hl).
    rewrite Hf in Hs. symmetry in Hs. apply bool_decide_eq_false in Hs. by apply (IH (i + 1)). }
  apply M_bind_ok in E as (p & s1 & Hp & E). injection Hp as Hp <-.
  exists p. unfold obj, _record_response_stats, env, mbind, M_bind, mret, M_ret in E. simpl in E.
  destruct (monotonic s.2) as [now w]. simpl in E. injection E as <- <-.
  eexists. simpl. split_and!; done.
Qed.
End Soundness.

Section CollectTheorems.
Context {W : Type} `{UsbEnv W}.

Lemma finished_frames k c :
  finished k c →
  Forall (λ f, ∃ p, parse_response_frame p (cc_expected k) = Ok f) (c_frames c) ∧
  zlen (c_frames c) <= cc_max_frames k ∧ c_total c <= cc_max_bytes k ∧
  c_reads c <= cc_max_reads k.
Proof.
  intros (c0 & f & n & -> & _ & [Hp _ _ _ _] & (p & Hf & _) & _ & Ht & Hn & Hr).
  split; [|done]. apply Forall_app. split; [done|]. constructor; [|constructor]. eauto.
Qed.

(** The end of a collection reads the clock and nothing else. *)
Lemma finish_world k c s r s' : finish k c s = (Ok r, s') → s'.2 = (monotonic s.2).2.
Proof.
  unfold finish. intros E. destruct (bool_decide (c_frames c = [])); [by apply fail_not_ok in E|].
  destruct (join_parsed_response_frames (c_frames c)) as [x|[]]; try done; [|by apply fail_not_ok in E].
  apply M_bind_ok in E as (p & s1 & Hp & E). injection Hp as _ <-.
  unfold obj, _record_response_stats, env, mbind, M_bind, mret, M_ret in E. simpl in E.
  destruct (monotonic s.2) as [now w]. simpl in E. by injection E as <- <-.
Qed.

(** A collection that returns, taken apart: the loop between two readings of the
    clock and one, the frames it accepted, and what the object then holds. *)
Lemma collect_response_parts expected mb t mr mi mf cb s r s' :
  0 <= mr → 0 <= mb → 0 <= mf →
  _collect_response_with (W:=W) expected mb t mr mi mf cb s = (Ok r, s') →
  ∃ k c s0 s1 p st,
    cc_expected k = expected ∧ s0.2 = (monotonic (monotonic s.2).2).2 ∧
    collect_loop (S (Z.to_nat mr)) k cb collecting0 s0 = (Ok c, s1) ∧ s'.2 = (monotonic s1.2).2 ∧
    segments_ok 0 (c_frames c) ∧ r = concat (payload <$> c_frames c) ∧ zlen (c_frames c) <= mf ∧
    parse_datastore_response r false = Ok p ∧
    last_response_payload s'.1 = Some p ∧ last_response_etag s'.1 = etag p ∧
    last_response_stats s'.1 = Some st ∧ rs_accepted_frames st = zlen (c_frames c) ∧
    rs_reads st <= mr ∧ rs_response_bytes st <= mb.
Proof.
  intros Hr Hb Hf E. unfold _collect_response_with in E.
  do 3 (apply M_bind_ok in E as (? & ? & [= <- <-] & E)).
  apply M_bind_ok in E as (started & s2 & E1 & E). apply M_bind_ok in E as (now & s0 & E2 & E).
  assert (s0.2 = (monotonic (monotonic s.2).2).2) as Hs0.
  { unfold env in E1, E2. simpl in E1. destruct (monotonic s.2) as [n1 w1]. injection E1 as _ <-.
    simpl in *. destruct (monotonic w1) as [n2 w2]. by injection E2 as _ <-. }
  apply M_bind_ok in E as (c & s1 & Hc & E).
  match type of Hc with collect_loop _ ?k' _ _ _ = _ => set (k := k') in * end.
  pose proof (collect_loop_exit (Z.to_nat mr) k cb collecting0) as Hx.
  assert (collecting_ok k collecting0) as Hok0.
  { constructor; simpl; try done; try constructor; lia. }
  specialize (Hx Hok0 ltac:(simpl; lia) s0 I). rewrite Hc in Hx. simpl in Hx.
  pose proof (finish_post k c Hx s1 I) as Hfin. rewrite E in Hfin. simpl in Hfin.
  destruct Hfin as (p & st & Hfd & Hj & Hp & Hlp & Hle & Hls & Ha & Hrd & Hby).
  destruct (finished_frames k c Hfd) as (? & ? & ? & ?).
  apply join_parsed_ok in Hj as [? ->]. apply finish_world in E.
  exists k, c, s0, s1, p, st. split_and!; simpl in *; auto; lia.
Qed.

(** C26. Response collection terminates: the loop never makes more than
    [max_reads] complete rounds, so the fuel given to it is never what stops
    it; running it with any amount more gives the same outcome and state, from
    any state and for any behaviour of the transport, the clock and the
    callbacks. *)
Theorem collect_response_terminates extra k cb s :
  0 <= cc_max_reads k →
  collect_loop (W:=W) (extra + S (Z.to_nat (cc_max_reads k))) k cb collecting0 s
  = collect_loop (S (Z.to_nat (cc_max_reads k))) k cb collecting0 s.
Proof. intros. apply collect_loop_enough. simpl. lia. Qed.
End CollectTheorems.

(** * What a request changes in the object *)

(** Properties of the object that host numbering and statistics do not touch
    are kept by everything up to the end of a response collection. *)
Section Frame.
Context {W : Type} `{UsbEnv W}.
Variable P : datastore → Prop.
Hypothesis P_host : ∀ h d, P d → P (set_host_seq h d).
Hypothesis P_stats : ∀ x d, P d → P (set_stats x d).

Definition keeps {A} (m : M (St (W:=W)) A) : Prop :=
  triple (λ s, P s.1) m (λ _ s, P s.1).

Lemma keeps_ret {A} (a : A) : keeps (mret a).
Proof. by intros s Hs. Qed.
Lemma keeps_raise {A} e : keeps (A:=A) (mraise e).
Proof. by intros s Hs. Qed.
Lemma keeps_lift {A} (r : result A) : keeps (mlift r).
Proof. by intros s Hs. Qed.
Lemma keeps_env {A} (f : W → A * W) : keeps (env f).
Proof. intros s Hs. unfold env. by destruct (f s.2). Qed.
Lemma keeps_envR {A} (f : W → result A * W) : keeps (envR f).
Proof. intros s Hs. unfold envR. by destruct (f s.2). Qed.
Lemma keeps_bind {A B} (m : M St A) (f : A → M St B) :
  keeps m → (∀ a, keeps (f a)) → keeps (m ≫= f).
Proof.
  intros Hm Hf. eapply triple_bind; [|exact Hf].
  eapply triple_conseq; [exact Hm | done |]. by intros [].
Qed.
Lemma keeps_catch {A} (m : M St A) h : keeps m → (∀ e, keeps (h e)) → keeps (mcatch m h).
Proof.
  intros Hm Hh. eapply triple_catch; [|exact Hh].
  eapply triple_conseq; [exact Hm | done |]. by intros [].
Qed.
Lemma keeps_finally {A} (m : M St A) f : keeps m → keeps f → keeps (mfinally m f).
Proof.
  intros Hm Hf. eapply triple_finally; [exact Hm|]. intros r.
  eapply triple_conseq; [exact Hf | done |]. by intros [].
Qed.
Lemma keeps_seq : keeps _next_host_seq.
Proof. intros s Hs. apply P_host, Hs. Qed.
Lemma keeps_stats k c : keeps (_record_response_stats k c).
Proof.
  apply keeps_bind; [apply keeps_env|]. intros now s Hs. apply P_stats, Hs.
Qed.

#[local] Hint Resolve keeps_ret keeps_raise keeps_lift keeps_env keeps_envR keeps_seq
  keeps_stats : keep.

(** Follows the structure of a computation. *)
#[local] Ltac keep :=
  repeat first
    [ solve [eauto with keep]
    | apply keeps_bind; [|intros ?]
    | apply keeps_catch; [|intros ?]
    | apply keeps_finally
    | match goal with
      | |- keeps (if ?b then _ else _) => destruct b
      | |- keeps (match ?x with _ => _ end) => destruct x
      end ].

Lemma keeps_write frame : keeps (_write_frame frame).
Proof. unfold _write_frame. keep. Qed.
#[local] Hint Resolve keeps_write : keep.
Lemma keeps_notify cb b : keeps (notify cb b).
Proof. unfold notify. keep. Qed.
#[local] Hint Resolve keeps_notify : keep.
Lemma keeps_bulk_read n t cb : keeps (_bulk_read n t cb).
Proof. unfold _bulk_read. keep. Qed.
#[local] Hint Resolve keeps_bulk_read : keep.
Lemma keeps_chunks fuel t cb e g b : keeps (read_chunks fuel t cb e g b).
Proof. revert g b. induction fuel; intros g b; cbn [read_chunks]; keep. Qed.
#[local] Hint Resolve keeps_chunks : keep.
Lemma keeps_frame t cb : keeps (_read_logical_frame t cb).
Proof. unfold _read_logical_frame. keep. Qed.
Lemma keeps_fail {A} k c e : keeps (fail (A:=A) k c e).
Proof. unfold fail. keep. Qed.
#[local] Hint Resolve keeps_frame keeps_fail : keep.
Lemma keeps_ignored k c : keeps (check_ignored k c).
Proof. unfold check_ignored. keep. Qed.
Lemma keeps_ack : keeps ack.
Proof. unfold ack. keep. Qed.
#[local] Hint Resolve keeps_ignored keeps_ack : keep.
Lemma keeps_handle k c p : keeps (handle_packet k c p).
Proof. unfold handle_packet, stale_packet, current_packet. cbv zeta. keep. Qed.
#[local] Hint Resolve keeps_handle : keep.
Lemma keeps_round k cb c : keeps (collect_round k cb c).
Proof. unfold collect_round. cbv zeta. keep. Qed.
#[local] Hint Resolve keeps_round : keep.
Lemma keeps_loop fuel k cb c : keeps (collect_loop fuel k cb c).
Proof. revert c. induction fuel; intros c; cbn [collect_loop]; keep. Qed.

Lemma keeps_drain fuel n t m q r ps : keeps (drain_loop fuel n t m q r ps).
Proof. revert q r ps. induction fuel; intros q r ps; cbn [drain_loop]; keep. Qed.
#[local] Hint Resolve keeps_drain : keep.
Lemma keeps_init : keeps init.
Proof. unfold init, _drain_quiet. keep. Qed.
End Frame.

Lemma land_message_seq a : Z.land a MAX_MESSAGE_SEQ = a mod 2 ^ 32.
Proof. change MAX_MESSAGE_SEQ with (Z.ones 32). by rewrite Z.land_ones by lia. Qed.

Section RequestEffects.
Context {W : Type} `{UsbEnv W}.

(** The object while a response is collected. *)
Definition collecting_obj (m : Z) (d : datastore) : Prop :=
  msg_seq d = m ∧ last_response_payload d = None ∧ last_response_etag d = None.

(** The object once the collection ended: a response is stored only on success. *)
Definition collected (m : Z) (r : result bytes) (s : St (W:=W)) : Prop :=
  msg_seq s.1 = m ∧
  match r with
  | Ok b => ∃ p st, parse_datastore_response b false = Ok p ∧
              last_response_payload s.1 = Some p ∧ last_response_etag s.1 = etag p ∧
              last_response_stats s.1 = Some st
  | Err _ => last_response_payload s.1 = None ∧ last_response_etag s.1 = None
  end.

Lemma collecting_obj_keeps {A} m (c : M (St (W:=W)) A) (Q : result A → St (W:=W) → Prop) :
  keeps (collecting_obj m) c → (∀ r s, collecting_obj m s.1 → Q r s) →
  triple (λ s, collecting_obj m s.1) c Q.
Proof. intros Hk HQ. eapply triple_conseq; [exact Hk | done | exact HQ]. Qed.

Lemma fail_collected m k c e :
  triple (λ s, collecting_obj m s.1) (fail k c e) (collected m).
Proof.
  intros s Hs. pose proof (keeps_fail (A:=bytes) (collecting_obj m) (λ x d Hd, Hd) k c e s Hs)
    as (? & ? & ?).
  destruct (fail k c e s) as [[b|e'] s'] eqn:E; [by apply fail_not_ok in E | done].
Qed.

Lemma finish_collected m k c :
  triple (λ s, collecting_obj m s.1) (finish k c) (collected m).
Proof.
  unfold finish. apply triple_if; intros _; [apply fail_collected|].
  destruct (join_parsed_response_frames _) as [x|[]];
    try (by intros s (? & ? & ?)); [|apply fail_collected].
  destruct (parse_datastore_response x false) as [p|e] eqn:Ep.
  2: { intros s (? & ? & ?). unfold mlift, mbind, M_bind. done. }
  intros s (? & ? & ?). unfold mlift, obj, _record_response_stats, env, mbind, M_bind. simpl.
  destruct (monotonic s.2). simpl. split; [done|]. by eexists _, _.
Qed.

Lemma collect_collected expected t cb m :
  triple (λ s, msg_seq s.1 = m) (_collect_response (W:=W) expected t cb) (collected m).
Proof.
  intros s Hs. unfold _collect_response, _collect_response_with.
  do 3 (erewrite (M_bind_eq (obj _)) by done).
  assert (collecting_obj m (set_payload None (set_etag None (set_stats None s.1)))) as Hc by done.
  assert (∀ e (s : St (W:=W)), collecting_obj m s.1 → collected m (Err e) s) as Herr
    by (intros e s1 (? & ? & ?); done).
  eapply (triple_bind (λ s, collecting_obj m s.1) _ _ (λ _ s, collecting_obj m s.1)).
  { apply collecting_obj_keeps; [apply keeps_env|]. intros []; auto. }
  2: exact Hc.
  intros started. eapply triple_bind with (R := λ _ s, collecting_obj m s.1).
  { apply collecting_obj_keeps; [apply keeps_env|]. intros []; auto. }
  intros now. eapply triple_bind with (R := λ _ s, collecting_obj m s.1).
  { apply collecting_obj_keeps; [by apply keeps_loop|]. intros []; auto. }
  intros c. apply finish_collected.
Qed.

(** The effect of a request on the object, on every branch: the frame cannot be
    built, cannot be written in full, or is written and a response collected. *)
Definition request_effect (frame : result bytes) (s : St (W:=W)) (r : result bytes)
    (s' : St (W:=W)) : Prop :=
  match frame with
  | Err e => r = Err e ∧ s' = (set_host_seq (take_seq (host_seq s.1)).2 s.1, s.2)
  | Ok f =>
      let '(written, w) := bulk_write f s.2 in
      match written with
      | Ok n =>
          if n =? zlen f then collected ((msg_seq s.1 mod 2 ^ 32 + 1) mod 2 ^ 32) r s'
          else r = Err (ShortUsbWrite n (zlen f)) ∧
               s' = (set_host_seq (take_seq (host_seq s.1)).2 s.1, w)
      | Err e => r = Err e ∧ s' = (set_host_seq (take_seq (host_seq s.1)).2 s.1, w)
      end
  end.

Lemma send_collect frame m t cb s :
  m = msg_seq s.1 mod 2 ^ 32 →
  let run := (frame' ← mlift frame;
              _ ← _write_frame frame';
              _ ← _advance_message_seq;
              _collect_response m t cb)
               (set_host_seq (take_seq (host_seq s.1)).2 s.1, s.2) in
  request_effect frame s run.1 run.2.
Proof.
  intros -> run. subst run. unfold request_effect. destruct frame as [f|e]; [|done].
  erewrite (M_bind_eq (mlift _)) by done.
  destruct (bulk_write f s.2) as [[n|e] w] eqn:Ew.
  2: { unfold _write_frame, envR, mbind, M_bind. simpl. by rewrite Ew. }
  destruct (n =? zlen f) eqn:En.
  2: { unfold _write_frame, envR, mbind, M_bind. simpl. by rewrite Ew, En. }
  erewrite (M_bind_eq (_write_frame f)).
  2: { unfold _write_frame, envR, mbind, M_bind. simpl. by rewrite Ew, En. }
  erewrite (M_bind_eq _advance_message_seq) by done.
  apply collect_collected. cbn [msg_seq set_msg_seq fst]. unfold _current_message_seq.
  by rewrite !land_message_seq.
Qed.

(** C12. The effect of [get] and [post] on the object, on every branch and for
    any transport: a frame that cannot be built or written in full raises that
    error and leaves the message sequence and the last response as they were;
    once it is written, the message sequence is one more modulo 2^32 and a
    response is stored exactly when one is returned, an error leaving neither
    an old payload nor an old ETag behind. *)
Theorem request_effects path etag json client fields t cb s :
  let q := _next (host_seq s.1) in
  let m := msg_seq s.1 mod 2 ^ 32 in
  (let '(r, s') := get path etag client t cb fields s in
   request_effect (build_get_frame q m path etag (s! "NREK") client fields) s r s') ∧
  (let '(r, s') := post path json client t s in
   request_effect (build_post_frame q m path json (s! "NREK") client) s r s').
Proof.
  intros q m. split.
  - destruct (get _ _ _ _ _ _ s) as [r s'] eqn:E.
    pose proof (send_collect (build_get_frame q m path etag (s! "NREK") client fields)
                  m t cb s eq_refl) as Hs.
    unfold get in E. erewrite (M_bind_eq (this _)) in E by done.
    erewrite (M_bind_eq _next_host_seq) in E by done.
    unfold _current_message_seq in E. rewrite land_message_seq in E.
    fold q m in E. cbn [take_seq fst snd] in Hs. fold q in Hs. cbn zeta in Hs.
    rewrite E in Hs. exact Hs.
  - destruct (post _ _ _ _ s) as [r s'] eqn:E.
    pose proof (send_collect (build_post_frame q m path json (s! "NREK") client)
                  m t no_callbacks s eq_refl) as Hs.
    unfold post in E. erewrite (M_bind_eq (this _)) in E by done.
    erewrite (M_bind_eq _next_host_seq) in E by done.
    unfold _current_message_seq in E. rewrite land_message_seq in E.
    fold q m in E. cbn [take_seq fst snd] in Hs. fold q in Hs. cbn zeta in Hs.
    rewrite E in Hs. exact Hs.
Qed.
End RequestEffects.

(** * A scripted device *)

(** A concrete environment: transfers are delivered one per read, then reads
    time out; writes are logged; the clock stands still. *)
Record script := {
  sc_clock : Z;
  sc_in : list bytes;
  sc_out : list bytes
}.

Definition script_read (w : script) : result bytes * script :=
  match sc_in w with
  | [] => (Ok [], w)
  | b :: rest => (Ok b, {| sc_clock := sc_clock w; sc_in := rest; sc_out := sc_out w |})
  end.

Definition script_write (f : bytes) (w : script) : result Z * script :=
  (Ok (zlen f), {| sc_clock := sc_clock w; sc_in := sc_in w; sc_out := sc_out w ++ [f] |}).

#[export] Instance script_env : UsbEnv script := {
  monotonic := λ w, (sc_clock w, w);
  bulk_write := script_write;
  bulk_read := λ _ _, script_read;
  supports_cancellable_bulk_reads := true;
  begin_cancellable_bulk_read := λ _ _ w, (Ok tt, w);
  cancellable_read := script_read;
  max_packet_size := 512
}.

(** A logical frame cut into transfers: the length field is in the first one
    and counts the bytes of all. *)
Definition transfers_of (p : bytes) (ts : list bytes) : Prop :=
  ∃ t rest, ts = t :: rest ∧ concat ts = p ∧ 4 <= zlen t ∧ Forall (λ x, x ≠ []) rest ∧
            bytes_ok p ∧ byte_at p 2 + 256 * byte_at p 3 = zlen p.

Definition sc_with_in (w : script) (i : list bytes) : script :=
  {| sc_clock := sc_clock w; sc_in := i; sc_out := sc_out w |}.

Lemma script_read_chunks fuel t expected got chunks rest later d w :
  Forall (λ x, x ≠ []) rest → got = zlen chunks → expected = got + zlen (concat rest) →
  expected - got <= Z.of_nat fuel → sc_in w = rest ++ later →
  read_chunks fuel t no_callbacks expected got chunks (d, w)
  = (Ok (expected, chunks ++ concat rest), (d, sc_with_in w later)).
Proof.
  revert fuel got chunks w. induction rest as [|x rest IH];
    intros fuel got chunks w Hne Hg He Hf Hin.
  - simpl in *. rewrite zlen_nil in He. replace expected with got by lia.
    assert (sc_with_in w later = w) as -> by (destruct w; simpl in *; by subst).
    destruct fuel; cbn [read_chunks]; rewrite Z.ltb_irrefl; simpl; by rewrite app_nil_r.
  - apply Forall_cons_iff in Hne as [Hx Hne]. cbn [concat] in *. rewrite zlen_app in He.
    assert (0 < zlen x).
    { pose proof (zlen_nonneg x). assert (zlen x ≠ 0) by (by rewrite zlen_zero). lia. }
    pose proof (zlen_nonneg (concat rest)).
    destruct fuel as [|fuel]; [lia|]. cbn [read_chunks].
    replace (got <? expected) with true by (symmetry; lia). cbn [negb].
    erewrite M_bind_eq.
    2: { unfold _bulk_read, envR. simpl. unfold script_read. rewrite Hin. simpl. done. }
    rewrite (proj2 (zl_eqb_neq x []) Hx). rewrite IH; auto.
    + by rewrite <- app_assoc.
    + rewrite zlen_app. lia.
    + lia.
    + lia.
Qed.

Lemma logical_frame_reassembled p ts later t d w :
  transfers_of p ts → sc_in w = ts ++ later →
  _read_logical_frame t no_callbacks (d, w) = (Ok p, (d, sc_with_in w later)).
Proof.
  intros (x & rest & -> & Hp & Hx & Hne & Hok & Hlen) Hin. cbn [app concat] in *.
  unfold _read_logical_frame. erewrite M_bind_eq.
  2: { unfold _bulk_read, envR. simpl. unfold script_read. rewrite Hin. simpl. done. }
  assert (zl_eqb x [] = false) as ->.
  { apply zl_eqb_neq. intros ->. rewrite zlen_nil in Hx. lia. }
  replace (zlen x <? 4) with false by (symmetry; lia).
  assert (_u16 x 2 = Ok (zlen p)) as Hu.
  { unfold _u16. replace (_ <? _) with false by (symmetry; lia). f_equal.
    rewrite <- Hlen, <- Hp, !byte_at_app_l by lia. done. }
  rewrite Hu. erewrite M_bind_eq by done.
  assert (zlen p = zlen x + zlen (concat rest)) as Hz by (by rewrite <- Hp, zlen_app).
  pose proof (zlen_nonneg (concat rest)).
  replace (zlen p <? 4) with false by (symmetry; lia).
  erewrite M_bind_eq.
  2: { apply (script_read_chunks _ _ _ _ _ rest later); auto; simpl; lia. }
  cbv beta iota. rewrite Z.ltb_irrefl, Hp. done.
Qed.

(** Reassembly of a logical frame: however the device cuts a frame into
    USB transfers (the first holding at least its four-byte wrapper, none
    empty), [_read_logical_frame] returns exactly the frame and leaves the
    later transfers unread. *)
Theorem read_logical_frame_reassembles p ts later t d w :
  transfers_of p ts → sc_in w = ts ++ later →
  _read_logical_frame t no_callbacks (d, w) = (Ok p, (d, sc_with_in w later)).
Proof. apply logical_frame_reassembled. Qed.

(** ** A whole exchange *)

(** What the device answers to a request: acknowledgements of the host's
    packets anywhere before the last segment, and the segments in order. *)
Inductive replies (expected : Z) : list bytes → list ResponseFrame → Prop :=
  | reply_ack p ps fs :
      is_device_ack p = true → replies expected ps fs → replies expected (p :: ps) fs
  | reply_segment f ps fs :
      frame_wf f → message_seq f = expected → final f = false → replies expected ps fs →
      replies expected (encode_response_frame f :: ps) (f :: fs)
  | reply_final f :
      frame_wf f → message_seq f = expected → final f = true →
      replies expected [encode_response_frame f] [f].

Definition packet_bytes (fs : list ResponseFrame) : Z :=
  sum ((λ f, zlen (encode_response_frame f)) <$> fs).

Lemma zlen_encode f :
  frame_wf f → zlen (encode_response_frame f) = 28 + zlen (payload f).
Proof.
  intros [Hh _ _ _ _ _ _ _]. unfold encode_response_frame, raw_frame, raw_body.
  assert (zlen (header f) = 4) as Hh4 by (destruct Hh as [-> | ->]; done).
  assert (zlen (wrapper_bytes f) = 4) as Hw by done.
  assert (zlen (raw_wrapper (wrapper_seq f) (wrapper_type f) (wrapper_len f)) = 4) as Hr by done.
  autorewrite with motu. lia.
Qed.

(** A segment of this response is recognised as one. *)
Lemma encoded_seq f :
  frame_wf f → _response_message_seq (encode_response_frame f) = Ok (Some (message_seq f)).
Proof.
  intros Hwf. pose proof (zlen_encode f Hwf) as Hz. pose proof (zlen_nonneg (payload f)).
  destruct Hwf as [Hh Hs Ht Hl Hmax Hm Hseg Hp].
  assert (zlen (header f) = 4) as Hh4 by (destruct Hh as [-> | ->]; done).
  destruct (raw_body_fields (header f) (crc32 (payload f)) (message_seq f)
              (if final f then 1 else 0) (segment_index f) (zlen (payload f)) (payload f)
              (wrapper_bytes f)) as (E4 & _ & E8 & _); try done; try lia.
  { apply crc32_range. } { destruct (final f); lia. }
  unfold _response_message_seq. rewrite Hz. replace (_ <? 16) with false by (symmetry; lia).
  assert (_u16 (encode_response_frame f) 2 = Ok (wrapper_len f)) as Hu.
  { unfold encode_response_frame, raw_frame, raw_wrapper. rewrite <- !app_assoc.
    apply u16_at; [done|lia]. }
  rbind Hu. rewrite Hl. replace (_ <? 16) with false by (symmetry; lia).
  rewrite Z.ltb_irrefl. simpl orb. cbv iota.
  assert (zslice 4 (28 + zlen (payload f)) (encode_response_frame f)
          = raw_body (header f) (crc32 (payload f)) (message_seq f)
              (if final f then 1 else 0) (segment_index f) (zlen (payload f)) (payload f)
              (wrapper_bytes f)) as Hb.
  { unfold zslice, encode_response_frame, raw_frame in *. rewrite zdrop_app by done.
    rewrite zlen_app in Hz.
    change (zlen (raw_wrapper _ _ _)) with 4 in Hz.
    rewrite <- (app_nil_r (raw_body _ _ _ _ _ _ _ _)) at 1. apply ztake_app. lia. }
  rewrite Hb, E4, (proj2 (is_response_header_iff _) Hh).
  rewrite <- Hb, zlen_zslice by lia. replace (_ <? 12) with false by (symmetry; lia).
  simpl orb. cbv iota. rewrite Hb. rbind E8. done.
Qed.

Lemma encoded_tag f :
  frame_wf f →
  let body := zdrop 4 (encode_response_frame f) in
  starts_with (s! "NREK") body || starts_with (s! "PTTH") body = true.
Proof.
  intros [Hh _ _ _ _ _ _ _]. unfold encode_response_frame, raw_frame.
  cbv zeta. rewrite zdrop_app by done. unfold raw_body.
  destruct Hh as [-> | ->]; rewrite starts_with_app; [done | apply orb_true_r].
Qed.

(** The scripted world after some packets were read and frames written. *)
Definition sc_step (w : script) (later : list bytes) (sent : list bytes) : script :=
  {| sc_clock := sc_clock w; sc_in := later; sc_out := sc_out w ++ sent |}.

(** The acknowledgements of [n] packets from a host sequencer. *)
Definition acks_of (n : nat) (h : HostSequencer) : list bytes := build_ack <$> (takes n h).1.

Lemma script_ack d w :
  ack (d, w) = (Ok tt, (set_host_seq (take_seq (host_seq d)).2 d,
                        sc_step w (sc_in w) [build_ack (take_seq (host_seq d)).1])).
Proof. done. Qed.

Lemma script_round k c d w p ts later :
  transfers_of p ts → sc_in w = ts ++ later → c_reads c < cc_max_reads k →
  sc_clock w < cc_deadline k →
  collect_round k no_callbacks c (d, w)
  = handle_packet k (with_quiet 0 (with_reads (c_reads c + 1) c)) p (d, sc_with_in w later).
Proof.
  intros Ht Hin Hr Hd. unfold collect_round. rewrite (M_bind_eq _ _ _ false (d, w)) by done.
  replace (cc_max_reads k <=? c_reads c) with false by (symmetry; lia).
  rewrite (M_bind_eq _ _ _ (sc_clock w) (d, w)) by done.
  replace (cc_deadline k <=? sc_clock w) with false by (symmetry; lia). cbv zeta.
  erewrite M_bind_eq.
  2: { unfold mcatch. by rewrite (logical_frame_reassembled p ts later). }
  destruct Ht as (t & rest & -> & <- & Hz & _).
  assert (zl_eqb (concat (t :: rest)) [] = false) as ->; [|done].
  apply zl_eqb_neq. cbn [concat]. intros E%(f_equal zlen).
  rewrite zlen_app, zlen_nil in E. pose proof (zlen_nonneg (concat rest)). lia.
Qed.

Lemma handle_segment k c f d w :
  frame_wf f → message_seq f = cc_expected k →
  let c' := with_frame f (zlen (encode_response_frame f)) c in
  zlen (c_frames c') <= cc_max_frames k → c_total c' <= cc_max_bytes k →
  handle_packet k c (encode_response_frame f) (d, w)
  = (Ok (c', final f), (set_host_seq (take_seq (host_seq d)).2 d,
                        sc_step w (sc_in w) [build_ack (take_seq (host_seq d)).1])).
Proof.
  intros Hwf Hm c' Hf Ht. unfold handle_packet. pose proof (zlen_nonneg (payload f)).
  pose proof (zlen_encode f Hwf) as Hz.
  assert (is_device_ack (encode_response_frame f) = false) as ->.
  { unfold is_device_ack. by replace (_ =? 8) with false by (symmetry; lia). }
  replace (4 <=? _) with true by (symmetry; lia). cbv zeta. rewrite encoded_tag by done.
  erewrite M_bind_eq; [|unfold mlift; by rewrite encoded_seq].
  rewrite Hm, Z.eqb_refl. cbn [negb]. unfold current_packet.
  assert (parse_response_frame (encode_response_frame f) (cc_expected k) = Ok f) as ->.
  { rewrite <- Hm, <- (app_nil_r (encode_response_frame f)). by apply parse_encode. }
  fold c'.
  replace (_ <? zlen (c_frames c')) with false by (symmetry; lia).
  rewrite (M_bind_eq _ _ _ _ _ (script_ack d w)).
  by replace (_ <? c_total c') with false by (symmetry; lia).
Qed.

Lemma packet_bytes_nonneg fs : 0 <= packet_bytes fs.
Proof.
  unfold packet_bytes. induction fs as [|f fs IH]; simpl; [done|].
  pose proof (zlen_nonneg (encode_response_frame f)). unfold sum, fmap in *. lia.
Qed.

Lemma collect_replies k ps fs tss later fuel c d w :
  replies (cc_expected k) ps fs → Forall2 transfers_of ps tss →
  sc_in w = concat tss ++ later → c_quiet c < 2 → c_reads c + zlen ps <= cc_max_reads k →
  zlen (c_frames c) + zlen fs <= cc_max_frames k →
  c_total c + packet_bytes fs <= cc_max_bytes k → sc_clock w < cc_deadline k →
  (length ps <= fuel)%nat →
  ∃ c', collect_loop fuel k no_callbacks c (d, w)
        = (Ok c', (set_host_seq (takes (length fs) (host_seq d)).2 d,
                   sc_step w later (acks_of (length fs) (host_seq d)))) ∧
        c_frames c' = c_frames c ++ fs ∧ c_reads c' = c_reads c + zlen ps.
Proof.
  intros Hrep. revert tss fuel c d w.
  induction Hrep as [p ps fs Hack _ IH | f ps fs Hwf Hm Hfin _ IH | f Hwf Hm Hfin];
    intros tss fuel c d w Hts Hin Hq Hr Hf Hb Hd Hfuel.
  all: apply Forall2_cons_inv_l in Hts as (ts & tss' & Ht & Hts & ->).
  all: cbn [concat] in Hin; rewrite <- app_assoc in Hin.
  all: rewrite zlen_cons in Hr; try rewrite zlen_cons in Hf.
  all: destruct fuel as [|fuel]; [simpl in Hfuel; lia|]; rewrite collect_loop_S.
  all: replace (c_quiet c <? 2) with true by (symmetry; lia); cbn [negb].
  1, 2: pose proof (zlen_nonneg ps).
  1, 2, 3: assert (c_reads c < cc_max_reads k) by (rewrite ?zlen_nil in Hr; lia).
  - erewrite M_bind_eq; [|rewrite (script_round _ _ _ _ p ts (concat tss' ++ later));
      [unfold handle_packet; by rewrite Hack | done..]].
    edestruct (IH tss' fuel) as (c' & E & Hc & Hcr); [..|exists c'; split; [exact E|]];
      simpl in *; auto; try lia. split; [done|]. rewrite zlen_cons. lia.
  - assert (0 <= packet_bytes fs) by apply packet_bytes_nonneg.
    pose proof (zlen_nonneg fs).
    change (packet_bytes (f :: fs)) with (zlen (encode_response_frame f) + packet_bytes fs) in Hb.
    erewrite M_bind_eq; [|rewrite (script_round _ _ _ _ (encode_response_frame f) ts (concat tss' ++ later));
      [apply handle_segment; simpl; autorewrite with motu; try done; lia | done..]].
    rewrite Hfin.
    edestruct (IH tss' fuel) as (c' & E & Hc & Hcr); [..|exists c'; split; [rewrite E|]];
      simpl in *; autorewrite with motu; auto; try lia.
    + unfold sc_step, acks_of. simpl.
      destruct (takes (length fs) _) as [l h]. simpl. do 3 f_equal. by rewrite <- app_assoc.
    + rewrite Hc, <- app_assoc. split; [done|]. lia.
  - change (packet_bytes [f]) with (zlen (encode_response_frame f) + 0) in Hb.
    rewrite zlen_nil in *.
    erewrite M_bind_eq; [|rewrite (script_round _ _ _ _ (encode_response_frame f) ts (concat tss' ++ later));
      [apply handle_segment; simpl; autorewrite with motu; try done; lia | done..]].
    rewrite Hfin. apply Forall2_nil_inv_l in Hts as ->. eexists. split; [done|].
    split; [done|]. simpl. rewrite zlen_cons, zlen_nil. lia.
Qed.

(** The object after a request was sent and its response collected. *)
Definition answered (d d' : datastore) (r : bytes) (n : nat) : Prop :=
  ∃ p, parse_datastore_response r false = Ok p ∧ last_response_payload d' = Some p ∧
    last_response_etag d' = etag p ∧ host_seq d' = (takes n (host_seq d)).2.

Lemma replies_payload_ok m ps fs : replies m ps fs → bytes_ok (concat (payload <$> fs)).
Proof.
  assert (∀ f, frame_wf f → bytes_ok (payload f)) as Hp by (intros f H; apply H).
  induction 1; simpl; [done| |].
  - apply bytes_ok_app. auto.
  - rewrite app_nil_r. auto.
Qed.

Lemma replies_not_nil m ps fs : replies m ps fs → fs ≠ [].
Proof. by induction 1. Qed.

(** A response collection from a device that answers. *)
Lemma collect_response_replies m ps fs tss later t d w :
  replies m ps fs → segments_ok 0 fs → Forall2 transfers_of ps tss →
  sc_in w = concat tss ++ later → 0 < t →
  zlen ps <= DEFAULT_MAX_RESPONSE_READS → zlen fs <= DEFAULT_MAX_RESPONSE_FRAMES →
  packet_bytes fs <= DEFAULT_MAX_BYTES →
  ∃ d', _collect_response m t no_callbacks (d, w)
        = (Ok (concat (payload <$> fs)),
           (d', sc_step w later (acks_of (length fs) (host_seq d)))) ∧
        msg_seq d' = msg_seq d ∧ answered d d' (concat (payload <$> fs)) (length fs).
Proof.
  intros Hrep Hseg Hts Hin Ht Hps Hfs Hb. unfold _collect_response, _collect_response_with.
  do 3 (erewrite (M_bind_eq (obj _)) by done).
  do 2 (erewrite (M_bind_eq (env _)) by done). cbv zeta.
  match goal with |- context [collect_loop _ ?k' _ _] => set (k := k') in * end.
  destruct (collect_replies k ps fs tss later (S (Z.to_nat DEFAULT_MAX_RESPONSE_READS))
              collecting0 (set_payload None (set_etag None (set_stats None d))) w)
    as (c' & E & Hc & _); auto; try (simpl; unfold zlen in *; lia).
  rewrite (M_bind_eq _ _ _ _ _ E). cbn [c_frames collecting0 app] in Hc.
  unfold finish. rewrite Hc.
  rewrite (bool_decide_eq_false_2 (fs = [])) by by eapply replies_not_nil.
  rewrite (proj2 (join_parsed_ok fs _) (conj Hseg eq_refl)).
  destruct (parse_datastore_spec (concat (payload <$> fs)) false) as (p & Hp & _).
  { by eapply replies_payload_ok. }
  rewrite (M_bind_eq _ _ _ p _) by (unfold mlift; by rewrite Hp).
  eexists. split; [done|]. split; [done|]. by exists p.
Qed.

(** A request that was sent as [frame] and answered with the segments [fs]. *)
Definition exchanged (run : M St bytes) (frame : bytes) (fs : list ResponseFrame) (later : list bytes)
    (d : datastore) (w : script) : Prop :=
  ∃ d', run (d, w)
        = (Ok (concat (payload <$> fs)),
           (d', sc_step w later (frame :: acks_of (length fs) (take_seq (host_seq d)).2))) ∧
        msg_seq d' = (msg_seq d mod 2 ^ 32 + 1) mod 2 ^ 32 ∧
        answered d d' (concat (payload <$> fs)) (S (length fs)).

(** What [get] and [post] have in common. *)
Lemma send_exchange (build : Z → Z → result bytes) frame ps fs tss later t d w :
  let m := msg_seq d mod 2 ^ 32 in
  build (_next (host_seq d)) m = Ok frame →
  replies m ps fs → segments_ok 0 fs → Forall2 transfers_of ps tss →
  sc_in w = concat tss ++ later → 0 < t →
  zlen ps <= DEFAULT_MAX_RESPONSE_READS → zlen fs <= DEFAULT_MAX_RESPONSE_FRAMES →
  packet_bytes fs <= DEFAULT_MAX_BYTES →
  exchanged (message_seq ← this _current_message_seq;
             q ← _next_host_seq;
             frame ← mlift (build q message_seq);
             _ ← _write_frame frame;
             _ ← _advance_message_seq;
             _collect_response message_seq t no_callbacks) frame fs later d w.
Proof.
  intros m Hframe Hrep Hseg Hts Hin Ht Hps Hfs Hb. unfold exchanged. fold m.
  assert (_current_message_seq d = m) as Hm by apply land_message_seq.
  rewrite (M_bind_eq _ _ _ m (d, w)) by (unfold this; by rewrite <- Hm).
  rewrite (M_bind_eq _ _ _ (_next (host_seq d)) (set_host_seq (take_seq (host_seq d)).2 d, w)) by done.
  erewrite (M_bind_eq (mlift _)); [|unfold mlift; by rewrite Hframe].
  erewrite (M_bind_eq (_write_frame frame)).
  2: { unfold _write_frame, envR, mbind, M_bind. simpl. by rewrite Z.eqb_refl. }
  erewrite (M_bind_eq _advance_message_seq) by done.
  edestruct (collect_response_replies m ps fs tss later t) as (d' & E & Hms & Ha);
    [..|exists d'; split; [rewrite E|]]; eauto.
  - unfold sc_step. simpl. by rewrite <- app_assoc.
  - split.
    + rewrite Hms. cbn [msg_seq set_msg_seq fst]. unfold _current_message_seq.
      by rewrite !land_message_seq.
    + destruct Ha as (p & ? & ? & ? & Hh). exists p. split_and!; auto. rewrite Hh. simpl.
      by destruct (takes (length fs) _).
Qed.

(** C4. A whole GET and a whole POST: when the device acknowledges and answers a
    request with the numbered segments of a response for its message sequence,
    cut into USB transfers in any way and within the default limits, [get] and
    [post] return exactly the concatenated payloads, store the parsed response,
    acknowledge each segment with the next host sequence numbers, advance the
    message sequence by one modulo 2^32 and leave later transfers alone. *)
Theorem request_exchange path etag client fields json_body frame ps fs tss later t d w :
  let q := _next (host_seq d) in let m := msg_seq d mod 2 ^ 32 in
  replies m ps fs → segments_ok 0 fs → Forall2 transfers_of ps tss →
  sc_in w = concat tss ++ later → 0 < t →
  zlen ps <= DEFAULT_MAX_RESPONSE_READS → zlen fs <= DEFAULT_MAX_RESPONSE_FRAMES →
  packet_bytes fs <= DEFAULT_MAX_BYTES →
  (build_get_frame q m path etag (s! "NREK") client fields = Ok frame →
   exchanged (get path etag client t no_callbacks fields) frame fs later d w) ∧
  (build_post_frame q m path json_body (s! "NREK") client = Ok frame →
   exchanged (post path json_body client t) frame fs later d w).
Proof.
  intros q m Hrep Hseg Hts Hin Ht Hps Hfs Hb. split; intros Hframe.
  - by apply (send_exchange (λ q m, build_get_frame q m path etag (s! "NREK") client fields)
                frame ps fs tss).
  - by apply (send_exchange (λ q m, build_post_frame q m path json_body (s! "NREK") client)
                frame ps fs tss).
Qed.

(** ** Concrete runs *)

Definition d0 : datastore :=
  {| host_seq := {| _next := 0x20 |}; msg_seq := 2; last_response_stats := None;
     last_response_etag := None; last_response_payload := None |}.

Definition sample_ack : bytes := [0x20; 0; 8; 0; 0x20; 0; 8; 0].
Definition sample_frames : list ResponseFrame := segment (s! "NREK") 2 0 [[123]; [125]].
Definition sample_packets : list bytes :=
  sample_ack :: (encode_response_frame <$> sample_frames).
(** The second segment arrives in two transfers. *)
Definition sample_transfers : list (list bytes) :=
  match sample_packets with
  | [a; b; c] => [[a]; [b]; [ztake 7 c; zdrop 7 c]]
  | _ => []
  end.
Definition sample_script : script :=
  {| sc_clock := 0; sc_in := concat sample_transfers; sc_out := [] |}.

Lemma sample_replies : replies 2 sample_packets sample_frames.
Proof.
  pose proof (segment_wf (s! "NREK") 2 0 [[123]; [125]]) as Hwf.
  assert (Forall frame_wf sample_frames) as H.
  { apply Hwf; try done; [by left|]. repeat constructor; done. }
  apply Forall_cons_iff in H as [H1 H]. apply Forall_cons_iff in H as [H2 _].
  apply reply_ack; [reflexivity|]. apply reply_segment; try done. by apply reply_final.
Qed.

Lemma sample_transfers_of : Forall2 transfers_of sample_packets sample_transfers.
Proof.
  repeat constructor.
  all: eexists _, _; split; [reflexivity|].
  all: split_and!; [vm_compute; reflexivity | vm_compute; discriminate | | |
                    vm_compute; reflexivity].
  all: unfold bytes_ok, is_byte; vm_compute; repeat constructor; done.
Qed.

Lemma collect_response_terminates_witness :
  let k := {| cc_expected := 2; cc_max_bytes := 1024; cc_timeout_ms := 600;
              cc_max_reads := 16; cc_max_ignored := 4; cc_max_frames := 4;
              cc_started := 0; cc_deadline := 600000 |} in
  collect_loop (100 + S (Z.to_nat 16)) k no_callbacks collecting0 (d0, sample_script)
  = collect_loop (S (Z.to_nat 16)) k no_callbacks collecting0 (d0, sample_script).
Proof. intros k. apply (collect_response_terminates 100 k). simpl. lia. Defined.

Lemma read_logical_frame_reassembles_witness :
  _read_logical_frame 600 no_callbacks (d0, sample_script)
  = (Ok sample_ack, (d0, sc_with_in sample_script (concat (tail sample_transfers)))).
Proof.
  apply (read_logical_frame_reassembles sample_ack [sample_ack]); [|reflexivity].
  exists sample_ack, []. split_and!; try done; try constructor.
  all: unfold bytes_ok, is_byte; vm_compute; repeat constructor; done.
Defined.

Lemma request_exchange_witness :
  let body := s! "{}" in
  ∃ g p, build_get_frame 0x20 2 (s! "/datastore") (s! "0") (s! "NREK") None None = Ok g ∧
    build_post_frame 0x20 2 (s! "/datastore") body (s! "NREK") None = Ok p ∧
    exchanged (get (s! "/datastore") (s! "0") None 1200 no_callbacks None) g sample_frames [] d0 sample_script ∧
    exchanged (post (s! "/datastore") body None 1200) p sample_frames [] d0 sample_script.
Proof.
  intros body.
  assert (∃ g, build_get_frame 0x20 2 (s! "/datastore") (s! "0") (s! "NREK") None None = Ok g)
    as [g Hg] by (eexists; vm_compute; reflexivity).
  assert (∃ p, build_post_frame 0x20 2 (s! "/datastore") body (s! "NREK") None = Ok p)
    as [p Hp] by (eexists; vm_compute; reflexivity).
  assert (∀ frame,
    (build_get_frame 0x20 2 (s! "/datastore") (s! "0") (s! "NREK") None None = Ok frame →
     exchanged (get (s! "/datastore") (s! "0") None 1200 no_callbacks None) frame sample_frames [] d0 sample_script) ∧
    (build_post_frame 0x20 2 (s! "/datastore") body (s! "NREK") None = Ok frame →
     exchanged (post (s! "/datastore") body None 1200) frame sample_frames [] d0 sample_script)) as H.
  { intros frame. apply (request_exchange (s! "/datastore") (s! "0") None None body frame sample_packets
                           sample_frames sample_transfers [] 1200 d0 sample_script).
    - exact sample_replies.
    - vm_compute. auto.
    - exact sample_transfers_of.
    - rewrite app_nil_r. reflexivity.
    - lia.
    - vm_compute. discriminate.
    - vm_compute. discriminate.
    - vm_compute. discriminate. }
  exists g, p. split; [exact Hg|]. split; [exact Hp|].
  split; [exact (proj1 (H g) Hg)|exact (proj2 (H p) Hp)].
Defined.
