(* ===== verification/Inbox.v ===== *)
(** What a response is made of (class [MotuUsbDatastore] of motu_proxy/datastore.py).

    [UsbInbox] is an interface on top of [UsbEnv]: a record of the transfers the
    transport delivered, one for each read that returned, which no other operation
    changes.  The specification says, without the code, how transfers make packets
    ([packet_of], [framed]) and which packets carry the segments of a response
    ([segment_of], [carried]).

    Shown: a response that [_collect_response] returns is exactly the payloads of the
    segments with its message sequence among the packets delivered during the call,
    all of them, in the order of delivery. *)
From S2P Require Import Prelude Protocol Parser Usb.

(** * Transfers, packets and segments *)

(** The length field of a packet. *)
Definition length_field (p : bytes) : Z := byte_at p 2 + 256 * byte_at p 3.

(** A packet from consecutive transfers: the first holds the wrapper with the length
    field, and there are as many as that length needs and no more. *)
Definition packet_of (p : bytes) (ts : list bytes) : Prop :=
  ∃ t rest, ts = t :: rest ∧ p = concat ts ∧ 4 <= zlen t ∧ Forall (λ x, x ≠ []) rest ∧
    4 <= length_field p <= zlen p ∧
    (rest = [] ∨ ∃ front last, ts = front ++ [last] ∧ zlen (concat front) < length_field p).

(** The packets in some transfers; an empty transfer is a read that timed out. *)
Inductive framed : list bytes → list bytes → Prop :=
  | framed_nil : framed [] []
  | framed_quiet ts ps : framed ts ps → framed ([] :: ts) ps
  | framed_packet p ts ts' ps : packet_of p ts → framed ts' ps → framed (ts ++ ts') (p :: ps).

(** A packet with a segment of the response to request [expected]. *)
Definition segment_of (expected : Z) (p : bytes) (f : ResponseFrame) : Prop :=
  frame_wf f ∧ message_seq f = expected ∧ ∃ pad, p = encode_response_frame f ++ pad.

(** The segments some packets carry, in order. *)
Inductive carried (expected : Z) : list bytes → list ResponseFrame → Prop :=
  | carried_nil : carried expected [] []
  | carried_segment p f ps fs :
      segment_of expected p f → carried expected ps fs → carried expected (p :: ps) (f :: fs)
  | carried_other p ps fs :
      (∀ f, ¬ segment_of expected p f) → carried expected ps fs → carried expected (p :: ps) fs.

Lemma framed_app ts ps ts' ps' : framed ts ps → framed ts' ps' → framed (ts ++ ts') (ps ++ ps').
Proof.
  intros H H'. induction H as [|ts ps _ IH|p ts ts1 ps Hp _ IH]; [done|by constructor|].
  cbn. rewrite <- app_assoc. by constructor.
Qed.
Lemma carried_app e ps fs ps' fs' :
  carried e ps fs → carried e ps' fs' → carried e (ps ++ ps') (fs ++ fs').
Proof. intros H H'. induction H; cbn; [done|by constructor..]. Qed.

(** * The transport's deliveries *)

(** The transfers that reads returned, which are bytes; a read that raises delivers
    nothing. *)
Class UsbInbox (W : Type) `{UsbEnv W} := {
  delivered : W → list bytes;
  delivered_monotonic w : delivered (monotonic w).2 = delivered w;
  delivered_write f w : delivered (bulk_write f w).2 = delivered w;
  delivered_begin n t w : delivered (begin_cancellable_bulk_read n t w).2 = delivered w;
  delivered_read n t w :
    match bulk_read n t w with
    | (Ok b, w') => delivered w' = delivered w ++ [b] ∧ bytes_ok b
    | (Err _, w') => delivered w' = delivered w
    end;
  delivered_cancellable w :
    match cancellable_read w with
    | (Ok b, w') => delivered w' = delivered w ++ [b] ∧ bytes_ok b
    | (Err _, w') => delivered w' = delivered w
    end
}.

Section Inbox.
Context {W : Type} `{UsbInbox W}.
Implicit Types s : St (W := W).

Definition inbox s : list bytes := delivered s.2.

(** The callbacks do not read. *)
Record callbacks_apart (cb : callbacks (W := W)) : Prop := {
  ca_cancel f w : should_cancel cb = Some f → delivered (f w).2 = delivered w;
  ca_started f b w : read_started cb = Some f → delivered (f b w) = delivered w
}.
Lemma no_callbacks_apart : callbacks_apart no_callbacks.
Proof. by split. Qed.

Context (cb : callbacks (W := W)) (Hcb : callbacks_apart cb).

Lemma env_inbox {A} (f : W → A * W) s a s' :
  (∀ w, delivered (f w).2 = delivered w) → env f s = (Ok a, s') → inbox s' = inbox s.
Proof.
  intros Hf. unfold env, inbox. specialize (Hf s.2). destruct (f s.2) as [x w]. by intros [= _ <-].
Qed.

Lemma notify_inbox b s a s' : notify cb b s = (Ok a, s') → inbox s' = inbox s.
Proof.
  unfold notify. destruct (read_started cb) as [f|] eqn:E; [|by intros [= _ <-]].
  apply env_inbox. intros w. by apply (ca_started cb Hcb).
Qed.

Lemma bulk_read_inbox n t s b s' :
  _bulk_read n t cb s = (Ok b, s') → inbox s' = inbox s ++ [b] ∧ bytes_ok b.
Proof.
  unfold _bulk_read. destruct (use_cancellable_read cb); cbn [negb].
  2: { unfold envR, inbox. pose proof (delivered_read n t s.2) as Hr.
       destruct (bulk_read n t s.2) as [[x|e] w]; [|done]. by intros [= <- <-]. }
  destruct supports_cancellable_bulk_reads; [|done]. cbn [negb]. intros E.
  apply M_bind_ok in E as ([] & s1 & Eb & E). apply M_bind_ok in E as (u & s2 & En & E).
  apply notify_inbox in En.
  assert (inbox s1 = inbox s) as H1.
  { unfold envR, inbox in *. pose proof (delivered_begin n t s.2) as Hb.
    destruct (begin_cancellable_bulk_read n t s.2) as [r w]. by injection Eb as _ <-. }
  unfold mfinally, mcatch, envR in E. pose proof (delivered_cancellable s2.2) as Hr.
  destruct (cancellable_read s2.2) as [[x|e] w].
  - destruct (notify cb false (s2.1, w)) as [[v|e] s3] eqn:E3; [|done]. injection E as <- <-.
    apply notify_inbox in E3. unfold inbox in *. cbn in E3. destruct Hr as [Hr ?].
    by rewrite E3, Hr, En, H1.
  - destruct e; cbn in E; by destruct (notify cb false _) as [[] ?].
Qed.

(** * A packet *)

Lemma length_field_first t rest : 4 <= zlen t → length_field (t ++ rest) = length_field t.
Proof. intros Ht. unfold length_field. by rewrite !byte_at_app_l by lia. Qed.

(** The loop that reads the rest of a packet of which [ts] were read. *)
Lemma read_chunks_inbox fuel t expected got ts s got' chunks s' :
  read_chunks fuel t cb expected got (concat ts) s = (Ok (got', chunks), s') →
  got = zlen (concat ts) → expected <= got' → bytes_ok (concat ts) → ts ≠ [] →
  ∃ rest, chunks = concat (ts ++ rest) ∧ inbox s' = inbox s ++ rest ∧ bytes_ok chunks ∧
    Forall (λ x, x ≠ []) rest ∧ got' = zlen chunks ∧
    (rest = [] ∨ ∃ front last, ts ++ rest = front ++ [last] ∧ zlen (concat front) < expected).
Proof.
  revert got ts s. induction fuel as [|fuel IH]; intros got ts s E Hg He Hb Hne; cbn [read_chunks] in E;
    destruct (got <? expected) eqn:El; cbn [negb] in E; zbool;
    try (injection E as <- <- <-; exists []; rewrite !app_nil_r; split_and!; auto; fail).
  apply M_bind_ok in E as (x & s1 & Er & E). apply bulk_read_inbox in Er as [Er Hx].
  destruct (zl_eqb x []) eqn:Ex; [injection E as <- <- <-; lia|]. apply zl_eqb_neq in Ex.
  replace (concat ts ++ x) with (concat (ts ++ [x])) in E
    by (rewrite concat_app; cbn; by rewrite app_nil_r).
  apply IH in E as (rest & -> & Hi & Hok & Hr & Hg' & Hlast).
  - exists (x :: rest). rewrite <- app_assoc in *. cbn in *. split_and!; auto.
    * by rewrite Hi, Er, <- app_assoc.
    * right. destruct Hlast as [->|(front & last & E' & Hl)]; [|by exists front, last].
      exists ts, x. split; [done|]. by rewrite <- Hg.
  - rewrite concat_app, zlen_app. cbn. rewrite app_nil_r. lia.
  - done.
  - rewrite concat_app. apply bytes_ok_app. split; [done|]. cbn. by rewrite app_nil_r.
  - by destruct ts.
Qed.

(** A logical frame is the packet its transfers make; an empty one is a quiet read. *)
Lemma logical_frame_inbox t s p s' :
  _read_logical_frame t cb s = (Ok p, s') →
  ∃ ts, inbox s' = inbox s ++ ts ∧ bytes_ok p ∧ (p = [] ∧ ts = [[]] ∨ p ≠ [] ∧ packet_of p ts).
Proof.
  unfold _read_logical_frame. intros E. apply M_bind_ok in E as (x & s1 & Er & E).
  apply bulk_read_inbox in Er as [Er Hx]. destruct (zl_eqb x []) eqn:Ex.
  { apply zl_eqb_eq in Ex as ->. injection E as <- <-. exists [[]]. auto. }
  apply zl_eqb_neq in Ex. destruct (zlen x <? 4) eqn:E4; [done|]. zbool.
  apply M_bind_ok in E as (expected & s2 & Eu & E). unfold mlift in Eu. injection Eu as Eu <-.
  apply u16_value in Eu. change (2 + 1) with 3 in Eu. fold (length_field x) in Eu.
  destruct (expected <? 4) eqn:E5; [done|]. zbool.
  apply M_bind_ok in E as ([got chunks] & s3 & Ec & E). destruct (got <? expected) eqn:E6; [done|]. zbool.
  injection E as <- <-. replace x with (concat [x]) in Ec at 2 by (cbn; apply app_nil_r).
  apply read_chunks_inbox in Ec as (rest & -> & Hi & Hok & Hr & Hg & Hlast);
    [|by cbn; rewrite app_nil_r|lia|by cbn; rewrite app_nil_r|done].
  exists (x :: rest). cbn [app concat] in *.
  split; [by rewrite Hi, Er, <- app_assoc|]. split; [done|]. right. split; [by destruct x|].
  exists x, rest. rewrite length_field_first by lia. split_and!; auto; try lia.
  by rewrite <- Eu.
Qed.

(** * What is made of a packet *)

(** A packet that parses is no acknowledgement, has a response tag, and shows the
    sequence it is parsed with. *)
Lemma parse_ok_shape p e f :
  parse_response_frame p e = Ok f →
  is_device_ack p = false ∧
  (starts_with (s! "NREK") (zdrop 4 p) || starts_with (s! "PTTH") (zdrop 4 p) = true) ∧
  4 <= zlen p ∧ _response_message_seq p = Ok (Some e).
Proof.
  intros E. unfold parse_response_frame in E. destruct (zlen p <? 28) eqn:El; [done|]. zbool.
  apply result_bind_ok in E as (wl & Hwl & E). repeat (case_if_in E; [done|]). zbool.
  set (body := zdrop 4 (ztake wl p)) in *.
  apply result_bind_ok in E as (crc & _ & E). apply result_bind_ok in E as (mseq & Hm & E).
  do 3 (apply result_bind_ok in E as (? & _ & E)). destruct (mseq =? e) eqn:Ee; [|done]. zbool. subst mseq.
  clear E. assert (zslice 4 wl p = body) as Hbody.
  { subst body. unfold zslice, ztake, zdrop. rewrite take_drop_commute. f_equal. f_equal. lia. }
  assert (zlen body = wl - 4) as Hz by (subst body; rewrite zlen_zdrop; rewrite zlen_ztake; lia).
  assert (is_response_header (ztake 4 body) = true) as Hh by done.
  split_and!; [|clear Hm|lia|].
  - unfold is_device_ack. by replace (zlen p =? 8) with false by (symmetry; lia).
  - assert (zdrop 4 p = ztake 4 body ++ zdrop 4 body ++ zdrop wl p) as ->.
    { rewrite app_assoc, ztake_zdrop. rewrite <- Hbody.
      pose proof (zslice_drop p 4 wl) as Hd. rewrite Hd at 1 by lia.
      apply zdrop_app. rewrite zlen_ztake; lia. }
    unfold is_response_header in Hh. apply orb_true_iff in Hh as [Hh%zl_eqb_eq|Hh%zl_eqb_eq]; rewrite Hh;
      rewrite starts_with_app; [done|apply orb_true_r].
  - unfold _response_message_seq. replace (zlen p <? 16) with false by (symmetry; lia).
    rewrite Hwl. cbn. rewrite Hbody.
    replace (wl <? 16) with false by (symmetry; lia). replace (zlen p <? wl) with false by (symmetry; lia).
    replace (zlen body <? 12) with false by (symmetry; lia). rewrite Hh. cbn. by rewrite Hm.
Qed.

Lemma segment_iff p e f : bytes_ok p → parse_response_frame p e = Ok f ↔ segment_of e p f.
Proof. apply parse_frame_iff. Qed.

Lemma no_segment p e : bytes_ok p → (∀ f, parse_response_frame p e ≠ Ok f) → ∀ f, ¬ segment_of e p f.
Proof. intros Hp Hn f Hf. apply (Hn f). by apply segment_iff. Qed.

Lemma ack_inbox s u s' : ack s = (Ok u, s') → inbox s' = inbox s.
Proof.
  unfold ack, _write_frame, inbox. intros E. apply M_bind_ok in E as (q & s1 & E1 & E).
  unfold _next_host_seq in E1. destruct (take_seq (host_seq s.1)). injection E1 as <- <-.
  apply M_bind_ok in E as (n & s2 & E2 & E). unfold envR in E2. cbn in E2.
  pose proof (delivered_write (build_ack z) s.2) as Hw.
  destruct (bulk_write (build_ack z) s.2) as [r w]. injection E2 as _ <-.
  destruct (negb _); [done|]. by injection E as _ <-.
Qed.

(** What a packet adds to the frames of a collection. *)
Definition takes_in (e : Z) (p : bytes) (c c' : collecting) : Prop :=
  (∃ f, segment_of e p f ∧ c_frames c' = c_frames c ++ [f]) ∨
  (∀ f, ¬ segment_of e p f) ∧ c_frames c' = c_frames c.

Lemma check_ignored_inbox k c s c' b s' :
  check_ignored k c s = (Ok (c', b), s') → c' = c ∧ s' = s.
Proof. unfold check_ignored. case_if; [by intros ?%fail_not_ok|]. by intros [= <- _ <-]. Qed.

Lemma current_packet_inbox k c p m s c' b s' :
  bytes_ok p → current_packet k c p m s = (Ok (c', b), s') →
  inbox s' = inbox s ∧ takes_in (cc_expected k) p c c'.
Proof.
  intros Hp. unfold current_packet. destruct (parse_response_frame p (cc_expected k)) as [f|e] eqn:Ep.
  - cbv zeta. case_if; [by intros ?%fail_not_ok|]. intros E. apply M_bind_ok in E as (u & s1 & Ea & E).
    apply ack_inbox in Ea. revert E. case_if; [by intros ?%fail_not_ok|]. intros [= <- _ <-].
    split; [done|]. left. exists f. split; [by apply segment_iff|done].
  - assert (∀ f, ¬ segment_of (cc_expected k) p f) as Hn by (apply no_segment; [done|congruence]).
    destruct e; try done. case_if; [by intros ?%fail_not_ok|].
    intros [-> ->]%check_ignored_inbox. split; [done|]. by right.
Qed.

Lemma stale_packet_inbox k c p m s c' b s' :
  stale_packet k c p m s = (Ok (c', b), s') → inbox s' = inbox s ∧ c_frames c' = c_frames c.
Proof.
  unfold stale_packet. destruct (parse_response_frame p m) as [f|e].
  - intros E. apply M_bind_ok in E as (u & s1 & Ea & E). apply ack_inbox in Ea. revert E.
    destruct (bool_decide (c_stale_seq c = Some m)).
    all: case_if; [by intros ?%fail_not_ok|]; case_if; [by intros ?%fail_not_ok|].
    all: intros [= <- _ <-]; split; [done|]; by destruct (final f).
  - destruct e; try done. intros E. apply M_bind_ok in E as (u & s1 & Ea & E). apply ack_inbox in Ea.
    by apply check_ignored_inbox in E as [-> ->].
Qed.

Lemma handle_packet_inbox k c p s c' b s' :
  bytes_ok p → handle_packet k c p s = (Ok (c', b), s') →
  inbox s' = inbox s ∧ takes_in (cc_expected k) p c c'.
Proof.
  intros Hp E. unfold handle_packet in E.
  pose proof (parse_ok_shape p (cc_expected k)) as Hshape.
  destruct (is_device_ack p) eqn:Ea.
  { injection E as <- _ <-. split; [done|]. right. split; [|done].
    apply no_segment; [done|]. by intros f [[=] _]%Hshape. }
  destruct (_ || _) eqn:Et.
  2: { apply check_ignored_inbox in E as [-> ->]. split; [done|]. right. split; [|done].
       apply no_segment; [done|]. intros f (_ & Ht & Hl & _)%Hshape.
       replace (4 <=? zlen p) with true in Et by (symmetry; lia). congruence. }
  apply M_bind_ok in E as (mseq & s1 & Em & E). injection Em as Em <-.
  destruct mseq as [m|]; [|by eapply current_packet_inbox, E].
  destruct (m =? cc_expected k) eqn:Eq; cbn [negb] in E; [by eapply current_packet_inbox, E|].
  zbool. apply stale_packet_inbox in E as [? ?]. split; [done|]. right. split; [|done].
  apply no_segment; [done|]. intros f (_ & _ & _ & Hm)%Hshape. congruence.
Qed.

(** * Rounds *)

(** A part of a collection: the transfers it was delivered, the packets they make and
    the segments those carry, which are the frames it adds. *)
Definition collects (e : Z) (c c' : collecting) s s' : Prop :=
  ∃ ts ps fs, inbox s' = inbox s ++ ts ∧ framed ts ps ∧ carried e ps fs ∧
              c_frames c' = c_frames c ++ fs.

Lemma collect_round_inbox k c s c' b s' :
  collect_round k cb c s = (Ok (c', b), s') → collects (cc_expected k) c c' s s'.
Proof.
  unfold collect_round. intros E. apply M_bind_ok in E as (cancelled & s1 & Ec & E).
  assert (inbox s1 = inbox s) as H1.
  { destruct (should_cancel cb) as [f|] eqn:Ef; [|by injection Ec as _ <-].
    eapply env_inbox, Ec. intros w. by apply (ca_cancel cb Hcb). }
  destruct cancelled; [by apply fail_not_ok in E|].
  destruct (_ <=? _); [by apply fail_not_ok in E|]. apply M_bind_ok in E as (now & s2 & En & E).
  apply env_inbox in En; [|apply delivered_monotonic].
  destruct (_ <=? _); [by apply fail_not_ok in E|]. apply M_bind_ok in E as (p & s3 & Er & E).
  assert (∃ t, _read_logical_frame t cb s2 = (Ok p, s3)) as [t Ht].
  { unfold mcatch in Er. destruct (_read_logical_frame _ cb s2) as [[x|[]] s4] eqn:Ex;
      try discriminate Er; [|by apply fail_not_ok in Er]. injection Er as <- <-. eauto. }
  apply logical_frame_inbox in Ht as (ts & Hts & Hp & Hpk).
  destruct (zl_eqb p []) eqn:Ez.
  - apply zl_eqb_eq in Ez as ->. destruct Hpk as [[_ ->]|[? _]]; [|done].
    apply M_bind_ok in E as (early & s4 & Ee & E). injection E as <- _ <-.
    assert (inbox s4 = inbox s3) as H4.
    { destruct (read_timeout_slice_ms cb); [|by injection Ee as _ <-].
      apply M_bind_ok in Ee as (n & s5 & E5 & Ee). apply env_inbox in E5; [|apply delivered_monotonic].
      by injection Ee as _ <-. }
    exists [[]], [], []. split_and!; [by rewrite H4, Hts, En, H1|by repeat constructor|constructor|].
    rewrite app_nil_r. by destruct early.
  - apply zl_eqb_neq in Ez. destruct Hpk as [[? _]|[_ Hpk]]; [done|].
    apply handle_packet_inbox in E as [Hi Ht]; [|done].
    assert (framed ts [p]) as Hf.
    { rewrite <- (app_nil_r ts). apply framed_packet; [done|constructor]. }
    assert (inbox s' = inbox s ++ ts) as Hs by (by rewrite Hi, Hts, En, H1).
    destruct Ht as [(f & Hseg & Hfr)|[Hno Hfr]].
    + exists ts, [p], [f]. split_and!; [done|done| |done]. constructor; [done|constructor].
    + exists ts, [p], []. split_and!; [done|done| |by rewrite app_nil_r].
      by apply carried_other; [|constructor].
Qed.

Lemma collect_loop_inbox fuel k c s c' s' :
  collect_loop fuel k cb c s = (Ok c', s') → collects (cc_expected k) c c' s s'.
Proof.
  assert (∀ c s, collects (cc_expected k) c c s s) as Hnil.
  { intros c0 s0. exists [], [], []. rewrite !app_nil_r. split_and!; auto; constructor. }
  revert c s. induction fuel as [|fuel IH]; intros c s E; cbn [collect_loop] in E;
    (destruct (negb _); [by injection E as <- <-|]); [by injection E as <- <-|].
  apply M_bind_ok in E as ([c1 stop] & s1 & Er & E). apply collect_round_inbox in Er.
  destruct stop; [by injection E as <- <-|]. apply IH in E.
  destruct Er as (ts & ps & fs & E1 & F1 & C1 & X1), E as (ts' & ps' & fs' & E2 & F2 & C2 & X2).
  exists (ts ++ ts'), (ps ++ ps'), (fs ++ fs').
  split_and!; [by rewrite E2, E1, <- app_assoc|by apply framed_app|by apply carried_app|].
  by rewrite X2, X1, <- app_assoc.
Qed.
End Inbox.

(** C3. A response is what was delivered for it: when response collection returns, for
    any transport, timing and callbacks, the transfers the transport delivered during
    the call make up packets, quiet reads aside, and the value is the concatenation of
    the payloads of all segments with the message sequence of this request (checksum,
    trailer and lengths right) among these packets, in the order of delivery, and of
    nothing else; they are numbered from 0 with the final flag on the last; the frame,
    byte and read limits were respected; and the object then holds the parsed payload,
    its ETag and the statistics of this very response. *)
Theorem collect_response_sound {W} `{UsbInbox W} expected mb t mr mi mf cb s r s' :
  callbacks_apart cb → 0 <= mr → 0 <= mb → 0 <= mf →
  _collect_response_with (W:=W) expected mb t mr mi mf cb s = (Ok r, s') →
  ∃ transfers packets frames p st,
    delivered s'.2 = delivered s.2 ++ transfers ∧ framed transfers packets ∧
    carried expected packets frames ∧
    segments_ok 0 frames ∧ r = concat (payload <$> frames) ∧ zlen frames <= mf ∧
    parse_datastore_response r false = Ok p ∧
    last_response_payload s'.1 = Some p ∧ last_response_etag s'.1 = etag p ∧
    last_response_stats s'.1 = Some st ∧ rs_accepted_frames st = zlen frames ∧
    rs_reads st <= mr ∧ rs_response_bytes st <= mb.
Proof.
  intros Hcb Hr Hb Hf E.
  apply collect_response_parts in E as (k & c & s0 & s1 & p & st & Hk & Hs0 & Hl & Hs' & Hrest); [|done..].
  apply (collect_loop_inbox cb Hcb) in Hl as (ts & ps & fs & Hi & Hfr & Hca & Hfs).
  cbn [collecting0 c_frames app] in Hfs. rewrite Hk in Hca. subst fs. unfold inbox in Hi.
  exists ts, ps, (c_frames c), p, st. split_and!; try apply Hrest; [|done..].
  by rewrite Hs', delivered_monotonic, Hi, Hs0, !delivered_monotonic.
Qed.

(** ** A scripted device that keeps what it delivered *)

Definition octets (b : bytes) : bytes := (λ x, x mod 256) <$> b.

Definition kept_read (w : script * list bytes) : result bytes * (script * list bytes) :=
  match sc_in w.1 with
  | [] => (Ok [], (w.1, w.2 ++ [[]]))
  | b :: rest => (Ok (octets b), (sc_with_in w.1 rest, w.2 ++ [octets b]))
  end.

#[local] Instance keeping_env : UsbEnv (script * list bytes) := {
  monotonic := λ w, (sc_clock w.1, w);
  bulk_write := λ f w, let '(r, x) := script_write f w.1 in (r, (x, w.2));
  bulk_read := λ _ _, kept_read;
  supports_cancellable_bulk_reads := true;
  begin_cancellable_bulk_read := λ _ _ w, (Ok tt, w);
  cancellable_read := kept_read;
  max_packet_size := 512
}.

Lemma octets_ok b : bytes_ok (octets b).
Proof.
  apply Forall_fmap, list.Forall_forall. intros x _. unfold is_byte. cbn.
  pose proof (Z.mod_pos_bound x 256). lia.
Qed.

#[local] Instance keeping_inbox : UsbInbox (script * list bytes).
Proof.
  refine {| delivered := snd |}; try done.
  - intros n t w. cbn. unfold kept_read. destruct (sc_in w.1); cbn; auto using octets_ok.
    split; [done|constructor].
  - intros w. cbn. unfold kept_read. destruct (sc_in w.1); cbn; auto using octets_ok.
    split; [done|constructor].
Defined.

(** A late answer to an earlier request, a quiet read, then the sample response. *)
Definition late_transfers : list bytes :=
  (encode_response_frame <$> segment (s! "NREK") 1 0 [[91; 93]]) ++ [[]] ++ concat sample_transfers.
Definition late_world : script * list bytes :=
  ({| sc_clock := 0; sc_in := late_transfers; sc_out := [] |}, []).

Lemma collect_response_sound_witness :
  ∃ s', _collect_response_with 2 1024 600 16 4 4 no_callbacks (d0, late_world)
        = (Ok [123; 125], s') ∧ s'.2.2 = late_transfers ∧
        ∃ packets frames, framed late_transfers packets ∧ carried 2 packets frames ∧
          [123; 125] = concat (payload <$> frames).
Proof.
  assert (∃ s', _collect_response_with 2 1024 600 16 4 4 no_callbacks (d0, late_world)
                = (Ok [123; 125], s') ∧ s'.2.2 = late_transfers) as (s' & E & He)
    by (eexists; split; vm_compute; reflexivity).
  exists s'. split; [exact E|]. split; [exact He|].
  destruct (collect_response_sound 2 1024 600 16 4 4 no_callbacks (d0, late_world) [123; 125] s')
    as (ts & ps & frames & p & st & Hd & H1 & H2 & _ & H3 & _); try lia; try exact E.
  { apply no_callbacks_apart. }
  cbn in Hd. rewrite He in Hd. subst ts. exists ps, frames. split_and!; assumption.
Defined.
