(* ===== verification/Managed.v ===== *)
(** The reconnecting session manager ([is_reconnectable_device_loss] and class
    [ManagedDatastore] of motu_proxy/datastore.py, and [open_datastore]).

    A session is an object of a type [D] that the opener makes; what the manager
    needs of it, of the opener and of the clock is the class [SessionOps], so
    the theorems hold for every device; [usb_session] is the instance the
    program uses.  Times and delays are integer microseconds.  Calls are atomic
    with respect to each other: [_call] and [close] hold [_operation_lock] for
    their whole duration, so a run of the object is a sequence of calls.  The
    identity of a session object is the number of the session it was made as. *)
From S2P Require Import Prelude PyText Protocol Parser Usb.

(** * Which errors mean that the device went away *)

Definition ENOENT : Z := 2.
Definition ENXIO : Z := 6.
Definition ENODEV : Z := 19.
Definition EPIPE : Z := 32.
Definition ECONNRESET : Z := 104.
Definition ESHUTDOWN : Z := 108.

Definition RECONNECTABLE_USB_ERRNOS : list Z :=
  [ENODEV; ENOENT; ENXIO; ECONNRESET; ESHUTDOWN; EPIPE].

(** [PermissionError], [TimeoutError] and [InterruptedError] are the [OSError]s
    of other error numbers. *)
Definition is_reconnectable_device_loss (exc : exn) (during_open : bool) : bool :=
  match exc with
  | NoDeviceFound | NoControlInterfaceFound | MultipleDevicesFound => true
  | DeviceDiscoveryError by_permission message =>
      negb (by_permission || contains (s! "not readable") (lower message))
  | OSError errno => bool_decide (errno ∈ RECONNECTABLE_USB_ERRNOS)
  | ShortUsbWrite _ _ => true
  | DatastoreNoResponse _ | DatastoreTimeout _ => during_open
  | _ => false
  end.

(** * Interface of a session *)

Class SessionOps (D W : Type) := {
  clock : W → Z * W;
  (** [opener(config)] followed by [__enter__]. *)
  open_session : W → result D * W;
  (** [__exit__] of the context that made the session. *)
  exit_session : D → W → result unit * W;
  session_stats : D → option ResponseStats;
  session_etag : D → option pystr;
  session_payload : D → option DatastorePayload;
  session_supports_cancellable : D → bool
}.

(** * State *)

Inductive reconnect_state :=
  | Unavailable
  | Backoff
  | Reconnecting
  | Available
  | ConfigurationError
  | Closed.

#[global] Instance reconnect_state_eq_dec : EqDecision reconnect_state.
Proof. solve_decision. Defined.

Record managed (D : Type) := {
  initial_delay : Z;
  max_delay : Z;
  configuration_error_retry_delay : Z;
  assume_cancellable_bulk_reads : bool;
  session : option (Z * D);
  session_generation : Z;
  state : reconnect_state;
  last_reconnect_error : option exn;
  retry_delay : Z;
  scheduled_retry_delay : Z;
  next_retry_at : Z;
  closed : bool;
  mem_stats : option ResponseStats;
  mem_etag : option pystr;
  mem_payload : option DatastorePayload
}.
Arguments initial_delay {_} _.
Arguments max_delay {_} _.
Arguments configuration_error_retry_delay {_} _.
Arguments assume_cancellable_bulk_reads {_} _.
Arguments session {_} _.
Arguments session_generation {_} _.
Arguments state {_} _.
Arguments last_reconnect_error {_} _.
Arguments retry_delay {_} _.
Arguments scheduled_retry_delay {_} _.
Arguments next_retry_at {_} _.
Arguments closed {_} _.
Arguments mem_stats {_} _.
Arguments mem_etag {_} _.
Arguments mem_payload {_} _.

Definition DEFAULT_RECONNECT_INITIAL_DELAY : Z := 250000.
Definition DEFAULT_RECONNECT_MAX_DELAY : Z := 5000000.
Definition DEFAULT_CONFIGURATION_ERROR_RETRY_DELAY : Z := 30000000.

(** [ManagedDatastore.__init__]. *)
Definition ManagedDatastore_init (D : Type) (initial maximum configuration : Z)
    (assume : bool) : managed D :=
  let initial := Z.max 0 initial in
  {| initial_delay := initial; max_delay := Z.max initial maximum;
     configuration_error_retry_delay := Z.max 0 configuration;
     assume_cancellable_bulk_reads := assume;
     session := None; session_generation := 0; state := Unavailable;
     last_reconnect_error := None; retry_delay := initial;
     scheduled_retry_delay := initial; next_retry_at := 0; closed := false;
     mem_stats := None; mem_etag := None; mem_payload := None |}.

Section Updates.
Context {D : Type}.
Implicit Types m : managed D.

Definition set_session (x : option (Z * D)) m : managed D :=
  {| initial_delay := initial_delay m; max_delay := max_delay m;
     configuration_error_retry_delay := configuration_error_retry_delay m;
     assume_cancellable_bulk_reads := assume_cancellable_bulk_reads m;
     session := x; session_generation := session_generation m; state := state m;
     last_reconnect_error := last_reconnect_error m; retry_delay := retry_delay m;
     scheduled_retry_delay := scheduled_retry_delay m; next_retry_at := next_retry_at m;
     closed := closed m; mem_stats := mem_stats m; mem_etag := mem_etag m;
     mem_payload := mem_payload m |}.

Definition set_state (x : reconnect_state) m : managed D :=
  {| initial_delay := initial_delay m; max_delay := max_delay m;
     configuration_error_retry_delay := configuration_error_retry_delay m;
     assume_cancellable_bulk_reads := assume_cancellable_bulk_reads m;
     session := session m; session_generation := session_generation m; state := x;
     last_reconnect_error := last_reconnect_error m; retry_delay := retry_delay m;
     scheduled_retry_delay := scheduled_retry_delay m; next_retry_at := next_retry_at m;
     closed := closed m; mem_stats := mem_stats m; mem_etag := mem_etag m;
     mem_payload := mem_payload m |}.

Definition set_error (x : option exn) m : managed D :=
  {| initial_delay := initial_delay m; max_delay := max_delay m;
     configuration_error_retry_delay := configuration_error_retry_delay m;
     assume_cancellable_bulk_reads := assume_cancellable_bulk_reads m;
     session := session m; session_generation := session_generation m; state := state m;
     last_reconnect_error := x; retry_delay := retry_delay m;
     scheduled_retry_delay := scheduled_retry_delay m; next_retry_at := next_retry_at m;
     closed := closed m; mem_stats := mem_stats m; mem_etag := mem_etag m;
     mem_payload := mem_payload m |}.

Definition set_closed m : managed D :=
  {| initial_delay := initial_delay m; max_delay := max_delay m;
     configuration_error_retry_delay := configuration_error_retry_delay m;
     assume_cancellable_bulk_reads := assume_cancellable_bulk_reads m;
     session := session m; session_generation := session_generation m; state := state m;
     last_reconnect_error := last_reconnect_error m; retry_delay := retry_delay m;
     scheduled_retry_delay := scheduled_retry_delay m; next_retry_at := next_retry_at m;
     closed := true; mem_stats := mem_stats m; mem_etag := mem_etag m;
     mem_payload := mem_payload m |}.

Definition set_memory (st : option ResponseStats) (e : option pystr)
    (p : option DatastorePayload) m : managed D :=
  {| initial_delay := initial_delay m; max_delay := max_delay m;
     configuration_error_retry_delay := configuration_error_retry_delay m;
     assume_cancellable_bulk_reads := assume_cancellable_bulk_reads m;
     session := session m; session_generation := session_generation m; state := state m;
     last_reconnect_error := last_reconnect_error m; retry_delay := retry_delay m;
     scheduled_retry_delay := scheduled_retry_delay m; next_retry_at := next_retry_at m;
     closed := closed m; mem_stats := st; mem_etag := e; mem_payload := p |}.

(** [_schedule_retry_locked] *)
Definition schedule_retry (now : Z) m : managed D :=
  let delay := retry_delay m in
  {| initial_delay := initial_delay m; max_delay := max_delay m;
     configuration_error_retry_delay := configuration_error_retry_delay m;
     assume_cancellable_bulk_reads := assume_cancellable_bulk_reads m;
     session := session m; session_generation := session_generation m; state := Backoff;
     last_reconnect_error := last_reconnect_error m;
     retry_delay := Z.min (max_delay m) (Z.max (initial_delay m) (delay * 2));
     scheduled_retry_delay := delay; next_retry_at := now + delay;
     closed := closed m; mem_stats := mem_stats m; mem_etag := mem_etag m;
     mem_payload := mem_payload m |}.

(** [_schedule_configuration_error_retry_locked] *)
Definition schedule_configuration_error_retry (now : Z) m : managed D :=
  {| initial_delay := initial_delay m; max_delay := max_delay m;
     configuration_error_retry_delay := configuration_error_retry_delay m;
     assume_cancellable_bulk_reads := assume_cancellable_bulk_reads m;
     session := session m; session_generation := session_generation m;
     state := ConfigurationError; last_reconnect_error := last_reconnect_error m;
     retry_delay := retry_delay m;
     scheduled_retry_delay := configuration_error_retry_delay m;
     next_retry_at := now + configuration_error_retry_delay m;
     closed := closed m; mem_stats := mem_stats m; mem_etag := mem_etag m;
     mem_payload := mem_payload m |}.

(** The end of [_ensure_session]: a new session is installed. *)
Definition install (now : Z) (d : D) m : managed D :=
  {| initial_delay := initial_delay m; max_delay := max_delay m;
     configuration_error_retry_delay := configuration_error_retry_delay m;
     assume_cancellable_bulk_reads := assume_cancellable_bulk_reads m;
     session := Some (session_generation m + 1, d);
     session_generation := session_generation m + 1; state := Available;
     last_reconnect_error := None; retry_delay := initial_delay m;
     scheduled_retry_delay := initial_delay m; next_retry_at := now;
     closed := closed m; mem_stats := mem_stats m; mem_etag := mem_etag m;
     mem_payload := mem_payload m |}.
End Updates.

(** * Operations *)

Section Manager.
Context {D W : Type} `{SessionOps D W}.

Definition MSt : Type := managed D * W.

Definition self {A} (f : managed D → A) : M MSt A := λ s, (Ok (f s.1), s).
Definition upd (f : managed D → managed D) : M MSt unit := λ s, (Ok tt, (f s.1, s.2)).
Definition world {A} (f : W → A * W) : M MSt A := λ s,
  let '(a, w) := f s.2 in (Ok a, (s.1, w)).
Definition worldR {A} (f : W → result A * W) : M MSt A := λ s,
  let '(r, w) := f s.2 in (r, (s.1, w)).

Definition _temporary_unavailable : exn := DatastoreDeviceUnavailable.

Definition _discard_session_locked : M MSt unit :=
  context ← self session;
  _ ← upd (set_session None);
  _ ← match context with
      | None => mret tt
      | Some (_, d) =>
          mcatch (worldR (exit_session d))
            (λ exc, upd (λ m, match last_reconnect_error m with
                              | None => set_error (Some exc) m
                              | Some _ => m
                              end))
      end;
  upd (λ m, match state m with
            | Closed | Reconnecting => m
            | _ => set_state Backoff m
            end).

(** [datastore is self._datastore] *)
Definition is_current (handle : Z) (m : managed D) : bool :=
  match session m with Some (g, _) => g =? handle | None => false end.

Definition _discard_after_loss (handle : Z) (exc : exn) : M MSt unit :=
  current ← self (is_current handle);
  if negb current then mret tt else
  _ ← upd (set_error (Some exc));
  now ← world clock;
  _ ← upd (schedule_retry now);
  _discard_session_locked.

Definition _remember_response_state (handle : Z) : M MSt unit :=
  upd (λ m, match session m with
            | Some (g, d) =>
                if g =? handle
                then set_memory (session_stats d) (session_etag d) (session_payload d) m
                else m
            | None => m
            end).

(** The opening of a session, its failures recorded. *)
Definition open_or_schedule : M MSt D :=
  mcatch (worldR open_session)
    (λ exc,
       let reconnectable := is_reconnectable_device_loss exc true in
       _ ← upd (set_error (Some exc));
       now ← world clock;
       _ ← upd (if reconnectable then schedule_retry now
                else schedule_configuration_error_retry now);
       if reconnectable then mraise _temporary_unavailable else mraise exc).

(** [_ensure_session]; the result is the identity of the session object. *)
Definition _ensure_session : M MSt Z :=
  is_closed ← self closed;
  if (is_closed : bool) then mraise DatastoreDeviceUnavailable else
  current ← self session;
  match current with
  | Some (g, _) => mret g
  | None =>
      now ← world clock;
      next ← self next_retry_at;
      if now <? next then
        _ ← upd (λ m, if bool_decide (state m = ConfigurationError) then m
                      else set_state Backoff m);
        mraise _temporary_unavailable
      else
      _ ← upd (set_state Reconnecting);
      d ← open_or_schedule;
      is_closed ← self closed;
      if (is_closed : bool) then
        _ ← worldR (exit_session d); mraise _temporary_unavailable
      else
      current ← self session;
      match current with
      | Some (g, _) => _ ← worldR (exit_session d); mret g
      | None =>
          now ← world clock;
          _ ← upd (install now d);
          self session_generation
      end
  end.

(** An operation of the session object, which changes it in place. *)
Definition operation : Type := D → W → result bytes * (D * W).

Definition on_session (op : operation) (handle : Z) : M MSt bytes := λ s,
  match session s.1 with
  | Some (g, d) =>
      let '(r, (d', w)) := op d s.2 in (r, (set_session (Some (g, d')) s.1, w))
  | None => (Err AssertionError, s)
  end.

Definition _call (op : operation) : M MSt bytes :=
  datastore ← _ensure_session;
  response ← mcatch (on_session op datastore)
    (λ exc,
       _ ← _remember_response_state datastore;
       if is_reconnectable_device_loss exc false then
         _ ← _discard_after_loss datastore exc;
         mraise _temporary_unavailable
       else mraise exc);
  _ ← _remember_response_state datastore;
  mret response.

(** [close] *)
Definition close : M MSt unit :=
  _ ← upd set_closed;
  _ ← _discard_session_locked;
  upd (set_state Closed).

(** The properties and [status]. *)
Definition supports_cancellable (m : managed D) : bool :=
  match session m with
  | None => assume_cancellable_bulk_reads m
  | Some (_, d) => session_supports_cancellable d
  end.
Definition managed_last_payload (m : managed D) : option DatastorePayload :=
  match session m with Some (_, d) => session_payload d | None => mem_payload m end.
Definition managed_last_etag (m : managed D) : option pystr :=
  match session m with Some (_, d) => session_etag d | None => mem_etag m end.
Definition managed_last_stats (m : managed D) : option ResponseStats :=
  match session m with Some (_, d) => session_stats d | None => mem_stats m end.

Record managed_status := {
  datastore_available : bool;
  datastore_reconnect_state : reconnect_state;
  datastore_session_generation : Z;
  datastore_last_reconnect_error : option exn;
  datastore_retry_delay : Z;
  datastore_next_retry_in : option Z
}.

Definition managed_status_of (now : Z) (m : managed D) : managed_status :=
  let available := bool_decide (is_Some (session m)) in
  {| datastore_available := available;
     datastore_reconnect_state := state m;
     datastore_session_generation := session_generation m;
     datastore_last_reconnect_error := last_reconnect_error m;
     datastore_retry_delay :=
       if bool_decide (state m = ConfigurationError)
       then configuration_error_retry_delay m else scheduled_retry_delay m;
     datastore_next_retry_in :=
       if available then None else Some (Z.max 0 (next_retry_at m - now)) |}.
End Manager.

Arguments operation : clear implicits.
Arguments MSt : clear implicits.

(** * The sessions of the program *)

(** [open_datastore]: discovery, the transport and the first exchange are
    nested as the [with] statements are, so a failure after the transport was
    opened closes it before the error goes on. *)
Section OpenDatastore.
Context {W : Type} `{UsbEnv W} {Dev : Type}.
Variable find_motu_device : W → result Dev * W.
Variable transport_open : Dev → W → result unit * W.
Variable transport_close : W → result unit * W.

Definition start_datastore (seq_start message_seq : Z) (no_init : bool) (w : W)
    : result datastore * W :=
  match MotuUsbDatastore_init seq_start message_seq with
  | Err e => (Err e, w)
  | Ok d =>
      if no_init then (Ok d, w) else
      match init (d, w) with
      | (Ok _, (d', w')) => (Ok d', w')
      | (Err e, (_, w')) => (Err e, w')
      end
  end.

Definition open_datastore (seq_start message_seq : Z) (no_init : bool) (w : W)
    : result datastore * W :=
  match find_motu_device w with
  | (Err e, w) => (Err e, w)
  | (Ok dev, w) =>
      match transport_open dev w with
      | (Err e, w) => (Err e, w)
      | (Ok _, w) =>
          match start_datastore seq_start message_seq no_init w with
          | (Ok d, w) => (Ok d, w)
          | (Err e, w) =>
              match transport_close w with
              | (Ok _, w) => (Err e, w)
              | (Err e', w) => (Err e', w)
              end
          end
      end
  end.

Definition usb_session (seq_start message_seq : Z) (no_init : bool)
    : SessionOps datastore W := {|
  clock := monotonic;
  open_session := open_datastore seq_start message_seq no_init;
  exit_session := λ _, transport_close;
  session_stats := last_response_stats;
  session_etag := last_response_etag;
  session_payload := last_response_payload;
  session_supports_cancellable := λ _, supports_cancellable_bulk_reads
|}.

(** [get] and [post] of the session, as operations of the manager. *)
Definition usb_get path etag client t cb fields : operation datastore W := λ d w,
  get path etag client t cb fields (d, w).
Definition usb_post path json client t : operation datastore W := λ d w,
  post path json client t (d, w).
End OpenDatastore.

(** * The invariant *)

Record managed_ok {D} (m : managed D) : Prop := {
  ok_delays : 0 <= initial_delay m <= max_delay m;
  ok_configuration : 0 <= configuration_error_retry_delay m;
  ok_retry : initial_delay m <= retry_delay m <= max_delay m;
  ok_scheduled : initial_delay m <= scheduled_retry_delay m <= max_delay m ∨
                 scheduled_retry_delay m = configuration_error_retry_delay m;
  ok_generation : 0 <= session_generation m;
  ok_session : ∀ g d, session m = Some (g, d) → g = session_generation m;
  ok_available : is_Some (session m) ↔ state m = Available;
  ok_closed : closed m = true ↔ state m = Closed;
  ok_idle : state m ≠ Reconnecting
}.

Section Invariant.
Context {D W : Type} `{SessionOps D W}.
Implicit Types m : managed D.

(** Unfolds the sequential computations of the manager. *)
#[local] Ltac run :=
  unfold self, upd, world, worldR, mbind, M_bind, mret, M_ret, mraise, mcatch in *; simpl in *.

#[local] Ltac ok_solve :=
  match goal with H : managed_ok _ |- _ => destruct H end;
  constructor; simpl in *; repeat case_match; simpl in *; try done; try lia; try (naive_solver lia);
  try solve [split; intros HX; try done; try (match type of HX with is_Some _ => destruct HX as [? ?] end); congruence].

Lemma managed_init_ok i x c a : managed_ok (ManagedDatastore_init D i x c a).
Proof. constructor; simpl; try lia; try done; split; try done; by intros [? ?]. Qed.

(** A session that is lost or closed: nothing is open afterwards. *)
Lemma discard_session_spec m w :
  ∃ w' err, _discard_session_locked (m, w)
    = (Ok tt, (set_state (match state m with Closed => Closed | Reconnecting => Reconnecting
                          | _ => Backoff end)
                 (set_error err (set_session None m)), w')) ∧
    w' = match session m with Some (_, d) => (exit_session d w).2 | None => w end ∧
    (is_Some (last_reconnect_error m) → err = last_reconnect_error m).
Proof.
  unfold _discard_session_locked. run. destruct m as [? ? ? ? ss ? st le]; simpl.
  destruct ss as [[g d]|]; simpl.
  - destruct (exit_session d w) as [[u|e] w'] eqn:E; simpl.
    + exists w', le. split; [|done]. by destruct st.
    + exists w'. destruct le as [x|]; simpl; [exists (Some x) | exists (Some e)];
        (split; [by destruct st|]; split; [done|]); [done|]. by intros [? ?].
  - exists w, le. split; [|done]. by destruct st.
Qed.

Lemma discard_after_loss_spec m w g d exc :
  session m = Some (g, d) →
  let '(now, w1) := clock w in
  state m ≠ Closed →
  _discard_after_loss g exc (m, w)
  = (Ok tt, (set_session None (schedule_retry now (set_error (Some exc) m)),
             (exit_session d w1).2)).
Proof.
  intros Hs. destruct (clock w) as [now w1] eqn:Ec. intros Hst.
  unfold _discard_after_loss. erewrite (M_bind_eq (self _)) by done. simpl.
  unfold is_current. rewrite Hs, Z.eqb_refl. cbn [negb].
  erewrite (M_bind_eq (upd _)) by done.
  erewrite (M_bind_eq (world _)); [|unfold world; simpl; by rewrite Ec].
  erewrite (M_bind_eq (upd _)) by done. simpl.
  destruct (discard_session_spec (schedule_retry now (set_error (Some exc) m)) w1)
    as (w' & err & -> & -> & He).
  simpl in He. rewrite He by done. simpl. by rewrite Hs.
Qed.
(** The ways [_ensure_session] can end, as a relation on the manager and the
    world. *)
Inductive ensures (m : managed D) (w : W) : result Z → managed D → W → Prop :=
  | ensure_closed :
      closed m = true → ensures m w (Err DatastoreDeviceUnavailable) m w
  | ensure_open g d :
      closed m = false → session m = Some (g, d) → ensures m w (Ok g) m w
  | ensure_wait now w1 :
      closed m = false → session m = None → clock w = (now, w1) → now < next_retry_at m →
      ensures m w (Err DatastoreDeviceUnavailable)
        (if bool_decide (state m = ConfigurationError) then m else set_state Backoff m) w1
  | ensure_lost now w1 e w2 now2 w3 :
      closed m = false → session m = None → clock w = (now, w1) → next_retry_at m <= now →
      open_session w1 = (Err e, w2) → is_reconnectable_device_loss e true = true →
      clock w2 = (now2, w3) →
      ensures m w (Err DatastoreDeviceUnavailable)
        (schedule_retry now2 (set_error (Some e) (set_state Reconnecting m))) w3
  | ensure_misconfigured now w1 e w2 now2 w3 :
      closed m = false → session m = None → clock w = (now, w1) → next_retry_at m <= now →
      open_session w1 = (Err e, w2) → is_reconnectable_device_loss e true = false →
      clock w2 = (now2, w3) →
      ensures m w (Err e)
        (schedule_configuration_error_retry now2
           (set_error (Some e) (set_state Reconnecting m))) w3
  | ensure_opened now w1 d w2 now2 w3 :
      closed m = false → session m = None → clock w = (now, w1) → next_retry_at m <= now →
      open_session w1 = (Ok d, w2) → clock w2 = (now2, w3) →
      ensures m w (Ok (session_generation m + 1))
        (install now2 d (set_state Reconnecting m)) w3.

Lemma ensure_session_ensures m w :
  let '(r, (m', w')) := _ensure_session (m, w) in ensures m w r m' w'.
Proof.
  unfold _ensure_session, open_or_schedule. run.
  destruct (closed m) eqn:Hc; simpl; [by constructor|].
  destruct (session m) as [[g d]|] eqn:Hs; simpl; [by econstructor|].
  destruct (clock w) as [now w1] eqn:E1. simpl.
  destruct (now <? next_retry_at m) eqn:Hn; zbool; simpl; [by eapply ensure_wait|].
  destruct (open_session w1) as [[d|e] w2] eqn:E2; simpl.
  - rewrite ?Hc. simpl. rewrite ?Hs. simpl. destruct (clock w2) as [now2 w3] eqn:E3. simpl. by eapply ensure_opened.
  - destruct (clock w2) as [now2 w3] eqn:E3. simpl.
    destruct (is_reconnectable_device_loss e true) eqn:Hr;
      simpl; [by eapply ensure_lost | by eapply ensure_misconfigured].
Qed.

Lemma ensures_ok m w r m' w' :
  managed_ok m → ensures m w r m' w' → managed_ok m'.
Proof. intros Hm He. destruct He; ok_solve. Qed.

Lemma ensures_session m w g m' w' :
  managed_ok m → ensures m w (Ok g) m' w' → ∃ d, session m' = Some (g, d) ∧ closed m' = false.
Proof. intros Hm He. inversion He; subst; simpl; eauto. Qed.

(** The ways a call can end once there is a session. *)
Lemma call_on_session op m w g d :
  session m = Some (g, d) → closed m = false → state m ≠ Closed →
  let '(r, (d', w1)) := op d w in
  let m1 := set_memory (session_stats d') (session_etag d') (session_payload d')
              (set_session (Some (g, d')) m) in
  _call op (m, w) =
  match r with
  | Ok b => (Ok b, (m1, w1))
  | Err e =>
      if is_reconnectable_device_loss e false then
        let '(now, w2) := clock w1 in
        (Err DatastoreDeviceUnavailable,
         (set_session None (schedule_retry now (set_error (Some e) m1)),
          (exit_session d' w2).2))
      else (Err e, (m1, w1))
  end.
Proof.
  intros Hs Hc Hst. destruct (op d w) as [r [d' w1]] eqn:Eop. intros m1. unfold _call.
  erewrite (M_bind_eq _ensure_session).
  2: { unfold _ensure_session. run. rewrite Hc. simpl. by rewrite Hs. }
  unfold mbind, M_bind, mcatch, on_session. simpl. rewrite Hs, Eop. simpl.
  destruct r as [b|e]; simpl.
  - unfold _remember_response_state, upd. simpl. by rewrite Z.eqb_refl.
  - unfold _remember_response_state, upd. simpl. rewrite Z.eqb_refl. fold m1.
    destruct (is_reconnectable_device_loss e false); [|done].
    pose proof (discard_after_loss_spec m1 w1 g d' e eq_refl) as Hd.
    destruct (clock w1) as [now w2]. rewrite Hd by done. done.
Qed.

Lemma call_without_session op m w e m' w' :
  _ensure_session (m, w) = (Err e, (m', w')) → _call op (m, w) = (Err e, (m', w')).
Proof. intros E. unfold _call, mbind, M_bind. by rewrite E. Qed.

Lemma call_session_opened op m w g m' w' :
  _ensure_session (m, w) = (Ok g, (m', w')) → closed m' = false →
  (∃ d, session m' = Some (g, d)) → _call op (m, w) = _call op (m', w').
Proof.
  intros E Hc [d Hs]. unfold _call, mbind, M_bind. rewrite E.
  assert (_ensure_session (m', w') = (Ok g, (m', w'))) as ->; [|done].
  unfold _ensure_session. run. rewrite Hc. simpl. by rewrite Hs.
Qed.

Lemma call_ok op : triple (λ s, managed_ok s.1) (_call op) (λ _ s, managed_ok s.1).
Proof.
  intros [m w] Hm. simpl in Hm.
  pose proof (ensure_session_ensures m w) as He.
  destruct (_ensure_session (m, w)) as [[g|e] [m' w']] eqn:E.
  2: { erewrite call_without_session by done. by eapply ensures_ok. }
  pose proof (ensures_ok _ _ _ _ _ Hm He) as Hm'.
  destruct (ensures_session _ _ _ _ _ Hm He) as (d & Hs & Hc).
  erewrite call_session_opened by eauto. clear E He.
  assert (state m' ≠ Closed) as Hst.
  { rewrite <- (ok_closed _ Hm'), Hc. done. }
  pose proof (ok_session _ Hm' _ _ Hs) as Hg.
  assert (state m' = Available) as Hav by (apply (ok_available _ Hm'); by rewrite Hs).
  pose proof (call_on_session op m' w' g d Hs Hc Hst) as Hcall.
  destruct (op d w') as [r [d' w1]]. rewrite Hcall. clear Hm Hcall.
  destruct r as [b|e]; [simpl; ok_solve|].
  destruct (is_reconnectable_device_loss e false); [|simpl; ok_solve].
  destruct (clock w1) as [now w2]. simpl. ok_solve.
Qed.

Lemma close_ok : triple (λ s, managed_ok s.1) close (λ _ s, managed_ok s.1).
Proof.
  intros [m w] Hm. simpl in Hm. unfold close.
  erewrite (M_bind_eq (upd _)) by done. simpl.
  destruct (discard_session_spec (set_closed m) w) as (w' & err & E & _).
  erewrite (M_bind_eq _discard_session_locked) by exact E. simpl. ok_solve.
Qed.
End Invariant.

(** * Runs *)

Section Runs.
Context {D W : Type} `{SessionOps D W}.

Inductive command :=
  | Call (op : operation D W)
  | Close.

Definition step (s : MSt D W) (c : command) : MSt D W :=
  match c with
  | Call op => (_call op s).2
  | Close => (close s).2
  end.
Definition run_commands (cs : list command) (s : MSt D W) : MSt D W := foldl step s cs.

Lemma step_ok s c : managed_ok s.1 → managed_ok (step s c).1.
Proof. destruct c; [apply call_ok | apply close_ok]. Qed.

Lemma run_ok cs s : managed_ok s.1 → managed_ok (run_commands cs s).1.
Proof.
  revert s. induction cs as [|c cs IH]; intros s Hs; [done|]. by apply IH, step_ok.
Qed.

(** C14. The session manager's invariant: after any sequence of calls and
    closes, from any parameters and for any device, clock and failures, the
    delays are within the configured bounds, a session exists exactly in state
    "available" and carries the current generation number, the state is
    "closed" exactly when the manager was closed, and it is never left
    "reconnecting". *)
Theorem managed_invariant initial maximum configuration assume cs w :
  managed_ok
    (run_commands cs (ManagedDatastore_init D initial maximum configuration assume, w)).1.
Proof. apply run_ok, managed_init_ok. Qed.

Lemma closed_step s c :
  closed s.1 = true → session s.1 = None →
  closed (step s c).1 = true ∧ session (step s c).1 = None ∧ (step s c).2 = s.2.
Proof.
  destruct s as [m w]. simpl. intros Hc Hs. destruct c as [op|]; simpl.
  - rewrite (call_without_session op m w DatastoreDeviceUnavailable m w); [done|].
    unfold _ensure_session, mbind, M_bind, self. simpl. by rewrite Hc.
  - unfold close. erewrite (M_bind_eq (upd _)) by done. simpl.
    destruct (discard_session_spec (set_closed m) w) as (w' & err & E & -> & _).
    erewrite (M_bind_eq _discard_session_locked) by exact E. simpl. by rewrite Hs.
Qed.

Lemma closed_run cs s :
  closed s.1 = true → session s.1 = None →
  closed (run_commands cs s).1 = true ∧ (run_commands cs s).2 = s.2.
Proof.
  revert s. induction cs as [|c cs IH]; intros s Hc Hs; [done|].
  destruct (closed_step s c Hc Hs) as (Hc' & Hs' & Hw). simpl.
  destruct (IH (step s c) Hc' Hs') as [? Hw']. split; [done|]. by rewrite Hw', Hw.
Qed.

(** A closed manager stays closed: after [close], whatever is called next,
    every call raises the temporary-unavailability error and neither the device
    nor the clock is touched again. *)
Theorem closed_is_final s cs op :
  let s' := (close s).2 in
  (run_commands cs s').2 = s'.2 ∧
  _call op (run_commands cs s') = (Err DatastoreDeviceUnavailable, run_commands cs s').
Proof.
  intros s'. destruct s as [m w].
  assert (closed s'.1 = true ∧ session s'.1 = None) as [Hc Hs].
  { subst s'. unfold close. erewrite (M_bind_eq (upd _)) by done. simpl.
    destruct (discard_session_spec (set_closed m) w) as (w' & err & E & _).
    by erewrite (M_bind_eq _discard_session_locked) by exact E. }
  destruct (closed_run cs s' Hc Hs) as [Hc' Hw]. split; [exact Hw|].
  destruct (run_commands cs s') as [m1 w1]. apply call_without_session.
  unfold _ensure_session, mbind, M_bind, self. simpl in *. by rewrite Hc'.
Qed.

(** C29. A call on an open session, on every branch: the operation's result and
    the response it stored are passed on and the session is kept, also after an
    error of the request; an error that means the device is gone is turned into
    temporary unavailability, the session is closed and dropped, its last
    response stays visible and the next attempt is scheduled one retry delay
    after the loss. *)
Theorem call_outcomes op m w g d :
  managed_ok m → session m = Some (g, d) →
  let '(r, (d', w1)) := op d w in
  let '(r', (m', w')) := _call op (m, w) in
  managed_last_payload m' = session_payload d' ∧ managed_last_etag m' = session_etag d' ∧
  session_generation m' = session_generation m ∧
  match r with
  | Err e =>
      if is_reconnectable_device_loss e false then
        let '(now, w2) := clock w1 in
        r' = Err DatastoreDeviceUnavailable ∧ session m' = None ∧ state m' = Backoff ∧
        last_reconnect_error m' = Some e ∧ next_retry_at m' = now + retry_delay m ∧
        w' = (exit_session d' w2).2
      else r' = Err e ∧ session m' = Some (g, d') ∧ w' = w1
  | Ok b => r' = Ok b ∧ session m' = Some (g, d') ∧ w' = w1
  end.
Proof.
  intros Hm Hs.
  assert (state m = Available) as Hst by (apply (ok_available _ Hm); by rewrite Hs).
  assert (closed m = false) as Hc.
  { apply not_true_is_false. intros E%(ok_closed _ Hm). congruence. }
  pose proof (call_on_session op m w g d Hs Hc ltac:(congruence)) as E.
  destruct (op d w) as [r [d' w1]]. rewrite E. clear E.
  destruct r as [b|e]; [done|].
  destruct (is_reconnectable_device_loss e false); [|done].
  by destruct (clock w1) as [now w2].
Qed.
End Runs.

Arguments command : clear implicits.

(** * A device that stays away *)

(** The clock and the times at which the manager tried to open the device.  The
    [i]-th attempt takes [duration i] and fails with [failure i]. *)
Record away := {
  away_now : Z;
  attempts : list Z
}.

Section Away.
Context (failure : nat → exn) (duration : nat → Z).
Hypothesis failure_loss : ∀ i, is_reconnectable_device_loss (failure i) true = true.

Definition away_open (w : away) : result unit * away :=
  let i := length (attempts w) in
  (Err (failure i), {| away_now := away_now w + duration i;
                       attempts := attempts w ++ [away_now w] |}).

#[local] Instance away_session : SessionOps unit away := {
  clock := λ w, (away_now w, w);
  open_session := away_open;
  exit_session := λ _ w, (Ok tt, w);
  session_stats := λ _, None;
  session_etag := λ _, None;
  session_payload := λ _, None;
  session_supports_cancellable := λ _, false
}.

(** Time passes between calls. *)
Inductive away_event :=
  | Pass (dt : nat)
  | Ask (op : operation unit away).

Definition away_step (s : MSt unit away) (e : away_event) : MSt unit away :=
  match e with
  | Pass dt => (s.1, {| away_now := away_now s.2 + Z.of_nat dt; attempts := attempts s.2 |})
  | Ask op => (_call op s).2
  end.

(** The delay after the [i]-th failure. *)
Definition backoff (m : managed unit) (i : nat) : Z :=
  Z.min (max_delay m) (initial_delay m * 2 ^ Z.of_nat i).

Lemma backoff_S m i :
  0 <= initial_delay m <= max_delay m →
  Z.min (max_delay m) (Z.max (initial_delay m) (backoff m i * 2)) = backoff m (S i).
Proof.
  intros Hd. unfold backoff. rewrite Nat2Z.inj_succ, Z.pow_succ_r by lia.
  assert (1 <= 2 ^ Z.of_nat i) by (apply (Z.pow_le_mono_r 2 0); lia).
  assert (initial_delay m <= initial_delay m * 2 ^ Z.of_nat i) by nia.
  replace (initial_delay m * (2 * 2 ^ Z.of_nat i))
    with (2 * (initial_delay m * 2 ^ Z.of_nat i)) by lia.
  generalize dependent (initial_delay m * 2 ^ Z.of_nat i). intros; lia.
Qed.

(** Successive attempts are spaced by the time the earlier one took and its
    delay; the manager waits as long after the last one. *)
Record away_ok (initial maximum : Z) (s : MSt unit away) : Prop := {
  aw_initial : initial_delay s.1 = initial;
  aw_max : max_delay s.1 = maximum;
  aw_delays : 0 <= initial <= maximum;
  aw_open : session s.1 = None ∧ closed s.1 = false;
  aw_retry : retry_delay s.1 = backoff s.1 (length (attempts s.2));
  aw_last : ∀ l t, attempts s.2 = l ++ [t] →
      next_retry_at s.1 = t + duration (length l) + backoff s.1 (length l);
  aw_spaced : ∀ i t t', attempts s.2 !! i = Some t → attempts s.2 !! S i = Some t' →
      t + duration i + backoff s.1 i <= t'
}.

Lemma away_call_ok initial maximum op s :
  away_ok initial maximum s → away_ok initial maximum (_call op s).2.
Proof.
  intros Hok. destruct s as [m w]. destruct Hok as [Hi Hx Hd [Hs Hc] Hr Hl Hsp].
  simpl in *. pose proof (ensure_session_ensures m w) as He.
  destruct (_ensure_session (m, w)) as [r [m' w']] eqn:E.
  inversion He; subst; simplify_eq/=; try congruence;
    try (match goal with Ho : away_open _ = _ |- _ =>
           unfold away_open in Ho; injection Ho as <- <- end);
    try (match goal with Hf : is_reconnectable_device_loss (failure _) _ = false |- _ =>
           by rewrite failure_loss in Hf end).
  - rewrite (call_without_session _ _ _ _ _ _ E). simpl.
    destruct (bool_decide _); constructor; simpl; auto.
  - rewrite (call_without_session _ _ _ _ _ _ E). constructor; simpl; auto.
    + rewrite length_app, Nat.add_comm, Hr. exact (backoff_S m (length (attempts w1)) Hd).
    + intros l t [Hlt [= ->]]%app_inj_2; [|done]. rewrite Hr. by subst l.
    + intros i t t' Ht Ht'. apply lookup_app_Some in Ht' as [Ht' | [Hlen Ht']].
      * rewrite lookup_app_l in Ht by (apply lookup_lt_Some in Ht'; lia). eauto.
      * destruct (S i - length (attempts w1))%nat eqn:Ei; simplify_eq/=.
        assert (i < length (attempts w1))%nat as Hlt by lia.
        rewrite lookup_app_l in Ht by done.
        assert (∃ l, attempts w1 = l ++ [t] ∧ length l = i) as (l & El & <-).
        { exists (take i (attempts w1)). split; [|rewrite length_take; lia].
          rewrite <- (take_S_r _ _ _ Ht), take_ge by lia. done. }
        specialize (Hl l t El). change (backoff _ (length l)) with (backoff m (length l)). lia.
Qed.

Lemma away_step_ok initial maximum s e :
  away_ok initial maximum s → away_ok initial maximum (away_step s e).
Proof.
  intros Hok. destruct e as [dt|op]; [|by apply away_call_ok].
  destruct Hok. by constructor.
Qed.

(** C13. Exponential backoff is honoured: with a device that stays away, however
    often and whenever the manager is called, the attempt that follows the
    [i]-th failed one starts no earlier than that attempt's end plus
    min(max, initial * 2^i). *)
Theorem attempts_back_off initial maximum configuration assume events now i t t' :
  let s := foldl away_step
             (ManagedDatastore_init unit initial maximum configuration assume,
              {| away_now := now; attempts := [] |}) events in
  attempts s.2 !! i = Some t → attempts s.2 !! S i = Some t' →
  t + duration i + backoff s.1 i <= t'.
Proof.
  intros s. set (i0 := Z.max 0 initial). set (x0 := Z.max i0 maximum).
  assert (away_ok i0 x0 s) as Hok; [|by eapply aw_spaced].
  subst s. match goal with |- away_ok _ _ (foldl _ ?a _) => assert (away_ok i0 x0 a) as Ha end.
  { constructor; simpl; try done; try lia.
    - unfold backoff. simpl. lia.
    - intros l t0 E. by destruct l. }
  revert Ha. generalize (ManagedDatastore_init unit initial maximum configuration assume,
                         {| away_now := now; attempts := [] |}).
  induction events as [|e events IH]; intros a Ha; [done|]. by apply IH, away_step_ok.
Qed.
End Away.

(** ** Concrete runs *)

Definition trivial_op : operation unit away := λ d w, (Ok [1], (d, w)).

Lemma attempts_back_off_witness :
  let s := foldl (away_step (λ _, NoDeviceFound) (λ _, 5))
             (ManagedDatastore_init unit 250 1000 30000 true,
              {| away_now := 0; attempts := [] |})
             [Ask trivial_op; Ask trivial_op; Pass 255; Ask trivial_op; Pass 600; Ask trivial_op] in
  attempts s.2 = [0; 260; 865] ∧ 260 + 5 + backoff s.1 1 <= 865.
Proof.
  set (s := foldl _ _ _). assert (attempts s.2 = [0; 260; 865]) as E by reflexivity.
  split; [exact E|].
  apply (attempts_back_off (λ _, NoDeviceFound) (λ _, 5) (λ _, eq_refl) 250 1000 30000 true
           [Ask trivial_op; Ask trivial_op; Pass 255; Ask trivial_op; Pass 600; Ask trivial_op]
           0 1 260 865); reflexivity.
Defined.

Definition open_manager : managed unit :=
  install 0 tt (ManagedDatastore_init unit 250 1000 30000 true).

Lemma call_outcomes_witness :
  let w := {| away_now := 7; attempts := [] |} in
  let '(r', (m', _)) :=
    _call (H := away_session (λ _, NoDeviceFound) (λ _, 5)) (λ d w, (Err (OSError ENODEV), (d, w)))
      (open_manager, w) in
  managed_ok open_manager ∧ r' = Err DatastoreDeviceUnavailable ∧ session m' = None ∧
  next_retry_at m' = 7 + 250.
Proof.
  assert (managed_ok open_manager) as Hok.
  { constructor; simpl; try lia; try done; [by intros g d [= <- _] | split; eauto; done..]. }
  pose proof (call_outcomes (H := away_session (λ _, NoDeviceFound) (λ _, 5))
                (λ d w, (Err (OSError ENODEV), (d, w)))
                open_manager {| away_now := 7; attempts := [] |} 1 tt Hok eq_refl) as Hc.
  simpl in Hc. simpl. destruct Hc as (_ & _ & _ & H1 & H2 & _ & _ & H3 & _).
  split; [exact Hok|]. split; [exact H1|]. split; [exact H2 | exact H3].
Defined.
