(* ===== verification/Coordinator.v ===== *)
(** The coordinator of device access (class [DatastoreCoordinator] of
    motu_proxy/datastore.py): the ETag history behind HTTP long polls, the
    foreground operations [read], [post], [get] and [wait_for_change], and the
    body of the background poller.

    The datastore object, the clock, the condition variable and the arbitration
    of device access are the class [CoordEnv]; [usb_coordinator] is the instance
    over the session manager.  The cached history is written only by a thread
    that holds the device (see Arbiter for why there is at most one), so the
    critical sections are computations on the coordinator's state; a thread that
    sleeps in [wait_for_change] sees the state that [cond_wait] leaves, which any
    other thread may have changed, and so does the poller, which reads the latest
    ETag ([poll_capture]) before it waits for the device ([acquire_poller_io]) and
    asks with that ETag after it ([poll_held]). *)
From S2P Require Import Prelude PyText Protocol Parser Usb Managed.

(** * State *)

Record DatastoreTransition := {
  from_etag : pystr;
  to_etag : pystr;
  tr_body : bytes;
  origin_client : option pystr;
  tr_content_type : option pystr
}.

Record coord_cfg := {
  poll_path : pystr;
  long_poll_timeout_ms : Z;
  http_wait_timeout_ms : Z;
  history_size : Z;
  degraded_refresh_interval : Z;
  poll_error_log_interval : Z;
  foreground_preemptive_native_long_poll_available : bool
}.

Definition DEFAULT_LONG_POLL_TIMEOUT_MS : Z := 16000.
Definition DEFAULT_HTTP_LONG_POLL_WAIT_MS : Z := 15500.
Definition DEFAULT_ETAG_HISTORY_SIZE : Z := 64.
Definition DEFAULT_POLL_PATH : pystr := s! "/datastore".
Definition METERS_PATH : pystr := s! "/meters".

Definition default_cfg (native : bool) : coord_cfg :=
  {| poll_path := DEFAULT_POLL_PATH; long_poll_timeout_ms := DEFAULT_LONG_POLL_TIMEOUT_MS;
     http_wait_timeout_ms := DEFAULT_HTTP_LONG_POLL_WAIT_MS;
     history_size := DEFAULT_ETAG_HISTORY_SIZE; degraded_refresh_interval := 500000;
     poll_error_log_interval := 30000000;
     foreground_preemptive_native_long_poll_available := native |}.

Record coordinator := {
  history : list DatastoreTransition;
  latest_etag : option pystr;
  seen_generation : Z;
  coord_closed : bool;
  degraded_refresh_in_progress : bool;
  next_degraded_refresh : Z;
  last_poller_error : option exn;
  last_poller_error_log_at : Z;
  last_poller_error_log_key : option (pystr * pystr)
}.

(** [DatastoreCoordinator.__init__] *)
Definition coordinator_init (generation : Z) : coordinator :=
  {| history := []; latest_etag := None; seen_generation := generation;
     coord_closed := false; degraded_refresh_in_progress := false;
     next_degraded_refresh := 0; last_poller_error := None;
     last_poller_error_log_at := 0; last_poller_error_log_key := None |}.

Definition set_cache (h : list DatastoreTransition) (l : option pystr) (g : Z)
    (c : coordinator) : coordinator :=
  {| history := h; latest_etag := l; seen_generation := g; coord_closed := coord_closed c;
     degraded_refresh_in_progress := degraded_refresh_in_progress c;
     next_degraded_refresh := next_degraded_refresh c;
     last_poller_error := last_poller_error c;
     last_poller_error_log_at := last_poller_error_log_at c;
     last_poller_error_log_key := last_poller_error_log_key c |}.
Definition set_degraded (b : bool) (t : Z) (c : coordinator) : coordinator :=
  {| history := history c; latest_etag := latest_etag c;
     seen_generation := seen_generation c; coord_closed := coord_closed c;
     degraded_refresh_in_progress := b; next_degraded_refresh := t;
     last_poller_error := last_poller_error c;
     last_poller_error_log_at := last_poller_error_log_at c;
     last_poller_error_log_key := last_poller_error_log_key c |}.
Definition set_poller_error (e : option exn) (c : coordinator) : coordinator :=
  {| history := history c; latest_etag := latest_etag c;
     seen_generation := seen_generation c; coord_closed := coord_closed c;
     degraded_refresh_in_progress := degraded_refresh_in_progress c;
     next_degraded_refresh := next_degraded_refresh c;
     last_poller_error := e;
     last_poller_error_log_at := last_poller_error_log_at c;
     last_poller_error_log_key := last_poller_error_log_key c |}.
Definition set_error_log (t : Z) (k : pystr * pystr) (c : coordinator) : coordinator :=
  {| history := history c; latest_etag := latest_etag c;
     seen_generation := seen_generation c; coord_closed := coord_closed c;
     degraded_refresh_in_progress := degraded_refresh_in_progress c;
     next_degraded_refresh := next_degraded_refresh c;
     last_poller_error := last_poller_error c;
     last_poller_error_log_at := t; last_poller_error_log_key := Some k |}.

(** * Helpers *)

Definition _clean_etag (value : option pystr) : option pystr :=
  match value with
  | None => None
  | Some v => let v := strip v in if zl_eqb v [] then None else Some v
  end.

Definition _client_string (value : option QueryFieldValue) : option pystr := qstr <$> value.

Abbreviation query := (option (list (pystr * QueryFieldValue))).

Definition _device_query_fields (fields : query) (client : option QueryFieldValue) : query :=
  match fields with
  | None => None
  | Some fs =>
      match client with
      | Some c =>
          if negb (existsb (λ f, zl_eqb f.1 (s! "client")) fs)
          then Some (fs ++ [(s! "client", c)]) else Some fs
      | None => Some fs
      end
  end.

Definition _long_poll_query_fields_cacheable (fields : query) : bool :=
  match fields with
  | None | Some [] => true
  | Some [f] => zl_eqb f.1 (s! "client")
  | Some _ => false
  end.

(** [a or b] on texts: the empty text counts as absent. *)
Definition or_text (a b : option pystr) : option pystr :=
  match a with
  | Some (_ :: _) => a
  | _ => b
  end.

Definition payload_content_type (p : DatastorePayload) : pystr :=
  match content_type p with
  | Some ((_ :: _) as t) => t
  | _ => datastore_body_content_type (body p)
  end.

(** * The history *)

(** [deque(maxlen=n).append] *)
Definition deque_append {A} (maxlen : Z) (l : list A) (x : A) : list A :=
  let l' := l ++ [x] in zdrop (zlen l' - maxlen) l'.

Definition _publish_payload (cfg : coord_cfg) (p : DatastorePayload)
    (origin from : option pystr) (record_transition : bool) (c : coordinator) : coordinator :=
  match etag p with
  | None => c
  | Some e =>
      if negb record_transition then c else
      if not_modified p then set_cache (history c) (Some e) (seen_generation c) c else
      let previous := match from with Some f => Some f | None => latest_etag c end in
      let h := match previous with
               | Some pr =>
                   if negb (zl_eqb pr e)
                   then deque_append (history_size cfg) (history c)
                          {| from_etag := pr; to_etag := e; tr_body := body p;
                             origin_client := origin;
                             tr_content_type := Some (payload_content_type p) |}
                   else history c
               | None => history c
               end in
      set_cache h (Some e) (seen_generation c) c
  end.

(** The loop over [reversed(self._history)]. *)
Fixpoint find_transition (etag : pystr) (client : option pystr)
    (suppressed : option DatastoreTransition) (l : list DatastoreTransition)
    : option DatastoreTransition * option DatastoreTransition :=
  match l with
  | [] => (None, suppressed)
  | t :: l =>
      if negb (zl_eqb (from_etag t) etag) then find_transition etag client suppressed l else
      if bool_decide (is_Some client ∧ origin_client t = client)
      then find_transition etag client (Some t) l
      else (Some t, suppressed)
  end.

Definition _find_wait_outcome_locked (c : coordinator) (etag : pystr) (client : option pystr)
    : option DatastoreTransition * bool :=
  match find_transition etag client None (reverse (history c)) with
  | (Some t, _) => (Some t, false)
  | (None, Some s) => (None, negb (bool_decide (latest_etag c = Some (to_etag s))))
  | (None, None) =>
      match latest_etag c with
      | Some l => (None, negb (zl_eqb l etag))
      | None => (None, false)
      end
  end.

Definition reset_to_generation (g : Z) (c : coordinator) : coordinator :=
  if g =? seen_generation c then c else set_cache [] None g c.

(** * Environment *)

(** [S] holds the datastore object and everything outside; [cond_wait t] is
    [self._condition.wait(t)].  While a thread sleeps there, and while the poller
    waits for the device, other threads may change the coordinator. *)
Class CoordEnv (S : Type) := {
  ds_get : pystr → pystr → option QueryFieldValue → Z → query → S → result bytes * S;
  ds_poll : pystr → pystr → Z → bool → S → result bytes * S;
  ds_post : pystr → bytes → option QueryFieldValue → S → result bytes * S;
  ds_last_payload : S → option DatastorePayload;
  ds_last_etag : S → option pystr;
  ds_generation : S → Z;
  now_us : S → Z * S;
  cond_wait : Z → coordinator * S → coordinator * S;
  acquire_foreground_io : S → result unit * S;
  acquire_poller_io : coordinator * S → bool * (coordinator * S);
  release_io : S → S;
  (** The class name and the text of an exception. *)
  error_key : exn → pystr * pystr;
  log_line : pystr * pystr → S → S
}.

Section Coordinator.
Context {S : Type} `{CoordEnv S} (cfg : coord_cfg).

Definition CSt : Type := coordinator * S.

Definition cself {A} (f : coordinator → A) : M CSt A := λ s, (Ok (f s.1), s).
Definition cupd (f : coordinator → coordinator) : M CSt unit := λ s, (Ok tt, (f s.1, s.2)).
Definition cenv {A} (f : S → A * S) : M CSt A := λ s, let '(a, w) := f s.2 in (Ok a, (s.1, w)).
Definition cenvR {A} (f : S → result A * S) : M CSt A := λ s,
  let '(r, w) := f s.2 in (r, (s.1, w)).

Definition _reset_if_session_generation_changed : M CSt unit := λ s,
  (Ok tt, (reset_to_generation (ds_generation s.2) s.1, s.2)).

Definition _payload_from_response (response : bytes) : M CSt DatastorePayload :=
  _ ← _reset_if_session_generation_changed;
  s ← mget;
  p ← mlift (match ds_last_payload s.2 with
             | Some p => Ok p
             | None => parse_datastore_response response false
             end);
  mret {| body := body p; etag := or_text (etag p) (ds_last_etag s.2); status := status p;
          content_type := Some (payload_content_type p) |}.

Definition _clear_poller_error : M CSt unit := cupd (set_poller_error None).

Definition _record_poller_error (exc : exn) : M CSt unit :=
  _ ← cupd (set_poller_error (Some exc));
  now ← cenv now_us;
  let key := error_key exc in
  c ← cself id;
  let should_log := (poll_error_log_interval cfg <=? 0)
    || negb (bool_decide (last_poller_error_log_key c = Some key))
    || (poll_error_log_interval cfg <=? now - last_poller_error_log_at c) in
  if negb should_log then mret tt else
  _ ← cupd (set_error_log now key);
  cenv (λ w, (tt, log_line key w)).

(** [try: ... finally: self._release_io()] after [_acquire_foreground_io]. *)
Definition holding {A} (m : M CSt A) : M CSt A :=
  _ ← cenvR acquire_foreground_io;
  mfinally m (cenv (λ w, (tt, release_io w))).

Definition device_get (path etag : pystr) (client : option QueryFieldValue) (timeout_ms : Z)
    (fields : query) : M CSt bytes :=
  match _device_query_fields fields client with
  | None => cenvR (ds_get path etag client timeout_ms None)
  | Some fs => cenvR (ds_get path etag None timeout_ms (Some fs))
  end.

Definition read (path etag : pystr) (client : option QueryFieldValue) (timeout_ms : Z)
    (fields : query) : M CSt DatastorePayload :=
  holding (
    response ← device_get path etag client timeout_ms fields;
    p ← _payload_from_response response;
    _ ← cupd (_publish_payload cfg p None None (zl_eqb path (poll_path cfg)));
    mret p).

Definition _read_locked (path etag : pystr) (client : option QueryFieldValue) (timeout_ms : Z)
    (fields : query) : M CSt DatastorePayload :=
  response ← device_get path etag client timeout_ms fields;
  _ ← _reset_if_session_generation_changed;
  _payload_from_response response.

(** [try: ... except Exception ... else ...] of [post]. *)
Definition refresh_after_post (origin : option pystr) : M CSt unit := λ s,
  match (refresh ← _read_locked (poll_path cfg) (s! "0") None DEFAULT_RESPONSE_TIMEOUT_MS None;
         _ ← _clear_poller_error; mret refresh) s with
  | (Ok refresh, s') => cupd (_publish_payload cfg refresh origin None true) s'
  | (Err exc, s') => _record_poller_error exc s'
  end.

Definition post (path : pystr) (json_body : bytes) (client : option QueryFieldValue)
    : M CSt DatastorePayload :=
  holding (
    response ← cenvR (ds_post path json_body client);
    p ← _payload_from_response response;
    _ ← refresh_after_post (_client_string client);
    mret p).

(** * Long polls *)

(** What one pass of the loop of [wait_for_change] decides under the lock. *)
Inductive wait_decision :=
  | WCached (p : DatastorePayload)
  | WRead
  | WUnchanged
  | WSleep (timeout : Z)
  | WRefresh (timeout_ms : Z).

Definition wait_iteration (path etag : pystr) (client_id : option pystr) (cacheable : bool)
    (deadline : Z) : M CSt wait_decision :=
  c ← cself id;
  let '(transition, should_refresh) := _find_wait_outcome_locked c etag client_id in
  match transition with
  | Some t =>
      if zl_eqb path (poll_path cfg) && cacheable
      then mret (WCached {| body := tr_body t; etag := Some (to_etag t); status := None;
                            content_type := tr_content_type t |})
      else mret WRead
  | None =>
      if (should_refresh : bool) then mret WRead else
      now ← cenv now_us;
      let remaining := deadline - now in
      if (remaining <=? 0) || coord_closed c then mret WUnchanged else
      if negb (foreground_preemptive_native_long_poll_available cfg) then
        now ← cenv now_us;
        if degraded_refresh_in_progress c then mret (WSleep remaining) else
        if next_degraded_refresh c <=? now then
          _ ← cupd (set_degraded true (now + degraded_refresh_interval cfg));
          mret (WRefresh (Z.max 1 (remaining / 1000)))
        else mret (WSleep (Z.min remaining (Z.max 1000 (next_degraded_refresh c - now))))
      else mret (WSleep remaining)
  end.

(** The degraded refresh of the poll path: a device error is recorded and the
    loop goes on, as it does after a successful read. *)
Definition degraded_refresh (timeout_ms : Z) : M CSt unit :=
  mfinally
    (mcatch
       (_ ← read (poll_path cfg) (s! "0") None timeout_ms None; _clear_poller_error)
       (λ exc, match exc with
               | DatastoreDeviceUnavailable | DatastoreNoResponse _ | DatastoreTimeout _ =>
                   _record_poller_error exc
               | _ => mraise exc
               end))
    (cupd (λ c, set_degraded false (next_degraded_refresh c) c)).

(** The loop; [None] is running out of fuel. *)
Fixpoint wait_loop (fuel : nat) (path etag : pystr) (client : option QueryFieldValue)
    (fields : query) (deadline : Z) : M CSt (option DatastorePayload) :=
  match fuel with
  | O => mret None
  | Datatypes.S fuel =>
      d ← wait_iteration path etag (_client_string client)
            (_long_poll_query_fields_cacheable fields) deadline;
      match d with
      | WCached p => mret (Some p)
      | WUnchanged => mret (Some {| body := []; etag := Some etag; status := Some 304;
                                    content_type := None |})
      | WRead => p ← read path (s! "0") client DEFAULT_RESPONSE_TIMEOUT_MS fields; mret (Some p)
      | WSleep t =>
          _ ← (λ s, (Ok tt, cond_wait t s));
          wait_loop fuel path etag client fields deadline
      | WRefresh t =>
          _ ← degraded_refresh t;
          wait_loop fuel path etag client fields deadline
      end
  end.

Definition wait_for_change (fuel : nat) (path etag : pystr) (client : option QueryFieldValue)
    (fields : query) : M CSt (option DatastorePayload) :=
  now ← cenv now_us;
  wait_loop fuel path etag client fields (now + http_wait_timeout_ms cfg * 1000).

Definition get (fuel : nat) (path : pystr) (client : option QueryFieldValue)
    (if_none_match : option pystr) (fields : query) : M CSt (option DatastorePayload) :=
  match _clean_etag if_none_match with
  | Some etag =>
      if zl_eqb path METERS_PATH
      then p ← read path etag client DEFAULT_RESPONSE_TIMEOUT_MS fields; mret (Some p)
      else wait_for_change fuel path etag client fields
  | None => p ← read path (s! "0") client DEFAULT_RESPONSE_TIMEOUT_MS fields; mret (Some p)
  end.

(** * The poller *)

(** What a pass of [_poll_loop] starts with, under the lock: [None] ends the thread;
    else whether this is the initial refresh, and the ETag to ask with. *)
Definition poll_capture (c : coordinator) : option (bool * pystr) :=
  if coord_closed c then None else
  Some (bool_decide (latest_etag c = None),
        match or_text (latest_etag c) None with Some e => e | None => s! "0" end).

(** The rest of the pass, once it holds the device, up to its pause: [false] ends
    the thread. *)
Definition poll_held (initial_refresh : bool) (etag : pystr) : M CSt bool :=
  go_on ← mcatch
    (_ ← mfinally
       (response ← cenvR (ds_poll (poll_path cfg) etag
                            (if initial_refresh then DEFAULT_RESPONSE_TIMEOUT_MS
                             else long_poll_timeout_ms cfg) initial_refresh);
        p ← _payload_from_response response;
        _ ← _clear_poller_error;
        cupd (_publish_payload cfg p None (Some etag) true))
       (cenv (λ w, (tt, release_io w)));
     mret true)
    (λ exc, match exc with
            | DatastoreCancelled =>
                is_closed ← cself coord_closed;
                if (is_closed : bool) then mret false
                else _ ← _clear_poller_error; mret true
            | _ => _ ← _record_poller_error exc; mret true
            end);
  if negb go_on then mret false else
  is_closed ← cself coord_closed;
  mret (negb is_closed).

(** One pass of [_poll_loop] up to its pause. *)
Definition poll_iteration : M CSt bool :=
  captured ← cself poll_capture;
  match captured with
  | None => mret false
  | Some (initial_refresh, etag) =>
      acquired ← (λ s, let '(b, s') := acquire_poller_io s in (Ok b, s'));
      if negb acquired then mret false else poll_held initial_refresh etag
  end.

(** A pass that gets the device is its capture, then what the others do, then the
    poll with what was captured. *)
Lemma poll_iteration_split s i e s1 :
  poll_capture s.1 = Some (i, e) → acquire_poller_io s = (true, s1) →
  poll_iteration s = poll_held i e s1.
Proof.
  intros Hc Ha. unfold poll_iteration, mbind at 1, M_bind at 1, cself. rewrite Hc.
  unfold mbind at 1, M_bind at 1. by rewrite Ha.
Qed.
End Coordinator.

(** * The invariant of the history *)

Record cache_ok (cfg : coord_cfg) (c : coordinator) : Prop := {
  ck_bound : zlen (history c) <= Z.max 0 (history_size cfg);
  ck_change : Forall (λ t, from_etag t ≠ to_etag t ∧ is_Some (tr_content_type t)) (history c);
  ck_latest : history c ≠ [] → is_Some (latest_etag c)
}.

Lemma deque_append_bound {A} n (l : list A) x :
  zlen (deque_append n l x) <= Z.max 0 n.
Proof.
  unfold deque_append, zdrop, zlen. rewrite length_drop. lia.
Qed.

Lemma deque_append_last {A} n (l : list A) x :
  1 <= n → ∃ l', deque_append n l x = l' ++ [x] ∧ ∃ k, l = k ++ l'.
Proof.
  intros Hn. unfold deque_append, zdrop, zlen. rewrite length_app. simpl.
  rewrite drop_app_le by lia.
  exists (drop (Z.to_nat (Z.of_nat (length l + 1) - n)) l). split; [done|].
  eexists. symmetry. apply take_drop.
Qed.

Lemma publish_ok cfg p origin from rec c :
  cache_ok cfg c → cache_ok cfg (_publish_payload cfg p origin from rec c).
Proof.
  intros [Hb Hc Hl]. unfold _publish_payload. destruct (etag p) as [e|]; [|done].
  destruct rec; [|done]. cbn [negb]. destruct (not_modified p); [by constructor|].
  destruct (match from with Some _ => _ | None => _ end) as [pr|]; [|by constructor].
  destruct (zl_eqb pr e) eqn:E; [by constructor|]. apply zl_eqb_neq in E.
  constructor; simpl; [apply deque_append_bound | | done].
  apply Forall_drop, Forall_app. split; [done|]. repeat constructor; eauto.
Qed.

Lemma reset_ok cfg g c : cache_ok cfg c → cache_ok cfg (reset_to_generation g c).
Proof.
  intros Hc. unfold reset_to_generation. destruct (_ =? _); [done|].
  constructor; simpl; [rewrite zlen_nil; lia | constructor | done].
Qed.

(** A property of the coordinator's state that publishing, forgetting and error
    records keep is kept by the critical sections. *)
Section CacheFrame.
Context {S : Type} `{CoordEnv S} (cfg : coord_cfg).
Variable P : coordinator → Prop.
Hypothesis P_publish : ∀ p o f r c, P c → P (_publish_payload cfg p o f r c).
Hypothesis P_reset : ∀ g c, P c → P (reset_to_generation g c).
Hypothesis P_error : ∀ e c, P c → P (set_poller_error e c).
Hypothesis P_log : ∀ t k c, P c → P (set_error_log t k c).

Definition ckeeps {A} (m : M (CSt (S:=S)) A) : Prop := triple (λ s, P s.1) m (λ _ s, P s.1).

Lemma ckeeps_ret {A} (a : A) : ckeeps (mret a).
Proof. by intros s Hs. Qed.
Lemma ckeeps_raise {A} e : ckeeps (A:=A) (mraise e).
Proof. by intros s Hs. Qed.
Lemma ckeeps_lift {A} (r : result A) : ckeeps (mlift r).
Proof. by intros s Hs. Qed.
Lemma ckeeps_get : ckeeps mget.
Proof. by intros s Hs. Qed.
Lemma ckeeps_self {A} (f : coordinator → A) : ckeeps (cself f).
Proof. by intros s Hs. Qed.
Lemma ckeeps_env {A} (f : S → A * S) : ckeeps (cenv f).
Proof. intros s Hs. unfold cenv. by destruct (f s.2). Qed.
Lemma ckeeps_envR {A} (f : S → result A * S) : ckeeps (cenvR f).
Proof. intros s Hs. unfold cenvR. by destruct (f s.2). Qed.
Lemma ckeeps_upd f : (∀ c, P c → P (f c)) → ckeeps (cupd f).
Proof. intros Hf s Hs. apply Hf, Hs. Qed.
Lemma ckeeps_reset : ckeeps _reset_if_session_generation_changed.
Proof. intros s Hs. apply P_reset, Hs. Qed.
Lemma ckeeps_bind {A B} (m : M CSt A) (f : A → M CSt B) :
  ckeeps m → (∀ a, ckeeps (f a)) → ckeeps (m ≫= f).
Proof.
  intros Hm Hf. eapply triple_bind; [|exact Hf].
  eapply triple_conseq; [exact Hm | done |]. by intros [].
Qed.
Lemma ckeeps_catch {A} (m : M CSt A) h :
  ckeeps m → (∀ e, ckeeps (h e)) → ckeeps (mcatch m h).
Proof.
  intros Hm Hh. eapply triple_catch; [|exact Hh].
  eapply triple_conseq; [exact Hm | done |]. by intros [].
Qed.
Lemma ckeeps_finally {A} (m : M CSt A) f : ckeeps m → ckeeps f → ckeeps (mfinally m f).
Proof.
  intros Hm Hf. eapply triple_finally; [exact Hm|]. intros r.
  eapply triple_conseq; [exact Hf | done |]. by intros [].
Qed.

#[local] Hint Resolve ckeeps_ret ckeeps_raise ckeeps_lift ckeeps_get ckeeps_self ckeeps_env
  ckeeps_envR ckeeps_upd ckeeps_reset P_publish P_reset P_error P_log : keep.

#[local] Ltac keep :=
  repeat first
    [ solve [eauto with keep]
    | apply ckeeps_bind; [|intros ?]
    | apply ckeeps_catch; [|intros ?]
    | apply ckeeps_finally
    | match goal with
      | |- ckeeps (if ?b then _ else _) => destruct b
      | |- ckeeps (match ?x with _ => _ end) => destruct x
      end ].

Lemma ckeeps_payload r : ckeeps (_payload_from_response r).
Proof. unfold _payload_from_response. keep. Qed.
Lemma ckeeps_error e : ckeeps (_record_poller_error cfg e).
Proof. unfold _record_poller_error. cbv zeta. keep. Qed.
Lemma ckeeps_device p e c t f : ckeeps (device_get p e c t f).
Proof. unfold device_get. keep. Qed.
#[local] Hint Resolve ckeeps_payload ckeeps_error ckeeps_device : keep.
Lemma ckeeps_read p e c t f : ckeeps (read cfg p e c t f).
Proof. unfold read, holding. keep. Qed.
Lemma ckeeps_read_locked p e c t f : ckeeps (_read_locked p e c t f).
Proof. unfold _read_locked. keep. Qed.
#[local] Hint Resolve ckeeps_read_locked : keep.
Lemma ckeeps_refresh o : ckeeps (refresh_after_post cfg o).
Proof.
  intros s Hs. unfold refresh_after_post, _clear_poller_error.
  match goal with |- context [match ?m s with _ => _ end] =>
    assert (ckeeps m) as Hm by keep end.
  specialize (Hm s Hs).
  match goal with |- context [match ?m s with _ => _ end] =>
    destruct (m s) as [[p|e] s'] end; simpl in *.
  - by apply P_publish.
  - by apply (ckeeps_error e s').
Qed.
#[local] Hint Resolve ckeeps_refresh : keep.
Lemma ckeeps_post p j c : ckeeps (post cfg p j c).
Proof. unfold post, holding. keep. Qed.
Lemma ckeeps_poll i e : ckeeps (poll_held cfg i e).
Proof. unfold poll_held, _clear_poller_error. keep. Qed.
End CacheFrame.

(** The operations that hold the device, in any order; the poller polls with
    whatever it captured, however long ago. *)
Inductive section_event :=
  | EvRead (path etag : pystr) (client : option QueryFieldValue) (t : Z) (fields : query)
  | EvPost (path : pystr) (json : bytes) (client : option QueryFieldValue)
  | EvPoll (initial_refresh : bool) (etag : pystr).

Definition section_step {S} `{CoordEnv S} (cfg : coord_cfg) (s : CSt (S:=S))
    (e : section_event) : CSt (S:=S) :=
  match e with
  | EvRead p e c t f => (read cfg p e c t f s).2
  | EvPost p j c => (post cfg p j c s).2
  | EvPoll i e => (poll_held cfg i e s).2
  end.

(** C36. The history stays sound: after any sequence of reads, posts and polls, these
    with any ETag captured before, for any device and failures, it holds at most [history_size]
    transitions, each is a change to another ETag with a content type, and the
    latest ETag is known whenever the history is not empty. *)
Theorem history_invariant {S} `{CoordEnv S} cfg events generation w :
  cache_ok cfg (foldl (section_step (S:=S) cfg) (coordinator_init generation, w) events).1.
Proof.
  assert (∀ s e, cache_ok cfg s.1 → cache_ok cfg (section_step cfg s e).1) as Hstep.
  { intros s e Hs.
    assert (∀ x c, cache_ok cfg c → cache_ok cfg (set_poller_error x c)) as He
      by (intros x c []; by constructor).
    assert (∀ t k c, cache_ok cfg c → cache_ok cfg (set_error_log t k c)) as Hl
      by (intros t k c []; by constructor).
    destruct e; simpl; [apply ckeeps_read | apply ckeeps_post | apply ckeeps_poll];
      auto using publish_ok, reset_ok. }
  assert (cache_ok cfg (coordinator_init generation, w).1) as H0.
  { constructor; simpl; [rewrite zlen_nil; lia | constructor | done]. }
  revert H0. generalize (coordinator_init generation, w).
  induction events as [|e events IH]; intros s Hs; [done|]. by apply IH, Hstep.
Qed.

(** * Outcomes of a long poll *)

Section Outcomes.
Context (etag : pystr) (client : option pystr).

(** A transition the client made itself, and one it waits for. *)
Definition own (t : DatastoreTransition) : Prop := is_Some client ∧ origin_client t = client.
Definition wanted (t : DatastoreTransition) : Prop := from_etag t = etag ∧ ¬ own t.

#[local] Instance own_dec t : Decision (own t).
Proof. unfold own. apply _. Defined.

Lemma find_transition_spec sup l :
  match find_transition etag client sup l with
  | (Some t, _) =>
      ∃ l1 l2, l = l1 ++ t :: l2 ∧ wanted t ∧ Forall (λ x, ¬ wanted x) l1
  | (None, s) =>
      Forall (λ x, ¬ wanted x) l ∧
      (s = sup ∧ Forall (λ x, from_etag x ≠ etag) l ∨
       ∃ l1 t l2, s = Some t ∧ l = l1 ++ t :: l2 ∧ from_etag t = etag ∧ own t ∧
                  Forall (λ x, from_etag x ≠ etag) l2)
  end.
Proof.
  revert sup. induction l as [|t l IH]; intros sup; simpl.
  { split; [constructor|]. left. split; [done | constructor]. }
  destruct (zl_eqb (from_etag t) etag) eqn:Ef; cbn [negb].
  2: { apply zl_eqb_neq in Ef. specialize (IH sup).
       assert (¬ wanted t) as Hw by (by intros [? _]).
       destruct (find_transition etag client sup l) as [[x|] s].
       - destruct IH as (l1 & l2 & -> & Hx & Hl). exists (t :: l1), l2. repeat constructor; auto.
         all: apply Hx.
       - destruct IH as [Hf [[-> Hn] | (l1 & x & l2 & -> & -> & Hx)]].
         + split; [by constructor|]. left. split; [done | by constructor].
         + split; [by constructor|]. right. by exists (t :: l1), x, l2. }
  apply zl_eqb_eq in Ef. destruct (bool_decide _) eqn:Eo.
  - apply bool_decide_eq_true in Eo. specialize (IH (Some t)).
    assert (¬ wanted t) as Hw by (by intros [_ ?]).
    destruct (find_transition etag client (Some t) l) as [[x|] s].
    + destruct IH as (l1 & l2 & -> & Hx & Hl). exists (t :: l1), l2. repeat constructor; auto.
      all: apply Hx.
    + destruct IH as [Hf [[-> Hn] | (l1 & x & l2 & -> & -> & Hx)]].
      * split; [by constructor|]. right. by exists [], t, l.
      * split; [by constructor|]. right. by exists (t :: l1), x, l2.
  - apply bool_decide_eq_false in Eo. exists [], l. repeat constructor; auto.
Qed.

(** The oldest change from the waited-for ETag, when it is the client's own. *)
Definition own_change (c : coordinator) (t : DatastoreTransition) : Prop :=
  ∃ older newer, history c = older ++ t :: newer ∧ from_etag t = etag ∧ own t ∧
    Forall (λ x, from_etag x ≠ etag) older.

Lemma wait_outcome c :
  match _find_wait_outcome_locked c etag client with
  | (Some t, refresh) =>
      refresh = false ∧
      ∃ older newer, history c = older ++ t :: newer ∧ wanted t ∧
                     Forall (λ x, ¬ wanted x) newer
  | (None, refresh) =>
      Forall (λ x, ¬ wanted x) (history c) ∧
      ((∃ t, own_change c t ∧ (refresh = false ↔ latest_etag c = Some (to_etag t))) ∨
       Forall (λ x, from_etag x ≠ etag) (history c) ∧
       (refresh = false ↔ latest_etag c = None ∨ latest_etag c = Some etag))
  end.
Proof.
  unfold _find_wait_outcome_locked.
  pose proof (find_transition_spec None (reverse (history c))) as Hs.
  destruct (find_transition etag client None (reverse (history c))) as [[t|] s].
  - destruct Hs as (l1 & l2 & E & Hw & Hl). split; [done|].
    exists (reverse l2), (reverse l1). split_and!; [|apply Hw..|by apply Forall_reverse].
    rewrite <- (reverse_involutive (history c)), E, reverse_app, reverse_cons.
    by rewrite <- app_assoc.
  - destruct Hs as [Hf Hs]. rewrite Forall_reverse in Hf.
    destruct Hs as [[-> Hn] | (l1 & t & l2 & -> & E & Ht & Ho & Hl)].
    + rewrite Forall_reverse in Hn.
      destruct (latest_etag c) as [l|] eqn:El; split; auto; right; (split; [done|]).
      * rewrite negb_false_iff, zl_eqb_eq. naive_solver.
      * naive_solver.
    + split; [done|]. left. exists t. split.
      * exists (reverse l2), (reverse l1). split_and!; auto; [|by apply Forall_reverse].
        rewrite <- (reverse_involutive (history c)), E, reverse_app, reverse_cons.
        by rewrite <- app_assoc.
      * by rewrite negb_false_iff, bool_decide_eq_true.
Qed.
End Outcomes.

(** The outcome of a long poll, completely: the newest recorded change from
    the client's ETag that the client did not make itself is returned; without
    one, the client is told to read afresh exactly when the latest ETag is
    neither unknown, nor its own, nor the result of its own change. *)
Theorem wait_outcome_complete c etag client :
  match _find_wait_outcome_locked c etag client with
  | (Some t, refresh) =>
      refresh = false ∧
      ∃ older newer, history c = older ++ t :: newer ∧ wanted etag client t ∧
                     Forall (λ x, ¬ wanted etag client x) newer
  | (None, refresh) =>
      Forall (λ x, ¬ wanted etag client x) (history c) ∧
      ((∃ t, own_change etag client c t ∧
             (refresh = false ↔ latest_etag c = Some (to_etag t))) ∨
       Forall (λ x, from_etag x ≠ etag) (history c) ∧
       (refresh = false ↔ latest_etag c = None ∨ latest_etag c = Some etag))
  end.
Proof. apply wait_outcome. Qed.

(** C25. A long poll goes on waiting only when there is nothing new for the
    client: if a pass of the loop sleeps, refreshes or answers "not modified",
    no recorded change is wanted and the latest ETag is unknown, the client's
    own, or the result of the client's own change; a cached answer is given
    only for the polled path without other query fields; a sleep is positive
    and ends by the deadline; "not modified" means that the deadline passed or
    the coordinator is closed. *)
Theorem wait_iteration_sound {S} `{CoordEnv S} cfg path etag client cacheable deadline
    (s : CSt (S:=S)) d s' :
  wait_iteration cfg path etag client cacheable deadline s = (Ok d, s') →
  let nothing_new :=
    Forall (λ x, ¬ wanted etag client x) (history s.1) ∧
    (latest_etag s.1 = None ∨ latest_etag s.1 = Some etag ∨
     ∃ t, own_change etag client s.1 t ∧ latest_etag s.1 = Some (to_etag t)) in
  match d with
  | WCached p =>
      path = poll_path cfg ∧ cacheable = true ∧
      ∃ t, t ∈ history s.1 ∧ wanted etag client t ∧ body p = tr_body t ∧
           Parser.etag p = Some (to_etag t)
  | WRead => True
  | WUnchanged => nothing_new ∧ (deadline <= (now_us s.2).1 ∨ coord_closed s.1 = true)
  | WSleep t => nothing_new ∧ 0 < t <= deadline - (now_us s.2).1
  | WRefresh _ => nothing_new ∧ foreground_preemptive_native_long_poll_available cfg = false ∧
                  degraded_refresh_in_progress s.1 = false ∧
                  degraded_refresh_in_progress s'.1 = true
  end.
Proof.
  intros E nothing_new. unfold wait_iteration, mbind, M_bind, cself, cenv, mret, M_ret in E.
  simpl in E. pose proof (wait_outcome etag client s.1) as Ho. unfold id in E.
  destruct (_find_wait_outcome_locked s.1 etag client) as [[t|] refresh].
  - destruct Ho as [_ (older & newer & Hh & Hw & _)].
    destruct (zl_eqb path (poll_path cfg) && cacheable) eqn:Ep; simplify_eq; [|done].
    apply andb_true_iff in Ep as [Ep%zl_eqb_eq Hca]. split; [done|]. split; [done|].
    exists t. split; [|done]. rewrite Hh. apply elem_of_app. right. by left.
  - destruct refresh; [by simplify_eq|].
    assert nothing_new as Hn.
    { destruct Ho as [Hf [(t & Ht & Hr) | [Ht Hr]]]; split; auto; naive_solver. }
    clear Ho. destruct (now_us s.2) as [now w] eqn:En. simpl in E.
    destruct ((deadline - now <=? 0) || coord_closed s.1) eqn:Ed.
    { simplify_eq. split; [done|]. simpl.
      apply orb_true_iff in Ed as [?|?]; zbool; [left; lia | by right]. }
    zbool. simpl.
    destruct (foreground_preemptive_native_long_poll_available cfg) eqn:Ef; simpl in E.
    { simplify_eq. split; [done|]. lia. }
    destruct (now_us w) as [now2 w2]. simpl in E.
    destruct (degraded_refresh_in_progress s.1) eqn:Eg.
    { simplify_eq. split; [done|]. lia. }
    destruct (_ <=? now2); simplify_eq; [done|]. split; [done|]. lia.
Qed.

(** * A write seen by the clients *)

Lemma find_transition_none etag client sup l :
  Forall (λ x, from_etag x ≠ etag) l → find_transition etag client sup l = (None, sup).
Proof.
  induction 1 as [|t l Ht _ IH]; [done|]. simpl.
  by rewrite (proj2 (zl_eqb_neq _ _) Ht).
Qed.

(** A published change is what other clients get, and its author does not. *)
Lemma publish_outcome cfg c p cl e e' :
  1 <= history_size cfg → latest_etag c = Some e → etag p = Some e' → e ≠ e' →
  not_modified p = false → Forall (λ x, from_etag x ≠ e) (history c) →
  let c' := _publish_payload cfg p (Some cl) None true c in
  _find_wait_outcome_locked c' e (Some cl) = (None, false) ∧
  ∀ other, other ≠ Some cl →
    ∃ t, _find_wait_outcome_locked c' e other = (Some t, false) ∧
         tr_body t = body p ∧ to_etag t = e'.
Proof.
  intros Hn Hl He Hne Hm Hf c'.
  set (t := {| from_etag := e; to_etag := e'; tr_body := body p; origin_client := Some cl;
               tr_content_type := Some (payload_content_type p) |}).
  assert (∃ l', history c' = l' ++ [t] ∧ Forall (λ x, from_etag x ≠ e) l' ∧
                latest_etag c' = Some e') as (l' & Hh & Hf' & Hlat).
  { subst c'. unfold _publish_payload. rewrite He, Hm, Hl. cbn [negb].
    rewrite (proj2 (zl_eqb_neq e e') Hne). cbn [negb]. fold t.
    destruct (deque_append_last (history_size cfg) (history c) t Hn) as (l' & E & k & Ek).
    exists l'. simpl. split; [done|]. split; [|done]. rewrite Ek in Hf.
    by apply Forall_app in Hf as [_ ?]. }
  unfold _find_wait_outcome_locked. rewrite Hh, reverse_app, Hlat. simpl.
  rewrite zl_eqb_refl. cbn [negb]. split.
  - rewrite bool_decide_eq_true_2 by eauto.
    rewrite find_transition_none by by apply Forall_reverse. simpl.
    by rewrite bool_decide_eq_true_2.
  - intros other Ho. exists t. rewrite bool_decide_eq_false_2; [done|].
    intros [_ E]. by rewrite <- E in Ho.
Qed.

(** C23. Echo suppression through a whole [post]: when a client's write moves the
    device from the latest ETag [e] to [e'] and the refresh after it succeeds,
    the client itself, waiting on [e], goes on waiting, while every other client
    waiting on [e] gets the refreshed body with the new ETag. *)
Theorem post_wakes_others {S} `{CoordEnv S} cfg path json cl (s : CSt (S:=S)) e
    w1 r1 w2 p1 r2 w3 q e' :
  1 <= history_size cfg → latest_etag s.1 = Some e →
  Forall (λ x, from_etag x ≠ e) (history s.1) →
  acquire_foreground_io s.2 = (Ok tt, w1) →
  ds_post path json (Some (QStr cl)) w1 = (Ok r1, w2) → ds_last_payload w2 = Some p1 →
  ds_get (poll_path cfg) (s! "0") None DEFAULT_RESPONSE_TIMEOUT_MS None w2 = (Ok r2, w3) →
  ds_last_payload w3 = Some q →
  ds_generation w2 = seen_generation s.1 → ds_generation w3 = seen_generation s.1 →
  Parser.etag q = Some e' → e' ≠ [] → e ≠ e' → not_modified q = false →
  let '(r, s') := post cfg path json (Some (QStr cl)) s in
  is_ok r = true ∧ s'.2 = release_io w3 ∧
  _find_wait_outcome_locked s'.1 e (Some cl) = (None, false) ∧
  ∀ other, other ≠ Some cl →
    ∃ t, _find_wait_outcome_locked s'.1 e other = (Some t, false) ∧
         tr_body t = body q ∧ to_etag t = e'.
Proof.
  intros Hn Hl Hf Ha Hp Hp1 Hg Hq Hg2 Hg3 He Hne Hdiff Hm. destruct s as [c w]. simpl in *.
  assert (∀ w c0, seen_generation c0 = seen_generation c →
          ds_generation w = seen_generation c → reset_to_generation (ds_generation w) c0 = c0)
    as Hreset.
  { intros v c0 E1 E2. unfold reset_to_generation. by rewrite E1, E2, Z.eqb_refl. }
  unfold post, holding. erewrite (M_bind_eq (cenvR _)); [|unfold cenvR; simpl; by rewrite Ha].
  unfold mfinally. erewrite (M_bind_eq (cenvR _)); [|unfold cenvR; simpl; by rewrite Hp].
  assert (∀ r v (x : DatastorePayload), ds_generation v = seen_generation c →
    ds_last_payload v = Some x → _payload_from_response r (c, v)
    = (Ok {| body := body x; etag := or_text (Parser.etag x) (ds_last_etag v);
             status := status x; content_type := Some (payload_content_type x) |}, (c, v)))
    as Hpay.
  { intros r v x Ev Ex. unfold _payload_from_response, mbind, M_bind,
      _reset_if_session_generation_changed, mget, mlift, mret, M_ret. simpl.
    by rewrite Hreset, Ex. }
  erewrite (M_bind_eq (_payload_from_response r1)) by by apply Hpay.
  set (q' := {| body := body q; etag := or_text (Parser.etag q) (ds_last_etag w3);
                status := status q; content_type := Some (payload_content_type q) |}).
  assert (_read_locked (poll_path cfg) (s! "0") None DEFAULT_RESPONSE_TIMEOUT_MS None (c, w2)
          = (Ok q', (c, w3))) as Hrl.
  { unfold _read_locked, device_get. simpl.
    erewrite (M_bind_eq (cenvR _)); [|unfold cenvR; simpl; by rewrite Hg].
    erewrite (M_bind_eq _reset_if_session_generation_changed) by done. simpl.
    rewrite Hreset by done. by apply Hpay. }
  erewrite (M_bind_eq (refresh_after_post _ _)).
  2: { unfold refresh_after_post. rewrite (M_bind_eq _ _ _ _ _ Hrl).
       erewrite (M_bind_eq _clear_poller_error) by done. done. }
  simpl. split; [done|]. split; [done|].
  apply (publish_outcome cfg (set_poller_error None c) q' cl e e'); auto.
  simpl. rewrite He. by destruct e'.
Qed.

Lemma publish_generation cfg p o f r c :
  seen_generation (_publish_payload cfg p o f r c) = seen_generation c.
Proof.
  unfold _publish_payload. destruct (etag p); [|done]. destruct r; [|done].
  by destruct (not_modified p).
Qed.

(** A new device session starts from nothing: when a successful read finds
    that the session was replaced, every recorded change is forgotten and the
    latest ETag is unknown or the one just read, so no client is answered from
    the history of an earlier session. *)
Theorem new_session_forgets {S} `{CoordEnv S} cfg path e client t fields
    (s : CSt (S:=S)) p s' :
  read cfg path e client t fields s = (Ok p, s') →
  seen_generation s'.1 ≠ seen_generation s.1 →
  history s'.1 = [] ∧ (latest_etag s'.1 = None ∨ latest_etag s'.1 = etag p).
Proof.
  unfold read, holding. intros E Hg. apply M_bind_ok in E as ([] & s1 & Ea & E).
  unfold cenvR in Ea. destruct (acquire_foreground_io s.2) as [ra w1]. simplify_eq/=.
  unfold mfinally in E.
  match type of E with (let '(_, _) := ?m ?x in _) = _ => destruct (m x) as [r s2] eqn:Em end.
  unfold cenv in E. simpl in E. simplify_eq. simpl in *.
  apply M_bind_ok in Em as (resp & s3 & Ed & Em).
  assert (s3.1 = s.1) as Hs3.
  { unfold device_get, cenvR in Ed. destruct (_device_query_fields fields client);
      simpl in Ed; destruct (ds_get _ _ _ _ _ w1); by simplify_eq/=. }
  apply M_bind_ok in Em as (p' & s4 & Ep & Em).
  assert (s4.1 = reset_to_generation (ds_generation s3.2) s3.1) as Hs4.
  { unfold _payload_from_response, mbind, M_bind, _reset_if_session_generation_changed,
      mget, mlift in Ep. simpl in Ep.
    destruct (ds_last_payload s3.2) as [x|];
      [|destruct (parse_datastore_response resp false)]; try done; by injection Ep as _ <-. }
  apply M_bind_ok in Em as ([] & s5 & Eu & Em). unfold cupd in Eu. simplify_eq/=.
  injection Em as <- <-. cbn [fst] in *. rewrite Hs4, Hs3 in *. unfold reset_to_generation in *.
  destruct (_ =? _) eqn:Eg.
  { exfalso. apply Hg, publish_generation. }
  unfold _publish_payload. destruct (etag p'); [|auto].
  destruct (zl_eqb path (poll_path cfg)); [|auto]. simpl. destruct (not_modified p'); auto.
Qed.

(** * The coordinator over the USB sessions *)

Section UsbCoordinator.
Context {W : Type} `{UsbEnv W} `{SessionOps datastore W}.
(** [should_cancel], the cancellable reads and [read_started] of the poller's
    get; the condition variable and the arbitration; the texts of errors. *)
Variable poll_callbacks : bool → callbacks (W:=W).
Variable wait_on : Z → coordinator * MSt datastore W → coordinator * MSt datastore W.
Variable acquire_fg : W → result unit * W.
Variable acquire_poll : coordinator * MSt datastore W → bool * (coordinator * MSt datastore W).
Variable release : W → W.
Variable key_of : exn → pystr * pystr.
Variable log_to : pystr * pystr → W → W.

Definition usb_coordinator : CoordEnv (MSt datastore W) := {|
  ds_get := λ path e client t fields,
    _call (usb_get path e client t no_callbacks fields);
  ds_poll := λ path e t initial, _call (usb_get path e None t (poll_callbacks initial) None);
  ds_post := λ path json client, _call (usb_post path json client DEFAULT_RESPONSE_TIMEOUT_MS);
  ds_last_payload := λ s, managed_last_payload s.1;
  ds_last_etag := λ s, managed_last_etag s.1;
  ds_generation := λ s, session_generation s.1;
  now_us := λ s, let '(n, w) := monotonic s.2 in (n, (s.1, w));
  cond_wait := wait_on;
  acquire_foreground_io := λ s, let '(r, w) := acquire_fg s.2 in (r, (s.1, w));
  acquire_poller_io := acquire_poll;
  release_io := λ s, (s.1, release s.2);
  error_key := key_of;
  log_line := λ k s, (s.1, log_to k s.2)
|}.
End UsbCoordinator.

(** ** Concrete runs over the scripted device *)

Definition script_session : SessionOps datastore script :=
  usb_session (λ w, (Ok tt, w)) (λ _ w, (Ok tt, w)) (λ w, (Ok tt, w)) 0x20 2 true.

Definition script_coordinator : CoordEnv (MSt datastore script) :=
  @usb_coordinator script script_env script_session (λ _, no_callbacks) (λ _ s, s)
    (λ w, (Ok tt, w)) (λ w, (true, w)) id (λ _, ([], [])) (λ _, id).

Definition http_reply (etag body : bytes) : bytes :=
  s! "HTTP/1.1 200 OK" ++ [13; 10] ++ s! "ETag: " ++ etag ++ [13; 10; 13; 10] ++ body.

Definition reply_packet (mseq : Z) (etag body : bytes) : bytes :=
  encode_response_frame (segment_frame (s! "NREK") mseq 0 true (http_reply etag body)).

Definition open_usb : managed datastore :=
  install 0 d0 (ManagedDatastore_init datastore 250 1000 30000 true).

(** A device at ETag 8 that answers a write, then the refresh. *)
Definition write_world : MSt datastore script :=
  (open_usb, {| sc_clock := 0;
                sc_in := [reply_packet 2 (s! "8") (s! "{}");
                          reply_packet 3 (s! "8") (s! "{x}")];
                sc_out := [] |}).

Definition at_etag (e : pystr) (g : Z) : coordinator :=
  set_cache [] (Some e) g (coordinator_init g).

(** The two exchanges of that write, evaluated. *)
Definition after_write : result bytes * MSt datastore script :=
  Eval vm_compute in
  ds_post (CoordEnv := script_coordinator) (s! "/datastore/host") (s! "{}")
    (Some (QStr (s! "42"))) write_world.
Definition after_refresh : result bytes * MSt datastore script :=
  Eval vm_compute in
  ds_get (CoordEnv := script_coordinator) (s! "/datastore") (s! "0") None
    DEFAULT_RESPONSE_TIMEOUT_MS None after_write.2.
Definition result_bytes (r : result bytes) : bytes :=
  match r with Ok b => b | Err _ => [] end.
Definition payload_or (p : option DatastorePayload) : DatastorePayload :=
  match p with
  | Some p => p
  | None => {| body := []; etag := None; status := None; content_type := None |}
  end.

Lemma post_wakes_others_witness :
  let '(r, s') := post (H := script_coordinator) (default_cfg true) (s! "/datastore/host")
                    (s! "{}") (Some (QStr (s! "42"))) (at_etag (s! "7") 1, write_world) in
  is_ok r = true ∧
  _find_wait_outcome_locked s'.1 (s! "7") (Some (s! "42")) = (None, false) ∧
  ∃ t, _find_wait_outcome_locked s'.1 (s! "7") (Some (s! "43")) = (Some t, false) ∧
       tr_body t = s! "{x}".
Proof.
  pose proof (post_wakes_others (H := script_coordinator) (default_cfg true)
    (s! "/datastore/host") (s! "{}") (s! "42") (at_etag (s! "7") 1, write_world) (s! "7")
    write_world (result_bytes after_write.1) after_write.2
    (payload_or (managed_last_payload (H := script_session) after_write.2.1))
    (result_bytes after_refresh.1) after_refresh.2
    (payload_or (managed_last_payload (H := script_session) after_refresh.2.1)) (s! "8")) as Ht.
  destruct (post _ _ _ _ _) as [r s'].
  destruct Ht as (Hr & _ & Ho & Hw).
  1, 12, 13: vm_compute; discriminate.
  all: try (vm_compute; reflexivity).
  - constructor.
  - split; [exact Hr|]. split; [exact Ho|].
    destruct (Hw (Some (s! "43"))) as (t & E1 & E2 & _); [vm_compute; discriminate|].
    exists t. split; [exact E1|]. rewrite E2. vm_compute. reflexivity.
Defined.

Lemma wait_iteration_sound_witness :
  wait_iteration (H := script_coordinator) (default_cfg true) (s! "/datastore") (s! "7")
    None true 5000 (at_etag (s! "7") 1, write_world)
  = (Ok (WSleep 5000), (at_etag (s! "7") 1, write_world)) ∧
  Forall (λ x, ¬ wanted (s! "7") None x) (history (at_etag (s! "7") 1)).
Proof.
  assert (wait_iteration (H := script_coordinator) (default_cfg true) (s! "/datastore")
            (s! "7") None true 5000 (at_etag (s! "7") 1, write_world)
          = (Ok (WSleep 5000), (at_etag (s! "7") 1, write_world))) as E
    by (vm_compute; reflexivity).
  split; [exact E|].
  destruct (wait_iteration_sound (H := script_coordinator) _ _ _ _ _ _ _ _ _ E) as [[Hf _] _].
  exact Hf.
Defined.

(** A coordinator that saw another session before. *)
Definition old_session : coordinator :=
  set_cache [{| from_etag := s! "6"; to_etag := s! "7"; tr_body := s! "{old}";
                origin_client := None; tr_content_type := Some (s! "application/json") |}]
    (Some (s! "7")) 0 (coordinator_init 0).

Definition reread : result DatastorePayload * CSt (S := MSt datastore script) :=
  Eval vm_compute in
  read (H := script_coordinator) (default_cfg true) (s! "/datastore") (s! "0") None 1200 None
    (old_session, write_world).

Lemma new_session_forgets_witness :
  history reread.2.1 = [] ∧ is_ok reread.1 = true.
Proof.
  assert (∃ p, read (H := script_coordinator) (default_cfg true) (s! "/datastore") (s! "0")
                 None 1200 None (old_session, write_world) = (Ok p, reread.2)) as [p E]
    by (eexists; vm_compute; reflexivity).
  split; [|reflexivity].
  destruct (new_session_forgets (H := script_coordinator) _ _ _ _ _ _ _ _ _ E) as [Hh _].
  - vm_compute. discriminate.
  - exact Hh.
Defined.
