(* ===== verification/Walk.v ===== *)
(** What every step of the world keeps, the whole computation keeps.

    [follows R m] says that the computation [m] moves the world only along the
    preorder [R].  Once the operations of the environment follow [R], so do the USB
    client, the session manager and the coordinator (motu_proxy/datastore.py) built
    from them: the walks through their code are made here once, for any [R].
    LongPoll.v uses them with the order of the clock, WireLog.v and Stack.v with the
    frames that were sent. *)
From S2P Require Import Prelude PyText Protocol Parser Usb Managed Coordinator.

(** * Computations that follow a preorder *)

Section Follows.
Context {S : Type} (R : S → S → Prop) `{!PreOrder R}.

Definition follows {A} (m : M S A) : Prop := ∀ s, R s (m s).2.

Lemma follows_same {A} (m : M S A) : (∀ s, (m s).2 = s) → follows m.
Proof. intros Hm s. by rewrite Hm. Qed.
Lemma follows_ret {A} (a : A) : follows (mret a).
Proof. by apply follows_same. Qed.
Lemma follows_raise {A} e : follows (A := A) (mraise e).
Proof. by apply follows_same. Qed.
Lemma follows_lift {A} (r : result A) : follows (mlift r).
Proof. by apply follows_same. Qed.
Lemma follows_get : follows mget.
Proof. by apply follows_same. Qed.

Lemma follows_bind {A B} (m : M S A) (f : A → M S B) :
  follows m → (∀ a, follows (f a)) → follows (m ≫= f).
Proof.
  intros Hm Hf s. unfold mbind, M_bind. specialize (Hm s). destruct (m s) as [[a|e] s1]; [|done].
  etrans; [exact Hm | apply Hf].
Qed.
(** The value of a pure step is known in what follows it. *)
Lemma follows_lifted {A B} (r : result A) (f : A → M S B) :
  (∀ a, r = Ok a → follows (f a)) → follows (mlift r ≫= f).
Proof. intros Hf. destruct r as [a|e]; [|by apply follows_same]. intros s. by apply (Hf a). Qed.
Lemma follows_catch {A} (m : M S A) h : follows m → (∀ e, follows (h e)) → follows (mcatch m h).
Proof.
  intros Hm Hh s. unfold mcatch. specialize (Hm s). destruct (m s) as [[a|e] s1]; [done|].
  etrans; [exact Hm | apply Hh].
Qed.
Lemma follows_finally {A} (m : M S A) f : follows m → follows f → follows (mfinally m f).
Proof.
  intros Hm Hf s. unfold mfinally. specialize (Hm s). destruct (m s) as [r s1].
  specialize (Hf s1). destruct (f s1) as [[] s2]; (etrans; [exact Hm | exact Hf]).
Qed.
End Follows.

Create HintDb walk.
#[export] Hint Resolve follows_ret follows_raise follows_lift follows_get : walk.

(** Splits a computation into its primitive steps. *)
Ltac walk :=
  repeat first
    [ solve [eauto with walk typeclass_instances]
    | apply follows_bind; [exact _| |intros ?]
    | apply follows_catch; [exact _| |intros ?]
    | apply follows_finally; [exact _| |]
    | match goal with
      | |- follows _ (if ?b then _ else _) => destruct b
      | |- follows _ (match ?x with _ => _ end) => destruct x
      | |- follows _ (let '(_, _) := ?x in _) => destruct x
      end ].

(** A relation on the world, on an object with its world. *)
Definition on_world {X W} (R : W → W → Prop) (s s' : X * W) : Prop := R s.2 s'.2.
#[global] Instance on_world_preorder {X W} (R : W → W → Prop) :
  PreOrder R → PreOrder (on_world (X := X) R).
Proof. intros HR. split; [intros s; unfold on_world; done | intros a b c; unfold on_world; apply transitivity]. Qed.

Lemma follows_world {X W A} (R : W → W → Prop) `{!PreOrder R} (m : M (X * W) A) :
  (∀ s, (m s).2.2 = s.2) → follows (on_world R) m.
Proof. intros Hm s. unfold on_world. by rewrite Hm. Qed.

(** * The USB client *)

Section Client.
Context {W : Type} `{UsbEnv W} (R : W → W → Prop) `{!PreOrder R}.
(** The frames that may be sent. *)
Variable plain : bytes → Prop.

Record usb_follows : Prop := {
  uf_monotonic w : R w (monotonic w).2;
  uf_write f w : plain f → R w (bulk_write f w).2;
  uf_read n t w : R w (bulk_read n t w).2;
  uf_begin n t w : R w (begin_cancellable_bulk_read n t w).2;
  uf_cancellable w : R w (cancellable_read w).2;
  uf_ack q : plain (build_ack q);
  uf_init q : plain (build_init q);
  uf_get q m path etag header client fields f :
    build_get_frame q m path etag header client fields = Ok f → plain f
}.
Hypothesis HR : usb_follows.

#[local] Notation RS := (on_world (X := datastore) R).

(** Callbacks that follow [R]. *)
Record callbacks_follow (cb : callbacks (W := W)) : Prop := {
  cf_cancel f : should_cancel cb = Some f → ∀ w, R w (f w).2;
  cf_started f : read_started cb = Some f → ∀ b w, R w (f b w)
}.
Lemma no_callbacks_follow : callbacks_follow no_callbacks.
Proof. by split. Qed.

Lemma walk_env {A} (f : W → A * W) : (∀ w, R w (f w).2) → follows RS (env f).
Proof. intros Hf s. unfold env, on_world. specialize (Hf s.2). by destruct (f s.2). Qed.
Lemma walk_envR {A} (f : W → result A * W) : (∀ w, R w (f w).2) → follows RS (envR f).
Proof. intros Hf s. unfold envR, on_world. specialize (Hf s.2). by destruct (f s.2). Qed.
Lemma walk_obj f : follows RS (obj f).
Proof. by apply follows_world. Qed.
Lemma walk_this {A} (f : datastore → A) : follows RS (this f).
Proof. by apply follows_world. Qed.
Lemma walk_seq : follows RS _next_host_seq.
Proof. by apply follows_world. Qed.

#[local] Hint Resolve walk_env walk_envR walk_obj walk_this walk_seq uf_monotonic uf_write uf_read
  uf_begin uf_cancellable uf_ack uf_init : walk.

Lemma walk_write f : plain f → follows RS (_write_frame f).
Proof. intros Hf. unfold _write_frame. walk. Qed.
Lemma walk_notify cb b : callbacks_follow cb → follows RS (notify cb b).
Proof.
  intros Hc. unfold notify. destruct (read_started cb) as [f|] eqn:E; [|walk].
  apply walk_env. intros w. by apply (cf_started cb Hc f).
Qed.
#[local] Hint Resolve walk_write walk_notify : walk.
Lemma walk_bulk_read n t cb : callbacks_follow cb → follows RS (_bulk_read n t cb).
Proof. intros Hc. unfold _bulk_read. walk. Qed.
#[local] Hint Resolve walk_bulk_read : walk.
Lemma walk_chunks fuel t cb e g b : callbacks_follow cb → follows RS (read_chunks fuel t cb e g b).
Proof. intros Hc. revert g b. induction fuel as [|fuel IH]; intros g b; simpl; walk. Qed.
#[local] Hint Resolve walk_chunks : walk.
Lemma walk_frame t cb : callbacks_follow cb → follows RS (_read_logical_frame t cb).
Proof. intros Hc. unfold _read_logical_frame. walk. Qed.
Lemma walk_stats k c : follows RS (_record_response_stats k c).
Proof. unfold _record_response_stats. walk. Qed.
#[local] Hint Resolve walk_frame walk_stats : walk.
Lemma walk_fail {A} k c e : follows RS (fail (A := A) k c e).
Proof. unfold fail. walk. Qed.
Lemma walk_ack : follows RS ack.
Proof. unfold ack. walk. Qed.
#[local] Hint Resolve walk_fail walk_ack : walk.
Lemma walk_handle k c p : follows RS (handle_packet k c p).
Proof. unfold handle_packet, stale_packet, current_packet, check_ignored. walk. Qed.
Lemma walk_cancel cb :
  callbacks_follow cb →
  follows RS (match should_cancel cb with Some f => env f | None => mret false end).
Proof.
  intros Hc. destruct (should_cancel cb) as [f|] eqn:E; [|walk].
  apply walk_env. by apply (cf_cancel cb Hc f).
Qed.
#[local] Hint Resolve walk_handle walk_cancel : walk.
Lemma walk_round k cb c : callbacks_follow cb → follows RS (collect_round k cb c).
Proof. intros Hc. unfold collect_round. cbv zeta. walk. Qed.
#[local] Hint Resolve walk_round : walk.
Lemma walk_loop fuel k cb c : callbacks_follow cb → follows RS (collect_loop fuel k cb c).
Proof. intros Hc. revert c. induction fuel as [|fuel IH]; intros c; simpl; walk. Qed.
#[local] Hint Resolve walk_loop : walk.
Lemma walk_collect m t cb : callbacks_follow cb → follows RS (_collect_response m t cb).
Proof.
  intros Hc. unfold _collect_response, _collect_response_with. cbv zeta.
  repeat (apply follows_bind; [exact _|solve [eauto with walk typeclass_instances]|intros ?]). unfold finish. walk.
Qed.
#[local] Hint Resolve walk_collect : walk.
Lemma walk_drain fuel n t m q r ps : follows RS (drain_loop fuel n t m q r ps).
Proof.
  pose proof no_callbacks_follow. revert q r ps.
  induction fuel as [|fuel IH]; intros q r ps; simpl; walk.
Qed.
#[local] Hint Resolve walk_drain : walk.
Lemma walk_init : follows RS init.
Proof. unfold init, _drain_quiet. walk. Qed.

(** Advancing the sequence and collecting the response. *)
Lemma walk_advance_collect m t cb :
  callbacks_follow cb →
  follows RS (_ ← _advance_message_seq; _collect_response m t cb).
Proof. intros Hc. unfold _advance_message_seq. walk. Qed.
#[local] Hint Resolve walk_advance_collect : walk.

Lemma walk_usb_get path etag client t cb fields :
  callbacks_follow cb → follows RS (Usb.get path etag client t cb fields).
Proof.
  intros Hc. unfold Usb.get. do 2 (apply follows_bind; [exact _|solve [eauto with walk typeclass_instances]|intros ?]).
  apply follows_lifted; [exact _|]. intros f E. apply (uf_get HR) in E. walk.
Qed.
End Client.

(** * The session manager *)

Section Manager.
Context {D W : Type} `{SessionOps D W} (R : W → W → Prop) `{!PreOrder R}.

Record session_follows : Prop := {
  sf_clock w : R w (clock w).2;
  sf_exit d w : R w (exit_session d w).2;
  sf_open w : R w (open_session w).2
}.
Hypothesis HR : session_follows.

#[local] Notation RS := (on_world (X := managed D) R).

Lemma walk_self {A} (f : managed D → A) : follows RS (self f).
Proof. by apply follows_world. Qed.
Lemma walk_upd f : follows RS (upd f).
Proof. by apply follows_world. Qed.
Lemma walk_world {A} (f : W → A * W) : (∀ w, R w (f w).2) → follows RS (world f).
Proof. intros Hf s. unfold world, on_world. specialize (Hf s.2). by destruct (f s.2). Qed.
Lemma walk_worldR {A} (f : W → result A * W) : (∀ w, R w (f w).2) → follows RS (worldR f).
Proof. intros Hf s. unfold worldR, on_world. specialize (Hf s.2). by destruct (f s.2). Qed.

#[local] Hint Resolve walk_self walk_upd walk_world walk_worldR sf_clock sf_exit sf_open : walk.

Lemma walk_discard : follows RS _discard_session_locked.
Proof. unfold _discard_session_locked. walk. Qed.
#[local] Hint Resolve walk_discard : walk.
Lemma walk_loss g e : follows RS (_discard_after_loss g e).
Proof. unfold _discard_after_loss. walk. Qed.
Lemma walk_remember g : follows RS (_remember_response_state g).
Proof. unfold _remember_response_state. walk. Qed.
Lemma walk_open : follows RS open_or_schedule.
Proof. unfold open_or_schedule. cbv zeta. walk. Qed.
#[local] Hint Resolve walk_loss walk_remember walk_open : walk.
Lemma walk_ensure : follows RS _ensure_session.
Proof. unfold _ensure_session. walk. Qed.
#[local] Hint Resolve walk_ensure : walk.

(** What a call does after its operation raised; it raises too. *)
Definition call_failed (handle : Z) (exc : exn) : M (MSt D W) bytes :=
  _ ← _remember_response_state handle;
  if is_reconnectable_device_loss exc false then
    _ ← _discard_after_loss handle exc; mraise _temporary_unavailable
  else mraise exc.

Lemma walk_call_failed g e : follows RS (call_failed g e).
Proof. unfold call_failed. walk. Qed.
Lemma call_failed_raises g e s : is_ok (call_failed g e s).1 = false.
Proof.
  unfold call_failed, mbind, M_bind, _remember_response_state, upd. cbn.
  destruct (is_reconnectable_device_loss e false); [|done].
  by destruct (_discard_after_loss g e _) as [[]].
Qed.

Lemma walk_call (op : operation D W) :
  (∀ d w, R w (op d w).2.2) → follows RS (_call op).
Proof.
  intros Hop. assert (∀ g, follows RS (on_session op g)).
  { intros g s. unfold on_session, on_world. destruct (session s.1) as [[g' d]|]; [|done].
    specialize (Hop d s.2). by destruct (op d s.2) as [r [d' w]]. }
  unfold _call. walk.
Qed.
End Manager.

(** ** Sessions over a USB transport *)

Section UsbSessions.
Context {W : Type} `{UsbEnv W} {Dev : Type} (R : W → W → Prop) `{!PreOrder R}.
Variable plain : bytes → Prop.
Variable find_motu_device : W → result Dev * W.
Variable transport_open : Dev → W → result unit * W.
Variable transport_close : W → result unit * W.

Record transport_follows : Prop := {
  tf_usb : usb_follows R plain;
  tf_find w : R w (find_motu_device w).2;
  tf_open dev w : R w (transport_open dev w).2;
  tf_close w : R w (transport_close w).2
}.
Hypothesis HR : transport_follows.

Lemma walk_start seq_start message_seq no_init w :
  R w (start_datastore seq_start message_seq no_init w).2.
Proof.
  unfold start_datastore. destruct (MotuUsbDatastore_init _ _) as [d|e]; [|done].
  destruct no_init; [done|]. pose proof (walk_init R plain (tf_usb HR) (d, w)) as Hi.
  by destruct (init (d, w)) as [[] []].
Qed.

Lemma walk_open_datastore seq_start message_seq no_init w :
  R w (open_datastore find_motu_device transport_open transport_close
         seq_start message_seq no_init w).2.
Proof.
  unfold open_datastore. pose proof (tf_find HR w) as Hf.
  destruct (find_motu_device w) as [[dev|e] w1]; cbn [fst snd] in *; [|done].
  pose proof (tf_open HR dev w1) as Ho.
  destruct (transport_open dev w1) as [[u|e] w2]; cbn [fst snd] in *; [|by etrans].
  pose proof (walk_start seq_start message_seq no_init w2) as Hs.
  destruct (start_datastore _ _ _ w2) as [[d|e] w3]; cbn [fst snd] in *.
  - do 2 (etrans; [eassumption|]). done.
  - pose proof (tf_close HR w3) as Hc.
    destruct (transport_close w3) as [[] w4]; cbn [fst snd] in *;
      do 3 (etrans; [eassumption|]); done.
Qed.

Lemma usb_session_follows seq_start message_seq no_init :
  session_follows (H := usb_session find_motu_device transport_open transport_close
                          seq_start message_seq no_init) R.
Proof.
  split; cbn; [apply (uf_monotonic R plain (tf_usb HR)) | intros _; apply (tf_close HR) |
    apply walk_open_datastore].
Qed.
End UsbSessions.

(** * The coordinator *)

Section CoordinatorWalk.
Context {S : Type} `{CoordEnv S} (R : S → S → Prop) `{!PreOrder R} (cfg : coord_cfg).

Record coord_follows : Prop := {
  kf_now w : R w (now_us w).2;
  kf_wait t s : R s.2 (cond_wait t s).2;
  kf_acquire w : R w (acquire_foreground_io w).2;
  kf_release w : R w (release_io w);
  kf_log k w : R w (log_line k w);
  kf_get p e c t f w : R w (ds_get p e c t f w).2
}.
Hypothesis HR : coord_follows.

#[local] Notation RS := (on_world (X := coordinator) R).

Lemma walk_cself {A} (f : coordinator → A) : follows RS (cself f).
Proof. by apply follows_world. Qed.
Lemma walk_cupd f : follows RS (cupd f).
Proof. by apply follows_world. Qed.
Lemma walk_reset : follows RS _reset_if_session_generation_changed.
Proof. by apply follows_world. Qed.
Lemma walk_cenv {A} (f : S → A * S) : (∀ w, R w (f w).2) → follows RS (cenv f).
Proof. intros Hf s. unfold cenv, on_world. specialize (Hf s.2). by destruct (f s.2). Qed.
Lemma walk_cenvR {A} (f : S → result A * S) : (∀ w, R w (f w).2) → follows RS (cenvR f).
Proof. intros Hf s. unfold cenvR, on_world. specialize (Hf s.2). by destruct (f s.2). Qed.
Lemma walk_wait t : follows RS (λ s, (Ok tt, cond_wait t s)).
Proof. intros s. apply (kf_wait HR). Qed.

#[local] Hint Resolve walk_cself walk_cupd walk_reset walk_cenv walk_cenvR walk_wait kf_now kf_acquire
  kf_release kf_log kf_get : walk.

#[local] Ltac walk_c :=
  repeat (walk; try (apply walk_cenv; intros ?; simpl; solve [eauto with walk])).

Lemma walk_payload r : follows RS (_payload_from_response r).
Proof. unfold _payload_from_response. walk_c. Qed.
Lemma walk_error e : follows RS (_record_poller_error cfg e).
Proof. unfold _record_poller_error. cbv zeta. walk_c. Qed.
Lemma walk_clear : follows RS _clear_poller_error.
Proof. unfold _clear_poller_error. walk_c. Qed.
Lemma walk_device p e c t f : follows RS (device_get p e c t f).
Proof. unfold device_get. walk_c. Qed.
Lemma walk_release : follows RS (cenv (λ w, (tt, release_io w))).
Proof. apply walk_cenv. apply (kf_release HR). Qed.
#[local] Hint Resolve walk_payload walk_error walk_clear walk_device walk_release : walk.
Lemma walk_read p e c t f : follows RS (read cfg p e c t f).
Proof. unfold read, holding. walk_c. Qed.
Lemma walk_read_locked p e c t f : follows RS (_read_locked p e c t f).
Proof. unfold _read_locked. walk_c. Qed.
#[local] Hint Resolve walk_read walk_read_locked : walk.
Lemma walk_refresh t : follows RS (degraded_refresh cfg t).
Proof. unfold degraded_refresh. walk_c. Qed.
Lemma walk_iteration p e c b d : follows RS (wait_iteration cfg p e c b d).
Proof. unfold wait_iteration. cbv zeta. walk_c. Qed.
#[local] Hint Resolve walk_refresh walk_iteration : walk.
Lemma walk_wait_loop fuel p e c f d : follows RS (wait_loop cfg fuel p e c f d).
Proof. induction fuel as [|fuel IH]; simpl; walk_c. Qed.
#[local] Hint Resolve walk_wait_loop : walk.
Lemma walk_coordinator_get fuel p c inm f : follows RS (get cfg fuel p c inm f).
Proof. unfold get, wait_for_change. walk_c. Qed.
Lemma walk_refresh_after o : follows RS (refresh_after_post cfg o).
Proof.
  intros s. unfold refresh_after_post.
  match goal with |- context [match ?m s with _ => _ end] => assert (follows RS m) as Hr by walk_c end.
  specialize (Hr s).
  match goal with |- context [match ?m s with _ => _ end] => destruct (m s) as [[r|e] s1] end; [done|].
  etrans; [exact Hr | apply walk_error].
Qed.

(** The poller, whose read may be interrupted. *)
Lemma walk_poll i e :
  (∀ p e t i w, R w (ds_poll p e t i w).2) → follows RS (poll_held cfg i e).
Proof. intros Hp. unfold poll_held. cbv zeta. walk_c. Qed.
End CoordinatorWalk.
