(* ===== verification/LongPoll.v ===== *)
(** Long polls end: [DatastoreCoordinator.get] and [wait_for_change]
    (motu_proxy/datastore.py) return or raise within their time, whatever the
    other threads and the device do.

    [CoordClock] states what the loop relies on: the clock never goes back, and
    it goes on while a thread waits on the condition, however soon it is woken.
    A pass that neither waits nor ends refreshes, which puts off the next refresh,
    so there are at most two passes per tick before the deadline. *)
From S2P Require Import Prelude PyText Protocol Parser Usb Managed Coordinator Walk.

Class CoordClock (S : Type) `{CoordEnv S} := {
  clock_of : S → Z;
  now_reads w : (now_us w).1 = clock_of w;
  now_later w : clock_of w <= clock_of (now_us w).2;
  wait_later t s : clock_of s.2 < clock_of (cond_wait t s).2;
  get_later p e c t f w : clock_of w <= clock_of (ds_get p e c t f w).2;
  acquire_later w : clock_of w <= clock_of (acquire_foreground_io w).2;
  release_later w : clock_of w <= clock_of (release_io w);
  log_later k w : clock_of w <= clock_of (log_line k w)
}.

Section LongPoll.
Context {S : Type} `{CoordClock S} (cfg : coord_cfg).

#[local] Notation time s := (clock_of (snd s)).

(** The clock never goes back. *)
Definition later (w w' : S) : Prop := clock_of w <= clock_of w'.
#[local] Instance later_preorder : PreOrder later.
Proof. unfold later. split; [intros w | intros a b c]; lia. Qed.

Lemma clock_follows : coord_follows later.
Proof.
  split; intros; unfold later; eauto using now_later, acquire_later, release_later, log_later, get_later.
  apply Z.lt_le_incl, wait_later.
Qed.

Lemma onwards_refresh t (s : CSt (S := S)) : time s <= time (degraded_refresh cfg t s).2.
Proof. exact (walk_refresh later cfg clock_follows t s). Qed.

(** A refresh leaves the time of the next one as it was set. *)
Lemma refresh_keeps_next v t (s : CSt (S := S)) :
  next_degraded_refresh s.1 = v → next_degraded_refresh (degraded_refresh cfg t s).2.1 = v.
Proof.
  set (P := λ c, next_degraded_refresh c = v).
  assert (∀ p o f r c, P c → P (_publish_payload cfg p o f r c)) as Hp.
  { intros p o f r c Hc. unfold _publish_payload. by repeat case_match. }
  assert (∀ g c, P c → P (reset_to_generation g c)) as Hr.
  { intros g c Hc. unfold reset_to_generation. by case_match. }
  assert (∀ e c, P c → P (set_poller_error e c)) as He by done.
  assert (∀ t k c, P c → P (set_error_log t k c)) as Hl by done.
  apply (ckeeps_finally P).
  - apply (ckeeps_catch P).
    + apply (ckeeps_bind P); [by apply (ckeeps_read cfg P)|]. intros _. by apply (ckeeps_upd P).
    + intros e. destruct e; try apply (ckeeps_raise P); by apply (ckeeps_error cfg P).
  - by apply (ckeeps_upd P).
Qed.

(** What a pass that goes on says of the time. *)
Lemma iteration_goes_on path etag client cacheable deadline (s s' : CSt (S := S)) d :
  wait_iteration cfg path etag client cacheable deadline s = (Ok d, s') →
  match d with
  | WSleep _ => time s < deadline ∧ time s <= time s'
  | WRefresh _ => time s < deadline ∧ ∃ now, time s <= now <= time s' ∧
      next_degraded_refresh s.1 <= now ∧ next_degraded_refresh s'.1 = now + degraded_refresh_interval cfg
  | _ => True
  end.
Proof.
  destruct s as [c w]. unfold wait_iteration, cself, mbind, M_bind. cbn [fst snd id].
  destruct (_find_wait_outcome_locked c etag client) as [[t|] should]; cbn.
  { destruct (_ && _); by intros [= <- <-]. }
  destruct should; [by intros [= <- <-]|].
  unfold cenv, mret, M_ret. cbn [fst snd]. pose proof (now_reads w) as Hn1. pose proof (now_later w) as Hl1.
  destruct (now_us w) as [now w1]. cbn [fst snd] in *. subst now.
  destruct ((deadline - clock_of w <=? 0) || coord_closed c) eqn:Er; [by intros [= <- <-]|]. zbool.
  destruct (foreground_preemptive_native_long_poll_available cfg); cbn [negb].
  { intros [= <- <-]. cbn. lia. }
  cbn [fst snd]. pose proof (now_reads w1) as Hn2. pose proof (now_later w1) as Hl2.
  destruct (now_us w1) as [now w2]. cbn [fst snd] in *. subst now. cbn beta iota.
  destruct (degraded_refresh_in_progress c); [intros [= <- <-]; cbn; lia|].
  destruct (next_degraded_refresh c <=? clock_of w1) eqn:En; zbool.
  - intros [= <- <-]. cbn. split; [lia|]. exists (clock_of w1). lia.
  - intros [= <- <-]. cbn. lia.
Qed.

(** The passes that may still come: two for each tick, one when a refresh is
    due. *)
Definition passes (deadline : Z) (s : CSt (S := S)) : Z :=
  2 * Z.max 0 (deadline - time s) + (if next_degraded_refresh s.1 <=? time s then 1 else 0).

Lemma wait_loop_ends path etag client fields deadline fuel (s : CSt (S := S)) :
  1 <= degraded_refresh_interval cfg → passes deadline s < Z.of_nat fuel →
  (wait_loop cfg fuel path etag client fields deadline s).1 ≠ Ok None.
Proof.
  intros Hi. revert s. induction fuel as [|fuel IH]; intros s Hf.
  { unfold passes in Hf. case_if_in Hf; lia. }
  cbn [wait_loop]. unfold mbind at 1, M_bind at 1.
  destruct (wait_iteration _ _ _ _ _ _ s) as [[d|e] s1] eqn:Ed; [|done].
  apply iteration_goes_on in Ed. destruct d as [p| | |t|t]; try done.
  - unfold mbind, M_bind. by destruct (read _ _ _ _ _ _ s1) as [[]].
  - unfold mbind, M_bind. apply IH. pose proof (wait_later t s1) as Hw.
    unfold passes in *. repeat case_if_in Hf; repeat case_if; lia.
  - unfold mbind, M_bind. destruct Ed as (Hd & now & Hnow & Hdue & Hnext).
    pose proof (onwards_refresh t s1) as Ho. pose proof (refresh_keeps_next _ t s1 Hnext) as Hk.
    destruct (degraded_refresh cfg t s1) as [[[]|e] s2]; [|done]. cbn [fst snd] in *. apply IH.
    unfold passes in *. rewrite Hk.
    destruct (next_degraded_refresh s.1 <=? time s) eqn:E1,
      (now + degraded_refresh_interval cfg <=? time s2) eqn:E2; zbool; lia.
Qed.

Lemma get_ends path client if_none_match fields fuel (s : CSt (S := S)) :
  1 <= degraded_refresh_interval cfg →
  2 * Z.max 0 (http_wait_timeout_ms cfg * 1000) + 1 < Z.of_nat fuel →
  (get cfg fuel path client if_none_match fields s).1 ≠ Ok None.
Proof.
  intros Hi Hf. unfold get. destruct (_clean_etag if_none_match) as [e|].
  2: { unfold mbind, M_bind. by destruct (read _ _ _ _ _ _ s) as [[]]. }
  destruct (zl_eqb path METERS_PATH).
  { unfold mbind, M_bind. by destruct (read _ _ _ _ _ _ s) as [[]]. }
  unfold wait_for_change, mbind, M_bind, cenv. pose proof (now_reads s.2) as Hn.
  pose proof (now_later s.2) as Hl. destruct (now_us s.2) as [now w]. cbn [fst snd] in *. subst now.
  apply wait_loop_ends; [done|]. unfold passes. cbn [fst snd]. case_if; lia.
Qed.

(** C27. A long poll ends: with a clock that goes on while threads wait, [get]
    returns a payload or raises after at most two passes for each microsecond of
    the waiting time, whatever other threads and the device do in between. *)
Theorem long_poll_ends path client if_none_match fields fuel (s : CSt (S := S)) :
  1 <= degraded_refresh_interval cfg →
  2 * Z.max 0 (http_wait_timeout_ms cfg * 1000) + 1 < Z.of_nat fuel →
  (get cfg fuel path client if_none_match fields s).1 ≠ Ok None.
Proof. apply get_ends. Qed.
End LongPoll.

(** ** An example *)

(** A world that is only a clock: a device that does not answer, waits that end
    after a tick. *)
Definition ticking : CoordEnv Z := {|
  ds_get := λ _ _ _ _ _ n, (Err (DatastoreNoResponse (NoneAfter 1)), n + 1000);
  ds_poll := λ _ _ _ _ n, (Err (DatastoreNoResponse (NoneAfter 1)), n + 1000);
  ds_post := λ _ _ _ n, (Err (DatastoreNoResponse (NoneAfter 1)), n + 1000);
  ds_last_payload := λ _, None;
  ds_last_etag := λ _, None;
  ds_generation := λ _, 0;
  now_us := λ n, (n, n);
  cond_wait := λ _ s, (s.1, s.2 + 1);
  acquire_foreground_io := λ n, (Ok tt, n);
  acquire_poller_io := λ s, (true, s);
  release_io := id;
  error_key := λ _, ([], []);
  log_line := λ _, id
|}.

Definition ticking_clock : CoordClock (H := ticking) Z.
Proof. refine (Build_CoordClock Z ticking id _ _ _ _ _ _ _); intros; cbn; lia. Defined.

Lemma long_poll_ends_witness :
  let cfg := default_cfg false in
  (get (H := ticking) cfg (Z.to_nat 31000002) (s! "/datastore") None (Some (s! "7")) None
     (coordinator_init 0, 0)).1 ≠ Ok None.
Proof.
  intros cfg. apply (long_poll_ends (H := ticking) (H0 := ticking_clock) cfg); [vm_compute; congruence|].
  rewrite Z2Nat.id by (vm_compute; congruence). vm_compute. reflexivity.
Defined.
