(* ===== verification/CatchUp.v ===== *)
(** Clients of the ETag history catch up (class [DatastoreCoordinator] of
    motu_proxy/datastore.py).

    A client keeps itself up to date by asking again with the ETag it was given.
    The abstract view of that is [answers]: the changes it is given one after the
    other, until there is nothing more for it.

    What the coordinator goes through is the relation [coordinated]: the critical
    sections of Coordinator.v, those of the poller in two steps, since it reads the
    ETag it asks with before it waits for the device and asks with it after, however
    much others have published in between, and the moves of the world.  Sessions may
    be replaced at any time.  What is asked of the device is the class
    [CountingDevice]: it numbers its states and never counts down.

    Shown: whatever the threads did, a client with any ETag is given finitely many
    changes, each following the one before, at most as many as are recorded, and is
    then at the latest ETag, told to read afresh, or has itself made the change it
    rests on. *)
From stdpp Require Import relations.
From S2P Require Import Prelude PyText Protocol Parser Usb Managed Coordinator.

(** * The device and the threads *)

(** The payload the coordinator makes of an answer. *)
Definition answer_payload {S} `{CoordEnv S} (response : bytes) (w : S) : result DatastorePayload :=
  match ds_last_payload w with
  | Some p => Ok p
  | None => parse_datastore_response response false
  end.

(** A device that numbers its states: [tag n] is the ETag of state [n], and
    [reported] is the highest number it has told so far.  Numbers never go down, and
    an answered read of the poll path tells the number that is reported then. *)
Class CountingDevice (S : Type) `{CoordEnv S} (cfg : coord_cfg) := {
  tag : Z → pystr;
  number : pystr → Z;
  reported : S → Z;
  number_tag n : 0 <= n → number (tag n) = n;
  tag_text n : 0 <= n → tag n ≠ [];
  tag_none : tag 0 = s! "0";
  reported_nonneg w : 0 <= reported w;
  get_counts p e c t f w : reported w <= reported (ds_get p e c t f w).2;
  poll_counts p e t i w : reported w <= reported (ds_poll p e t i w).2;
  post_counts p j c w : reported w <= reported (ds_post p j c w).2;
  now_counts w : reported w <= reported (now_us w).2;
  acquire_counts w : reported w <= reported (acquire_foreground_io w).2;
  release_counts w : reported w <= reported (release_io w);
  log_counts k w : reported w <= reported (log_line k w);
  get_tells e c t f w r w' p :
    ds_get (poll_path cfg) e c t f w = (Ok r, w') → answer_payload r w' = Ok p →
    or_text (etag p) (ds_last_etag w') = Some (tag (reported w'));
  poll_tells e t i w r w' p :
    ds_poll (poll_path cfg) e t i w = (Ok r, w') → answer_payload r w' = Ok p →
    or_text (etag p) (ds_last_etag w') = Some (tag (reported w'))
}.

Section Coordinated.
Context {S : Type} `{HE : CoordEnv S} (cfg : coord_cfg) `{HD : !CountingDevice S cfg}.

(** What the poller captured, the coordinator and the world. *)
Definition poller_state : Type := option (bool * pystr) * CSt (S := S).

Inductive coordinated : poller_state → poller_state → Prop :=
  | by_read k s p e c t f : coordinated (k, s) (k, (read cfg p e c t f s).2)
  | by_post k s p j c : coordinated (k, s) (k, (post cfg p j c s).2)
  | by_wait k s p e c b d : coordinated (k, s) (k, (wait_iteration cfg p e c b d s).2)
  | by_refresh k s t : coordinated (k, s) (k, (degraded_refresh cfg t s).2)
  | by_capture k s : coordinated (k, s) (poll_capture s.1, s)
  | by_poll i e s : coordinated (Some (i, e), s) (None, (poll_held cfg i e s).2)
  | by_world k c w w' : reported w <= reported w' → coordinated (k, (c, w)) (k, (c, w'))
  (** Closing the coordinator, and whatever else leaves the history alone. *)
  | by_other k c c' w : history c' = history c → latest_etag c' = latest_etag c →
      coordinated (k, (c, w)) (k, (c', w)).
End Coordinated.

(** The changes a client is given that asks again and again, and where it ends. *)
Inductive answers (c : coordinator) (client : option pystr) : pystr → list DatastoreTransition → pystr → Prop :=
  | at_rest e refresh :
      _find_wait_outcome_locked c e client = (None, refresh) → answers c client e [] e
  | goes_on e t ts e' :
      _find_wait_outcome_locked c e client = (Some t, false) →
      answers c client (to_etag t) ts e' → answers c client e (t :: ts) e'.

Lemma filter_shrinks {A} (f g : A → bool) (l : list A) x :
  (∀ y, f y = true → g y = true) → x ∈ l → g x = true → f x = false →
  (length (List.filter f l) < length (List.filter g l))%nat.
Proof.
  intros Hfg. assert (∀ l, (length (List.filter f l) <= length (List.filter g l))%nat) as Hle.
  { intros l'. induction l' as [|y l' IH]; cbn; [lia|]. pose proof (Hfg y).
    destruct (f y), (g y); cbn; try lia; naive_solver. }
  induction l as [|y l IH]; intros Hin Hg Hf; [by apply not_elem_of_nil in Hin|]. cbn.
  apply elem_of_cons in Hin as [->|Hin].
  - rewrite Hg, Hf. cbn. specialize (Hle l). lia.
  - specialize (IH Hin Hg Hf). pose proof (Hfg y). destruct (f y), (g y); cbn; try lia; naive_solver.
Qed.

(** * The numbering *)

Section Numbering.
Context {S : Type} `{HE : CoordEnv S} (cfg : coord_cfg) `{HD : !CountingDevice S cfg}.
Implicit Types (s : CSt (S := S)) (m n : Z).

(** An ETag the device has told by the time it reports [n]. *)
Definition told n (e : pystr) : Prop := ∃ m, 0 <= m <= n ∧ e = tag m.

(** The history climbs, and stays below what the device reports. *)
Record numbered n (c : coordinator) : Prop := {
  nu_climbs : Forall (λ t, number (from_etag t) < number (to_etag t)) (history c);
  nu_latest e : latest_etag c = Some e → told n e
}.

Definition captured_told n (k : option (bool * pystr)) : Prop :=
  ∀ i e, k = Some (i, e) → told n e.

Lemma told_le n n' e : n <= n' → told n e → told n' e.
Proof. intros Hn (m & Hm & ->). exists m. split; [lia|done]. Qed.
Lemma told_now w : told (reported w) (tag (reported w)).
Proof. exists (reported w). split; [|done]. pose proof (reported_nonneg w). lia. Qed.
Lemma numbered_le n n' c : n <= n' → numbered n c → numbered n' c.
Proof. intros Hn [Hc Hl]. split; [done|]. intros e He. by eapply told_le, Hl. Qed.

Lemma capture_told n c : 0 <= n → numbered n c → captured_told n (poll_capture c).
Proof.
  intros Hn [_ Hl] i e. unfold poll_capture. destruct (coord_closed c); [done|]. intros [= _ <-].
  destruct (latest_etag c) as [[|x l]|]; cbn; [|by apply Hl|];
    (exists 0; rewrite tag_none; split; [lia|done]).
Qed.

Lemma publish_numbered n c p origin from r :
  0 <= n → etag p = Some (tag n) → (∀ e, from = Some e → told n e) → numbered n c →
  numbered n (_publish_payload cfg p origin from r c).
Proof.
  intros Hn He Hf [Hc Hl]. unfold _publish_payload. rewrite He.
  destruct r; cbn [negb]; [|done].
  assert (∀ e, Some (tag n) = Some e → told n e) as Hnow.
  { intros e [= <-]. exists n. split; [lia|done]. }
  destruct (not_modified p); [split; [done|exact Hnow]|].
  set (previous := match from with Some f => Some f | None => latest_etag c end).
  assert (∀ e, previous = Some e → told n e) as Hp.
  { subst previous. intros e. destruct from as [f|]; auto. }
  destruct previous as [e|]; [|split; [done|exact Hnow]].
  destruct (zl_eqb e (tag n)) eqn:E; cbn [negb]; (split; [|exact Hnow]); [done|]. cbn.
  apply Forall_drop, list.Forall_app. split; [done|]. repeat constructor. cbn.
  destruct (Hp e eq_refl) as (m & Hm & ->). apply zl_eqb_neq in E.
  rewrite !number_tag by lia. destruct (decide (m = n)) as [->|]; [done|lia].
Qed.

Lemma reset_numbered n g c : numbered n c → numbered n (reset_to_generation g c).
Proof.
  intros Hc. unfold reset_to_generation. destruct (_ =? _); [done|]. split; [constructor|done].
Qed.

(** ** The sections *)

(** From [n] on, the device reports no less, and the history is numbered. *)
Definition counted n s : Prop := n <= reported s.2 ∧ numbered (reported s.2) s.1.
Definition counts {A} n (x : M (CSt (S := S)) A) : Prop := triple (counted n) x (λ _ s, counted n s).
(** A payload with the number the device reports. *)
Definition tells (p : DatastorePayload) s : Prop := etag p = Some (tag (reported s.2)).

Lemma counts_world {A} n (f : S → A * S) : (∀ w, reported w <= reported (f w).2) → counts n (cenv f).
Proof.
  intros Hf s [Hn Hs]. unfold cenv. specialize (Hf s.2). destruct (f s.2) as [a w]. cbn in *.
  split; [cbn; lia|by eapply numbered_le].
Qed.
Lemma counts_worldR {A} n (f : S → result A * S) :
  (∀ w, reported w <= reported (f w).2) → counts n (cenvR f).
Proof.
  intros Hf s [Hn Hs]. unfold cenvR. specialize (Hf s.2). destruct (f s.2) as [a w]. cbn in *.
  split; [cbn; lia|by eapply numbered_le].
Qed.
Lemma counts_upd n f :
  (∀ c, history (f c) = history c ∧ latest_etag (f c) = latest_etag c) → counts n (cupd f).
Proof.
  intros Hf s [Hn [Hc Hl]]. cbn. destruct (Hf s.1) as [E1 E2].
  split; [done|]. cbn. by split; rewrite ?E1, ?E2.
Qed.
Lemma counts_same {A} n (x : M (CSt (S := S)) A) : (∀ s, (x s).2 = s) → counts n x.
Proof. intros Hx s Hs. by rewrite Hx. Qed.
Lemma counts_bind {A B} n (x : M (CSt (S := S)) A) (f : A → M CSt B) :
  counts n x → (∀ a, counts n (f a)) → counts n (x ≫= f).
Proof. intros Hx Hf. eapply triple_bind, Hf. eapply triple_conseq; [exact Hx|done|by intros []]. Qed.
Lemma counts_catch {A} n (x : M (CSt (S := S)) A) h :
  counts n x → (∀ e, counts n (h e)) → counts n (mcatch x h).
Proof. intros Hx Hh. eapply triple_catch, Hh. eapply triple_conseq; [exact Hx|done|by intros []]. Qed.
Lemma counts_finally {A} n (x : M (CSt (S := S)) A) f : counts n x → counts n f → counts n (mfinally x f).
Proof.
  intros Hx Hf. eapply triple_finally; [exact Hx|]. intros r.
  eapply triple_conseq; [exact Hf|done|by intros []].
Qed.

Lemma counts_payload n r : counts n (_payload_from_response r).
Proof.
  apply counts_bind; [intros s [Hn Hs]; split; [done|by apply reset_numbered]|]. intros _.
  apply counts_bind; [by apply counts_same|]. intros s.
  apply counts_bind; [by apply counts_same|]. intros p. by apply counts_same.
Qed.

(** An answer with the number the device reports. *)
Definition telling (response : bytes) s : Prop :=
  ∀ p, answer_payload response s.2 = Ok p →
       or_text (etag p) (ds_last_etag s.2) = Some (tag (reported s.2)).

Lemma exchange_telling n x :
  (∀ w, reported w <= reported (x w).2) →
  (∀ w r w' p, x w = (Ok r, w') → answer_payload r w' = Ok p →
     or_text (etag p) (ds_last_etag w') = Some (tag (reported w'))) →
  triple (counted n) (cenvR x)
    (λ r s, match r with Ok a => counted n s ∧ telling a s | Err _ => counted n s end).
Proof.
  intros Hx Ht s Hs. pose proof (counts_worldR n x Hx s Hs) as Hw. unfold cenvR in *.
  destruct (x s.2) as [[r|e] w] eqn:E; cbn in *; [|done]. split; [done|]. intros p. by apply (Ht s.2).
Qed.

Lemma payload_tells n r :
  triple (λ s, counted n s ∧ telling r s) (_payload_from_response r)
    (λ x s, match x with Ok p => counted n s ∧ tells p s | Err _ => counted n s end).
Proof.
  intros s [Hs Hr]. pose proof (counts_payload n r s Hs) as Hp. revert Hp.
  unfold _payload_from_response, mbind, M_bind, _reset_if_session_generation_changed, mget, mlift. cbn.
  fold (answer_payload r s.2). destruct (answer_payload r s.2) as [q|e] eqn:E; [|done].
  cbn. intros Hp. split; [done|]. by apply Hr.
Qed.

(** Publishing what the device just told. *)
Lemma publish_counts n p origin from b :
  (∀ e, from = Some e → told n e) →
  triple (λ s, counted n s ∧ tells p s) (cupd (_publish_payload cfg p origin from b))
    (λ _ s, counted n s).
Proof.
  intros Hf s [[Hn Hs] Ht]. split; [done|]. cbn.
  apply publish_numbered; [apply reported_nonneg|exact Ht| |done].
  intros e He. eapply told_le, Hf, He. done.
Qed.
Lemma no_origin n e : None = Some e → told n e.
Proof. done. Qed.
#[local] Hint Resolve no_origin : core.

Lemma counts_reset n : counts n _reset_if_session_generation_changed.
Proof. intros s [Hn Hs]. split; [done|by apply reset_numbered]. Qed.
Lemma counts_clear n : counts n _clear_poller_error.
Proof. by apply counts_upd. Qed.
Lemma counts_release n : counts n (cenv (λ w, (tt, release_io w))).
Proof. apply counts_world. exact release_counts. Qed.
Lemma counts_acquire n : counts n (cenvR acquire_foreground_io).
Proof. apply counts_worldR. exact acquire_counts. Qed.
Lemma counts_now n : counts n (cenv now_us).
Proof. apply counts_world. exact now_counts. Qed.

#[local] Hint Resolve counts_payload counts_reset counts_clear counts_release counts_acquire
  counts_now : counts.

(** Splits a computation into steps that count. *)
Ltac counting :=
  repeat first
    [ solve [eauto with counts]
    | solve [by apply counts_same]
    | solve [by apply counts_upd]
    | apply counts_bind; [|intros ?]
    | apply counts_catch; [|intros ?]
    | apply counts_finally
    | match goal with
      | |- counts _ (if ?b then _ else _) => destruct b
      | |- counts _ (match ?x with _ => _ end) => destruct x
      | |- counts _ (let '(_, _) := ?x in _) => destruct x
      end ].

Lemma counts_error n e : counts n (_record_poller_error cfg e).
Proof.
  unfold _record_poller_error. cbv zeta. counting. apply counts_world. intros w. apply log_counts.
Qed.
#[local] Hint Resolve counts_error : counts.

Lemma counts_holding {A} n (x : M (CSt (S := S)) A) : counts n x → counts n (holding x).
Proof. intros Hx. unfold holding. counting. Qed.

Lemma counts_device n p e c t f : counts n (device_get p e c t f).
Proof.
  unfold device_get. destruct (_device_query_fields f c); apply counts_worldR; intros w; apply get_counts.
Qed.

Lemma device_telling n e c t f :
  triple (counted n) (device_get (poll_path cfg) e c t f)
    (λ r s, match r with Ok a => counted n s ∧ telling a s | Err _ => counted n s end).
Proof.
  unfold device_get. destruct (_device_query_fields f c); apply exchange_telling;
    intros w; intros; by (apply get_counts || eapply get_tells).
Qed.

(** Another path than the poll path publishes nothing. *)
Lemma counts_read n p e c t f : counts n (read cfg p e c t f).
Proof.
  apply counts_holding. destruct (zl_eqb p (poll_path cfg)) eqn:E.
  - apply zl_eqb_eq in E as ->. eapply triple_bind; [apply device_telling|]. intros r.
    eapply triple_bind; [apply payload_tells|]. intros q.
    apply (triple_bind _ _ _ (λ _, counted n)); [|intros u; by apply counts_same].
    eapply triple_conseq; [by apply (publish_counts n q None None)|done|by intros []].
  - apply counts_bind; [apply counts_device|]. intros r. apply counts_bind; [apply counts_payload|].
    intros q. apply counts_bind; [|intros _; by apply counts_same]. apply counts_upd.
    intros c0. unfold _publish_payload. by destruct (etag q).
Qed.
#[local] Hint Resolve counts_read : counts.

Lemma read_locked_tells n e c t f :
  triple (counted n) (_read_locked (poll_path cfg) e c t f)
    (λ x s, match x with Ok p => counted n s ∧ tells p s | Err _ => counted n s end).
Proof.
  eapply triple_bind; [apply device_telling|]. intros r.
  apply (triple_bind _ _ _ (λ _ s, counted n s ∧ telling r s)); [|intros u; apply payload_tells].
  intros s [Hs Hr]. split; [by apply counts_reset|done].
Qed.

Lemma counts_refresh_after n origin : counts n (refresh_after_post cfg origin).
Proof.
  intros s Hs. unfold refresh_after_post.
  pose proof (read_locked_tells n (s! "0") None DEFAULT_RESPONSE_TIMEOUT_MS None s Hs) as Hr.
  unfold mbind, M_bind. destruct (_read_locked _ _ _ _ _ s) as [[p|e] s1]; cbn in *.
  - destruct Hr as [Hc Hr]. apply (publish_counts n p origin None true (no_origin n) (_, s1.2)).
    split; [|done]. by apply (counts_clear n s1).
  - by apply counts_error.
Qed.
#[local] Hint Resolve counts_refresh_after : counts.

Lemma counts_post n p j c : counts n (post cfg p j c).
Proof.
  apply counts_holding. apply counts_bind; [|intros r; counting].
  apply counts_worldR. intros w. apply post_counts.
Qed.
Lemma counts_wait n p e c b d : counts n (wait_iteration cfg p e c b d).
Proof. unfold wait_iteration. cbv zeta. counting. Qed.
Lemma counts_degraded n t : counts n (degraded_refresh cfg t).
Proof. unfold degraded_refresh. counting. Qed.

(** The poll, with an ETag that was told at some time before. *)
Lemma poll_body_counts n e t i :
  told n e →
  counts n (r ← cenvR (ds_poll (poll_path cfg) e t i); p ← _payload_from_response r;
            _ ← _clear_poller_error; cupd (_publish_payload cfg p None (Some e) true)).
Proof.
  intros He. eapply triple_bind; [apply exchange_telling; intros w; intros;
    by (apply poll_counts || eapply poll_tells)|]. intros r.
  eapply triple_bind; [apply payload_tells|]. intros p.
  apply (triple_bind _ _ _ (λ _ s, counted n s ∧ tells p s));
    [|intros u; apply publish_counts; by intros ? [= <-]].
  intros s [Hs Ht]. split; [by apply (counts_clear n s)|exact Ht].
Qed.
Lemma counts_poll n i e : told n e → counts n (poll_held cfg i e).
Proof. intros He. unfold poll_held. pose proof (poll_body_counts n e). counting. Qed.

(** ** Every reachable state is numbered *)

Definition poller_numbered (x : poller_state (S := S)) : Prop :=
  numbered (reported x.2.2) x.2.1 ∧ captured_told (reported x.2.2) x.1.

(** A section that counts keeps what the poller captured. *)
Lemma section_numbered {A} k s (x : M (CSt (S := S)) A) :
  (∀ n, counts n x) → poller_numbered (k, s) → poller_numbered (k, (x s).2).
Proof.
  intros Hx [Hs Hk]. destruct (Hx (reported s.2) s) as [Hn Hs']; [split; [lia|done]|].
  split; [done|]. intros i e E. eapply told_le, Hk, E. done.
Qed.

Lemma coordinated_numbered x y : coordinated cfg x y → poller_numbered x → poller_numbered y.
Proof.
  intros [k s p e c t f|k s p j c|k s p e c b d|k s t|k s|i e s|k c w w' Hw|k c c' w Hh Hl].
  1-4: apply section_numbered; eauto using counts_read, counts_post, counts_wait, counts_degraded.
  - intros [Hs _]. split; [done|]. apply capture_told; [apply reported_nonneg|done].
  - intros [Hs Hk]. cbn in *. assert (told (reported s.2) e) as He by (by eapply Hk).
    destruct (counts_poll _ i e He s) as [_ Hs']; [split; [lia|done]|]. by split.
  - intros [Hs Hk]. cbn in *. split; cbn; [by eapply numbered_le|].
    intros i e E. by eapply told_le, Hk.
  - intros [[Hc Hl'] Hk]. split; [|done]. cbn in *. split; [by rewrite Hh|by rewrite Hl].
Qed.

(** ** Catching up *)

(** The changes that are still ahead of an ETag. *)
Definition ahead (c : coordinator) (e : pystr) : nat :=
  length (List.filter (λ t, number e <=? number (from_etag t)) (history c)).

Lemma answers_exist n0 c client : numbered n0 c → ∀ (n : nat) e, (ahead c e <= n)%nat →
  ∃ ts e', answers c client e ts e' ∧ (length ts <= n)%nat.
Proof.
  intros [Hc _] n. induction n as [|n IH]; intros e He;
    pose proof (wait_outcome e client c) as Hout;
    destruct (_find_wait_outcome_locked c e client) as [[t|] refresh] eqn:Eo;
    try (exists [], e; split; [by eapply at_rest|cbn; lia]);
    destruct Hout as (-> & older & newer & Hh & [Hfrom _] & _);
    assert (t ∈ history c) as Hin by (rewrite Hh; apply elem_of_app; right; apply list_elem_of_here);
    assert (number (from_etag t) < number (to_etag t)) as Hlt by (by apply (proj1 (list.Forall_forall _ _) Hc));
    assert (ahead c (to_etag t) < ahead c e)%nat as Hshrink
      by (apply (filter_shrinks _ _ _ t); [intros y Hy; subst e; lia|done|subst e; lia|lia]).
  - lia.
  - destruct (IH (to_etag t)) as (ts & e' & Ha & Hlen); [lia|].
    exists (t :: ts), e'. split; [by eapply goes_on|cbn; lia].
Qed.
End Numbering.

(** Where a client ends that asks again and again. *)
Definition caught_up (c : coordinator) (client : option pystr) (e : pystr) : Prop :=
  latest_etag c = None ∨ latest_etag c = Some e ∨
  _find_wait_outcome_locked c e client = (None, true) ∨
  ∃ t, own client t ∧ t ∈ history c ∧ from_etag t = e ∧ latest_etag c = Some (to_etag t).

Lemma answers_end c client e ts e' : answers c client e ts e' → caught_up c client e'.
Proof.
  induction 1 as [e refresh Ho|]; [|done]. pose proof (wait_outcome e client c) as H. rewrite Ho in H.
  destruct H as [_ [(t & (older & newer & Hh & Hf & Hown & _) & Hr)|[_ Hr]]]; destruct refresh;
    try (by right; right; left).
  - right. right. right. exists t. split_and!; [done| |done|by apply Hr].
    rewrite Hh. apply elem_of_app. right. apply list_elem_of_here.
  - destruct (proj1 Hr eq_refl); [by left|by right; left].
Qed.

(** Consecutive changes of the history, none of them the client's own. *)
Fixpoint path (c : coordinator) (client : option pystr) (e : pystr) (ts : list DatastoreTransition)
    (e' : pystr) : Prop :=
  match ts with
  | [] => e = e'
  | t :: ts => t ∈ history c ∧ from_etag t = e ∧ ¬ own client t ∧ path c client (to_etag t) ts e'
  end.

Lemma answers_path c client e ts e' : answers c client e ts e' → path c client e ts e'.
Proof.
  induction 1 as [|e t ts e' Ho _ IH]; [done|]. pose proof (wait_outcome e client c) as H. rewrite Ho in H.
  destruct H as (_ & older & newer & Hh & [Hf Hw] & _). cbn. split_and!; [|done..].
  rewrite Hh. apply elem_of_app. right. apply list_elem_of_here.
Qed.

(** C24. A client catches up: whatever the threads have done since the coordinator
    was made, reads, writes, long polls and passes of the poller, in any order, the
    poller asking with an ETag it read any time before, with any failures and any
    replacement of sessions, as long as the numbers the device tells never go down, a
    client that asks with any ETag, and again with each ETag it is given, is given
    finitely many recorded changes, each from the ETag of the one before and none its
    own, no more than the history holds; then it is at the latest ETag, is told to
    read afresh, rests on its own latest change, or nothing is known yet. *)
Theorem client_catches_up {S} `{CoordEnv S} cfg `{!CountingDevice S cfg} generation w k c w' client e :
  rtc (coordinated cfg) (None, (coordinator_init generation, w)) (k, (c, w')) →
  ∃ ts e', answers c client e ts e' ∧ path c client e ts e' ∧ zlen ts <= zlen (history c) ∧
           caught_up c client e'.
Proof.
  intros Hsteps. assert (poller_numbered cfg (k, (c, w'))) as [Hn _].
  { assert (poller_numbered cfg (None, (coordinator_init generation, w))) as H0
      by (split; [split; [constructor|done]|done]).
    revert H0. induction Hsteps as [|x y z Hxy _ IH]; [done|]. intros Hx.
    by apply IH, (coordinated_numbered cfg x). }
  destruct (answers_exist cfg _ c client Hn (ahead cfg c e) e) as (ts & e' & Ha & Hlen); [lia|].
  exists ts, e'. split_and!; [done|by apply answers_path| |by eapply answers_end].
  unfold ahead in Hlen.
  pose proof (List.filter_length_le (λ t, number e <=? number (from_etag t)) (history c)).
  unfold zlen. lia.
Qed.

(** ** A small device *)

(** Its number and its session; a write counts up by one. *)
Definition numbered_device : CoordEnv (N * Z) := {|
  ds_get := λ _ _ _ _ _ w, (Ok [], w);
  ds_poll := λ _ _ _ _ w, (Ok [], w);
  ds_post := λ _ _ _ w, (Ok [], ((w.1 + 1)%N, w.2));
  ds_last_payload := λ w, Some {| body := []; etag := Some (str_of_int (Z.of_N w.1)); status := None;
                                  content_type := None |};
  ds_last_etag := λ _, None;
  ds_generation := λ w, w.2;
  now_us := λ w, (0, w);
  cond_wait := λ _ s, s;
  acquire_foreground_io := λ w, (Ok tt, w);
  acquire_poller_io := λ s, (true, s);
  release_io := id;
  error_key := λ _, ([], []);
  log_line := λ _, id
|}.
#[local] Existing Instance numbered_device.

Lemma str_of_int_number n : 0 <= n → digits_number 0 (str_of_int n) = n ∧ str_of_int n ≠ [].
Proof.
  intros Hn. destruct (str_of_int_digits n) as (c & l & -> & _ & Hv & _).
  replace (n <? 0) with false by lia. cbn [app]. rewrite Hv. split; [lia|done].
Qed.

(** It tells its number. *)
#[local] Program Instance numbered_counts cfg : CountingDevice (N * Z) cfg := {|
  tag := str_of_int;
  number := digits_number 0;
  reported w := Z.of_N w.1
|}.
Solve Obligations with (intros; cbn; try lia; try done; by apply str_of_int_number).
Next Obligation.
  intros _ e c t f w r w' p [= <- <-] [= <-]. cbn. destruct (str_of_int_number (Z.of_N w.1)); [lia|].
  by destruct (str_of_int _).
Qed.
Next Obligation.
  intros _ e t i w r w' p [= <- <-] [= <-]. cbn. destruct (str_of_int_number (Z.of_N w.1)); [lia|].
  by destruct (str_of_int _).
Qed.

(** ** Runs of it *)

#[local] Notation cfg := (default_cfg true).
#[local] Notation start := (coordinator_init 0, (1%N, 0)).
#[local] Notation a_read := (Coordinator.read cfg DEFAULT_POLL_PATH (s! "0") None 1200 None).
#[local] Notation a_write := (Coordinator.post cfg (s! "/datastore/x") (s! "{}") (Some (QStr (s! "7")))).
#[local] Notation a_poll e := (poll_held cfg false (s! e)).
Definition world_at (s : CSt (S := N * Z)) (w : N * Z) : CSt (S := N * Z) := (s.1, w).

(** The device tells 1, and again in a new session; the poller captures that; client
    7 writes, which makes it 2; the device moves on to 5; the poller asks with 1. *)
Definition rewritten : CSt (S := N * Z) :=
  (a_write (a_read (world_at (a_read start).2 (1%N, 1))).2).2.
Definition busy : CSt (S := N * Z) := (a_poll "1" (world_at rewritten (5%N, 1))).2.

Lemma busy_reached : rtc (coordinated cfg) (None, start) (None, busy).
Proof.
  eapply rtc_l; [apply (by_read cfg None start DEFAULT_POLL_PATH (s! "0") None 1200 None)|].
  eapply rtc_l; [apply (by_world cfg None _ _ (1%N, 1)); vm_compute; discriminate|].
  eapply rtc_l; [apply (by_read cfg None _ DEFAULT_POLL_PATH (s! "0") None 1200 None)|].
  eapply rtc_l; [apply by_capture|].
  eapply rtc_l; [apply (by_post cfg _ _ (s! "/datastore/x") (s! "{}") (Some (QStr (s! "7"))))|].
  eapply rtc_l; [apply (by_world cfg _ rewritten.1 rewritten.2 (5%N, 1)); vm_compute; discriminate|].
  eapply rtc_once, (by_poll cfg false (s! "1")).
Qed.

Lemma client_catches_up_witness :
  map (λ t, (from_etag t, to_etag t)) (history busy.1)
    = [(s! "1", s! "2"); (s! "1", s! "5")] ∧
  ∃ ts e', answers busy.1 None (s! "1") ts e' ∧ path busy.1 None (s! "1") ts e' ∧
           zlen ts <= zlen (history busy.1) ∧ caught_up busy.1 None e'.
Proof.
  split; [vm_compute; reflexivity|].
  apply (client_catches_up cfg 0 (1%N, 0) None busy.1 busy.2 None (s! "1")). exact busy_reached.
Defined.

(** The writer of a change is not told what else the change contains: when the
    device has moved on by itself before the write (from 1 to 2, then by the write
    to 3), the coordinator records one change from 1 to 3 as the writer's own, and
    the writer goes on waiting with 1. *)
Example own_change_hides_another :
  let c := (a_write (world_at (a_read start).2 (2%N, 0))).2.1 in
  map (λ t, (from_etag t, to_etag t)) (history c) = [(s! "1", s! "3")] ∧
  _find_wait_outcome_locked c (s! "1") (Some (s! "7")) = (None, false).
Proof. split; vm_compute; reflexivity. Qed.

(** A poller that captured 1 before client 7 wrote asks with 1 after the write, and
    publishes the change from 1 to 2 once more, now as nobody's: the writer is given
    its own change. *)
Example stale_poll_echoes :
  let c := (a_write (a_read start).2).2.1 in
  let c' := (a_poll "1" (a_write (a_read start).2).2).2.1 in
  poll_capture (a_read start).2.1 = Some (false, s! "1") ∧
  _find_wait_outcome_locked c (s! "1") (Some (s! "7")) = (None, false) ∧
  (to_etag <$> (_find_wait_outcome_locked c' (s! "1") (Some (s! "7"))).1) = Some (s! "2").
Proof. split_and!; vm_compute; reflexivity. Qed.

(** A device that starts again from a lower number: the poller asks the new session
    with the ETag of the old one, and the fresh history begins with a change from it,
    downwards.  Once the device has counted up again, the changes form a cycle, and a
    client that asks with 5 is sent round it. *)
Example restart_makes_a_cycle :
  let before := (a_read (coordinator_init 0, (5%N, 0))).2 in
  let after := (a_poll "5" (world_at before (4%N, 1))).2 in
  let again := (a_poll "4" (world_at after (5%N, 1))).2 in
  poll_capture before.1 = Some (false, s! "5") ∧ seen_generation again.1 = 1 ∧
  map (λ t, (from_etag t, to_etag t)) (history again.1) = [(s! "5", s! "4"); (s! "4", s! "5")] ∧
  ¬ ∃ ts e', answers again.1 None (s! "5") ts e'.
Proof.
  intros before after again. split_and!; [vm_compute; reflexivity..|].
  assert (∀ e ts e', answers again.1 None e ts e' → e = s! "5" ∨ e = s! "4" → False) as Hc.
  { induction 1 as [e refresh Ho|e t ts e' Ho _ IH]; intros [->| ->]; vm_compute in Ho; try done;
      injection Ho as <-; apply IH; (by left + by right). }
  intros (ts & e' & Ha). apply (Hc _ _ _ Ha). by left.
Qed.
