(* ===== verification/Arbiter.v ===== *)
(** Arbitration of the device between foreground requests and the background
    poller ([_acquire_foreground_io], [_acquire_poller_io], [_release_io],
    [_set_active_poll_read], [_request_active_poll_cancel_locked] and [close] of
    class [DatastoreCoordinator], motu_proxy/datastore.py).

    Every one of these methods runs under [self._condition] except while it
    waits, so a step of the system is one stretch between two waits, made of the
    functions below exactly as the methods make it; [cancel()] calls that the
    code makes after leaving the lock are separate steps.  Threads wake at any
    time (notifications, timeouts and spurious wake-ups alike) and read any
    clock.  A cancellable read is named by a number. *)
From stdpp Require Import gmap.
From S2P Require Import Prelude.

(** * The shared fields *)

Inductive owner := Poller | Foreground.

#[global] Instance owner_eq_dec : EqDecision owner.
Proof. solve_decision. Defined.

Record io := {
  io_busy : bool;
  io_owner : option owner;
  foreground_waiters : Z;
  active_poll_read : option nat;
  active_poll_cancel_requested : bool;
  io_closed : bool
}.

Definition io_init : io :=
  {| io_busy := false; io_owner := None; foreground_waiters := 0; active_poll_read := None;
     active_poll_cancel_requested := false; io_closed := false |}.

Definition add_waiters (n : Z) (x : io) : io :=
  {| io_busy := io_busy x; io_owner := io_owner x;
     foreground_waiters := foreground_waiters x + n;
     active_poll_read := active_poll_read x;
     active_poll_cancel_requested := active_poll_cancel_requested x;
     io_closed := io_closed x |}.
Definition take_io (o : owner) (x : io) : io :=
  {| io_busy := true; io_owner := Some o; foreground_waiters := foreground_waiters x;
     active_poll_read := active_poll_read x;
     active_poll_cancel_requested := active_poll_cancel_requested x;
     io_closed := io_closed x |}.
Definition set_read (r : option nat) (requested : bool) (x : io) : io :=
  {| io_busy := io_busy x; io_owner := io_owner x;
     foreground_waiters := foreground_waiters x; active_poll_read := r;
     active_poll_cancel_requested := requested; io_closed := io_closed x |}.

(** * The methods *)

Definition _request_active_poll_cancel_locked (x : io) : option nat * io :=
  match active_poll_read x with
  | None => (None, x)
  | Some r =>
      if active_poll_cancel_requested x then (None, x)
      else (Some r, set_read (Some r) true x)
  end.

Definition _release_io (x : io) : io :=
  {| io_busy := false; io_owner := None; foreground_waiters := foreground_waiters x;
     active_poll_read := None; active_poll_cancel_requested := false;
     io_closed := io_closed x |}.

(** How one pass of the loop of [_acquire_foreground_io] ends: the device is
    taken, the preemption budget is exceeded, or the thread waits, with the
    preemption deadline it keeps and the timeout of its wait. *)
Inductive pass :=
  | Acquired
  | BudgetExceeded
  | Waits (preemption_deadline : option Z) (wait_timeout : option Z).

(** The pass, the read it cancels, and the shared fields after it.  [now1] and
    [now2] are the clock readings it makes. *)
Definition foreground_pass (budget : Z) (deadline : option Z) (now1 now2 : Z) (x : io)
    : pass * option nat * io :=
  if io_busy x then
    if bool_decide (io_owner x = Some Poller) then
      let '(read, x) := _request_active_poll_cancel_locked x in
      let deadline := match read, deadline with
                      | Some _, None => Some (now1 + budget)
                      | _, _ => deadline
                      end in
      match deadline with
      | Some d => let wait_timeout := d - now2 in
                  if wait_timeout <=? 0 then (BudgetExceeded, read, add_waiters (-1) x)
                  else (Waits deadline (Some wait_timeout), read, x)
      | None => (Waits None None, read, x)
      end
    else (Waits deadline None, None, x)
  else (Acquired, None, add_waiters (-1) (take_io Foreground x)).

(** The start of [_acquire_foreground_io], up to its first wait or its end. *)
Definition foreground_enter (budget now1 now2 : Z) (x : io) : pass * option nat * io :=
  foreground_pass budget None now1 now2 (add_waiters 1 x).

(** A pass of the loop of [_acquire_poller_io]: [None] is a wait. *)
Definition poller_pass (x : io) : option bool * io :=
  if io_busy x || (0 <? foreground_waiters x)
  then if io_closed x then (Some false, x) else (None, x)
  else if io_closed x then (Some false, x) else (Some true, take_io Poller x).

(** [_set_active_poll_read]; the result is the read to cancel after the lock. *)
Definition _set_active_poll_read (read : option nat) (x : io) : option nat * io :=
  let x := set_read read false x in
  match read with
  | Some _ => if 0 <? foreground_waiters x then _request_active_poll_cancel_locked x
              else (None, x)
  | None => (None, x)
  end.

(** [close], up to the cancellation after the lock. *)
Definition close_io (x : io) : option nat * io :=
  _request_active_poll_cancel_locked
    {| io_busy := io_busy x; io_owner := io_owner x;
       foreground_waiters := foreground_waiters x; active_poll_read := active_poll_read x;
       active_poll_cancel_requested := active_poll_cancel_requested x; io_closed := true |}.

(** * The threads *)

Inductive fg_state :=
  | FWait (preemption_deadline : option Z)
  | FHold.

Inductive poller_state :=
  | PIdle
  | PWait
  | PHold.

(** [cancelled] holds the reads whose [cancel()] was called, [pending] those
    whose call follows the lock. *)
Record sys := {
  fields : io;
  threads : gmap nat fg_state;
  poller : poller_state;
  cancelled : list nat;
  pending : list nat
}.

Definition sys_init : sys :=
  {| fields := io_init; threads := ∅; poller := PIdle; cancelled := []; pending := [] |}.

Definition opt_list {A} (o : option A) : list A :=
  match o with Some x => [x] | None => [] end.

(** A foreground thread after a pass: it holds, has raised, or waits. *)
Definition after_pass (t : nat) (p : pass) (m : gmap nat fg_state) : gmap nat fg_state :=
  match p with
  | Acquired => <[t := FHold]> m
  | BudgetExceeded => delete t m
  | Waits d _ => <[t := FWait d]> m
  end.

Section Steps.
Context (budget : Z).

Inductive step : sys → sys → Prop :=
  | step_enter s t now1 now2 p c x :
      threads s !! t = None →
      foreground_enter budget now1 now2 (fields s) = (p, c, x) →
      step s {| fields := x; threads := after_pass t p (threads s); poller := poller s;
                cancelled := opt_list c ++ cancelled s; pending := pending s |}
  | step_wake s t d now1 now2 p c x :
      threads s !! t = Some (FWait d) →
      foreground_pass budget d now1 now2 (fields s) = (p, c, x) →
      step s {| fields := x; threads := after_pass t p (threads s); poller := poller s;
                cancelled := opt_list c ++ cancelled s; pending := pending s |}
  | step_release s t :
      threads s !! t = Some FHold →
      step s {| fields := _release_io (fields s); threads := delete t (threads s);
                poller := poller s; cancelled := cancelled s; pending := pending s |}
  | step_poll s r x :
      poller s ≠ PHold → poller_pass (fields s) = (r, x) →
      step s {| fields := x; threads := threads s;
                poller := match r with
                          | Some true => PHold
                          | Some false => PIdle
                          | None => PWait
                          end;
                cancelled := cancelled s; pending := pending s |}
  | step_read s read c x :
      poller s = PHold → _set_active_poll_read read (fields s) = (c, x) →
      step s {| fields := x; threads := threads s; poller := PHold;
                cancelled := cancelled s; pending := opt_list c ++ pending s |}
  | step_poll_release s :
      poller s = PHold →
      step s {| fields := _release_io (fields s); threads := threads s; poller := PIdle;
                cancelled := cancelled s; pending := pending s |}
  | step_close s c x :
      close_io (fields s) = (c, x) →
      step s {| fields := x; threads := threads s; poller := poller s;
                cancelled := cancelled s; pending := opt_list c ++ pending s |}
  | step_cancel s r l :
      pending s = r :: l →
      step s {| fields := fields s; threads := threads s; poller := poller s;
                cancelled := r :: cancelled s; pending := l |}.

Inductive reachable : sys → Prop :=
  | reach_init : reachable sys_init
  | reach_step s s' : reachable s → step s s' → reachable s'.
End Steps.

(** * Counting waiters *)

Definition is_wait (f : fg_state) : bool :=
  match f with FWait _ => true | FHold => false end.

Definition waiting (m : gmap nat fg_state) : Z :=
  Z.of_nat (size (filter (λ kv, is_wait kv.2 = true) m)).

Lemma waiting_insert m t f :
  m !! t = None → waiting (<[t := f]> m) = (if is_wait f then 1 else 0) + waiting m.
Proof.
  intros Hm. unfold waiting. destruct (is_wait f) eqn:E.
  - rewrite map_filter_insert_True by done. rewrite map_size_insert_None; [lia|].
    by apply map_lookup_filter_None_2; left.
  - rewrite map_filter_insert_False by (simpl; congruence).
    rewrite delete_id by done. lia.
Qed.

Lemma waiting_delete m t f :
  m !! t = Some f → waiting m = (if is_wait f then 1 else 0) + waiting (delete t m).
Proof.
  intros Hm. rewrite <- (insert_delete_id m t f Hm) at 1.
  apply waiting_insert, lookup_delete_eq.
Qed.

Lemma waiting_update m t f g :
  m !! t = Some f →
  waiting (<[t := g]> m) = (if is_wait g then 1 else 0) - (if is_wait f then 1 else 0) + waiting m.
Proof.
  intros Hm. rewrite <- insert_delete_eq, waiting_insert by apply lookup_delete_eq.
  rewrite (waiting_delete m t f Hm). lia.
Qed.

Lemma waiting_nonneg m : 0 <= waiting m.
Proof. unfold waiting. lia. Qed.

(** * The invariant *)

(** Who holds the device, as the shared fields record it. *)
Definition holder_ok (s : sys) : Prop :=
  match io_owner (fields s) with
  | None =>
      io_busy (fields s) = false ∧ poller s ≠ PHold ∧ ∀ t, threads s !! t ≠ Some FHold
  | Some Poller =>
      io_busy (fields s) = true ∧ poller s = PHold ∧ ∀ t, threads s !! t ≠ Some FHold
  | Some Foreground =>
      io_busy (fields s) = true ∧ poller s ≠ PHold ∧
      ∃ t, threads s !! t = Some FHold ∧ ∀ t', threads s !! t' = Some FHold → t' = t
  end.

Record inv0 (s : sys) : Prop := {
  inv_holder : holder_ok s;
  inv_waiters : foreground_waiters (fields s) = waiting (threads s);
  inv_read : is_Some (active_poll_read (fields s)) → poller s = PHold;
  inv_requested : ∀ r, active_poll_read (fields s) = Some r →
    active_poll_cancel_requested (fields s) = true → r ∈ cancelled s ∨ r ∈ pending s
}.

(** A poller read never goes on uncancelled while a foreground thread waits. *)
Definition preempted (s : sys) : Prop :=
  ∀ r, active_poll_read (fields s) = Some r → 0 < foreground_waiters (fields s) →
       active_poll_cancel_requested (fields s) = true.

Definition inv (s : sys) : Prop := inv0 s ∧ preempted s.

Lemma holder_insert_wait s t d x c l q :
  holder_ok s → (threads s !! t = None ∨ ∃ d', threads s !! t = Some (FWait d')) →
  io_owner x = io_owner (fields s) → io_busy x = io_busy (fields s) → q = poller s →
  holder_ok {| fields := x; threads := <[t := FWait d]> (threads s); poller := q;
               cancelled := c; pending := l |}.
Proof.
  intros Hh Ht Ho Hb ->. unfold holder_ok in *. simpl. rewrite Ho, Hb.
  assert (∀ t', <[t := FWait d]> (threads s) !! t' = Some FHold ↔ threads s !! t' = Some FHold)
    as E.
  { intros t'. destruct (decide (t = t')) as [<-|Hne].
    - rewrite lookup_insert_eq. naive_solver.
    - by rewrite lookup_insert_ne. }
  destruct (io_owner (fields s)) as [[]|]; setoid_rewrite E; done.
Qed.

Lemma holder_delete_wait s t d x c l q :
  holder_ok s → threads s !! t = Some (FWait d) →
  io_owner x = io_owner (fields s) → io_busy x = io_busy (fields s) → q = poller s →
  holder_ok {| fields := x; threads := delete t (threads s); poller := q;
               cancelled := c; pending := l |}.
Proof.
  intros Hh Ht Ho Hb ->. unfold holder_ok in *. simpl. rewrite Ho, Hb.
  assert (∀ t', delete t (threads s) !! t' = Some FHold ↔ threads s !! t' = Some FHold) as E.
  { intros t'. destruct (decide (t = t')) as [<-|Hne].
    - rewrite lookup_delete_eq. naive_solver.
    - by rewrite lookup_delete_ne. }
  destruct (io_owner (fields s)) as [[]|]; setoid_rewrite E; done.
Qed.

(** No read is active unless the poller holds the device. *)
Lemma no_read s : inv0 s → io_owner (fields s) ≠ Some Poller → active_poll_read (fields s) = None.
Proof.
  intros [Hh _ Hr _] Ho. destruct (active_poll_read (fields s)) as [r|]; [|done].
  assert (poller s = PHold) as Hp by eauto. unfold holder_ok in Hh.
  destruct (io_owner (fields s)) as [[]|]; naive_solver.
Qed.

(** What a cancellation request leaves. *)
Lemma request_spec x r x' :
  _request_active_poll_cancel_locked x = (r, x') →
  io_owner x' = io_owner x ∧ io_busy x' = io_busy x ∧
  foreground_waiters x' = foreground_waiters x ∧
  active_poll_read x' = active_poll_read x ∧
  (is_Some (active_poll_read x) → active_poll_cancel_requested x' = true) ∧
  ((r = None ∧ active_poll_cancel_requested x' = active_poll_cancel_requested x) ∨
   (is_Some r ∧ active_poll_read x = r)).
Proof.
  unfold _request_active_poll_cancel_locked.
  destruct (active_poll_read x) as [a|] eqn:Ea.
  - destruct (active_poll_cancel_requested x) eqn:Ec; intros [= <- <-]; simpl;
      split_and!; auto; right; eauto.
  - intros [= <- <-]. split_and!; auto. by intros [? ?].
Qed.

(** A pass of a waiting foreground thread restores the whole invariant. *)
Lemma pass_inv budget s t d now1 now2 p c x :
  inv0 s → threads s !! t = Some (FWait d) →
  foreground_pass budget d now1 now2 (fields s) = (p, c, x) →
  inv {| fields := x; threads := after_pass t p (threads s); poller := poller s;
         cancelled := opt_list c ++ cancelled s; pending := pending s |}.
Proof.
  intros Hs Ht Hp. pose proof Hs as [Hh Hw Hr Hq]. unfold foreground_pass in Hp.
  destruct (io_busy (fields s)) eqn:Eb.
  2: { assert (io_owner (fields s) = None) as Ho.
       { unfold holder_ok in Hh. destruct (io_owner (fields s)) as [[]|]; [..|done];
           destruct Hh as [Hh _]; congruence. }
       injection Hp as <- <- <-. assert (active_poll_read (fields s) = None) as Ha.
       { apply no_read; [done|]. by rewrite Ho. }
       split; [constructor|]; simpl.
       - unfold holder_ok in *. rewrite Ho in Hh. simpl. destruct Hh as (_ & ? & Hn).
         split; [done|]. split; [done|]. exists t. rewrite lookup_insert_eq. split; [done|].
         intros t' Ht'. destruct (decide (t = t')) as [<-|Hne]; [done|].
         rewrite lookup_insert_ne in Ht' by done. by destruct (Hn t').
       - rewrite (waiting_update _ _ _ _ Ht). simpl. lia.
       - rewrite Ha. by intros [? ?].
       - rewrite Ha. done.
       - intros r. simpl. by rewrite Ha. }
  destruct (bool_decide (io_owner (fields s) = Some Poller)) eqn:Eo.
  2: { apply bool_decide_eq_false in Eo. injection Hp as <- <- <-.
       pose proof (no_read s Hs Eo) as Ha. split; [constructor|]; simpl.
       - apply holder_insert_wait; eauto.
       - rewrite (waiting_update _ _ _ _ Ht). simpl. lia.
       - done.
       - rewrite Ha. done.
       - intros r. simpl. by rewrite Ha. }
  destruct (_request_active_poll_cancel_locked (fields s)) as [read x1] eqn:Er.
  apply request_spec in Er as (E1 & E2 & E3 & E4 & E5 & E6).
  assert (∀ r, active_poll_read (fields s) = Some r →
          active_poll_cancel_requested x1 = true →
          r ∈ opt_list read ++ cancelled s ∨ r ∈ pending s) as Hcan.
  { intros r Ea Ec. destruct E6 as [[-> E] | [[y ->] Ey]].
    - rewrite E in Ec. destruct (Hq r Ea Ec); auto.
    - rewrite Ea in Ey. simplify_eq. left. by left. }
  assert (foreground_waiters x1 = waiting (threads s)) as Hw1 by lia.
  set (dl := match read, d with Some _, None => Some (now1 + budget) | _, _ => d end) in Hp.
  destruct dl as [dd|]; [destruct (dd - now2 <=? 0)|]; injection Hp as <- <- <-;
    (split; [constructor|]); simpl; rewrite ?E1, ?E2, ?E3, ?E4; auto.
  - apply (holder_delete_wait s t d); auto.
  - pose proof (waiting_delete _ _ _ Ht) as Hd. simpl in Hd. lia.
  - intros r. simpl. rewrite E4. eauto.
  - apply holder_insert_wait; eauto.
  - rewrite (waiting_update _ _ _ _ Ht). simpl. lia.
  - intros r. simpl. rewrite E4. eauto.
  - apply holder_insert_wait; eauto.
  - rewrite (waiting_update _ _ _ _ Ht). simpl. lia.
  - intros r. simpl. rewrite E4. eauto.
Qed.

(** A thread that enters is first counted as a waiter. *)
Lemma enter_inv budget s t now1 now2 p c x :
  inv0 s → threads s !! t = None →
  foreground_enter budget now1 now2 (fields s) = (p, c, x) →
  inv {| fields := x; threads := after_pass t p (threads s); poller := poller s;
         cancelled := opt_list c ++ cancelled s; pending := pending s |}.
Proof.
  intros [Hh Hw Hr Hq] Ht Hp.
  set (s1 := {| fields := add_waiters 1 (fields s);
                threads := <[t := FWait None]> (threads s); poller := poller s;
                cancelled := cancelled s; pending := pending s |}).
  assert (inv0 s1) as H1.
  { constructor; simpl; auto.
    - apply holder_insert_wait; auto.
    - rewrite waiting_insert by done. simpl. lia. }
  pose proof (pass_inv budget s1 t None now1 now2 p c x H1
                (lookup_insert_eq _ _ _) Hp) as Hinv.
  simpl in Hinv.
  assert (after_pass t p (<[t := FWait None]> (threads s)) = after_pass t p (threads s)) as E.
  { destruct p; simpl; rewrite ?insert_insert_eq; try done.
    rewrite delete_insert_eq, !delete_id; done. }
  by rewrite E in Hinv.
Qed.

Lemma release_inv s ts q :
  inv0 s → waiting ts = waiting (threads s) → q ≠ PHold → (∀ t, ts !! t ≠ Some FHold) →
  inv {| fields := _release_io (fields s); threads := ts; poller := q;
         cancelled := cancelled s; pending := pending s |}.
Proof.
  intros [_ Hw _ _] Hts Hq Hn. split; [constructor|]; simpl; try done.
  rewrite Hts. done.
Qed.

Lemma step_inv budget s s' : inv s → step budget s s' → inv s'.
Proof.
  intros [Hs Hpre] Hstep. pose proof Hs as [Hh Hw Hr Hq]. destruct Hstep.
  - by eapply enter_inv.
  - by eapply pass_inv.
  - unfold holder_ok in Hh.
    destruct (io_owner (fields s)) as [[]|]; [naive_solver| |naive_solver].
    destruct Hh as (_ & Hp & t' & Ht' & Hu). apply release_inv; auto.
    + pose proof (waiting_delete _ _ _ H) as Hd. simpl in Hd. lia.
    + intros t2 H2. apply lookup_delete_Some in H2 as [Hne H2].
      apply Hne. by rewrite (Hu t H), (Hu t2 H2).
  - unfold poller_pass in H0. destruct (_ || _) eqn:Eb.
    { destruct (io_closed (fields s)); injection H0 as <- <-;
        (split; [constructor|]; simpl; auto);
        try (intros Ha; by destruct H; apply Hr);
        unfold holder_ok in *; simpl; destruct (io_owner (fields s)) as [[]|]; naive_solver. }
    zbool. assert (active_poll_read (fields s) = None) as Ha.
    { destruct (active_poll_read (fields s)); [|done]. destruct H. eauto. }
    unfold holder_ok in Hh.
    assert (∀ t, threads s !! t ≠ Some FHold) as Hn.
    { destruct (io_owner (fields s)) as [[]|]; [|destruct Hh; congruence|]; apply Hh. }
    destruct (io_closed (fields s)); injection H0 as <- <-; (split; [constructor|]); simpl;
      auto; try (rewrite Ha; by intros [? ?]).
    + unfold holder_ok. simpl. destruct (io_owner (fields s)) as [[]|]; naive_solver.
    + done.
  - unfold _set_active_poll_read in H0. destruct read as [r|].
    + destruct (0 <? foreground_waiters _) eqn:El.
      * apply request_spec in H0 as (E1 & E2 & E3 & E4 & E5 & E6). simpl in *.
        split; [constructor|]; simpl; rewrite ?E1, ?E2, ?E3, ?E4; auto.
        -- unfold holder_ok in *. simpl. rewrite E1, E2, H in *. done.
        -- intros r' [= <-] _. right. destruct E6 as [[-> E6] | [_ <-]].
           ++ rewrite E5 in E6 by done. done.
           ++ by left.
        -- intros r' _ _. apply E5. done.
      * injection H0 as <- <-. zbool. simpl in El. split; [constructor|]; simpl; auto; try done.
        -- unfold holder_ok in *. simpl. by rewrite H in *.
        -- intros r' _. simpl. lia.
    + injection H0 as <- <-. split; [constructor|]; simpl; auto; try done.
      unfold holder_ok in *. simpl. by rewrite H in *.
  - unfold holder_ok in Hh. apply release_inv; auto.
    destruct (io_owner (fields s)) as [[]|]; [apply Hh | naive_solver | naive_solver].
  - unfold close_io in H. apply request_spec in H as (E1 & E2 & E3 & E4 & E5 & E6).
    simpl in *. split; [constructor|]; simpl; rewrite ?E1, ?E2, ?E3, ?E4; auto.
    + unfold holder_ok in *. simpl. by rewrite E1, E2.
    + intros r Ea Ec. destruct E6 as [[-> E6] | [_ <-]].
      * rewrite E6 in Ec. destruct (Hq r Ea Ec); auto.
      * right. rewrite Ea. by left.
    + intros r Ea _. simpl in *. rewrite E4 in Ea. apply E5. eauto.
  - split; [constructor|]; simpl; auto. intros r' Ea Ec.
    destruct (Hq r' Ea Ec) as [?|Hin]; [left; by right|].
    rewrite H in Hin. apply elem_of_cons in Hin as [-> | ?]; [left; by left | by right].
Qed.

Lemma reachable_inv budget s : reachable budget s → inv s.
Proof.
  induction 1 as [|s s' _ IH Hs]; [|by eapply step_inv].
  split; [constructor|]; simpl; try done.
Qed.

Lemma waiting_pos m t d : m !! t = Some (FWait d) → 0 < waiting m.
Proof.
  intros Ht. pose proof (waiting_delete _ _ _ Ht) as E. simpl in E.
  pose proof (waiting_nonneg (delete t m)). lia.
Qed.

(** * The theorems *)

(** C5. Device access is exclusive in every interleaving: at most one thread is
    between acquire and release, the poller and a foreground thread never both
    are, the busy flag tells whether one is, and the waiter count is the number
    of threads that wait, also after raised timeouts. *)
Theorem device_exclusive budget s :
  reachable budget s →
  (∀ t t', threads s !! t = Some FHold → threads s !! t' = Some FHold → t = t') ∧
  (poller s = PHold → ∀ t, threads s !! t ≠ Some FHold) ∧
  (io_busy (fields s) = true ↔ poller s = PHold ∨ ∃ t, threads s !! t = Some FHold) ∧
  foreground_waiters (fields s) = waiting (threads s).
Proof.
  intros [[Hh Hw _ _] _]%reachable_inv. unfold holder_ok in Hh.
  destruct (io_owner (fields s)) as [[]|]; destruct Hh as (-> & Hp & Hn);
    (split_and!; [| | |exact Hw]).
  - intros t t' Ht. by destruct (Hn t).
  - intros _. exact Hn.
  - tauto.
  - destruct Hn as (t0 & _ & Hu). intros t t' Ht Ht'. by rewrite (Hu t Ht), (Hu t' Ht').
  - done.
  - destruct Hn as (t0 & Ht0 & _). split; eauto.
  - intros t t' Ht. by destruct (Hn t).
  - intros _. exact Hn.
  - split; [done|]. intros [? | [t Ht]]; [done|]. by destruct (Hn t).
Qed.

(** C15. A long poll never blocks a request for long: in every interleaving,
    while a foreground thread waits, the poller's active read has been
    cancelled, or its cancellation is the next thing some thread does. *)
Theorem waiting_cancels_poll budget s t d r :
  reachable budget s → threads s !! t = Some (FWait d) →
  active_poll_read (fields s) = Some r →
  (r ∈ cancelled s ∨ r ∈ pending s) ∧ poller s = PHold.
Proof.
  intros [[Hh Hw Hr Hq] Hpre]%reachable_inv Ht Ha.
  assert (0 < foreground_waiters (fields s)) by (rewrite Hw; by eapply waiting_pos).
  split; [|eauto]. apply (Hq r Ha). by apply (Hpre r Ha).
Qed.

(** Foreground requests go first: the poller takes the device only when no
    foreground thread waits, and a waiting thread that wakes while the device is
    free takes it, whatever the clock says. *)
Theorem foreground_first budget s :
  reachable budget s →
  (∀ s' t d, step budget s s' → poller s ≠ PHold → threads s !! t = Some (FWait d) →
             poller s' ≠ PHold) ∧
  (∀ t d now1 now2 p c x, threads s !! t = Some (FWait d) → io_busy (fields s) = false →
     foreground_pass budget d now1 now2 (fields s) = (p, c, x) → p = Acquired).
Proof.
  intros [[Hh Hw _ _] _]%reachable_inv. split.
  - intros s' t d Hs Hp Ht. pose proof (waiting_pos _ _ _ Ht) as Hpos.
    destruct Hs; simpl; try done.
    unfold poller_pass in *. rewrite Hw in *.
    replace (0 <? waiting (threads s)) with true in * by (symmetry; lia).
    rewrite orb_true_r in *. by destruct (io_closed (fields s)); simplify_eq.
  - intros t d now1 now2 p c x _ Hb. unfold foreground_pass. rewrite Hb. by intros [= <- _ _].
Qed.

(** ** Closing *)

Lemma pass_closed budget d now1 now2 x p c x' :
  foreground_pass budget d now1 now2 x = (p, c, x') → io_closed x' = io_closed x.
Proof.
  unfold foreground_pass, _request_active_poll_cancel_locked. intros E.
  repeat case_match; by simplify_eq/=.
Qed.

(** Once closed, closed for good, and the poller does not take the device. *)
Lemma io_closed_step budget s s' :
  step budget s s' → io_closed (fields s) = true →
  io_closed (fields s') = true ∧ (poller s ≠ PHold → poller s' ≠ PHold).
Proof.
  intros Hs Hc. destruct Hs; cbn; try done.
  - apply pass_closed in H0. by rewrite H0.
  - apply pass_closed in H0. by rewrite H0.
  - unfold poller_pass in H0. rewrite Hc in H0. destruct (_ || _); by simplify_eq.
  - split; [|done]. unfold _set_active_poll_read, _request_active_poll_cancel_locked in H0.
    repeat case_match; by simplify_eq/=.
  - split; [|done]. unfold close_io, _request_active_poll_cancel_locked in H.
    repeat case_match; by simplify_eq/=.
Qed.

(** C16. Closing ends the polling: in every interleaving, the step of [close] leaves
    no read of the poller that is neither cancelled nor about to be, and from then
    on, whatever the threads do, the coordinator stays closed and a poller that
    does not hold the device never takes it again. *)
Theorem close_ends_polling budget s c x s' :
  reachable budget s → close_io (fields s) = (c, x) →
  let closing := {| fields := x; threads := threads s; poller := poller s;
                    cancelled := cancelled s; pending := opt_list c ++ pending s |} in
  rtc (step budget) closing s' →
  (∀ r, active_poll_read x = Some r → r ∈ cancelled closing ∨ r ∈ pending closing) ∧
  io_closed (fields s') = true ∧ (poller s ≠ PHold → poller s' ≠ PHold).
Proof.
  intros Hr Hc closing Hsteps.
  assert (step budget s closing) as Hstep by by apply step_close.
  assert (io_closed x = true ∧ ∀ r, active_poll_read x = Some r → active_poll_cancel_requested x = true)
    as [Hx Hreq].
  { unfold close_io, _request_active_poll_cancel_locked in Hc. repeat case_match; simplify_eq/=; naive_solver. }
  split.
  - intros r Ha. assert (inv closing) as [[_ _ _ Hq] _] by (eapply step_inv; [by eapply reachable_inv|done]).
    apply (Hq r Ha). by eapply Hreq.
  - change x with (fields closing) in Hx. change (poller s) with (poller closing).
    clear -Hsteps Hx. induction Hsteps as [s0|s1 s2 s3 H1 _ IH]; [done|].
    destruct (io_closed_step _ _ _ H1 Hx) as [H2 Hp]. destruct (IH H2). split; [done|]. auto.
Qed.

(** ** A concrete interleaving: the poller reads, a request arrives, the read is
    cancelled and the request waits. *)

Definition contended : sys :=
  {| fields := {| io_busy := true; io_owner := Some Poller; foreground_waiters := 1;
                  active_poll_read := Some 5%nat; active_poll_cancel_requested := true;
                  io_closed := false |};
     threads := {[ 1%nat := FWait (Some 500) ]}; poller := PHold;
     cancelled := [5%nat]; pending := [] |}.

Definition polling : sys :=
  {| fields := {| io_busy := true; io_owner := Some Poller; foreground_waiters := 0;
                  active_poll_read := Some 5%nat; active_poll_cancel_requested := false;
                  io_closed := false |};
     threads := ∅; poller := PHold; cancelled := []; pending := [] |}.

Lemma polling_reachable : reachable 500 polling.
Proof.
  set (s1 := {| fields := take_io Poller io_init; threads := ∅; poller := PHold;
                cancelled := []; pending := [] |}).
  apply (reach_step 500 s1).
  - apply (reach_step 500 sys_init); [apply reach_init|].
    by apply (step_poll 500 sys_init (Some true) (take_io Poller io_init)).
  - by apply (step_read 500 s1 (Some 5%nat) None (fields polling)).
Qed.

Lemma contended_reachable : reachable 500 contended.
Proof.
  apply (reach_step 500 polling); [apply polling_reachable|].
  exact (step_enter 500 polling 1%nat 0 0 (Waits (Some 500) (Some 500)) (Some 5%nat)
           (fields contended) eq_refl eq_refl).
Qed.

Lemma device_exclusive_witness :
  io_busy (fields contended) = true ∧ foreground_waiters (fields contended) = 1 ∧
  foreground_waiters (fields contended) = waiting (threads contended).
Proof.
  split; [reflexivity|]. split; [reflexivity|].
  destruct (device_exclusive 500 contended contended_reachable) as (_ & _ & _ & H). exact H.
Defined.

Lemma waiting_cancels_poll_witness :
  (5%nat ∈ cancelled contended ∨ 5%nat ∈ pending contended) ∧ poller contended = PHold.
Proof.
  apply (waiting_cancels_poll 500 contended 1%nat (Some 500) 5%nat);
    [exact contended_reachable | reflexivity | reflexivity].
Defined.

(** The poller has released the device, and the request wakes. *)
Definition released : sys :=
  {| fields := _release_io (fields contended); threads := threads contended;
     poller := PIdle; cancelled := [5%nat]; pending := [] |}.

Lemma released_reachable : reachable 500 released.
Proof.
  apply (reach_step 500 contended); [exact contended_reachable|].
  exact (step_poll_release 500 contended eq_refl).
Qed.

Lemma foreground_first_witness :
  (foreground_pass 500 (Some 500) 600 700 (fields released)).1.1 = Acquired.
Proof.
  destruct (foreground_first 500 released released_reachable) as [_ H].
  destruct (foreground_pass 500 (Some 500) 600 700 (fields released)) as [[p c] x] eqn:E.
  exact (H 1%nat (Some 500) 600 700 p c x eq_refl eq_refl E).
Defined.

(** ** Closing, on the same runs *)

Lemma close_ends_polling_witness :
  ∃ c x, close_io (fields polling) = (c, x) ∧ io_closed x = true ∧
         (5%nat ∈ cancelled polling ∨ 5%nat ∈ opt_list c ++ pending polling).
Proof.
  set (x := set_read (Some 5%nat) true
              {| io_busy := true; io_owner := Some Poller; foreground_waiters := 0;
                 active_poll_read := Some 5%nat; active_poll_cancel_requested := false; io_closed := true |}).
  destruct (close_ends_polling 500 polling (Some 5%nat) x _ polling_reachable eq_refl (rtc_refl _ _))
    as (Hread & Hclosed & _).
  exists (Some 5%nat), x. split; [reflexivity|]. split; [exact Hclosed|exact (Hread 5%nat eq_refl)].
Defined.

(** Only a read that is active is cancelled: one that the poller registers after
    [close] ran goes on uncancelled, since [_set_active_poll_read] looks at the
    waiting threads and not at [_closed]; the [join] of [close] waits for it. *)
Example close_misses_read :
  ∃ s, reachable 500 s ∧ io_closed (fields s) = true ∧ poller s = PHold ∧
       active_poll_read (fields s) = Some 5%nat ∧ cancelled s = [] ∧ pending s = [].
Proof.
  set (held := {| fields := take_io Poller io_init; threads := ∅; poller := PHold;
                  cancelled := []; pending := [] |}).
  set (x := {| io_busy := true; io_owner := Some Poller; foreground_waiters := 0;
               active_poll_read := None; active_poll_cancel_requested := false; io_closed := true |}).
  set (closed := {| fields := x; threads := ∅; poller := PHold; cancelled := []; pending := [] |}).
  eexists. split; [|split_and!; reflexivity || shelve].
  - eapply (reach_step 500 closed).
    + apply (reach_step 500 held); [apply (reach_step 500 sys_init); [apply reach_init|]|].
      * by apply (step_poll 500 sys_init (Some true) (take_io Poller io_init)).
      * exact (step_close 500 held None x eq_refl).
    + exact (step_read 500 closed (Some 5%nat) None (set_read (Some 5%nat) false x) eq_refl eq_refl).
  Unshelve. all: reflexivity.
Qed.
