(* ===== verification/Locks.v ===== *)
(** The locks of the whole program, and why its threads never wait for each other
    in a circle.

    A method is reduced to its locking: [code] has the [with] statements of the
    source, choices where the source decides, loops, and [Work] for everything that
    takes no lock and comes back by itself (computation, a system call, a USB
    transfer with its timeout).  [Condition.wait] gives the lock back, sleeps and
    takes it again, so [with c: A; c.wait(); B] is [With c A ;; Park ;; With c B].
    The right to use the device ([_io_busy]) is a lock of its own: it is taken
    under the condition, but a thread that has to wait for it gives the condition
    back.  An exception or an early return leaves out the rest of a sequence
    ([t_raise]), and the locks are given back on the way.

    Shown: in every interleaving of any number of threads that run the entry points
    of the server, a thread that waits for a lock waits, through a chain of
    holders, for one that runs: it is neither asleep nor waits itself. *)
From stdpp Require Import relations.
From S2P Require Import Prelude.

(** * Locking code *)

Inductive lockname :=
  | DispatchLock     (** [DatastoreDispatcher.lock], when it serializes *)
  | Io               (** [DatastoreCoordinator._io_busy] *)
  | OperationLock    (** [ManagedDatastore._operation_lock] *)
  | ConditionLock    (** [DatastoreCoordinator._condition] *)
  | StateLock        (** [ManagedDatastore._state_lock] *)
  | WakeupLock.      (** [UsbFsCancellableBulkRead._cancel_wakeup_lock] *)

#[global] Instance lockname_eq_dec : EqDecision lockname.
Proof. solve_decision. Defined.

(** The order in which a thread takes them. *)
Definition rank (l : lockname) : nat :=
  match l with
  | DispatchLock => 0 | Io => 1 | OperationLock => 2 | ConditionLock => 3 | StateLock => 4 | WakeupLock => 5
  end.

(** [Held l c] is a [with] statement that has been entered. *)
Inductive code :=
  | Skip
  | Work
  | Park
  | Seq (c1 c2 : code)
  | Choice (c1 c2 : code)
  | Loop (c : code)
  | With (l : lockname) (c : code)
  | Held (l : lockname) (c : code).

#[global] Instance code_eq_dec : EqDecision code.
Proof. solve_decision. Defined.

Declare Scope lock_scope.
Delimit Scope lock_scope with lock.
Bind Scope lock_scope with code.
Notation "c1 ;; c2" := (Seq c1 c2) (at level 100, c2 at level 200, right associativity) : lock_scope.
Infix "<+>" := Choice (at level 50, left associativity) : lock_scope.
Open Scope lock_scope.

(** [if ...: c] *)
Definition Maybe (c : code) : code := Skip <+> c.

(** * The methods *)

(** ** The cancellable read (transports/usbfs.py) *)

Definition _wake_cancel_waiters : code := With WakeupLock Work ;; Maybe Work.
Definition _open_cancel_wakeup : code := Work ;; With WakeupLock Work.
Definition _close_cancel_wakeup : code := With WakeupLock Work ;; Work.
Definition _drain_cancel_wakeup : code := With WakeupLock Work ;; Maybe (Loop Work).
Definition _poll_reap_ready : code := Work ;; With WakeupLock Work ;; Work ;; _drain_cancel_wakeup.
Definition cancel : code := Work ;; Maybe _wake_cancel_waiters.
Definition _reap : code :=
  _open_cancel_wakeup ;;
  Loop (Work ;; Maybe cancel ;; Maybe _poll_reap_ready) ;;
  Maybe Work ;;
  _close_cancel_wakeup.
(** [UsbFsCancellableBulkRead.read] *)
Definition cancellable_read : code := Maybe (Work ;; Maybe cancel ;; Maybe (_reap ;; Work)).

(** ** The coordinator's callbacks *)

Definition _is_closed : code := With ConditionLock Work.
Definition _set_active_poll_read : code := With ConditionLock Work ;; Maybe cancel.

(** ** The USB client, with the callbacks of the poller *)

Definition _bulk_read : code :=
  Work <+> (Maybe _set_active_poll_read ;; cancellable_read ;; Maybe _set_active_poll_read).
Definition _read_logical_frame : code := _bulk_read ;; Loop _bulk_read.
Definition _collect_response : code :=
  Work ;; Loop (Maybe _is_closed ;; _read_logical_frame ;; Work) ;; Work.
(** [MotuUsbDatastore.get]; [post] has no callbacks. *)
Definition usb_get : code := Work ;; _collect_response.

(** ** The session manager *)

(** A property of [ManagedDatastore], and its [status]. *)
Definition manager_property : code := With StateLock Work.

Definition _ensure_session : code :=
  With StateLock Work ;;
  Maybe (Work ;; (With StateLock Work <+> (** opened, or not *) With StateLock Work)).
Definition _remember_response_state : code := With StateLock Work.
Definition _discard_after_loss : code := With StateLock Work.
Definition _call : code :=
  With OperationLock
    (_ensure_session ;;
     Maybe (usb_get ;; _remember_response_state ;; Maybe _discard_after_loss)).
Definition manager_close : code := With OperationLock (With StateLock Work).

(** ** The coordinator *)

(** The loop of [_acquire_foreground_io]: each pass may cancel the poller's read,
    under the condition, and waits. *)
Definition foreground_passes : code := Loop (With ConditionLock (Work ;; Maybe cancel) ;; Park).
(** [self._acquire_foreground_io(); try: body; finally: self._release_io()]; the
    budget may be exceeded. *)
Definition with_foreground_io (body : code) : code :=
  With ConditionLock Work ;; foreground_passes ;;
  Maybe (With Io (With ConditionLock Work ;; body ;; With ConditionLock Work)).
Definition with_poller_io (body : code) : code :=
  Loop (With ConditionLock Work ;; Park) ;;
  Maybe (With Io (With ConditionLock Work ;; body ;; With ConditionLock Work)).

Definition _reset_if_session_generation_changed : code := manager_property ;; With ConditionLock Work.
Definition _payload_from_response : code :=
  _reset_if_session_generation_changed ;; manager_property ;; Maybe manager_property.
Definition _publish_payload : code := Maybe (With ConditionLock Work).

Definition read : code :=
  with_foreground_io (_call ;; Maybe (_payload_from_response ;; _publish_payload)).
Definition _read_locked : code :=
  _call ;; Maybe (_reset_if_session_generation_changed ;; _payload_from_response).
Definition post : code :=
  with_foreground_io (_call ;; Maybe (_payload_from_response ;; _read_locked ;; _publish_payload)).

Definition wait_for_change : code :=
  Loop (With ConditionLock Work ;;
        ((Park ;; With ConditionLock Work) <+> (read ;; With ConditionLock Work) <+> Skip)) ;;
  Maybe read.
Definition get : code := read <+> wait_for_change.

Definition status : code := With ConditionLock Work ;; manager_property ;; manager_property.
Definition start : code := With ConditionLock Work.
(** [close]; the [join] sleeps until the poller has ended. *)
Definition close : code := With ConditionLock Work ;; Maybe cancel ;; Maybe Park.

Definition _poll_loop : code :=
  Loop (With ConditionLock Work ;;
        with_poller_io (_call ;; Maybe (_payload_from_response ;; _publish_payload)) ;;
        Maybe _is_closed ;;
        With ConditionLock Work ;; Maybe (Park ;; With ConditionLock Work)).

(** ** The threads *)

(** A request of the HTTP server, with [serialize_dispatch] or without. *)
Definition handle_request (serialize : bool) : code :=
  let dispatched := Maybe (get <+> post <+> status) in
  Work ;; (if serialize then With DispatchLock dispatched else dispatched) ;; Work.

(** [command_serve]: the main thread. *)
Definition serve_thread : code := start ;; Work ;; close ;; Work ;; close ;; manager_close.

(** What runs in [serve], where dispatch is not serialized. *)
Definition entry_points : list code :=
  [serve_thread; _poll_loop; Loop (handle_request false)].

(** * Steps *)

(** The locks a thread holds. *)
Fixpoint held (c : code) : list lockname :=
  match c with
  | Seq c1 _ => held c1
  | Held l c => l :: held c
  | _ => []
  end.

(** What it does next. *)
Fixpoint head (c : code) : code :=
  match c with
  | Seq c1 _ => match c1 with Skip => c | _ => head c1 end
  | Held l c1 => match c1 with Skip => c | _ => head c1 end
  | _ => c
  end.

Definition wants (c : code) : option lockname :=
  match head c with With l _ => Some l | _ => None end.

Inductive tstep (free : lockname → Prop) : code → code → Prop :=
  | t_work : tstep free Work Skip
  | t_wake : tstep free Park Skip
  | t_next c : tstep free (Seq Skip c) c
  | t_raise c : tstep free (Seq Skip c) Skip
  | t_seq c1 c1' c2 : tstep free c1 c1' → tstep free (Seq c1 c2) (Seq c1' c2)
  | t_left c1 c2 : tstep free (Choice c1 c2) c1
  | t_right c1 c2 : tstep free (Choice c1 c2) c2
  | t_again c : tstep free (Loop c) (Seq c (Loop c))
  | t_leave c : tstep free (Loop c) Skip
  | t_enter l c : free l → tstep free (With l c) (Held l c)
  | t_inside l c c' : tstep free c c' → tstep free (Held l c) (Held l c')
  | t_exit l : tstep free (Held l Skip) Skip.

(** A pool of threads; a lock is free when no thread holds it. *)
Definition is_free (p : list code) (l : lockname) : Prop := ∀ t c, p !! t = Some c → l ∉ held c.

Inductive moves (t : nat) (p : list code) : list code → Prop :=
  | moves_thread c c' : p !! t = Some c → tstep (is_free p) c c' → moves t p (<[t := c']> p).

Definition step (p p' : list code) : Prop := ∃ t, moves t p p'.

(** [t] wants a lock that [t'] holds. *)
Definition waits_for (p : list code) (t t' : nat) : Prop :=
  ∃ c c' l, p !! t = Some c ∧ wants c = Some l ∧ p !! t' = Some c' ∧ l ∈ held c'.

(** A thread that goes on by itself: it can move, and it is not asleep. *)
Definition runs (p : list code) (t : nat) : Prop :=
  (∃ c, p !! t = Some c ∧ head c ≠ Park) ∧ ∃ p', moves t p p'.

(** * The discipline *)

(** Code in which locks are taken in the order of their ranks, from [m] on, and
    that never sleeps with one. *)
Fixpoint ordered (m : nat) (c : code) : bool :=
  match c with
  | Skip | Work => true
  | Park => bool_decide (m = 0%nat)
  | Seq c1 c2 | Choice c1 c2 => ordered m c1 && ordered m c2
  | Loop c => ordered m c
  | With l c => bool_decide (m <= rank l)%nat && ordered (S (rank l)) c
  | Held _ _ => false
  end.

(** The same of code that is being run: only what is next can hold locks. *)
Fixpoint running (m : nat) (c : code) : bool :=
  match c with
  | Seq c1 c2 => running m c1 && ordered m c2
  | Held l c => bool_decide (m <= rank l)%nat && running (S (rank l)) c
  | _ => ordered m c
  end.

Lemma entry_points_ordered : forallb (ordered 0) entry_points = true.
Proof. vm_compute. reflexivity. Qed.

(** With a serialized dispatch a long poll sleeps with the dispatcher's lock. *)
Example serialized_sleeps_locked : ordered 0 (handle_request true) = false.
Proof. vm_compute. reflexivity. Qed.

Lemma ordered_running m c : ordered m c = true → running m c = true.
Proof.
  induction c as [| | |c1 IH1 c2 _|c1 _ c2 _|c _|l c _|l c _]; cbn; try done.
  intros [H1 H2]%andb_true_iff. apply andb_true_iff. auto.
Qed.

Lemma ordered_holds_nothing m c : ordered m c = true → held c = [].
Proof.
  induction c as [| | |c1 IH1 c2 _|c1 _ c2 _|c _|l c _|l c _]; cbn; try done.
  by intros [H1 _]%andb_true_iff; auto.
Qed.

(** Running code keeps the discipline. *)
Lemma tstep_running free c c' m : tstep free c c' → running m c = true → running m c' = true.
Proof.
  intros Hs. revert m.
  induction Hs as [| |c|c|c1 c1' c2 _ IH|c1 c2|c1 c2|c|c|l c Hl|l c c' _ IH|l]; intros m; cbn; try done.
  - apply ordered_running.
  - intros [H1 H2]%andb_true_iff. apply andb_true_iff. auto.
  - intros [H1 H2]%andb_true_iff. by apply ordered_running.
  - intros [H1 H2]%andb_true_iff. by apply ordered_running.
  - intros H. apply andb_true_iff. split; [by apply ordered_running|done].
  - intros [H1 H2]%andb_true_iff. apply andb_true_iff. split; [done|by apply ordered_running].
  - intros [H1 H2]%andb_true_iff. apply andb_true_iff. auto.
Qed.

(** A thread comes to hold only what it had or what was free. *)
Lemma tstep_held free c c' l m :
  tstep free c c' → running m c = true → l ∈ held c' → l ∈ held c ∨ free l.
Proof.
  intros Hs. revert m.
  induction Hs as [| |c|c|c1 c1' c2 _ IH|c1 c2|c1 c2|c|c|k c Hk|k c c' _ IH|k]; intros m; cbn [running held];
    try (intros _ H; by apply not_elem_of_nil in H).
  - intros H Hl. rewrite (ordered_holds_nothing m c) in Hl by done. by apply not_elem_of_nil in Hl.
  - intros [H1 H2]%andb_true_iff Hl. eauto.
  - cbn. intros [H1 H2]%andb_true_iff Hl. rewrite (ordered_holds_nothing m c1) in Hl by done.
    by apply not_elem_of_nil in Hl.
  - cbn. intros [H1 H2]%andb_true_iff Hl. rewrite (ordered_holds_nothing m c2) in Hl by done.
    by apply not_elem_of_nil in Hl.
  - cbn. intros H Hl. rewrite (ordered_holds_nothing m c) in Hl by done. by apply not_elem_of_nil in Hl.
  - cbn. intros [_ H]%andb_true_iff [->|Hl]%elem_of_cons; [by right|].
    rewrite (ordered_holds_nothing _ c) in Hl by done. by apply not_elem_of_nil in Hl.
  - intros [_ H]%andb_true_iff [->|Hl]%elem_of_cons; [left; apply list_elem_of_here|].
    destruct (IH _ H Hl); [left; by apply list_elem_of_further|by right].
Qed.

(** What a thread wants ranks above all it holds, and who sleeps holds nothing. *)
Lemma running_wants m c l :
  running m c = true → wants c = Some l → (m <= rank l)%nat ∧ ∀ k, k ∈ held c → (rank k < rank l)%nat.
Proof.
  unfold wants. revert m. induction c as [| | |c1 IH1 c2 _|c1 _ c2 _|c _|k c _|k c IH]; intros m; cbn [running head held];
    try done.
  - intros [H1 _]%andb_true_iff. destruct c1; try done; apply IH1; done.
  - cbn. intros [Hm%bool_decide_eq_true _]%andb_true_iff [= <-]. split; [done|].
    by intros k' Hk%not_elem_of_nil.
  - intros [Hm%bool_decide_eq_true H]%andb_true_iff Hw.
    assert (c ≠ Skip) by (by intros ->). assert (wants c = Some l) as Hwc by (unfold wants; by destruct c).
    destruct (IH _ H Hwc) as [H1 H2]. split; [lia|]. intros k' [->|Hk]%elem_of_cons; [lia|auto].
Qed.

Lemma running_sleeps m c : running m c = true → head c = Park → m = 0%nat ∧ held c = [].
Proof.
  revert m. induction c as [| | |c1 IH1 c2 _|c1 _ c2 _|c _|k c _|k c IH]; intros m; cbn [running head held]; try done.
  - cbn. by intros ->%bool_decide_eq_true.
  - intros [H1 _]%andb_true_iff. destruct c1; try done; apply IH1; done.
  - intros [_ H]%andb_true_iff Hw. assert (head c = Park) as Hc by (by destruct c).
    by destruct (IH _ H Hc).
Qed.

(** Code goes on unless it wants a lock that is not free. *)
Lemma running_progress free m c :
  running m c = true → c ≠ Skip → (∀ l, wants c = Some l → free l) → ∃ c', tstep free c c'.
Proof.
  unfold wants. revert m. induction c as [| | |c1 IH1 c2 _|c1 _ c2 _|c _|k c _|k c IH]; intros m; cbn [running head];
    intros Hr Hne Hfree; try done.
  - eexists. apply t_work.
  - eexists. apply t_wake.
  - apply andb_true_iff in Hr as [H1 _]. destruct (decide (c1 = Skip)) as [->|Hc]; [eexists; apply t_next|].
    destruct (IH1 _ H1 Hc) as [c' Hs]; [|eexists; by apply t_seq]. intros l. specialize (Hfree l).
    by destruct c1.
  - eexists. apply t_left.
  - eexists. apply t_leave.
  - eexists. apply t_enter, Hfree. done.
  - apply andb_true_iff in Hr as [_ H]. destruct (decide (c = Skip)) as [->|Hc]; [eexists; apply t_exit|].
    destruct (IH _ H Hc) as [c' Hs]; [|eexists; by apply t_inside]. intros l. specialize (Hfree l).
    by destruct c.
Qed.

(** * Pools *)

(** Every thread keeps the discipline, and a lock has one holder. *)
Record pool_ok (p : list code) : Prop := {
  po_running t c : p !! t = Some c → running 0 c = true;
  po_exclusive t t' c c' l : p !! t = Some c → p !! t' = Some c' → l ∈ held c → l ∈ held c' → t = t'
}.

Lemma moves_ok t p p' : pool_ok p → moves t p p' → pool_ok p'.
Proof.
  intros [Hr Hx] [c c' Hc Hs]. pose proof (Hr _ _ Hc) as Hrc.
  assert (∀ t1 c1, <[t := c']> p !! t1 = Some c1 → t1 = t ∧ c1 = c' ∨ t1 ≠ t ∧ p !! t1 = Some c1) as Hat.
  { intros t1 c1. destruct (decide (t1 = t)) as [->|Hne].
    - rewrite list_lookup_insert_eq by (by eapply lookup_lt_Some). intros [= <-]. auto.
    - rewrite list_lookup_insert_ne by done. auto. }
  assert (∀ l t2 c2, l ∈ held c' → p !! t2 = Some c2 → l ∈ held c2 → t2 = t) as Hnew.
  { intros l t2 c2 Hl H2 Hl2. destruct (tstep_held _ _ _ l _ Hs Hrc Hl) as [Hold|Hfree].
    - by eapply Hx.
    - by destruct (Hfree _ _ H2). }
  constructor.
  - intros t1 c1 [[-> ->]|[_ H1]]%Hat; [by eapply tstep_running|eauto].
  - intros t1 t2 c1 c2 l [[-> ->]|[Hn1 H1]]%Hat [[-> ->]|[Hn2 H2]]%Hat Hl1 Hl2; auto.
    + by rewrite (Hnew l t2 c2).
    + by rewrite (Hnew l t1 c1).
    + by eapply Hx.
Qed.

Lemma threads_ok threads : Forall (λ c, c ∈ entry_points) threads → pool_ok threads.
Proof.
  intros Hall. assert (∀ t c, threads !! t = Some c → ordered 0 c = true) as Ho.
  { intros t c Hc. pose proof (Forall_lookup_1 _ _ _ _ Hall Hc) as Hin. apply list_elem_of_In in Hin.
    by apply (proj1 (forallb_forall _ _) entry_points_ordered). }
  constructor.
  - intros t c Hc. by eapply ordered_running, Ho.
  - intros t t' c c' l Hc _ Hl. rewrite (ordered_holds_nothing 0 c) in Hl by by eapply Ho.
    by apply not_elem_of_nil in Hl.
Qed.

Lemma steps_ok p p' : rtc step p p' → pool_ok p → pool_ok p'.
Proof. induction 1 as [|p1 p2 p3 [t Ht] _ IH]; [done|]. intros Hp. by eapply IH, moves_ok. Qed.

(** A lock is free or has a holder. *)
Lemma lock_holder p l : is_free p l ∨ ∃ t c, p !! t = Some c ∧ l ∈ held c.
Proof.
  unfold is_free. induction p as [|c p IH]; [by left; intros t c|].
  destruct (decide (l ∈ held c)) as [Hl|Hl]; [right; by exists 0%nat, c|].
  destruct IH as [Hfree|(t & c' & Hc' & Hl')]; [|right; by exists (S t), c'].
  left. intros [|t] c'; cbn; [by intros [= <-]|by apply Hfree].
Qed.

(** The chain of holders climbs the ranks, so it ends. *)
Lemma holder_chain p : pool_ok p → ∀ n t c l,
  (6 - rank l <= n)%nat → p !! t = Some c → l ∈ held c → ∃ t', rtc (waits_for p) t t' ∧ runs p t'.
Proof.
  intros Hp n. induction n as [|n IH]; intros t c l Hn Hc Hl.
  { destruct l; cbn in Hn; lia. }
  pose proof (po_running p Hp _ _ Hc) as Hr.
  assert (c ≠ Skip) as Hne by (intros ->; by apply not_elem_of_nil in Hl).
  assert (head c ≠ Park) as Hawake.
  { intros Hpark. destruct (running_sleeps 0 c Hr Hpark) as [_ Hh]. rewrite Hh in Hl.
    by apply not_elem_of_nil in Hl. }
  assert ((∀ l, wants c = Some l → is_free p l) → runs p t) as Hruns.
  { intros Hfree. destruct (running_progress _ _ _ Hr Hne Hfree) as [c' Hs].
    split; [by exists c|]. eexists. by econstructor. }
  destruct (wants c) as [k|] eqn:Hk; [|exists t; split; [done|]; by apply Hruns].
  destruct (lock_holder p k) as [Hfree|(t1 & c1 & H1 & Hk1)].
  { exists t. split; [done|]. apply Hruns. by intros k' [= <-]. }
  destruct (running_wants 0 c k Hr Hk) as [_ Hrank]. specialize (Hrank l Hl).
  destruct (IH t1 c1 k) as (t' & Hchain & Hrun); [lia|done..|]. exists t'. split; [|done].
  eapply rtc_l; [|exact Hchain]. by exists c, c1, k.
Qed.

(** C6. The server does not deadlock: in every interleaving of any number of
    request threads, pollers and main threads, a thread that waits for a lock, or
    for the device, waits through a chain of holders for a thread that runs, that
    is, one that can move and is not asleep; in particular nobody sleeps with a
    lock that another thread wants. *)
Theorem deadlock_free threads p t t1 :
  Forall (λ c, c ∈ entry_points) threads → rtc step threads p → waits_for p t t1 →
  ∃ t', rtc (waits_for p) t1 t' ∧ runs p t'.
Proof.
  intros Hall Hsteps (c & c' & l & _ & _ & Hc' & Hl).
  eapply (holder_chain p); [|reflexivity|exact Hc'|exact Hl].
  eapply steps_ok; [done|by apply threads_ok].
Qed.

(** The main thread has entered [start] and the poller comes to its first [with]. *)
Definition starting : code :=
  match serve_thread with Seq (With l c) rest => Seq (Held l c) rest | c => c end.
Definition first_poll : code :=
  match _poll_loop with Loop c => Seq c (Loop c) | c => c end.

Lemma deadlock_free_witness :
  rtc step [serve_thread; _poll_loop] [starting; first_poll] ∧ waits_for [starting; first_poll] 1%nat 0%nat ∧
  ∃ t', rtc (waits_for [starting; first_poll]) 0%nat t' ∧ runs [starting; first_poll] t'.
Proof.
  assert (rtc step [serve_thread; _poll_loop] [starting; first_poll]) as Hsteps.
  { eapply rtc_l; [|eapply rtc_l; [|apply rtc_refl]].
    - exists 0%nat. eapply (moves_thread 0%nat _ serve_thread starting); [reflexivity|]. apply t_seq, t_enter.
      intros [|[|t]] c; intros [= <-]; apply not_elem_of_nil.
    - exists 1%nat. apply (moves_thread 1%nat [starting; _poll_loop] _poll_loop first_poll); [reflexivity|].
      apply t_again. }
  assert (waits_for [starting; first_poll] 1%nat 0%nat) as Hw.
  { exists first_poll, starting, ConditionLock. repeat split. apply list_elem_of_here. }
  split; [exact Hsteps|]. split; [exact Hw|].
  apply (deadlock_free [serve_thread; _poll_loop] [starting; first_poll] 1%nat 0%nat); [|exact Hsteps|exact Hw].
  constructor; [apply list_elem_of_here|].
  constructor; [apply list_elem_of_further, list_elem_of_here|constructor].
Defined.
