(* ===== verification/Paths.v ===== *)
(** Datastore paths (motu_proxy/paths.py): [normalize_path] with the parts of
    [urllib.parse] it uses ([unquote] with UTF-8 replacement, the path of
    [urlparse]) and the compatibility prefix of a device UID.

    [urlparse] also checks the authority part of a URL (brackets of IPv6 hosts
    and Unicode normalization) and raises [ValueError] when it is malformed;
    that check does not read the path and is the parameter [netloc_valid]. *)
From S2P Require Import Prelude PyText.

(** * Percent decoding *)

Definition hex_value (c : Z) : option Z :=
  if (48 <=? c) && (c <=? 57) then Some (c - 48)
  else if (97 <=? c) && (c <=? 102) then Some (c - 87)
  else if (65 <=? c) && (c <=? 70) then Some (c - 55)
  else None.

Definition is_hex (c : Z) : bool :=
  match hex_value c with Some _ => true | None => false end.

(** [unquote_to_bytes] of an ASCII text. *)
Fixpoint unquote_to_bytes (s : pystr) : bytes :=
  match s with
  | [] => []
  | c :: r =>
      match r with
      | a :: b :: r' =>
          match (if c =? 37 then hex_value a else None), hex_value b with
          | Some x, Some y => (16 * x + y) :: unquote_to_bytes r'
          | _, _ => c :: unquote_to_bytes r
          end
      | _ => c :: unquote_to_bytes r
      end
  end.

Definition is_cont (b : Z) : bool := (0x80 <=? b) && (b <=? 0xBF).

(** Which second bytes may follow a lead byte. *)
Definition second_ok (b0 b1 : Z) : bool :=
  if b0 =? 0xE0 then (0xA0 <=? b1) && (b1 <=? 0xBF)
  else if b0 =? 0xED then (0x80 <=? b1) && (b1 <=? 0x9F)
  else if b0 =? 0xF0 then (0x90 <=? b1) && (b1 <=? 0xBF)
  else if b0 =? 0xF4 then (0x80 <=? b1) && (b1 <=? 0x8F)
  else is_cont b1.

(** [b.decode("utf-8", errors="replace")]: a maximal invalid prefix becomes one
    replacement character. *)
Fixpoint utf8_decode_replace (s : bytes) : pystr :=
  match s with
  | [] => []
  | b0 :: s1 =>
      if b0 <? 0x80 then b0 :: utf8_decode_replace s1 else
      if (0xC2 <=? b0) && (b0 <=? 0xDF) then
        match s1 with
        | b1 :: s2 =>
            if is_cont b1 then ((b0 - 0xC0) * 64 + (b1 - 0x80)) :: utf8_decode_replace s2
            else 0xFFFD :: utf8_decode_replace s1
        | [] => [0xFFFD]
        end
      else if (0xE0 <=? b0) && (b0 <=? 0xEF) then
        match s1 with
        | b1 :: s2 =>
            if second_ok b0 b1 then
              match s2 with
              | b2 :: s3 =>
                  if is_cont b2
                  then ((b0 - 0xE0) * 4096 + (b1 - 0x80) * 64 + (b2 - 0x80))
                       :: utf8_decode_replace s3
                  else 0xFFFD :: utf8_decode_replace s2
              | [] => [0xFFFD]
              end
            else 0xFFFD :: utf8_decode_replace s1
        | [] => [0xFFFD]
        end
      else if (0xF0 <=? b0) && (b0 <=? 0xF4) then
        match s1 with
        | b1 :: s2 =>
            if second_ok b0 b1 then
              match s2 with
              | b2 :: s3 =>
                  if is_cont b2 then
                    match s3 with
                    | b3 :: s4 =>
                        if is_cont b3
                        then ((b0 - 0xF0) * 262144 + (b1 - 0x80) * 4096 + (b2 - 0x80) * 64
                              + (b3 - 0x80)) :: utf8_decode_replace s4
                        else 0xFFFD :: utf8_decode_replace s3
                    | [] => [0xFFFD]
                    end
                  else 0xFFFD :: utf8_decode_replace s2
              | [] => [0xFFFD]
              end
            else 0xFFFD :: utf8_decode_replace s1
        | [] => [0xFFFD]
        end
      else 0xFFFD :: utf8_decode_replace s1
  end.

(** [b.decode("utf-8")]: strict decoding succeeds exactly when nothing had to be
    replaced, that is when encoding gives the bytes back. *)
Definition utf8_decode (b : bytes) : result pystr :=
  let s := utf8_decode_replace b in
  match utf8_encode s with
  | Ok b' => if zl_eqb b' b then Ok s else Err UnicodeDecodeError
  | Err _ => Err UnicodeDecodeError
  end.

(** The runs of ASCII characters are unquoted and decoded one by one; [run] is
    the current one, reversed. *)
Fixpoint unquote_runs (run s : pystr) : pystr :=
  match s with
  | [] => utf8_decode_replace (unquote_to_bytes (reverse run))
  | c :: s' =>
      if c <? 128 then unquote_runs (c :: run) s'
      else utf8_decode_replace (unquote_to_bytes (reverse run)) ++ c :: unquote_runs [] s'
  end.

Definition unquote (s : pystr) : pystr :=
  if contains [37] s then unquote_runs [] s else s.

(** * URLs *)

Class UrlLib := { netloc_valid : pystr → bool }.

(** The text up to the first character of [stops], and from it on. *)
Fixpoint break_at (stops : list Z) (s : pystr) : pystr * pystr :=
  match s with
  | [] => ([], [])
  | c :: s' => if existsb (Z.eqb c) stops then ([], s)
               else let '(a, b) := break_at stops s' in (c :: a, b)
  end.

(** [_splitparams]: parameters are cut from the last segment. *)
Definition split_params (url : pystr) : pystr :=
  let segments := split_on 47 url in
  match reverse segments with
  | [] => url
  | last :: before =>
      let prefix := concat ((λ w, w ++ [47]) <$> reverse before) in
      prefix ++ (break_at [59] last).1
  end.

(** The parts of [urlsplit] the program reads. *)
Record split_url := {
  scheme : pystr;
  netloc : pystr;
  url_path : pystr;
  url_query : pystr
}.

Definition is_scheme_char (c : Z) : bool :=
  ((97 <=? c) && (c <=? 122)) || ((65 <=? c) && (c <=? 90)) || ((48 <=? c) && (c <=? 57))
  || (c =? 43) || (c =? 45) || (c =? 46).

(** The scheme, when the text before the first colon is one. *)
Definition split_scheme (url : pystr) : pystr * pystr :=
  let '(a, found, b) := partition_on 58 url in
  match a with
  | c :: _ =>
      if found && (((97 <=? c) && (c <=? 122)) || ((65 <=? c) && (c <=? 90)))
         && forallb is_scheme_char a
      then (lower a, b) else ([], url)
  | [] => ([], url)
  end.

Definition urlsplit `{UrlLib} (allow_fragments : bool) (url : pystr) : result split_url :=
  let url := lstrip_by (λ c, c <=? 32) url in
  let url := filter (λ c, negb (existsb (Z.eqb c) [9; 10; 13]) = true) url in
  let '(sch, rest) := split_scheme url in
  let '(net, rest) := if starts_with [47; 47] rest then break_at [47; 63; 35] (zdrop 2 rest)
                      else ([], rest) in
  if negb (netloc_valid net) then Err ValueError else
  let rest := if allow_fragments then (break_at [35] rest).1 else rest in
  let '(path, q) := break_at [63] rest in
  Ok {| scheme := sch; netloc := net; url_path := path; url_query := zdrop 1 q |}.

(** The schemes of [uses_params]. *)
Definition uses_params : list pystr :=
  [[]; s! "ftp"; s! "hdl"; s! "prospero"; s! "http"; s! "imap"; s! "https"; s! "shttp";
   s! "rtsp"; s! "rtspu"; s! "sip"; s! "sips"; s! "mms"; s! "sftp"; s! "tel"].

(** [urlparse]: parameters leave the path. *)
Definition urlparse_with `{UrlLib} (allow_fragments : bool) (url : pystr) : result split_url :=
  u ← urlsplit allow_fragments url;
  Ok (if existsb (zl_eqb (scheme u)) uses_params
      then {| scheme := scheme u; netloc := netloc u; url_path := split_params (url_path u);
              url_query := url_query u |}
      else u).

Definition urlparse `{UrlLib} : pystr → result split_url := urlparse_with true.

(** * Normalization *)

(** [UID_PREFIX_RE.sub(r"\1", path)]: 16 hexadecimal digits between slashes are
    dropped; the dot of the pattern does not match a line feed, and its end
    matches before a last one. *)
Definition strip_uid_prefix (path : pystr) : pystr :=
  match path with
  | 47 :: digits =>
      let rest := drop 16 digits in
      if (zlen digits <? 16) || negb (forallb is_hex (take 16 digits)) then path else
      match rest with
      | 47 :: r =>
          if existsb (Z.eqb 10) (removelast r) then path else rest
      | _ => path
      end
  | _ => path
  end.

Definition DATASTORE : pystr := s! "/datastore".
Definition DATASTORE_PREFIX : pystr := s! "/datastore/".

(** The last steps, once the path is decoded. *)
Definition root_path (path : pystr) : pystr :=
  let path := strip_uid_prefix path in
  let path := if starts_with [47] path then path else 47 :: path in
  if zl_eqb path [47] then DATASTORE else
  if zl_eqb path DATASTORE || starts_with DATASTORE_PREFIX path
     || zl_eqb path (s! "/apiversion") || zl_eqb path (s! "/meters")
  then path else DATASTORE ++ path.

Definition normalize_path `{UrlLib} (path : pystr) : result pystr :=
  let path := unquote (strip path) in
  if zl_eqb path [] then Ok DATASTORE else
  if starts_with (s! "http://") path || starts_with (s! "https://") path
  then parsed ← urlparse path; Ok (root_path (url_path parsed))
  else Ok (root_path path).

(** * Properties *)

(** The paths the device is asked for. *)
Definition device_path (p : pystr) : Prop :=
  p = DATASTORE ∨ (∃ r, p = DATASTORE_PREFIX ++ r) ∨ p = s! "/apiversion" ∨ p = s! "/meters".

Lemma root_path_device p : device_path (root_path p).
Proof.
  unfold root_path. set (q := if starts_with [47] (strip_uid_prefix p) then _ else _).
  assert (∃ r, q = 47 :: r) as [r Hq].
  { subst q. destruct (starts_with [47] (strip_uid_prefix p)) eqn:E; [|eauto].
    apply starts_with_spec in E as [k ->]. eauto. }
  destruct (zl_eqb q [47]); [by left|].
  destruct (zl_eqb q DATASTORE) eqn:E1; cbn [orb].
  { apply zl_eqb_eq in E1. left. exact E1. }
  destruct (starts_with DATASTORE_PREFIX q) eqn:E2; cbn [orb].
  { right; left. exact (proj1 (starts_with_spec _ _) E2). }
  destruct (zl_eqb q (s! "/apiversion")) eqn:E3; cbn [orb].
  { apply zl_eqb_eq in E3. right; right; left. exact E3. }
  destruct (zl_eqb q (s! "/meters")) eqn:E4; cbn [orb].
  { apply zl_eqb_eq in E4. right; right; right. exact E4. }
  right; left. exists r. by rewrite Hq.
Qed.

(** Device paths are left alone. *)
Lemma root_path_fixed p : device_path p → root_path p = p.
Proof.
  assert (∀ r, root_path (DATASTORE ++ r) =
               if zl_eqb (DATASTORE ++ r) DATASTORE || starts_with DATASTORE_PREFIX (DATASTORE ++ r)
                  || zl_eqb (DATASTORE ++ r) (s! "/apiversion")
                  || zl_eqb (DATASTORE ++ r) (s! "/meters")
               then DATASTORE ++ r else DATASTORE ++ DATASTORE ++ r) as E.
  { intros r. unfold root_path.
    assert (strip_uid_prefix (DATASTORE ++ r) = DATASTORE ++ r) as ->; [|done].
    unfold strip_uid_prefix. change (DATASTORE ++ r) with (47 :: (s! "datastore" ++ r)).
    cbv iota. destruct (_ <? 16); [done|].
    assert (forallb is_hex (take 16 (s! "datastore" ++ r)) = false) as ->; [|done].
    destruct r; done. }
  intros [-> | [[r ->] | [-> | ->]]]; try reflexivity.
  change (DATASTORE_PREFIX ++ r) with (DATASTORE ++ 47 :: r). rewrite E.
  assert (starts_with DATASTORE_PREFIX (DATASTORE ++ 47 :: r) = true) as ->.
  { apply starts_with_spec. by exists r. }
  by rewrite orb_true_r.
Qed.

Lemma device_path_not_url p :
  device_path p →
  zl_eqb p [] = false ∧ starts_with (s! "http://") p = false ∧
  starts_with (s! "https://") p = false.
Proof. by intros [-> | [[r ->] | [-> | ->]]]. Qed.

Lemma contains_single c s : c ∉ s → contains [c] s = false.
Proof.
  intros H. apply bool_decide_eq_false. induction s as [|x s IH]; simpl; [by intros [? ?]|].
  apply not_elem_of_cons in H as [Hne H]. rewrite (proj2 (Z.eqb_neq c x) Hne). simpl.
  intros [i Hi]. apply IH; [done|]. destruct (find_sub [c] s); [eauto | done].
Qed.

Section Normalize.
Context `{UrlLib}.

Lemma normalize_device p r : normalize_path p = Ok r → device_path r.
Proof.
  unfold normalize_path. case_match; [intros [= <-]; by left|].
  case_match; [|intros [= <-]; apply root_path_device].
  intros E. apply result_bind_ok in E as (q & _ & [= <-]). apply root_path_device.
Qed.

(** A device path without escapes or outer spaces is its own normal form. *)
Lemma normalize_fixed r : device_path r → 37 ∉ r → strip r = r → normalize_path r = Ok r.
Proof.
  intros Hd Hp Hs. unfold normalize_path. rewrite Hs. unfold unquote.
  rewrite contains_single by done.
  destruct (device_path_not_url r Hd) as (-> & -> & ->). cbn [orb].
  by rewrite root_path_fixed.
Qed.

(** Whatever a client asks for, a normalized path is the datastore, a path
    below it, the API version or the meters; and normalization is stable: a
    result without percent signs and outer spaces normalizes to itself. *)
Theorem normalize_path_canonical p r :
  normalize_path p = Ok r →
  device_path r ∧ (37 ∉ r → strip r = r → normalize_path r = Ok r).
Proof. intros Hr%normalize_device. split; [done|]. by apply normalize_fixed. Qed.
End Normalize.

#[export] Instance any_netloc : UrlLib := { netloc_valid := λ _, true }.

Lemma normalize_path_canonical_witness :
  normalize_path (s! " http://motu.local/0001f2fffe001122/datastore/host/os?client=1") =
    Ok (s! "/datastore/host/os") ∧
  normalize_path (s! "/datastore/host/os") = Ok (s! "/datastore/host/os").
Proof.
  assert (normalize_path (s! " http://motu.local/0001f2fffe001122/datastore/host/os?client=1")
          = Ok (s! "/datastore/host/os")) as E by (vm_compute; reflexivity).
  split; [exact E|]. destruct (normalize_path_canonical _ _ E) as [_ Hn].
  apply Hn; [|vm_compute; reflexivity].
  intros Hin. vm_compute in Hin. repeat (apply elem_of_cons in Hin as [Hin | Hin]; [discriminate|]).
  by apply elem_of_nil in Hin.
Defined.

(** Normalization undoes one level of percent encoding each time it runs, so a
    path with an escaped percent sign has two different normal forms. *)
Example normalize_path_twice :
  normalize_path (s! "/datastore/host%252Fos") = Ok (s! "/datastore/host%2Fos") ∧
  normalize_path (s! "/datastore/host%2Fos") = Ok (s! "/datastore/host/os").
Proof. vm_compute. split; reflexivity. Qed.
