(* ===== verification/Device.v ===== *)
(** Discovery of the USB device (motu_proxy/device.py) over sysfs.

    The file system below the sysfs root is the class [Sysfs]: listings in any
    order, texts of files, and errors.  A path is its list of components below
    the root, and that of the device node its components below the devfs root.
    [FileNotFoundError] is the [OSError] of number 2.  Names and labels in error
    messages are not modelled, except the words by which
    [is_reconnectable_device_loss] tells errors apart. *)
From S2P Require Import Prelude PyText Protocol Paths.

(** * Files *)

Class Sysfs := {
  root_text : pystr;
  iterdir : list pystr → result (list pystr);
  read_ascii : list pystr → result pystr;
  path_exists : list pystr → result bool
}.

Definition FileNotFoundError : exn := OSError 2.

Record UsbDeviceInfo := {
  sysfs_name : pystr;
  devfs_path : list pystr;
  serial : pystr;
  product : pystr;
  interface : Z;
  ep_out : Z;
  ep_in : Z;
  info_max_packet_size : Z
}.

Record _Endpoint := {
  address : Z;
  ep_max_packet_size : Z
}.

(** [except] clauses of the module. *)
Definition is_not_found (e : exn) : bool :=
  match e with OSError n => n =? 2 | _ => false end.
Definition is_permission (e : exn) : bool :=
  match e with PermissionError => true | _ => false end.
Definition is_value_error (e : exn) : bool :=
  match e with ValueError => true | _ => false end.
Definition unreadable (e : exn) : bool :=
  is_not_found e || is_permission e || is_value_error e.
Definition unlistable (e : exn) : bool := is_not_found e || is_permission e.

(** [try: r except ...: d] *)
Definition except_with {A} (caught : exn → bool) (d : A) (r : result A) : result A :=
  match r with
  | Err e => if caught e then Ok d else Err e
  | Ok a => Ok a
  end.

(** The hexadecimal digits of an integer literal, as [digits_value]. *)
Fixpoint hex_digits_value (acc : Z) (prev_digit : bool) (s : pystr) : option Z :=
  match s with
  | [] => if prev_digit then Some acc else None
  | c :: s' =>
      if (c =? 95) && prev_digit then hex_digits_value acc false s'
      else match (match decimal_value c with Some d => Some d | None => hex_value c end) with
           | Some d => hex_digits_value (16 * acc + d) true s'
           | None => None
           end
  end.

(** [int(s, 16)]: [None] for the [ValueError]. *)
Definition int16 (s : pystr) : option Z :=
  let s := strip_by is_int_space s in
  let '(sign, body) := match s with
                       | 43 :: r => (1, r)
                       | 45 :: r => (-1, r)
                       | _ => (1, s)
                       end in
  let '(prefixed, body) := match body with
                           | 48 :: 120 :: r | 48 :: 88 :: r => (true, r)
                           | _ => (false, body)
                           end in
  (λ v, sign * v) <$> hex_digits_value 0 false
    (match body with 95 :: r => if prefixed : bool then r else body | _ => body end).

Section Discovery.
Context `{Sysfs}.

Definition read_text (path : list pystr) : result pystr :=
  t ← read_ascii path; Ok (strip t).

Definition _read_optional_text (path : list pystr) : result pystr :=
  except_with is_not_found [] (read_text path).

Definition as_int (o : option Z) : result Z :=
  match o with Some v => Ok v | None => Err ValueError end.

Definition _parse_hex_file (path : list pystr) : result Z :=
  t ← read_text path; as_int (int16 t).

Definition _parse_endpoint (parent : list pystr) (name : pystr) : result (option _Endpoint) :=
  if negb (starts_with (s! "ep_") name) then Ok None else
  match int16 (drop 3 name) with
  | None => Ok None
  | Some address =>
      ep_type ← _read_optional_text (parent ++ [name; s! "type"]);
      if negb (zl_eqb ep_type []) && negb (zl_eqb (lower ep_type) (s! "bulk")) then Ok None else
      size ← except_with (λ e, is_not_found e || is_value_error e) DEFAULT_MAX_USB_CHUNK
               (_parse_hex_file (parent ++ [name; s! "wMaxPacketSize"]));
      Ok (Some {| address := address; ep_max_packet_size := size |})
  end.

Definition is_in (ep : _Endpoint) : bool := negb (Z.land (address ep) 0x80 =? 0).

Definition by_address (a b : _Endpoint) : bool := address a <=? address b.

(** The format [03d]: the sign counts towards the width of three. *)
Definition format_03d (n : Z) : pystr :=
  let digits := str_of_int (Z.abs n) in
  let sign := if n <? 0 then s! "-" else [] in
  sign ++ replicate (3 - length sign - length digits) 48 ++ digits.

(** A candidate: interface number, OUT address, IN address, packet size. *)
Definition candidate : Type := Z * Z * Z * Z.

(** The body of the loop over interfaces: [None] is a [continue]. *)
Definition examine_interface (name : pystr) : result (option candidate) :=
  class_number ← except_with unreadable None
    (c ← _parse_hex_file [name; s! "bInterfaceClass"];
     n ← _parse_hex_file [name; s! "bInterfaceNumber"]; Ok (Some (c, n)));
  match class_number with
  | None => Ok None
  | Some (interface_class, interface_number) =>
      if negb (interface_class =? 0xFF) then Ok None else
      bound ← path_exists [name; s! "driver"];
      if bound : bool then Ok None else
      endpoint_names ← except_with unlistable None (l ← iterdir [name]; Ok (Some l));
      match endpoint_names with
      | None => Ok None
      | Some names =>
          eps ← mapR (_parse_endpoint [name]) (sort_by text_leb names);
          let endpoints := omap id eps in
          let bulk_in := sort_by by_address (filter (λ ep, is_in ep = true) endpoints) in
          let bulk_out := sort_by by_address (filter (λ ep, is_in ep = false) endpoints) in
          match bulk_in, bulk_out with
          | i :: _, o :: _ =>
              Ok (Some (interface_number, address o, address i,
                        Z.max (ep_max_packet_size i) (ep_max_packet_size o)))
          | _, _ => Ok None
          end
      end
  end.

Definition candidate_leb (a b : candidate) : bool :=
  let '(a1, a2, a3, a4) := a in
  let '(b1, b2, b3, b4) := b in
  text_leb [a1; a2; a3; a4] [b1; b2; b3; b4].

Definition _discover_control_interface (device_name : pystr) : result (option candidate) :=
  let prefix := device_name ++ s! ":1." in
  names ← except_with unlistable None (l ← iterdir []; Ok (Some l));
  match names with
  | None => Ok None
  | Some names =>
      found ← mapR examine_interface
                (filter (λ n, starts_with prefix n = true) (sort_by text_leb names));
      Ok (head (sort_by candidate_leb (omap id found)))
  end.

Record overrides := {
  o_interface : option Z;
  o_ep_out : option Z;
  o_ep_in : option Z
}.

Definition manual (o : overrides) : option (Z * Z * Z) :=
  match o_interface o, o_ep_out o, o_ep_in o with
  | Some i, Some out, Some inn => Some (i, out, inn)
  | _, _, _ => None
  end.
Definition any_override (o : overrides) : bool :=
  match o_interface o, o_ep_out o, o_ep_in o with
  | None, None, None => false
  | _, _, _ => true
  end.

Inductive examined :=
  | Skip
  | MissingControl
  | Found (info : UsbDeviceInfo).

(** [if serial and device_serial != serial] *)
Definition serial_differs (wanted : option pystr) (device_serial : pystr) : bool :=
  match wanted with
  | Some ((_ :: _) as s) => negb (zl_eqb device_serial s)
  | _ => false
  end.
Definition has_serial (wanted : option pystr) : bool :=
  match wanted with Some (_ :: _) => true | _ => false end.

(** The texts of one device; [None] is a [continue]. *)
Definition device_texts (wanted : option pystr) (name : pystr)
    : result (option (pystr * pystr * Z * Z)) :=
  except_with unreadable None
    (device_serial ← _read_optional_text [name; s! "serial"];
     if serial_differs wanted device_serial then Ok None else
     device_product ← _read_optional_text [name; s! "product"];
     b ← (t ← read_text [name; s! "busnum"]; as_int (int10 t));
     d ← (t ← read_text [name; s! "devnum"]; as_int (int10 t));
     Ok (Some (device_serial, device_product, b, d))).

(** The body of the loop over devices. *)
Definition examine_device (vid pid : Z) (wanted : option pystr) (o : overrides) (name : pystr)
    : result examined :=
  ids ← except_with unreadable None
    (v ← _parse_hex_file [name; s! "idVendor"];
     p ← _parse_hex_file [name; s! "idProduct"]; Ok (Some (v, p)));
  match ids with
  | None => Ok Skip
  | Some (device_vid, device_pid) =>
      if negb (device_vid =? vid) || negb (device_pid =? pid) then Ok Skip else
      texts ← device_texts wanted name;
      match texts with
      | None => Ok Skip
      | Some (device_serial, device_product, b, d) =>
          discovered ← _discover_control_interface name;
          let info (c : candidate) : UsbDeviceInfo :=
            let '(i, out, inn, size) := c in
            {| sysfs_name := name; devfs_path := [format_03d b; format_03d d]; serial := device_serial;
               product := device_product; interface := i; ep_out := out; ep_in := inn;
               info_max_packet_size := size |} in
          match discovered, manual o with
          | None, None =>
              if has_serial wanted then Err NoControlInterfaceFound else Ok MissingControl
          | None, Some (i, out, inn) => Ok (Found (info (i, out, inn, DEFAULT_MAX_USB_CHUNK)))
          | Some (_, _, _, size), Some (i, out, inn) => Ok (Found (info (i, out, inn, size)))
          | Some c, None => Ok (Found (info c))
          end
      end
  end.

Definition found_infos (l : list examined) : list UsbDeviceInfo :=
  omap (λ e, match e with Found i => Some i | _ => None end) l.
Definition any_missing (l : list examined) : bool :=
  existsb (λ e, match e with MissingControl => true | _ => false end) l.

Definition find_motu_device (vid pid : Z) (wanted : option pystr) (o : overrides)
    : result UsbDeviceInfo :=
  if any_override o && bool_decide (manual o = None)
  then Err (DeviceDiscoveryError false
              (s! "manual USB overrides require interface, ep_out, and ep_in together")) else
  names ← match iterdir [] with
          | Err e =>
              if is_not_found e
              then Err (DeviceDiscoveryError false (s! "USB sysfs root does not exist: " ++ root_text))
              else if is_permission e
              then Err (DeviceDiscoveryError true (s! "USB sysfs root is not readable: " ++ root_text))
              else Err e
          | Ok l => Ok l
          end;
  l ← mapR (examine_device vid pid wanted o) (sort_by text_leb names);
  match found_infos l with
  | [] => if any_missing l then Err NoControlInterfaceFound else Err NoDeviceFound
  | [info] => Ok info
  | _ => Err MultipleDevicesFound
  end.
End Discovery.

(** * What is found *)

Section Found.
Context `{Sysfs}.

(** The number a file holds in hexadecimal, and the text of a file that may be
    missing. *)
Definition holds_hex (path : list pystr) (v : Z) : Prop :=
  ∃ t, read_ascii path = Ok t ∧ int16 (strip t) = Some v.
Definition holds_decimal (path : list pystr) (v : Z) : Prop :=
  ∃ t, read_ascii path = Ok t ∧ int10 (strip t) = Some v.
Definition optional_text (path : list pystr) (s : pystr) : Prop :=
  (∃ t, read_ascii path = Ok t ∧ s = strip t) ∨
  (read_ascii path = Err FileNotFoundError ∧ s = []).

(** The packet size of an endpoint: what its file says, 512 when the file is
    missing or holds no number. *)
Definition packet_size (path : list pystr) (size : Z) : Prop :=
  holds_hex path size ∨
  (size = 512 ∧ (read_ascii path = Err FileNotFoundError ∨ read_ascii path = Err ValueError ∨
                 ∃ t, read_ascii path = Ok t ∧ int16 (strip t) = None)).

(** Directory [name] has a bulk endpoint of this address and packet size: an
    entry [ep_xx] whose name is the address, of type bulk or of no known type. *)
Record bulk_endpoint (name entry : pystr) (a size : Z) : Prop := {
  be_listed : ∃ entries, iterdir [name] = Ok entries ∧ entry ∈ entries;
  be_named : ∃ digits, entry = s! "ep_" ++ digits ∧ int16 digits = Some a;
  be_bulk : ∃ kind, optional_text [name; entry; s! "type"] kind ∧
              (kind = [] ∨ lower kind = s! "bulk");
  be_size : packet_size [name; entry; s! "wMaxPacketSize"] size
}.

(** [a] is the least address of the bulk endpoints of one direction. *)
Definition least_endpoint (name : pystr) (inbound : bool) (a size : Z) : Prop :=
  (∃ entry, bulk_endpoint name entry a size) ∧ Z.testbit a 7 = inbound ∧
  ∀ entry a' size', bulk_endpoint name entry a' size' → Z.testbit a' 7 = inbound → a ≤ a'.

(** Interface [name] is of the vendor's class, no driver holds it, and these
    are its number, its least outbound and its least inbound endpoint and the
    larger of their packet sizes. *)
Record free_interface (name : pystr) (c : candidate) : Prop := {
  fi_class : holds_hex [name; s! "bInterfaceClass"] 0xFF;
  fi_number : holds_hex [name; s! "bInterfaceNumber"] c.1.1.1;
  fi_free : path_exists [name; s! "driver"] = Ok false;
  fi_endpoints : ∃ size_out size_in,
    least_endpoint name false c.1.1.2 size_out ∧ least_endpoint name true c.1.2 size_in ∧
    c.2 = Z.max size_in size_out
}.

(** A device's control interfaces: the free interfaces listed under its name. *)
Definition control_interface (device : pystr) (c : candidate) : Prop :=
  ∃ names name, iterdir [] = Ok names ∧ name ∈ names ∧
    starts_with (device ++ s! ":1.") name = true ∧ free_interface name c.

(** The order of candidates, but for the packet size. *)
Definition before_or_at (c c' : candidate) : Prop :=
  c.1.1.1 < c'.1.1.1 ∨
  c.1.1.1 = c'.1.1.1 ∧ (c.1.1.2 < c'.1.1.2 ∨ c.1.1.2 = c'.1.1.2 ∧ c.1.2 ≤ c'.1.2).

Definition least_control_interface (device : pystr) (c : candidate) : Prop :=
  control_interface device c ∧ ∀ c', control_interface device c' → before_or_at c c'.

(** What an accepted device is: identifiers and serial as asked for, the node
    of its bus and device numbers, and either the endpoints given by hand or
    the least of its control interfaces. *)
Record matching_device (vid pid : Z) (wanted : option pystr) (o : overrides)
    (info : UsbDeviceInfo) : Prop := {
  md_vendor : holds_hex [sysfs_name info; s! "idVendor"] vid;
  md_product : holds_hex [sysfs_name info; s! "idProduct"] pid;
  md_serial : optional_text [sysfs_name info; s! "serial"] (serial info);
  md_wanted : ∀ s, wanted = Some s → s ≠ [] → serial info = s;
  md_label : optional_text [sysfs_name info; s! "product"] (product info);
  md_node : ∃ b d, holds_decimal [sysfs_name info; s! "busnum"] b ∧
              holds_decimal [sysfs_name info; s! "devnum"] d ∧
              devfs_path info = [format_03d b; format_03d d];
  md_chosen :
    let chosen := (interface info, ep_out info, ep_in info) in
    match manual o with
    | Some given => chosen = given ∧
        ((∃ c, least_control_interface (sysfs_name info) (c, info_max_packet_size info)) ∨
         (∀ c, ¬ control_interface (sysfs_name info) c) ∧ info_max_packet_size info = 512)
    | None => least_control_interface (sysfs_name info) (chosen, info_max_packet_size info)
    end
}.

(** ** Files *)

Lemma except_with_ok {A} caught (d a : A) r :
  except_with caught d r = Ok a → r = Ok a ∨ (∃ e, r = Err e ∧ caught e = true) ∧ a = d.
Proof. destruct r as [x|e]; simpl; [auto|]. destruct (caught e) eqn:E; naive_solver. Qed.

Lemma is_not_found_eq e : is_not_found e = true → e = FileNotFoundError.
Proof. destruct e; try done. simpl. intros ?. zbool. by subst. Qed.

Lemma parse_hex_iff path v : _parse_hex_file path = Ok v ↔ holds_hex path v.
Proof.
  unfold _parse_hex_file, read_text, holds_hex.
  destruct (read_ascii path) as [t|e]; simpl; [|split; [done|by intros (t & ? & _)]].
  split.
  - destruct (int16 (strip t)) as [w|] eqn:E; [|done]. intros [= <-]. eauto.
  - by intros (t' & [= <-] & ->).
Qed.

Lemma decimal_iff path v : (t ← read_text path; as_int (int10 t)) = Ok v ↔ holds_decimal path v.
Proof.
  unfold read_text, holds_decimal.
  destruct (read_ascii path) as [t|e]; simpl; [|split; [done|by intros (t & ? & _)]].
  split.
  - destruct (int10 (strip t)) as [w|] eqn:E; [|done]. intros [= <-]. eauto.
  - by intros (t' & [= <-] & ->).
Qed.

Lemma optional_iff path s : _read_optional_text path = Ok s ↔ optional_text path s.
Proof.
  unfold _read_optional_text, read_text, optional_text.
  destruct (read_ascii path) as [t|e]; simpl.
  { split; [intros [= <-]; eauto|]. intros [(t' & [= <-] & ->)|[? _]]; done. }
  destruct (is_not_found e) eqn:E.
  { apply is_not_found_eq in E as ->. split; [intros [= <-]; auto|].
    intros [(t & ? & _)|[_ ->]]; done. }
  split; [done|]. intros [(t & ? & _)|[[= ->] _]]; done.
Qed.

Lemma packet_size_iff path v :
  except_with (λ e, is_not_found e || is_value_error e) DEFAULT_MAX_USB_CHUNK
    (_parse_hex_file path) = Ok v ↔ packet_size path v.
Proof.
  unfold packet_size. rewrite <-parse_hex_iff. unfold _parse_hex_file, read_text.
  destruct (read_ascii path) as [t|e]; simpl.
  - destruct (int16 (strip t)) as [w|] eqn:E; simpl.
    + split; [auto|]. intros [?|(_ & [?|[?|(t' & [= <-] & ?)]])]; [done|done|done|congruence].
    + split; [intros [= <-]; eauto 7|]. intros [?|[-> _]]; done.
  - destruct (is_not_found e) eqn:E; simpl.
    { apply is_not_found_eq in E as ->. split; [intros [= <-]; auto|].
      intros [?|[-> _]]; done. }
    destruct (is_value_error e) eqn:E'.
    + destruct e; try done. split; [intros [= <-]; auto|]. intros [?|[-> _]]; done.
    + split; [done|]. intros [?|(-> & [[= ->]|[[= ->]|(t & ? & _)]])]; done.
Qed.

(** ** One interface *)

Lemma is_in_testbit ep : is_in ep = Z.testbit (address ep) 7.
Proof.
  unfold is_in. change 0x80 with (2 ^ 7).
  destruct (Z.testbit (address ep) 7) eqn:E.
  - apply negb_true_iff, Z.eqb_neq. intros E0. apply (f_equal (λ z, Z.testbit z 7)) in E0.
    rewrite Z.land_spec, Z.pow2_bits_true, E in E0 by lia. done.
  - apply negb_false_iff, Z.eqb_eq. apply Z.bits_inj'. intros n Hn.
    rewrite Z.land_spec, Z.bits_0. destruct (decide (n = 7)) as [->|].
    + by rewrite E.
    + by rewrite (Z.pow2_bits_false 7) by lia; apply andb_false_r.
Qed.

(** An entry is parsed to an endpoint just when it is one. *)
Lemma parse_endpoint_iff name entry ep :
  (∃ entries, iterdir [name] = Ok entries ∧ entry ∈ entries) →
  _parse_endpoint [name] entry = Ok (Some ep) ↔
  bulk_endpoint name entry (address ep) (ep_max_packet_size ep).
Proof.
  intros Hl. unfold _parse_endpoint. destruct (starts_with (s! "ep_") entry) eqn:Es; simpl negb; cbv iota.
  - apply starts_with_spec in Es as [digits Ed].
    assert (drop 3 entry = digits) as -> by (by rewrite Ed).
    split.
    + destruct (int16 digits) as [a|] eqn:Ea; [|done]. intros E.
      apply result_bind_ok in E as (kind & Ek & E). apply optional_iff in Ek.
      destruct (negb (zl_eqb kind []) && _) eqn:Eb; [done|].
      apply result_bind_ok in E as (size & Ez & [= <-]). apply packet_size_iff in Ez. simpl in *.
      split; [exact Hl|exists digits; auto| |exact Ez]. exists kind. split; [done|].
      apply andb_false_iff in Eb as [Eb|Eb]; apply negb_false_iff, zl_eqb_eq in Eb; auto.
    + intros [_ (digits' & Ed' & Ea) (kind & Ek & Eb) Ez]. rewrite Ed in Ed'.
      apply app_inv_head in Ed' as <-. rewrite Ea. apply optional_iff in Ek. simpl in Ek.
      cbn [app]. rewrite Ek. cbn [mbind result_bind].
      assert (negb (zl_eqb kind []) && negb (zl_eqb (lower kind) (s! "bulk")) = false) as ->.
      { destruct Eb as [->| ->]; [done|]. apply andb_false_r. }
      apply packet_size_iff in Ez. rewrite Ez. by destruct ep.
  - split; [done|]. intros [_ (digits & -> & _) _ _]. by rewrite starts_with_app in Es.
Qed.

(** The sorted endpoints of one direction start with the least of them. *)
Lemma sorted_endpoints name entries eps inbound :
  iterdir [name] = Ok entries → mapR (_parse_endpoint [name]) (sort_by text_leb entries) = Ok eps →
  match sort_by by_address (filter (λ ep, is_in ep = inbound) (omap id eps)) with
  | ep :: _ => least_endpoint name inbound (address ep) (ep_max_packet_size ep)
  | [] => ∀ entry a size, bulk_endpoint name entry a size → Z.testbit a 7 ≠ inbound
  end.
Proof.
  intros En Em. apply mapR_ok in Em. set (eps' := filter _ _).
  assert (∀ ep, ep ∈ eps' ↔ (∃ entry, bulk_endpoint name entry (address ep) (ep_max_packet_size ep))
                         ∧ Z.testbit (address ep) 7 = inbound) as Hin.
  { intros ep. unfold eps'. rewrite list_elem_of_filter, is_in_testbit, list_elem_of_omap.
    split; [intros [H1 H2]; split; [|done] | intros [H1 H2]; split; [done|]].
    - destruct H2 as (oe & Hoe & Eo). simpl in Eo. subst oe.
      apply list_elem_of_lookup_1 in Hoe as [k Hk].
      destruct (Forall2_lookup_r _ _ _ _ _ Em Hk) as (entry & He & Hp). exists entry.
      apply parse_endpoint_iff in Hp; [done|]. exists entries. split; [done|].
      by apply list_elem_of_lookup_2, elem_of_sort_by in He.
    - destruct H1 as [entry Hb]. pose proof (be_listed _ _ _ _ Hb) as (entries' & En' & He).
      rewrite En in En'. injection En' as <-.
      apply parse_endpoint_iff in Hb; [|by exists entries].
      apply (elem_of_sort_by text_leb), list_elem_of_lookup_1 in He as [k Hk].
      destruct (Forall2_lookup_l _ _ _ _ _ Em Hk) as (y & Hy & E). rewrite Hb in E. injection E as <-.
      exists (Some ep). split; [by eapply list_elem_of_lookup_2|done]. }
  destruct (sort_by by_address eps') as [|ep rest] eqn:Es.
  - intros entry a size Hb Ha.
    assert ({| address := a; ep_max_packet_size := size |} ∈ eps') as Hx by (apply Hin; eauto).
    apply (elem_of_sort_by by_address) in Hx. rewrite Es in Hx. by apply not_elem_of_nil in Hx.
  - assert (ep ∈ eps') as Hep. { apply (elem_of_sort_by by_address). rewrite Es. by left. }
    apply Hin in Hep as [H1 H2]. split; [done|]. split; [done|]. intros entry a size Hb Ha.
    assert ({| address := a; ep_max_packet_size := size |} ∈ eps') as Hx by (apply Hin; eauto).
    eapply (sort_by_head_min by_address) in Hx; [| | |by rewrite Es].
    + unfold by_address in Hx. simpl in Hx. zbool. done.
    + intros x y. unfold by_address. destruct (Z.leb_spec (address x) (address y)); [by left|right].
      zbool. lia.
    + intros x y z. unfold by_address. intros. zbool. lia.
Qed.

Lemma least_endpoint_inj name inbound a size a' size' :
  least_endpoint name inbound a size → least_endpoint name inbound a' size' → a = a'.
Proof.
  intros ([e He] & Hb & Hm) ([e' He'] & Hb' & Hm').
  apply Hm in He'; [|done]. apply Hm' in He; [|done]. lia.
Qed.

Lemma examine_interface_sound name c : examine_interface name = Ok (Some c) → free_interface name c.
Proof.
  unfold examine_interface. intros E. apply result_bind_ok in E as ([[cl n]|] & Ec & E); [|done].
  apply except_with_ok in Ec as [Ec | [_ ?]]; [|done].
  apply result_bind_ok in Ec as (cl' & Hc & Ec). apply result_bind_ok in Ec as (n' & Hn & [= -> ->]).
  destruct (cl =? 0xFF) eqn:E1; [|done]. zbool. subst cl. cbn [negb] in E.
  apply result_bind_ok in E as ([|] & E2 & E); [done|].
  apply result_bind_ok in E as ([names|] & El & E); [|done].
  apply except_with_ok in El as [El | [_ ?]]; [|done].
  apply result_bind_ok in El as (names' & El & [= ->]).
  apply result_bind_ok in E as (eps & Em & E).
  pose proof (sorted_endpoints _ _ _ true El Em) as Hin.
  pose proof (sorted_endpoints _ _ _ false El Em) as Hout.
  destruct (sort_by by_address (filter (λ ep, is_in ep = true) (omap id eps))) as [|i ?]; [done|].
  destruct (sort_by by_address (filter (λ ep, is_in ep = false) (omap id eps))) as [|o ?]; [done|].
  injection E as <-. apply parse_hex_iff in Hc, Hn. split; try done. simpl. eauto.
Qed.

(** A free interface is a candidate, whenever its examination returns. *)
Lemma examine_interface_complete name c r :
  free_interface name c → examine_interface name = Ok r → ∃ size, r = Some (c.1, size).
Proof.
  intros [Hc Hn Hf (so & si & Ho & Hi & _)] E. unfold examine_interface in E.
  apply parse_hex_iff in Hc, Hn. rewrite Hc in E. cbn [mbind result_bind] in E.
  rewrite Hn in E. cbn [mbind result_bind except_with] in E. cbn [Z.eqb negb] in E.
  change (255 =? 255) with true in E. cbn [negb] in E. rewrite Hf in E. cbn [mbind result_bind] in E.
  pose proof Hi as ([entry Hb] & Ha & _). pose proof (be_listed _ _ _ _ Hb) as (entries & En & _).
  rewrite En in E. cbn [mbind result_bind except_with] in E.
  apply result_bind_ok in E as (eps & Em & E).
  pose proof (sorted_endpoints _ _ _ true En Em) as Hin.
  pose proof (sorted_endpoints _ _ _ false En Em) as Hout.
  destruct (sort_by by_address (filter (λ ep, is_in ep = true) (omap id eps))) as [|i ?].
  { by destruct (Hin _ _ _ Hb). }
  destruct (sort_by by_address (filter (λ ep, is_in ep = false) (omap id eps))) as [|o ?].
  { destruct Ho as ([entry' Hb'] & Ha' & _). by destruct (Hout _ _ _ Hb'). }
  injection E as <-. destruct c as [[[n co] ci] size]. simpl in *.
  rewrite (least_endpoint_inj _ _ _ _ _ _ Hout Ho), (least_endpoint_inj _ _ _ _ _ _ Hin Hi). eauto.
Qed.

(** ** The interfaces of a device *)

Lemma candidate_leb_before c c' : candidate_leb c c' = true → before_or_at c c'.
Proof.
  destruct c as [[[a1 a2] a3] a4], c' as [[[b1 b2] b3] b4]. unfold before_or_at. simpl.
  repeat case_match; intros; zbool; lia.
Qed.

Lemma discover_sound device r :
  _discover_control_interface device = Ok r →
  match r with
  | Some c => least_control_interface device c
  | None => ∀ c, ¬ control_interface device c
  end.
Proof.
  unfold _discover_control_interface. intros E.
  apply result_bind_ok in E as ([names|] & En & E).
  2: { injection E as <-. intros c (names & name & En' & _). by rewrite En' in En. }
  apply except_with_ok in En as [En | [_ ?]]; [|done].
  apply result_bind_ok in En as (names' & En & [= ->]).
  apply result_bind_ok in E as (found & Ef & [= E]). apply mapR_ok in Ef.
  assert (∀ c, control_interface device c → ∃ size, (c.1, size) ∈ omap id found) as Hcompl.
  { intros c (names' & name & En' & Hn & Hp & Hf). rewrite En in En'. injection En' as <-.
    assert (name ∈ filter (λ n, starts_with (device ++ s! ":1.") n = true)
                      (sort_by text_leb names)) as Hi.
    { apply list_elem_of_filter. split; [done|]. by apply elem_of_sort_by. }
    apply list_elem_of_lookup_1 in Hi as [i Hi].
    destruct (Forall2_lookup_l _ _ _ _ _ Ef Hi) as (y & Hy & E2).
    apply (examine_interface_complete _ _ _ Hf) in E2 as [size ->]. exists size.
    apply list_elem_of_omap. exists (Some (c.1, size)). split; [by eapply list_elem_of_lookup_2|done]. }
  destruct r as [c|].
  - split.
    + assert (c ∈ omap id found) as Hc.
      { apply (elem_of_sort_by candidate_leb).
        destruct (sort_by candidate_leb (omap id found)); [done|]. simpl in E. injection E as ->. by left. }
      apply list_elem_of_omap in Hc as (oc & Hoc & Heq). simpl in Heq. subst oc.
      apply list_elem_of_lookup_1 in Hoc as [i Hi].
      destruct (Forall2_lookup_r _ _ _ _ _ Ef Hi) as (name & Hn & Hex).
      apply list_elem_of_lookup_2, list_elem_of_filter in Hn as [Hp Hn].
      apply elem_of_sort_by in Hn. apply examine_interface_sound in Hex. by exists names, name.
    + intros c' Hc'. apply Hcompl in Hc' as [size Hs].
      apply (sort_by_head_min candidate_leb) with (x := c) in Hs.
      * by apply candidate_leb_before in Hs.
      * intros [[[? ?] ?] ?] [[[? ?] ?] ?]. apply text_leb_total.
      * intros [[[? ?] ?] ?] [[[? ?] ?] ?] [[[? ?] ?] ?]. apply text_leb_trans.
      * done.
  - intros c Hc. apply Hcompl in Hc as [size Hs]. apply (elem_of_sort_by candidate_leb) in Hs.
    destruct (sort_by candidate_leb (omap id found)); [by apply not_elem_of_nil in Hs|done].
Qed.

(** ** One device *)

Lemma device_texts_ok wanted name s p b d :
  device_texts wanted name = Ok (Some (s, p, b, d)) ↔
  optional_text [name; s! "serial"] s ∧ serial_differs wanted s = false ∧
  optional_text [name; s! "product"] p ∧
  holds_decimal [name; s! "busnum"] b ∧ holds_decimal [name; s! "devnum"] d.
Proof.
  rewrite <-!optional_iff, <-!decimal_iff. unfold device_texts. split.
  - intros E. apply except_with_ok in E as [E | [_ ?]]; [|done].
    apply result_bind_ok in E as (s' & Es & E). destruct (serial_differs wanted s') eqn:Ed; [done|].
    apply result_bind_ok in E as (p' & Ep & E). apply result_bind_ok in E as (b' & Eb & E).
    apply result_bind_ok in E as (d' & Edd & [= -> -> -> ->]). done.
  - intros (-> & Ed & -> & -> & ->). simpl. by rewrite Ed.
Qed.

Lemma serial_differs_false wanted s :
  serial_differs wanted s = false ↔ ∀ w, wanted = Some w → w ≠ [] → s = w.
Proof.
  destruct wanted as [[|c w]|]; simpl; [naive_solver| |naive_solver].
  rewrite negb_false_iff, zl_eqb_eq. split; [by intros -> ? [= <-] _|]. intros Hw. by apply Hw.
Qed.

(** The endpoints and the packet size of a device whose discovery returned. *)
Lemma examine_found vid pid wanted o name info :
  examine_device vid pid wanted o name = Ok (Found info) →
  sysfs_name info = name ∧ matching_device vid pid wanted o info.
Proof.
  unfold examine_device. intros E. apply result_bind_ok in E as ([[v p]|] & Ei & E); [|done].
  apply except_with_ok in Ei as [Ei | [_ ?]]; [|done].
  apply result_bind_ok in Ei as (v' & Hv & Ei). apply result_bind_ok in Ei as (p' & Hp & [= -> ->]).
  apply parse_hex_iff in Hv, Hp.
  destruct (negb (v =? vid) || negb (p =? pid)) eqn:Eid; [done|]. zbool. subst v p.
  apply result_bind_ok in E as ([[[[s pr] b] d]|] & Et & E); [|done].
  apply device_texts_ok in Et as (Es & Ed & Ep & Eb & Edv).
  pose proof (proj1 (serial_differs_false wanted s) Ed) as Hs.
  apply result_bind_ok in E as (disc & Edisc & E). apply discover_sound in Edisc.
  destruct disc as [[[[i1 o1] n1] z1]|], (manual o) as [[[i2 o2] n2]|] eqn:Em.
  4: by destruct (has_serial wanted).
  all: injection E as <-; (split; [done|]); split; simpl; try done; try (by eauto).
  all: rewrite Em; eauto.
Qed.

Lemma matching_accepted vid pid wanted o info e :
  matching_device vid pid wanted o info →
  examine_device vid pid wanted o (sysfs_name info) = Ok e →
  ∃ info', e = Found info' ∧ sysfs_name info' = sysfs_name info.
Proof.
  intros [Hv Hp Hs Hw Hl (b & d & Hb & Hd & _) Hc] E. apply parse_hex_iff in Hv, Hp.
  unfold examine_device in E. rewrite Hv in E. cbn [mbind result_bind] in E. rewrite Hp in E.
  cbn [mbind result_bind except_with] in E. rewrite !Z.eqb_refl in E. cbn [negb orb] in E.
  apply serial_differs_false in Hw.
  rewrite (proj2 (device_texts_ok _ _ (serial info) (product info) b d)) in E by done.
  cbn [mbind result_bind] in E. apply result_bind_ok in E as (disc & Edisc & E).
  apply discover_sound in Edisc. simpl in Hc.
  destruct disc as [[[[i1 o1] n1] z1]|], (manual o) as [[[i2 o2] n2]|].
  4: by destruct Hc as [Hc _]; destruct (Edisc _ Hc).
  all: injection E as <-; by eexists.
Qed.
End Found.

Lemma find_motu_device_ok `{Sysfs} vid pid wanted o info :
  find_motu_device vid pid wanted o = Ok info →
  ∃ names l, iterdir [] = Ok names ∧
    Forall2 (λ n e, examine_device vid pid wanted o n = Ok e) (sort_by text_leb names) l ∧
    found_infos l = [info].
Proof.
  unfold find_motu_device. intros E. destruct (any_override o && _); [done|].
  apply result_bind_ok in E as (names & En & E).
  apply result_bind_ok in E as (l & El & E). apply mapR_ok in El. exists names, l.
  split; [|split; [done|]].
  - destruct (iterdir []) as [|e]; [by injection En as ->|].
    destruct (is_not_found e); [done|]. by destruct (is_permission e).
  - destruct (found_infos l) as [|i [|j r]]; [by destruct (any_missing l)|by injection E as ->|done].
Qed.

(** C40. Discovery is sound and unambiguous: a device it returns is listed in
    sysfs, has the vendor, product and (when asked for) serial of the request
    and the node of its bus and device number; its endpoints are those given by
    hand or those of its least vendor-specific interface that no driver holds:
    entries [ep_xx] of that interface's directory, bulk or of no known type,
    the least outbound and the least inbound address among them, with the
    larger of their packet sizes (512 for a missing one); and no other listed
    device matches the request in this sense. *)
Theorem find_motu_device_sound `{Sysfs} vid pid wanted o info :
  find_motu_device vid pid wanted o = Ok info →
  ∃ names, iterdir [] = Ok names ∧ sysfs_name info ∈ names ∧
    matching_device vid pid wanted o info ∧
    ∀ info', sysfs_name info' ∈ names → matching_device vid pid wanted o info' →
      sysfs_name info' = sysfs_name info.
Proof.
  intros E. apply find_motu_device_ok in E as (names & l & En & El & Ef). exists names.
  assert (∀ i, i ∈ found_infos l ↔ Found i ∈ l) as Hf.
  { intros i. unfold found_infos. rewrite list_elem_of_omap. split; [|by eauto].
    intros ([| |j] & Hj & [=]). by subst. }
  assert (Found info ∈ l) as Hin. { apply Hf. rewrite Ef. by left. }
  apply list_elem_of_lookup_1 in Hin as [k Hk].
  destruct (Forall2_lookup_r _ _ _ _ _ El Hk) as (name & Hn & Hex).
  apply list_elem_of_lookup_2, elem_of_sort_by in Hn.
  apply examine_found in Hex as [<- Hm]. do 3 (split; [done|]).
  intros info' Hn' Hm'. apply (elem_of_sort_by text_leb), list_elem_of_lookup_1 in Hn' as [k' Hk'].
  destruct (Forall2_lookup_l _ _ _ _ _ El Hk') as (e & He & Hee).
  destruct (matching_accepted _ _ _ _ _ _ Hm' Hee) as (info'' & -> & <-).
  apply list_elem_of_lookup_2, Hf in He. rewrite Ef in He.
  by apply list_elem_of_singleton in He as ->.
Qed.

(** A device behind a hub: its first vendor-specific interface is held by a
    driver, its second is free; the entry of a root hub is listed too. *)
Definition sample_files : list (list pystr * pystr) :=
  [([s! "usb1"; s! "idVendor"], s! "1d6b"); ([s! "usb1"; s! "idProduct"], s! "0002");
   ([s! "1-2"; s! "idVendor"], s! "07fd "); ([s! "1-2"; s! "idProduct"], s! "0005");
   ([s! "1-2"; s! "serial"], s! "0001f2fffe00"); ([s! "1-2"; s! "busnum"], s! "1");
   ([s! "1-2"; s! "devnum"], s! "12");
   ([s! "1-2:1.0"; s! "bInterfaceClass"], s! "ff"); ([s! "1-2:1.0"; s! "bInterfaceNumber"], s! "00");
   ([s! "1-2:1.4"; s! "bInterfaceClass"], s! "ff"); ([s! "1-2:1.4"; s! "bInterfaceNumber"], s! "04");
   ([s! "1-2:1.4"; s! "ep_84"; s! "type"], s! "Bulk");
   ([s! "1-2:1.4"; s! "ep_84"; s! "wMaxPacketSize"], s! "0200")].

#[local] Instance sample_sysfs : Sysfs := {
  root_text := s! "/sys/bus/usb/devices";
  iterdir p := match p with
               | [] => Ok [s! "usb1"; s! "1-2:1.4"; s! "1-2:1.0"; s! "1-2"]
               | [n] => if zl_eqb n (s! "1-2:1.4")
                        then Ok [s! "ep_84"; s! "uevent"; s! "ep_04"] else Ok []
               | _ => Err FileNotFoundError
               end;
  read_ascii p := match find (λ e, bool_decide (e.1 = p)) sample_files with
                  | Some (_, t) => Ok t
                  | None => Err FileNotFoundError
                  end;
  path_exists p := Ok (bool_decide (p = [s! "1-2:1.0"; s! "driver"]))
}.

Definition no_overrides : overrides := {| o_interface := None; o_ep_out := None; o_ep_in := None |}.

Definition sample_info : UsbDeviceInfo :=
  {| sysfs_name := s! "1-2"; devfs_path := [s! "001"; s! "012"]; serial := s! "0001f2fffe00";
     product := []; interface := 4; ep_out := 0x04; ep_in := 0x84; info_max_packet_size := 512 |}.

Lemma find_motu_device_sound_witness :
  ∃ names, iterdir [] = Ok names ∧ sysfs_name sample_info ∈ names ∧
    matching_device 0x07fd 0x0005 (Some (s! "0001f2fffe00")) no_overrides sample_info ∧
    ∀ info', sysfs_name info' ∈ names →
      matching_device 0x07fd 0x0005 (Some (s! "0001f2fffe00")) no_overrides info' →
      sysfs_name info' = sysfs_name sample_info.
Proof. apply find_motu_device_sound. vm_compute. reflexivity. Defined.

(** A given interface without both endpoints is refused before any file is read. *)
Example partial_override_refused :
  find_motu_device 0x07fd 0x0005 None {| o_interface := Some 4; o_ep_out := None; o_ep_in := None |}
  = Err (DeviceDiscoveryError false
           (s! "manual USB overrides require interface, ep_out, and ep_in together")).
Proof. vm_compute. reflexivity. Qed.

(** Another serial is not found. *)
Example other_serial_not_found :
  find_motu_device 0x07fd 0x0005 (Some (s! "2")) no_overrides = Err NoDeviceFound.
Proof. vm_compute. reflexivity. Qed.
