(* ===== verification/Json.v ===== *)
(** JSON values as Python sees them ([json.loads] of an object gives a dict: the
    entries in order of first occurrence, the last value of a repeated key) and
    the comparison of Python numbers.

    A Python float is a binary64 number in the Standard Library's [spec_float];
    a finite one is an integer times a power of two, so comparisons of integers
    and floats are exact, as Python's are. *)
From Stdlib Require Export SpecFloat.
From S2P Require Import Prelude PyText.

(** * Numbers *)

Inductive pynum :=
  | NInt (z : Z)
  | NFloat (f : spec_float).

(** A finite number as [m * 2^e]. *)
Definition dyadic (n : pynum) : option (Z * Z) :=
  match n with
  | NInt z => Some (z, 0)
  | NFloat (S754_zero _) => Some (0, 0)
  | NFloat (S754_finite sign m e) => Some ((if sign then Z.neg m else Z.pos m), e)
  | NFloat _ => None
  end.

Definition dyadic_cmp (a b : Z * Z) : comparison :=
  let e := Z.min a.2 b.2 in
  Z.compare (a.1 * 2 ^ (a.2 - e)) (b.1 * 2 ^ (b.2 - e)).

(** The order of Python numbers; [None] when one is not a number. *)
Definition num_cmp (a b : pynum) : option comparison :=
  match a, b with
  | NFloat S754_nan, _ | _, NFloat S754_nan => None
  | NFloat (S754_infinity s), NFloat (S754_infinity t) =>
      Some (match s, t with
            | true, false => Lt
            | false, true => Gt
            | _, _ => Eq
            end)
  | NFloat (S754_infinity s), _ => Some (if s then Lt else Gt)
  | _, NFloat (S754_infinity t) => Some (if t then Gt else Lt)
  | _, _ => match dyadic a, dyadic b with
            | Some x, Some y => Some (dyadic_cmp x y)
            | _, _ => None
            end
  end.

Definition num_lt (a b : pynum) : bool :=
  match num_cmp a b with Some Lt => true | _ => false end.
Definition num_eq (a b : pynum) : bool :=
  match num_cmp a b with Some Eq => true | _ => false end.

(** [math.isfinite]: an integer is converted to a float first, which raises
    [OverflowError] when it rounds beyond the largest one. *)
Definition float_overflow : Z := 2 ^ 1024 - 2 ^ 970.

Definition isfinite (n : pynum) : result bool :=
  match n with
  | NInt z => if float_overflow <=? Z.abs z then Err OverflowError else Ok true
  | NFloat (S754_infinity _) | NFloat S754_nan => Ok false
  | NFloat _ => Ok true
  end.

(** ** Decimal literals *)

(** The binary64 number nearest to [m * 10^k], [m > 0]: ties go to the even
    mantissa, and beyond the largest one it is infinite. *)
Definition float_of_decimal (sign : bool) (m : positive) (k : Z) : spec_float :=
  if 400 <? k then S754_infinity sign
  else if k <? -400 - Z.log2 (Z.pos m) then S754_zero sign
  else if 0 <=? k
  then binary_normalize 53 1024 (cond_Zopp sign (Z.pos m * 10 ^ k)) 0 sign
  else let '(mz, ez, lz) := SFdiv_core_binary 53 1024 (Z.pos m) 0 (10 ^ (- k)) 0 in
       binary_round_aux 53 1024 sign mz ez lz.

Definition float_of (sign : bool) (m k : Z) : spec_float :=
  match m with
  | Z.pos p => float_of_decimal sign p k
  | _ => S754_zero sign
  end.

(** Digits with single underscores between them: their value, their number and
    the rest. *)
Fixpoint scan_digits (acc n : Z) (s : pystr) : Z * Z * pystr :=
  match s with
  | [] => (acc, n, [])
  | c :: s' =>
      match decimal_value c with
      | Some d => scan_digits (10 * acc + d) (n + 1) s'
      | None =>
          match s' with
          | c' :: s'' =>
              match (if (c =? 95) && (0 <? n) then decimal_value c' else None) with
              | Some d => scan_digits (10 * acc + d) (n + 1) s''
              | None => (acc, n, s)
              end
          | [] => (acc, n, s)
          end
      end
  end.

(** The exponent part of a literal: [None] when it is malformed or something
    follows. *)
Definition scan_exponent (s : pystr) : option Z :=
  match s with
  | [] => Some 0
  | c :: s' =>
      if negb ((c =? 101) || (c =? 69)) then None else
      let '(sign, s') := match s' with
                         | 43 :: r => (1, r)
                         | 45 :: r => (-1, r)
                         | _ => (1, s')
                         end in
      let '(v, n, rest) := scan_digits 0 0 s' in
      if (n =? 0) || negb (zl_eqb rest []) then None else Some (sign * v)
  end.

(** [float(s)]: [None] for the [ValueError]. *)
Definition py_float (s : pystr) : option spec_float :=
  let s := strip_by is_int_space s in
  let '(sign, body) := match s with
                       | 43 :: r => (false, r)
                       | 45 :: r => (true, r)
                       | _ => (false, s)
                       end in
  let word := lower body in
  if zl_eqb word (s! "inf") || zl_eqb word (s! "infinity") then Some (S754_infinity sign) else
  if zl_eqb word (s! "nan") then Some S754_nan else
  let '(i, ni, rest) := scan_digits 0 0 body in
  let '(m, nf, ok, rest) :=
    match rest with
    | 46 :: r => match r with
                 | 95 :: _ => (i, 0, false, r)
                 | _ => let '(v, n, r) := scan_digits i ni r in (v, n - ni, true, r)
                 end
    | _ => (i, 0, true, rest)
    end in
  if negb ok || (ni + nf =? 0) then None else
  (λ e, float_of sign m (e - nf)) <$> scan_exponent rest.

(** * Values *)

Inductive json :=
  | JNull
  | JBool (b : bool)
  | JNum (n : pynum)
  | JStr (s : pystr)
  | JList (l : list json)
  | JObj (fields : list (pystr * json)).

(** * Comparison is the order of the numbers *)

Lemma dyadic_cmp_scale a b k :
  k <= Z.min a.2 b.2 →
  dyadic_cmp a b = Z.compare (a.1 * 2 ^ (a.2 - k)) (b.1 * 2 ^ (b.2 - k)).
Proof.
  intros Hk. unfold dyadic_cmp. set (e := Z.min a.2 b.2) in *.
  replace (a.2 - k) with ((a.2 - e) + (e - k)) by lia.
  replace (b.2 - k) with ((b.2 - e) + (e - k)) by lia.
  rewrite !Z.pow_add_r, !Z.mul_assoc by lia.
  apply Zmult_compare_compat_r. apply Z.lt_gt, Z.pow_pos_nonneg; lia.
Qed.

Lemma num_cmp_int a b : num_cmp (NInt a) (NInt b) = Some (Z.compare a b).
Proof. simpl. unfold dyadic_cmp. simpl. by rewrite !Z.mul_1_r. Qed.

Lemma num_lt_int a b : num_lt (NInt a) (NInt b) = (a <? b).
Proof. unfold num_lt, Z.ltb. rewrite num_cmp_int. by destruct (a ?= b). Qed.

Lemma num_eq_int a b : num_eq (NInt a) (NInt b) = (a =? b).
Proof. unfold num_eq. rewrite num_cmp_int, Z.eqb_compare. by destruct (a ?= b). Qed.
