(* ===== verification/Schema.v ===== *)
(** The documented datastore schema and the validation of writes
    (motu_proxy/schema.py): the table, the best match of a path against it, and
    the checks of every written value.

    The table is the source's, in its order, cut into one definition per part of
    the mixer.  Messages of errors are not modelled: a raised
    [DatastoreValidationError] or [DatastorePermissionError] carries the path it
    names. *)
From S2P Require Import Prelude PyText Paths Json.

(** * The table *)

Record raw_entry := raw {
  r_path : pystr;
  r_type : pystr;
  r_permission : pystr;
  r_minimum : option pynum;
  r_maximum : option pynum;
  r_enum : option pystr
}.

(** The literal [0.01]. *)
Definition F0_01 : pynum := NFloat (S754_finite false 5764607523034235 (-59)).

Definition raw_device : list raw_entry := [
  raw (s! "uid") (s! "string") (s! "r") None None None;
  raw (s! "host/os") (s! "string") (s! "rw") None None None;
  raw (s! "ext/caps/avb") (s! "semver_opt") (s! "r") None None None;
  raw (s! "ext/caps/router") (s! "semver_opt") (s! "r") None None None;
  raw (s! "ext/caps/mixer") (s! "semver_opt") (s! "r") None None None
].

Definition raw_avb : list raw_entry := [
  raw (s! "avb/devs") (s! "string_list") (s! "r") None None None;
  raw (s! "avb/<uid>/entity_model_id_h32") (s! "int") (s! "r") None None None;
  raw (s! "avb/<uid>/entity_model_id_l32") (s! "int") (s! "r") None None None;
  raw (s! "avb/<uid>/entity_name") (s! "string") (s! "rw") None None None;
  raw (s! "avb/<uid>/model_name") (s! "string") (s! "r") None None None;
  raw (s! "avb/<uid>/hostname") (s! "string_opt") (s! "r") None None None;
  raw (s! "avb/<uid>/master_clock/capable") (s! "int_bool") (s! "r") None None None;
  raw (s! "avb/<uid>/master_clock/uid") (s! "string_opt") (s! "rw") None None None;
  raw (s! "avb/<uid>/vendor_name") (s! "string") (s! "r") None None None;
  raw (s! "avb/<uid>/firmware_version") (s! "string") (s! "r") None None None;
  raw (s! "avb/<uid>/serial_number") (s! "string") (s! "r") None None None;
  raw (s! "avb/<uid>/controller_ignore") (s! "int_bool") (s! "r") None None None;
  raw (s! "avb/<uid>/acquired_id") (s! "string") (s! "r") None None None;
  raw (s! "avb/<uid>/motu.mdns.type") (s! "string_opt") (s! "r") None None None;
  raw (s! "avb/<uid>/apiversion") (s! "semver_opt") (s! "r") None None None;
  raw (s! "avb/<uid>/url") (s! "string_opt") (s! "r") None None None;
  raw (s! "avb/<uid>/current_configuration") (s! "int") (s! "rw") None None None;
  raw (s! "avb/<uid>/cfg/<index>/object_name") (s! "string") (s! "r") None None None;
  raw (s! "avb/<uid>/cfg/<index>/identify") (s! "int_bool") (s! "rw") None None None;
  raw (s! "avb/<uid>/cfg/<index>/current_sampling_rate") (s! "int") (s! "rw") None None None;
  raw (s! "avb/<uid>/cfg/<index>/sample_rates") (s! "int_list") (s! "r") None None None;
  raw (s! "avb/<uid>/cfg/<index>/clock_source_index") (s! "int") (s! "rw") None None None;
  raw (s! "avb/<uid>/cfg/<index>/clock_sources/num") (s! "int") (s! "r") None None None;
  raw (s! "avb/<uid>/cfg/<index>/clock_sources/<index>/object_name") (s! "string") (s! "r") None None None;
  raw (s! "avb/<uid>/cfg/<index>/clock_sources/<index>/type") (s! "string") (s! "r") None None None;
  raw (s! "avb/<uid>/cfg/<index>/clock_sources/<index>/stream_id") (s! "int_opt") (s! "r") None None None;
  raw (s! "avb/<uid>/cfg/<index>/<input_or_output>_streams/num") (s! "int") (s! "r") None None None;
  raw (s! "avb/<uid>/cfg/<index>/<input_or_output>_streams/<index>/object_name") (s! "string") (s! "r") None None None;
  raw (s! "avb/<uid>/cfg/<index>/<input_or_output>_streams/<index>/num_ch") (s! "int") (s! "r") None None None;
  raw (s! "avb/<uid>/cfg/<index>/input_streams/<index>/talker") (s! "string_pair") (s! "rw") None None None
].

Definition raw_ext : list raw_entry := [
  raw (s! "ext/clockLocked") (s! "int_bool") (s! "r") None None None;
  raw (s! "ext/wordClockMode") (s! "string") (s! "rw") None None None;
  raw (s! "ext/wordClockThru") (s! "string") (s! "rw") None None None;
  raw (s! "ext/smuxPerBank") (s! "int_bool") (s! "r") None None None;
  raw (s! "ext/vlimit/lookahead") (s! "int_bool_opt") (s! "rw") None None None;
  raw (s! "ext/enableHostVolControls") (s! "int_bool") (s! "rw") None None None;
  raw (s! "ext/maxUSBToHost") (s! "int") (s! "rw") None None None;
  raw (s! "ext/<ibank_or_obank>/<index>/name") (s! "string") (s! "r") None None None;
  raw (s! "ext/<ibank_or_obank>/<index>/maxCh") (s! "int") (s! "r") None None None;
  raw (s! "ext/<ibank_or_obank>/<index>/numCh") (s! "int") (s! "r") None None None;
  raw (s! "ext/<ibank_or_obank>/<index>/userCh") (s! "int") (s! "rw") None None None;
  raw (s! "ext/<ibank_or_obank>/<index>/calcCh") (s! "int") (s! "r") None None None;
  raw (s! "ext/<ibank_or_obank>/<index>/smux") (s! "string") (s! "rw") None None None;
  raw (s! "ext/ibank/<index>/madiClock") (s! "string") (s! "r") None None None;
  raw (s! "ext/obank/<index>/madiClock") (s! "string") (s! "rw") None None None;
  raw (s! "ext/ibank/<index>/madiFormat") (s! "int") (s! "r") None None None;
  raw (s! "ext/obank/<index>/madiFormat") (s! "int") (s! "rw") None None None;
  raw (s! "ext/<ibank_or_obank>/<index>/ch/<index>/name") (s! "string") (s! "rw") None None None;
  raw (s! "ext/obank/<index>/ch/<index>/src") (s! "int_pair_opt") (s! "rw") None None None;
  raw (s! "ext/<ibank_or_obank>/<index>/ch/<index>/phase") (s! "int_bool_opt") (s! "rw") None None None;
  raw (s! "ext/<ibank_or_obank>/<index>/ch/<index>/pad") (s! "int_bool_opt") (s! "rw") None None None;
  raw (s! "ext/ibank/<index>/ch/<index>/48V") (s! "int_bool_opt") (s! "rw") None None None;
  raw (s! "ext/ibank/<index>/ch/<index>/vlLimit") (s! "int_bool_opt") (s! "rw") None None None;
  raw (s! "ext/ibank/<index>/ch/<index>/vlClip") (s! "int_bool_opt") (s! "rw") None None None;
  raw (s! "ext/<ibank_or_obank>/<index>/ch/<index>/trim") (s! "int_opt") (s! "rw") None None None;
  raw (s! "ext/<ibank_or_obank>/<index>/ch/<index>/trimRange") (s! "int_pair_opt") (s! "rw") None None None;
  raw (s! "ext/<ibank_or_obank>/<index>/ch/<index>/stereoTrim") (s! "int_opt") (s! "rw") None None None;
  raw (s! "ext/<ibank_or_obank>/<index>/ch/<index>/stereoTrimRange") (s! "int_pair_opt") (s! "rw") None None None;
  raw (s! "ext/<ibank_or_obank>/<index>/ch/<index>/connection") (s! "int_bool_opt") (s! "r") None None None
].

Definition raw_mix_ctrls : list raw_entry := [
  raw (s! "mix/ctrls/dsp/usage") (s! "int") (s! "r") None None None;
  raw (s! "mix/ctrls/<effect_resource>/avail") (s! "int_bool_opt") (s! "r") None None None
].

Definition raw_mix_chan : list raw_entry := [
  raw (s! "mix/chan/<index>/matrix/aux/<index>/send") (s! "real") (s! "rw") (Some (NInt 0)) (Some (NInt 4)) None;
  raw (s! "mix/chan/<index>/matrix/group/<index>/send") (s! "real") (s! "rw") (Some (NInt 0)) (Some (NInt 4)) None;
  raw (s! "mix/chan/<index>/matrix/reverb/<index>/send") (s! "real") (s! "rw") (Some (NInt 0)) (Some (NInt 4)) None;
  raw (s! "mix/chan/<index>/matrix/aux/<index>/pan") (s! "real") (s! "rw") (Some (NInt (-1))) (Some (NInt 1)) None;
  raw (s! "mix/chan/<index>/matrix/group/<index>/pan") (s! "real") (s! "rw") (Some (NInt (-1))) (Some (NInt 1)) None;
  raw (s! "mix/chan/<index>/matrix/reverb/<index>/pan") (s! "real") (s! "rw") (Some (NInt (-1))) (Some (NInt 1)) None;
  raw (s! "mix/chan/<index>/hpf/enable") (s! "real_bool") (s! "rw") None None None;
  raw (s! "mix/chan/<index>/hpf/freq") (s! "int") (s! "rw") (Some (NInt 20)) (Some (NInt 20000)) None;
  raw (s! "mix/chan/<index>/eq/highshelf/enable") (s! "real_bool") (s! "rw") None None None;
  raw (s! "mix/chan/<index>/eq/highshelf/freq") (s! "int") (s! "rw") (Some (NInt 20)) (Some (NInt 20000)) None;
  raw (s! "mix/chan/<index>/eq/highshelf/gain") (s! "real") (s! "rw") (Some (NInt (-20))) (Some (NInt 20)) None;
  raw (s! "mix/chan/<index>/eq/highshelf/bw") (s! "real") (s! "rw") (Some F0_01) (Some (NInt 3)) None;
  raw (s! "mix/chan/<index>/eq/highshelf/mode") (s! "real_enum") (s! "rw") None None (Some (s! "Shelf=0,Para=1"));
  raw (s! "mix/chan/<index>/eq/mid1/enable") (s! "real_bool") (s! "rw") None None None;
  raw (s! "mix/chan/<index>/eq/mid1/freq") (s! "int") (s! "rw") (Some (NInt 20)) (Some (NInt 20000)) None;
  raw (s! "mix/chan/<index>/eq/mid1/gain") (s! "real") (s! "rw") (Some (NInt (-20))) (Some (NInt 20)) None;
  raw (s! "mix/chan/<index>/eq/mid1/bw") (s! "real") (s! "rw") (Some F0_01) (Some (NInt 3)) None;
  raw (s! "mix/chan/<index>/eq/mid2/enable") (s! "real_bool") (s! "rw") None None None;
  raw (s! "mix/chan/<index>/eq/mid2/freq") (s! "int") (s! "rw") (Some (NInt 20)) (Some (NInt 20000)) None;
  raw (s! "mix/chan/<index>/eq/mid2/gain") (s! "real") (s! "rw") (Some (NInt (-20))) (Some (NInt 20)) None;
  raw (s! "mix/chan/<index>/eq/mid2/bw") (s! "real") (s! "rw") (Some F0_01) (Some (NInt 3)) None;
  raw (s! "mix/chan/<index>/eq/lowshelf/enable") (s! "real_bool") (s! "rw") None None None;
  raw (s! "mix/chan/<index>/eq/lowshelf/freq") (s! "int") (s! "rw") (Some (NInt 20)) (Some (NInt 20000)) None;
  raw (s! "mix/chan/<index>/eq/lowshelf/gain") (s! "real") (s! "rw") (Some (NInt (-20))) (Some (NInt 20)) None;
  raw (s! "mix/chan/<index>/eq/lowshelf/bw") (s! "real") (s! "rw") (Some F0_01) (Some (NInt 3)) None;
  raw (s! "mix/chan/<index>/eq/lowshelf/mode") (s! "real_enum") (s! "rw") None None (Some (s! "Shelf=0,Para=1"));
  raw (s! "mix/chan/<index>/gate/enable") (s! "real_bool") (s! "rw") None None None;
  raw (s! "mix/chan/<index>/gate/release") (s! "real") (s! "rw") (Some (NInt 50)) (Some (NInt 2000)) None;
  raw (s! "mix/chan/<index>/gate/threshold") (s! "real") (s! "rw") (Some (NInt 0)) (Some (NInt 1)) None;
  raw (s! "mix/chan/<index>/gate/attack") (s! "real") (s! "rw") (Some (NInt 10)) (Some (NInt 500)) None;
  raw (s! "mix/chan/<index>/comp/enable") (s! "real_bool") (s! "rw") None None None;
  raw (s! "mix/chan/<index>/comp/release") (s! "real") (s! "rw") (Some (NInt 10)) (Some (NInt 2000)) None;
  raw (s! "mix/chan/<index>/comp/threshold") (s! "real") (s! "rw") (Some (NInt (-40))) (Some (NInt 0)) None;
  raw (s! "mix/chan/<index>/comp/ratio") (s! "real") (s! "rw") (Some (NInt 1)) (Some (NInt 10)) None;
  raw (s! "mix/chan/<index>/comp/attack") (s! "real") (s! "rw") (Some (NInt 10)) (Some (NInt 100)) None;
  raw (s! "mix/chan/<index>/comp/trim") (s! "real") (s! "rw") (Some (NInt (-20))) (Some (NInt 20)) None;
  raw (s! "mix/chan/<index>/comp/peak") (s! "real_enum") (s! "rw") None None (Some (s! "RMS=0,Peak=1"));
  raw (s! "mix/chan/<index>/matrix/enable") (s! "real_bool") (s! "rw") None None None;
  raw (s! "mix/chan/<index>/matrix/solo") (s! "real_bool") (s! "rw") None None None;
  raw (s! "mix/chan/<index>/matrix/mute") (s! "real_bool") (s! "rw") None None None;
  raw (s! "mix/chan/<index>/matrix/pan") (s! "real") (s! "rw") (Some (NInt (-1))) (Some (NInt 1)) None;
  raw (s! "mix/chan/<index>/matrix/fader") (s! "real") (s! "rw") (Some (NInt 0)) (Some (NInt 4)) None
].

Definition raw_mix_main : list raw_entry := [
  raw (s! "mix/main/<index>/eq/highshelf/enable") (s! "real_bool") (s! "rw") None None None;
  raw (s! "mix/main/<index>/eq/highshelf/freq") (s! "int") (s! "rw") (Some (NInt 20)) (Some (NInt 20000)) None;
  raw (s! "mix/main/<index>/eq/highshelf/gain") (s! "real") (s! "rw") (Some (NInt (-20))) (Some (NInt 20)) None;
  raw (s! "mix/main/<index>/eq/highshelf/bw") (s! "real") (s! "rw") (Some F0_01) (Some (NInt 3)) None;
  raw (s! "mix/main/<index>/eq/highshelf/mode") (s! "real_enum") (s! "rw") None None (Some (s! "Shelf=0,Para=1"));
  raw (s! "mix/main/<index>/eq/mid1/enable") (s! "real_bool") (s! "rw") None None None;
  raw (s! "mix/main/<index>/eq/mid1/freq") (s! "int") (s! "rw") (Some (NInt 20)) (Some (NInt 20000)) None;
  raw (s! "mix/main/<index>/eq/mid1/gain") (s! "real") (s! "rw") (Some (NInt (-20))) (Some (NInt 20)) None;
  raw (s! "mix/main/<index>/eq/mid1/bw") (s! "real") (s! "rw") (Some F0_01) (Some (NInt 3)) None;
  raw (s! "mix/main/<index>/eq/mid2/enable") (s! "real_bool") (s! "rw") None None None;
  raw (s! "mix/main/<index>/eq/mid2/freq") (s! "int") (s! "rw") (Some (NInt 20)) (Some (NInt 20000)) None;
  raw (s! "mix/main/<index>/eq/mid2/gain") (s! "real") (s! "rw") (Some (NInt (-20))) (Some (NInt 20)) None;
  raw (s! "mix/main/<index>/eq/mid2/bw") (s! "real") (s! "rw") (Some F0_01) (Some (NInt 3)) None;
  raw (s! "mix/main/<index>/eq/lowshelf/enable") (s! "real_bool") (s! "rw") None None None;
  raw (s! "mix/main/<index>/eq/lowshelf/freq") (s! "int") (s! "rw") (Some (NInt 20)) (Some (NInt 20000)) None;
  raw (s! "mix/main/<index>/eq/lowshelf/gain") (s! "real") (s! "rw") (Some (NInt (-20))) (Some (NInt 20)) None;
  raw (s! "mix/main/<index>/eq/lowshelf/bw") (s! "real") (s! "rw") (Some F0_01) (Some (NInt 3)) None;
  raw (s! "mix/main/<index>/eq/lowshelf/mode") (s! "real_enum") (s! "rw") None None (Some (s! "Shelf=0,Para=1"));
  raw (s! "mix/main/<index>/leveler/enable") (s! "real_bool") (s! "rw") None None None;
  raw (s! "mix/main/<index>/leveler/makeup") (s! "real") (s! "rw") (Some (NInt 0)) (Some (NInt 100)) None;
  raw (s! "mix/main/<index>/leveler/reduction") (s! "real") (s! "rw") (Some (NInt 0)) (Some (NInt 100)) None;
  raw (s! "mix/main/<index>/leveler/limit") (s! "real_bool") (s! "rw") None None None;
  raw (s! "mix/main/<index>/matrix/enable") (s! "real_bool") (s! "rw") None None None;
  raw (s! "mix/main/<index>/matrix/mute") (s! "real_bool") (s! "rw") None None None;
  raw (s! "mix/main/<index>/matrix/fader") (s! "real") (s! "rw") (Some (NInt 0)) (Some (NInt 4)) None
].

Definition raw_mix_aux : list raw_entry := [
  raw (s! "mix/aux/<index>/eq/highshelf/enable") (s! "real_bool") (s! "rw") None None None;
  raw (s! "mix/aux/<index>/eq/highshelf/freq") (s! "int") (s! "rw") (Some (NInt 20)) (Some (NInt 20000)) None;
  raw (s! "mix/aux/<index>/eq/highshelf/gain") (s! "real") (s! "rw") (Some (NInt (-20))) (Some (NInt 20)) None;
  raw (s! "mix/aux/<index>/eq/highshelf/bw") (s! "real") (s! "rw") (Some F0_01) (Some (NInt 3)) None;
  raw (s! "mix/aux/<index>/eq/highshelf/mode") (s! "real_enum") (s! "rw") None None (Some (s! "Shelf=0,Para=1"));
  raw (s! "mix/aux/<index>/eq/mid1/enable") (s! "real_bool") (s! "rw") None None None;
  raw (s! "mix/aux/<index>/eq/mid1/freq") (s! "int") (s! "rw") (Some (NInt 20)) (Some (NInt 20000)) None;
  raw (s! "mix/aux/<index>/eq/mid1/gain") (s! "real") (s! "rw") (Some (NInt (-20))) (Some (NInt 20)) None;
  raw (s! "mix/aux/<index>/eq/mid1/bw") (s! "real") (s! "rw") (Some F0_01) (Some (NInt 3)) None;
  raw (s! "mix/aux/<index>/eq/mid2/enable") (s! "real_bool") (s! "rw") None None None;
  raw (s! "mix/aux/<index>/eq/mid2/freq") (s! "int") (s! "rw") (Some (NInt 20)) (Some (NInt 20000)) None;
  raw (s! "mix/aux/<index>/eq/mid2/gain") (s! "real") (s! "rw") (Some (NInt (-20))) (Some (NInt 20)) None;
  raw (s! "mix/aux/<index>/eq/mid2/bw") (s! "real") (s! "rw") (Some F0_01) (Some (NInt 3)) None;
  raw (s! "mix/aux/<index>/eq/lowshelf/enable") (s! "real_bool") (s! "rw") None None None;
  raw (s! "mix/aux/<index>/eq/lowshelf/freq") (s! "int") (s! "rw") (Some (NInt 20)) (Some (NInt 20000)) None;
  raw (s! "mix/aux/<index>/eq/lowshelf/gain") (s! "real") (s! "rw") (Some (NInt (-20))) (Some (NInt 20)) None;
  raw (s! "mix/aux/<index>/eq/lowshelf/bw") (s! "real") (s! "rw") (Some F0_01) (Some (NInt 3)) None;
  raw (s! "mix/aux/<index>/eq/lowshelf/mode") (s! "real_enum") (s! "rw") None None (Some (s! "Shelf=0,Para=1"));
  raw (s! "mix/aux/<index>/matrix/enable") (s! "real_bool") (s! "rw") None None None;
  raw (s! "mix/aux/<index>/matrix/prefader") (s! "real_bool") (s! "rw") None None None;
  raw (s! "mix/aux/<index>/matrix/panner") (s! "real_bool") (s! "rw") None None None;
  raw (s! "mix/aux/<index>/matrix/mute") (s! "real_bool") (s! "rw") None None None;
  raw (s! "mix/aux/<index>/matrix/fader") (s! "real") (s! "rw") (Some (NInt 0)) (Some (NInt 4)) None
].

Definition raw_mix_group : list raw_entry := [
  raw (s! "mix/group/<index>/matrix/aux/<index>/send") (s! "real") (s! "rw") (Some (NInt 0)) (Some (NInt 4)) None;
  raw (s! "mix/group/<index>/matrix/reverb/<index>/send") (s! "real") (s! "rw") (Some (NInt 0)) (Some (NInt 4)) None;
  raw (s! "mix/group/<index>/eq/highshelf/enable") (s! "real_bool") (s! "rw") None None None;
  raw (s! "mix/group/<index>/eq/highshelf/freq") (s! "int") (s! "rw") (Some (NInt 20)) (Some (NInt 20000)) None;
  raw (s! "mix/group/<index>/eq/highshelf/gain") (s! "real") (s! "rw") (Some (NInt (-20))) (Some (NInt 20)) None;
  raw (s! "mix/group/<index>/eq/highshelf/bw") (s! "real") (s! "rw") (Some F0_01) (Some (NInt 3)) None;
  raw (s! "mix/group/<index>/eq/highshelf/mode") (s! "real_enum") (s! "rw") None None (Some (s! "Shelf=0,Para=1"));
  raw (s! "mix/group/<index>/eq/mid1/enable") (s! "real_bool") (s! "rw") None None None;
  raw (s! "mix/group/<index>/eq/mid1/freq") (s! "int") (s! "rw") (Some (NInt 20)) (Some (NInt 20000)) None;
  raw (s! "mix/group/<index>/eq/mid1/gain") (s! "real") (s! "rw") (Some (NInt (-20))) (Some (NInt 20)) None;
  raw (s! "mix/group/<index>/eq/mid1/bw") (s! "real") (s! "rw") (Some F0_01) (Some (NInt 3)) None;
  raw (s! "mix/group/<index>/eq/mid2/enable") (s! "real_bool") (s! "rw") None None None;
  raw (s! "mix/group/<index>/eq/mid2/freq") (s! "int") (s! "rw") (Some (NInt 20)) (Some (NInt 20000)) None;
  raw (s! "mix/group/<index>/eq/mid2/gain") (s! "real") (s! "rw") (Some (NInt (-20))) (Some (NInt 20)) None;
  raw (s! "mix/group/<index>/eq/mid2/bw") (s! "real") (s! "rw") (Some F0_01) (Some (NInt 3)) None;
  raw (s! "mix/group/<index>/eq/lowshelf/enable") (s! "real_bool") (s! "rw") None None None;
  raw (s! "mix/group/<index>/eq/lowshelf/freq") (s! "int") (s! "rw") (Some (NInt 20)) (Some (NInt 20000)) None;
  raw (s! "mix/group/<index>/eq/lowshelf/gain") (s! "real") (s! "rw") (Some (NInt (-20))) (Some (NInt 20)) None;
  raw (s! "mix/group/<index>/eq/lowshelf/bw") (s! "real") (s! "rw") (Some F0_01) (Some (NInt 3)) None;
  raw (s! "mix/group/<index>/eq/lowshelf/mode") (s! "real_enum") (s! "rw") None None (Some (s! "Shelf=0,Para=1"));
  raw (s! "mix/group/<index>/leveler/enable") (s! "real_bool") (s! "rw") None None None;
  raw (s! "mix/group/<index>/leveler/makeup") (s! "real") (s! "rw") (Some (NInt 0)) (Some (NInt 100)) None;
  raw (s! "mix/group/<index>/leveler/reduction") (s! "real") (s! "rw") (Some (NInt 0)) (Some (NInt 100)) None;
  raw (s! "mix/group/<index>/leveler/limit") (s! "real_bool") (s! "rw") None None None;
  raw (s! "mix/group/<index>/matrix/enable") (s! "real_bool") (s! "rw") None None None;
  raw (s! "mix/group/<index>/matrix/solo") (s! "real_bool") (s! "rw") None None None;
  raw (s! "mix/group/<index>/matrix/prefader") (s! "real_bool") (s! "rw") None None None;
  raw (s! "mix/group/<index>/matrix/panner") (s! "real_bool") (s! "rw") None None None;
  raw (s! "mix/group/<index>/matrix/mute") (s! "real_bool") (s! "rw") None None None;
  raw (s! "mix/group/<index>/matrix/fader") (s! "real") (s! "rw") (Some (NInt 0)) (Some (NInt 4)) None
].

Definition raw_mix_reverb : list raw_entry := [
  raw (s! "mix/reverb/<index>/matrix/aux/<index>/send") (s! "real") (s! "rw") (Some (NInt 0)) (Some (NInt 4)) None;
  raw (s! "mix/reverb/<index>/matrix/reverb/<index>/send") (s! "real") (s! "rw") (Some (NInt 0)) (Some (NInt 4)) None;
  raw (s! "mix/reverb/<index>/eq/highshelf/enable") (s! "real_bool") (s! "rw") None None None;
  raw (s! "mix/reverb/<index>/eq/highshelf/freq") (s! "int") (s! "rw") (Some (NInt 20)) (Some (NInt 20000)) None;
  raw (s! "mix/reverb/<index>/eq/highshelf/gain") (s! "real") (s! "rw") (Some (NInt (-20))) (Some (NInt 20)) None;
  raw (s! "mix/reverb/<index>/eq/highshelf/bw") (s! "real") (s! "rw") (Some F0_01) (Some (NInt 3)) None;
  raw (s! "mix/reverb/<index>/eq/highshelf/mode") (s! "real_enum") (s! "rw") None None (Some (s! "Shelf=0,Para=1"));
  raw (s! "mix/reverb/<index>/eq/mid1/enable") (s! "real_bool") (s! "rw") None None None;
  raw (s! "mix/reverb/<index>/eq/mid1/freq") (s! "int") (s! "rw") (Some (NInt 20)) (Some (NInt 20000)) None;
  raw (s! "mix/reverb/<index>/eq/mid1/gain") (s! "real") (s! "rw") (Some (NInt (-20))) (Some (NInt 20)) None;
  raw (s! "mix/reverb/<index>/eq/mid1/bw") (s! "real") (s! "rw") (Some F0_01) (Some (NInt 3)) None;
  raw (s! "mix/reverb/<index>/eq/mid2/enable") (s! "real_bool") (s! "rw") None None None;
  raw (s! "mix/reverb/<index>/eq/mid2/freq") (s! "int") (s! "rw") (Some (NInt 20)) (Some (NInt 20000)) None;
  raw (s! "mix/reverb/<index>/eq/mid2/gain") (s! "real") (s! "rw") (Some (NInt (-20))) (Some (NInt 20)) None;
  raw (s! "mix/reverb/<index>/eq/mid2/bw") (s! "real") (s! "rw") (Some F0_01) (Some (NInt 3)) None;
  raw (s! "mix/reverb/<index>/eq/lowshelf/enable") (s! "real_bool") (s! "rw") None None None;
  raw (s! "mix/reverb/<index>/eq/lowshelf/freq") (s! "int") (s! "rw") (Some (NInt 20)) (Some (NInt 20000)) None;
  raw (s! "mix/reverb/<index>/eq/lowshelf/gain") (s! "real") (s! "rw") (Some (NInt (-20))) (Some (NInt 20)) None;
  raw (s! "mix/reverb/<index>/eq/lowshelf/bw") (s! "real") (s! "rw") (Some F0_01) (Some (NInt 3)) None;
  raw (s! "mix/reverb/<index>/eq/lowshelf/mode") (s! "real_enum") (s! "rw") None None (Some (s! "Shelf=0,Para=1"));
  raw (s! "mix/reverb/<index>/leveler/enable") (s! "real_bool") (s! "rw") None None None;
  raw (s! "mix/reverb/<index>/leveler/makeup") (s! "real") (s! "rw") (Some (NInt 0)) (Some (NInt 100)) None;
  raw (s! "mix/reverb/<index>/leveler/reduction") (s! "real") (s! "rw") (Some (NInt 0)) (Some (NInt 100)) None;
  raw (s! "mix/reverb/<index>/leveler/limit") (s! "real_bool") (s! "rw") None None None;
  raw (s! "mix/reverb/<index>/matrix/enable") (s! "real_bool") (s! "rw") None None None;
  raw (s! "mix/reverb/<index>/matrix/solo") (s! "real_bool") (s! "rw") None None None;
  raw (s! "mix/reverb/<index>/matrix/prefader") (s! "real_bool") (s! "rw") None None None;
  raw (s! "mix/reverb/<index>/matrix/panner") (s! "real_bool") (s! "rw") None None None;
  raw (s! "mix/reverb/<index>/matrix/mute") (s! "real_bool") (s! "rw") None None None;
  raw (s! "mix/reverb/<index>/matrix/fader") (s! "real") (s! "rw") (Some (NInt 0)) (Some (NInt 4)) None;
  raw (s! "mix/reverb/<index>/reverb/enable") (s! "real_bool") (s! "rw") None None None;
  raw (s! "mix/reverb/<index>/reverb/reverbtime") (s! "int") (s! "rw") (Some (NInt 100)) (Some (NInt 60000)) None;
  raw (s! "mix/reverb/<index>/reverb/hf") (s! "int") (s! "rw") (Some (NInt 500)) (Some (NInt 15000)) None;
  raw (s! "mix/reverb/<index>/reverb/mf") (s! "int") (s! "rw") (Some (NInt 500)) (Some (NInt 15000)) None;
  raw (s! "mix/reverb/<index>/reverb/predelay") (s! "int") (s! "rw") (Some (NInt 0)) (Some (NInt 500)) None;
  raw (s! "mix/reverb/<index>/reverb/mfratio") (s! "int") (s! "rw") (Some (NInt 1)) (Some (NInt 100)) None;
  raw (s! "mix/reverb/<index>/reverb/hfratio") (s! "int") (s! "rw") (Some (NInt 1)) (Some (NInt 100)) None;
  raw (s! "mix/reverb/<index>/reverb/tailspread") (s! "int") (s! "rw") (Some (NInt (-100))) (Some (NInt 100)) None;
  raw (s! "mix/reverb/<index>/reverb/mod") (s! "int") (s! "rw") (Some (NInt 0)) (Some (NInt 100)) None
].

Definition raw_mix_monitor : list raw_entry := [
  raw (s! "mix/monitor/<index>/matrix/enable") (s! "real_bool") (s! "rw") None None None;
  raw (s! "mix/monitor/<index>/matrix/mute") (s! "real_bool") (s! "rw") None None None;
  raw (s! "mix/monitor/<index>/matrix/fader") (s! "real") (s! "rw") (Some (NInt 0)) (Some (NInt 4)) None;
  raw (s! "mix/monitor/<index>/assign") (s! "int") (s! "rw") (Some (NInt (-2))) (Some (NInt 4096)) None;
  raw (s! "mix/monitor/<index>/override") (s! "int") (s! "rw") (Some (NInt (-1))) (Some (NInt 4096)) None;
  raw (s! "mix/monitor/<index>/auto") (s! "real_bool") (s! "rw") None None None
].

Definition RAW_SCHEMA : list raw_entry :=
  raw_device ++ raw_avb ++ raw_ext ++ raw_mix_ctrls ++ raw_mix_chan ++ raw_mix_main ++
  raw_mix_aux ++ raw_mix_group ++ raw_mix_reverb ++ raw_mix_monitor.

(** * Entries *)

Inductive enum_value :=
  | ENum (n : pynum)
  | EStr (s : pystr).

Record PathSchema := {
  ps_path : pystr;
  value_type : pystr;
  permission : pystr;
  minimum : option pynum;
  maximum : option pynum;
  enum_values : option (list enum_value);
  segments : list pystr
}.

Definition parse_enum_item (item : pystr) : enum_value :=
  let '(_, _, raw_value) := partition_on 61 item in
  let value := strip raw_value in
  match int10 value with
  | Some z => ENum (NInt z)
  | None => match py_float value with
            | Some f => ENum (NFloat f)
            | None => EStr value
            end
  end.

Definition _parse_enum (enum_values : option pystr) : option (list enum_value) :=
  match enum_values with
  | None => None
  | Some e => Some (parse_enum_item <$> split_on 44 e)
  end.

Definition PathSchema_of (r : raw_entry) : PathSchema :=
  {| ps_path := r_path r; value_type := r_type r; permission := r_permission r;
     minimum := r_minimum r; maximum := r_maximum r; enum_values := _parse_enum (r_enum r);
     segments := split_on 47 (r_path r) |}.

Definition SCHEMA : list PathSchema := Eval vm_compute in PathSchema_of <$> RAW_SCHEMA.

Definition SCHEMA_BY_SEGMENT_COUNT (count : nat) : list PathSchema :=
  filter (λ e, length (segments e) = count) SCHEMA.

(** * Matching *)

Definition is_name_char (c : Z) : bool :=
  ((48 <=? c) && (c <=? 57)) || ((65 <=? c) && (c <=? 90)) || ((97 <=? c) && (c <=? 122))
  || (c =? 95).

Fixpoint span_by (p : Z → bool) (s : pystr) : pystr * pystr :=
  match s with
  | [] => ([], [])
  | c :: s' => if p c then let '(a, b) := span_by p s' in (c :: a, b) else ([], s)
  end.

(** [SEGMENT_PLACEHOLDER_RE] at the start of a text: the name and what follows. *)
Definition placeholder_at (s : pystr) : option (pystr * pystr) :=
  match s with
  | 60 :: s' =>
      let '(name, rest) := span_by is_name_char s' in
      match rest with
      | 62 :: rest => if zl_eqb name [] then None else Some (name, rest)
      | _ => None
      end
  | _ => None
  end.

(** [search]: the prefix, the name and the suffix of the first placeholder. *)
Fixpoint placeholder_search (s : pystr) : option (pystr * pystr * pystr) :=
  match placeholder_at s with
  | Some (name, rest) => Some ([], name, rest)
  | None =>
      match s with
      | [] => None
      | c :: s' => match placeholder_search s' with
                   | Some (pre, name, rest) => Some (c :: pre, name, rest)
                   | None => None
                   end
      end
  end.

Definition placeholder_values (name : pystr) : option (list pystr) :=
  if zl_eqb name (s! "ibank_or_obank") then Some [s! "ibank"; s! "obank"]
  else if zl_eqb name (s! "input_or_output") then Some [s! "input"; s! "output"]
  else None.

Definition is_uid (s : pystr) : bool := (zlen s =? 16) && forallb is_hex s.

Definition _placeholder_value_matches (name requested : pystr) : bool :=
  if zl_eqb name (s! "index") then isdecimal requested else
  if zl_eqb name (s! "uid") then is_uid requested else
  match placeholder_values name with
  | Some allowed => existsb (zl_eqb requested) allowed
  | None => negb (zl_eqb requested [])
  end.

Definition ends_with (suffix s : pystr) : bool := starts_with (reverse suffix) (reverse s).

Definition _placeholder_matches (pattern requested : pystr) : bool :=
  match placeholder_at pattern with
  | Some (name, []) => _placeholder_value_matches name requested
  | _ =>
      match placeholder_search pattern with
      | None => false
      | Some (prefix, name, suffix) =>
          if negb (starts_with prefix requested) || negb (ends_with suffix requested)
          then false
          else _placeholder_value_matches name
                 (zslice (zlen prefix) (zlen requested - zlen suffix) requested)
      end
  end.

(** The loop of [_match_score]; the score is the number of equal segments and
    minus the number of placeholders. *)
Fixpoint match_segments (exact placeholders : Z) (pattern requested : list pystr)
    : option (Z * Z) :=
  match pattern, requested with
  | [], [] => Some (exact, - placeholders)
  | p :: pattern, r :: requested =>
      if zl_eqb p r then match_segments (exact + 1) placeholders pattern requested else
      if _placeholder_matches p r then match_segments exact (placeholders + 1) pattern requested
      else None
  | _, _ => None
  end.

Definition _match_score (pattern requested : list pystr) : option (Z * Z) :=
  if negb (bool_decide (length pattern = length requested)) then None
  else match_segments 0 0 pattern requested.

Definition score_gt (a b : Z * Z) : bool :=
  (b.1 <? a.1) || ((a.1 =? b.1) && (b.2 <? a.2)).

(** The loop of [find_path_schema]. *)
Fixpoint best_match (requested : list pystr) (best : option ((Z * Z) * PathSchema))
    (entries : list PathSchema) : option ((Z * Z) * PathSchema) :=
  match entries with
  | [] => best
  | e :: entries =>
      match _match_score (segments e) requested with
      | None => best_match requested best entries
      | Some score =>
          let better := match best with
                        | None => true
                        | Some (b, _) => score_gt score b
                        end in
          best_match requested (if better then Some (score, e) else best) entries
      end
  end.

Section Validation.
Context `{UrlLib}.

Definition _relative_datastore_path (path : pystr) : result (option pystr) :=
  normalized ← normalize_path path;
  Ok (if zl_eqb normalized DATASTORE then Some []
      else if negb (starts_with DATASTORE_PREFIX normalized) then None
      else Some (zdrop (zlen DATASTORE_PREFIX) normalized)).

Definition requested_segments (relative : pystr) : list pystr :=
  filter (λ s, s ≠ []) (split_on 47 relative).

Definition schema_of_segments (requested : list pystr) : option PathSchema :=
  snd <$> best_match requested None (SCHEMA_BY_SEGMENT_COUNT (length requested)).

Definition find_path_schema (path : pystr) : result (option PathSchema) :=
  relative ← _relative_datastore_path path;
  Ok (match relative with
      | None => None
      | Some r => schema_of_segments (requested_segments r)
      end).

(** * Values *)

Definition _split_type (value_type : pystr) : pystr * list pystr :=
  match split_on 95 value_type with
  | base :: modifiers => (base, modifiers)
  | [] => ([], [])
  end.

Definition has_modifier (m : pystr) (modifiers : list pystr) : bool :=
  existsb (zl_eqb m) modifiers.

(** [SEMVER_RE.fullmatch] *)
Definition is_semver (s : pystr) : bool :=
  let number (s : pystr) : option pystr :=
    let '(d, r) := span_by is_decimal_char s in if zl_eqb d [] then None else Some r in
  let dot (s : pystr) : option pystr :=
    match s with 46 :: r => Some r | _ => None end in
  let is_tag (c : Z) : bool :=
    (is_name_char c && negb (c =? 95)) || (c =? 46) || (c =? 45) in
  match (r ← number s; r ← dot r; r ← number r; r ← dot r; number r) with
  | Some [] => true
  | Some (c :: tag) => ((c =? 45) || (c =? 43)) && negb (zl_eqb tag []) && forallb is_tag tag
  | None => false
  end.

Definition invalid {A} (path : pystr) : result A := Err (DatastoreValidationError path).

Definition _validate_scalar (path : pystr) (value : json) (base_type : pystr) : result unit :=
  if zl_eqb base_type (s! "string") then
    match value with JStr _ => Ok tt | _ => invalid path end
  else if zl_eqb base_type (s! "semver") then
    match value with
    | JStr s => if is_semver s then Ok tt else invalid path
    | _ => invalid path
    end
  else if zl_eqb base_type (s! "int") then
    match value with JNum (NInt _) => Ok tt | _ => invalid path end
  else if zl_eqb base_type (s! "real") then
    match value with
    | JNum n => finite ← isfinite n; if (finite : bool) then Ok tt else invalid path
    | _ => invalid path
    end
  else invalid path.

Definition validate_part (path base_type part : pystr) : result unit :=
  if zl_eqb base_type (s! "int") then
    match int10 part with
    | None => invalid path
    | Some z => _validate_scalar path (JNum (NInt z)) base_type
    end
  else _validate_scalar path (JStr part) base_type.

Definition _validate_string_parts (path : pystr) (value : json) (base_type : pystr)
    (min_parts : Z) (max_parts : option Z) : result unit :=
  match value with
  | JStr s =>
      let parts := if zl_eqb s [] then [] else split_on 58 s in
      if (zlen parts <? min_parts)
         || match max_parts with Some m => m <? zlen parts | None => false end
      then invalid path
      else _ ← mapR (validate_part path base_type) parts; Ok tt
  | _ => invalid path
  end.

(** [value == x] for a number [x]: a boolean equals 0 or 1. *)
Definition json_eq_num (value : json) (x : pynum) : bool :=
  match value with
  | JNum n => num_eq n x
  | JBool b => num_eq (NInt (if b then 1 else 0)) x
  | _ => false
  end.

Definition json_eq_enum (value : json) (e : enum_value) : bool :=
  match e with
  | ENum n => json_eq_num value n
  | EStr s => match value with JStr v => zl_eqb v s | _ => false end
  end.

(** The end of [_validate_value]: the range. *)
Definition validate_range (path : pystr) (entry : PathSchema) (value : json) : result unit :=
  match minimum entry, maximum entry with
  | None, None => Ok tt
  | lo, hi =>
      match value with
      | JNum n =>
          if match lo with Some l => num_lt n l | None => false end then invalid path else
          if match hi with Some h => num_lt h n | None => false end then invalid path
          else Ok tt
      | JBool b =>
          let n := NInt (if b then 1 else 0) in
          if match lo with Some l => num_lt n l | None => false end then invalid path else
          if match hi with Some h => num_lt h n | None => false end then invalid path
          else Ok tt
      | _ => Err AssertionError
      end
  end.

Definition _validate_value (path : pystr) (entry : PathSchema) (value : json) : result unit :=
  let '(base_type, modifiers) := _split_type (value_type entry) in
  if has_modifier (s! "opt") modifiers && match value with JNull => true | _ => false end
  then Ok tt else
  if has_modifier (s! "list") modifiers
  then _validate_string_parts path value base_type 0 None else
  if has_modifier (s! "pair") modifiers
  then _validate_string_parts path value base_type 2 (Some 2) else
  _ ← (if has_modifier (s! "enum") modifiers then
         _ ← _validate_scalar path value base_type;
         match enum_values entry with
         | Some es => if negb (existsb (json_eq_enum value) es) then invalid path else Ok tt
         | None => Ok tt
         end
       else _validate_scalar path value base_type);
  if has_modifier (s! "bool") modifiers
     && negb (json_eq_num value (NInt 0)) && negb (json_eq_num value (NInt 1))
  then invalid path
  else validate_range path entry value.

(** * Writes *)

(** The target of one key of the body. *)
Definition write_target (base key : pystr) : result pystr :=
  if zl_eqb key (s! "value") then Ok base else
  if starts_with [47] key then normalize_path key else
  if zl_eqb base DATASTORE then normalize_path key else
  normalize_path (base ++ 47 :: key).

Definition rstrip_slashes (s : pystr) : pystr := rstrip_by (Z.eqb 47) s.

(** The checks of one written value; the result is the path to warn about. *)
Definition validate_target (allow_unknown : bool) (target : pystr) (value : json)
    : result (list pystr) :=
  entry ← find_path_schema target;
  match entry with
  | None =>
      relative ← (if allow_unknown then _relative_datastore_path target else Ok None);
      match relative with
      | Some _ => Ok [target]
      | None => invalid target
      end
  | Some e =>
      if negb (zl_eqb (permission e) (s! "rw")) then Err (DatastorePermissionError target) else
      _ ← _validate_value target e value; Ok []
  end.

(** The loop over [_iter_write_values], a generator: a target is computed when
    the one before it was checked.  The result is the list of warnings. *)
Fixpoint validate_items (allow_unknown : bool) (base : pystr) (body : list (pystr * json))
    : result (list pystr) :=
  match body with
  | [] => Ok []
  | (key, value) :: body =>
      target ← write_target base key;
      w ← validate_target allow_unknown target value;
      ws ← validate_items allow_unknown base body;
      Ok (w ++ ws)
  end.

Definition validate_datastore_write_object (path : pystr) (body : list (pystr * json))
    (allow_unknown : bool) : result (list pystr) :=
  relative ← _relative_datastore_path path;
  match relative with
  | None => normalized ← normalize_path path; invalid normalized
  | Some _ =>
      normalized ← normalize_path path;
      validate_items allow_unknown (rstrip_slashes normalized) body
  end.
End Validation.

(** * The best match *)

Definition matches (requested : list pystr) (e : PathSchema) (score : Z * Z) : Prop :=
  _match_score (segments e) requested = Some score.

(** Scores are compared lexicographically. *)
#[local] Ltac score_lia :=
  unfold score_gt in *;
  rewrite ?orb_true_iff, ?orb_false_iff, ?andb_true_iff, ?andb_false_iff in *;
  rewrite ?Z.ltb_lt, ?Z.ltb_ge, ?Z.eqb_eq, ?Z.eqb_neq in *; lia.

Lemma score_gt_irrefl s : score_gt s s = false.
Proof. unfold score_gt. by rewrite !Z.ltb_irrefl, andb_false_r. Qed.

Lemma score_not_gt_trans a b c :
  score_gt a b = false → score_gt b c = false → score_gt a c = false.
Proof. intros H1 H2. score_lia. Qed.

Lemma score_gt_asym a b : score_gt a b = true → score_gt b a = false.
Proof. intros H. score_lia. Qed.

(** What the loop over the entries keeps: the best so far beats every entry seen. *)
Lemma best_match_spec requested entries best :
  match best_match requested best entries with
  | Some (score, e) =>
      (best = Some (score, e) ∨ e ∈ entries ∧ matches requested e score) ∧
      (∀ e' score', e' ∈ entries → matches requested e' score' → score_gt score' score = false) ∧
      (∀ b x, best = Some (b, x) → score_gt b score = false)
  | None => best = None ∧ ∀ e' score', e' ∈ entries → ¬ matches requested e' score'
  end.
Proof.
  revert best. induction entries as [|e entries IH]; intros best; simpl.
  { destruct best as [[score e]|]; [|split; [done|]; intros; by apply not_elem_of_nil in H].
    split; [by left|]. split; [intros ??; by intros ?%not_elem_of_nil|].
    intros b x [= -> ->]. apply score_gt_irrefl. }
  destruct (_match_score (segments e) requested) as [sc|] eqn:Es.
  2: { specialize (IH best). destruct (best_match requested best entries) as [[score x]|].
       - destruct IH as (H1 & H2 & H3). split; [|split; [|done]].
         + destruct H1 as [?|[? ?]]; [by left|]. right. split; [by right | done].
         + intros e' s' [-> | Hin]%elem_of_cons Hm; [|eauto].
           unfold matches in Hm. congruence.
       - destruct IH as [H1 H2]. split; [done|].
         intros e' s' [-> | Hin]%elem_of_cons Hm; [|by eapply H2].
         unfold matches in Hm. congruence. }
  set (better := match best with None => true | Some (b, _) => score_gt sc b end).
  specialize (IH (if better then Some (sc, e) else best)).
  destruct (best_match requested _ entries) as [[score x]|] eqn:Eb.
  - destruct IH as (H1 & H2 & H3). split_and!.
    + destruct H1 as [H1 | [? ?]]; [|right; split; [by right | done]].
      destruct better; [|by left]. simplify_eq. right. split; [by left | done].
    + intros e' s' [-> | Hin]%elem_of_cons Hm; [|eauto].
      unfold matches in Hm. rewrite Es in Hm. injection Hm as <-.
      destruct better eqn:Ebt; [by apply (H3 sc e)|].
      subst better. destruct best as [[b y]|]; [|done].
      by apply (score_not_gt_trans sc b score); [|apply (H3 b y)].
    + intros b y ->. subst better. simpl in *. destruct (score_gt sc b) eqn:Ebt.
      * apply (score_not_gt_trans b sc score); [by apply score_gt_asym | by apply (H3 sc e)].
      * by apply (H3 b y).
  - destruct IH as [H1 _]. destruct better eqn:Ebt; [done|].
    subst best. done.
Qed.

Lemma match_score_length p r s : _match_score p r = Some s → length p = length r.
Proof. unfold _match_score. case_bool_decide; done. Qed.

Lemma schema_by_count_in n e : e ∈ SCHEMA_BY_SEGMENT_COUNT n ↔ length (segments e) = n ∧ e ∈ SCHEMA.
Proof. unfold SCHEMA_BY_SEGMENT_COUNT. by rewrite list_elem_of_filter. Qed.

(** The entry found for a path is the best one of the whole table: it
    matches the path, no entry matches with a higher score (more equal
    segments, then fewer placeholders), and none is found exactly when no entry
    matches. *)
Theorem find_path_schema_best requested :
  match schema_of_segments requested with
  | Some e =>
      e ∈ SCHEMA ∧
      ∃ score, matches requested e score ∧
        ∀ e' score', e' ∈ SCHEMA → matches requested e' score' → score_gt score' score = false
  | None => ∀ e' score', e' ∈ SCHEMA → ¬ matches requested e' score'
  end.
Proof.
  unfold schema_of_segments.
  pose proof (best_match_spec requested (SCHEMA_BY_SEGMENT_COUNT (length requested)) None) as H.
  assert (∀ e' score', e' ∈ SCHEMA → matches requested e' score' →
            e' ∈ SCHEMA_BY_SEGMENT_COUNT (length requested)) as Hin.
  { intros e' s' He Hm. apply schema_by_count_in. split; [by eapply match_score_length | done]. }
  destruct (best_match requested None _) as [[score e]|]; simpl.
  - destruct H as ([? | [He Hm]] & Hb & _); [done|]. apply schema_by_count_in in He as [_ He].
    split; [done|]. exists score. split; [done|]. eauto.
  - destruct H as [_ H]. intros e' s' He Hm. eapply H; eauto.
Qed.

(** * What an accepted write is *)

Definition is_number (v : json) (n : pynum) : Prop := v = JNum n.

(** The values of a base type. *)
Definition scalar_ok (base : pystr) (v : json) : Prop :=
  (base = s! "string" ∧ ∃ s, v = JStr s) ∨
  (base = s! "semver" ∧ ∃ s, v = JStr s ∧ is_semver s = true) ∨
  (base = s! "int" ∧ ∃ z, v = JNum (NInt z)) ∨
  (base = s! "real" ∧ ∃ n, v = JNum n ∧ isfinite n = Ok true).

(** A colon-separated text with that many parts, each of the base type. *)
Definition parts_ok (base : pystr) (lo : Z) (hi : option Z) (v : json) : Prop :=
  ∃ s, v = JStr s ∧
    let parts := if zl_eqb s [] then [] else split_on 58 s in
    lo <= zlen parts ∧ (∀ m, hi = Some m → zlen parts <= m) ∧
    Forall (λ part, if zl_eqb base (s! "int") then is_Some (int10 part)
                    else scalar_ok base (JStr part)) parts.

(** A number within the bounds of an entry. *)
Definition in_range (e : PathSchema) (v : json) : Prop :=
  (minimum e = None ∧ maximum e = None) ∨
  ∃ n, (v = JNum n ∨ ∃ b : bool, v = JBool b ∧ n = NInt (if b then 1 else 0)) ∧
    (∀ lo, minimum e = Some lo → num_lt n lo = false) ∧
    (∀ hi, maximum e = Some hi → num_lt hi n = false).

Definition value_ok (e : PathSchema) (v : json) : Prop :=
  let '(base, mods) := _split_type (value_type e) in
  (has_modifier (s! "opt") mods = true ∧ v = JNull) ∨
  ¬ (has_modifier (s! "opt") mods = true ∧ v = JNull) ∧
  if has_modifier (s! "list") mods then parts_ok base 0 None v
  else if has_modifier (s! "pair") mods then parts_ok base 2 (Some 2) v
  else scalar_ok base v ∧
       (has_modifier (s! "enum") mods = true →
        ∀ es, enum_values e = Some es → ∃ x, x ∈ es ∧ json_eq_enum v x = true) ∧
       (has_modifier (s! "bool") mods = true →
        json_eq_num v (NInt 0) = true ∨ json_eq_num v (NInt 1) = true) ∧
       in_range e v.

Lemma validate_scalar_ok p v base : _validate_scalar p v base = Ok tt ↔ scalar_ok base v.
Proof.
  unfold _validate_scalar, scalar_ok.
  destruct (zl_eqb base (s! "string")) eqn:E1.
  { apply zl_eqb_eq in E1 as ->. split.
    - destruct v; try done. eauto.
    - intros [[_ [s ->]] | [[? _] | [[? _] | [? _]]]]; done. }
  apply zl_eqb_neq in E1. destruct (zl_eqb base (s! "semver")) eqn:E2.
  { apply zl_eqb_eq in E2 as ->. split.
    - destruct v; try done. destruct (is_semver s) eqn:Es; try done. eauto 6.
    - intros [[? _] | [[_ (s & -> & Hs)] | [[? _] | [? _]]]]; try done. by rewrite Hs. }
  apply zl_eqb_neq in E2. destruct (zl_eqb base (s! "int")) eqn:E3.
  { apply zl_eqb_eq in E3 as ->. split.
    - destruct v as [| |[z|f]| | |]; try done. eauto 7.
    - intros [[? _] | [[? _] | [[_ [z ->]] | [? _]]]]; done. }
  apply zl_eqb_neq in E3. destruct (zl_eqb base (s! "real")) eqn:E4.
  { apply zl_eqb_eq in E4 as ->. split.
    - destruct v as [| |n| | |]; try done. intros H. apply result_bind_ok in H as ([] & Hf & H);
        [|done]. do 3 right. eauto.
    - intros [[? _] | [[? _] | [[? _] | [_ (n & -> & Hn)]]]]; try done. by rewrite Hn. }
  apply zl_eqb_neq in E4. split; [done|]. naive_solver.
Qed.

Lemma validate_part_ok p base part :
  validate_part p base part = Ok tt ↔
  if zl_eqb base (s! "int") then is_Some (int10 part) else scalar_ok base (JStr part).
Proof.
  unfold validate_part. destruct (zl_eqb base (s! "int")) eqn:E; [|apply validate_scalar_ok].
  apply zl_eqb_eq in E as ->. destruct (int10 part) as [z|]; [|split; [done | by intros [? ?]]].
  split; [eauto | done].
Qed.

Lemma validate_parts_ok p v base lo hi :
  _validate_string_parts p v base lo hi = Ok tt ↔ parts_ok base lo hi v.
Proof.
  unfold _validate_string_parts, parts_ok. destruct v as [| | |s| |].
  all: try (split; [done | by intros (? & ? & _)]).
  set (parts := if zl_eqb s [] then [] else split_on 58 s).
  assert (∀ b : bool, (zlen parts <? lo) || b = false ↔ lo <= zlen parts ∧ b = false) as Hlo.
  { intros b. rewrite orb_false_iff, Z.ltb_ge. done. }
  destruct (_ || _) eqn:E.
  - split; [done|]. intros (s' & [= <-] & H1 & H2 & _). fold parts in H1, H2.
    apply orb_true_iff in E as [E|E]; zbool; [lia|].
    destruct hi as [m|]; [|done]. zbool. specialize (H2 m eq_refl). lia.
  - apply Hlo in E as [E1 E2]. split.
    + intros H. apply result_bind_ok in H as (us & Hm & _). apply mapR_ok in Hm.
      exists s. split; [done|]. fold parts. split; [done|]. split.
      * intros m ->. zbool. lia.
      * clear E1 E2 Hlo. revert us Hm. generalize parts as l. intros l.
        induction l as [|x l IH]; intros us Hm; [constructor|].
        apply Forall2_cons_inv_l in Hm as (u & us' & Hu & Hm & _).
        constructor; [|by eapply IH]. destruct u. by apply (validate_part_ok p) in Hu.
    + intros (s' & [= <-] & _ & _ & Hf). fold parts in Hf.
      rewrite (mapR_map _ (λ _, tt)); [done|]. intros x Hx.
      apply validate_part_ok. rewrite List.Forall_forall in Hf. apply Hf.
      by apply list_elem_of_In.
Qed.

Lemma bounds_ok p (lo hi : option pynum) n :
  (if match lo with Some l => num_lt n l | None => false end then invalid p else
   if match hi with Some h => num_lt h n | None => false end then invalid p else Ok tt) = Ok tt
  ↔ (∀ l, lo = Some l → num_lt n l = false) ∧ (∀ h, hi = Some h → num_lt h n = false).
Proof.
  split.
  - intros H. destruct (match lo with Some _ => _ | None => _ end) eqn:E1; [done|].
    destruct (match hi with Some _ => _ | None => _ end) eqn:E2; [done|].
    split; intros x ->; done.
  - intros [H1 H2]. destruct lo as [l|]; [rewrite (H1 l eq_refl)|];
      (destruct hi as [h|]; [rewrite (H2 h eq_refl)|]); done.
Qed.

Lemma validate_range_ok p e v : validate_range p e v = Ok tt ↔ in_range e v.
Proof.
  assert (validate_range p e v = Ok tt ↔
          (minimum e = None ∧ maximum e = None) ∨
          ∃ n, (v = JNum n ∨ ∃ b : bool, v = JBool b ∧ n = NInt (if b then 1 else 0)) ∧
            (if match minimum e with Some l => num_lt n l | None => false end then invalid p else
             if match maximum e with Some h => num_lt h n | None => false end then invalid p
             else Ok tt) = Ok tt) as ->.
  { unfold validate_range. destruct (minimum e) as [lo|], (maximum e) as [hi|].
    4: { split; [by left | done]. }
    all: destruct v as [|b|n| | |];
      (split; [intros Hx; try done; right; eexists; split; eauto; exact Hx |
               intros [[? ?] | (n0 & [? | (b0 & ? & ?)] & Hx)]; simplify_eq; exact Hx || done]). }
  unfold in_range. by setoid_rewrite bounds_ok.
Qed.

Lemma validate_value_ok p e v : _validate_value p e v = Ok tt ↔ value_ok e v.
Proof.
  unfold _validate_value, value_ok. destruct (_split_type (value_type e)) as [base mods].
  destruct (has_modifier (s! "opt") mods && match v with JNull => true | _ => false end) eqn:Eo.
  { apply andb_true_iff in Eo as [Ho Hv]. split; [|done]. intros _. left. by destruct v. }
  assert (¬ (has_modifier (s! "opt") mods = true ∧ v = JNull)) as Hno.
  { intros [Ho ->]. by rewrite Ho in Eo. }
  destruct (has_modifier (s! "list") mods); [rewrite validate_parts_ok; tauto|].
  destruct (has_modifier (s! "pair") mods); [rewrite validate_parts_ok; tauto|].
  assert ((if has_modifier (s! "enum") mods then
             _ ← _validate_scalar p v base;
             match enum_values e with
             | Some es => if negb (existsb (json_eq_enum v) es) then invalid p else Ok tt
             | None => Ok tt
             end
           else _validate_scalar p v base) = Ok tt ↔
          scalar_ok base v ∧
          (has_modifier (s! "enum") mods = true →
           ∀ es, enum_values e = Some es → ∃ x, x ∈ es ∧ json_eq_enum v x = true)) as Hs.
  { destruct (has_modifier (s! "enum") mods); rewrite <- (validate_scalar_ok p); [|naive_solver].
    rewrite result_bind_ok. split.
    - intros ([] & H1 & H2). split; [done|]. intros _ es He. rewrite He in H2.
      destruct (existsb (json_eq_enum v) es) eqn:Ex; [|done].
      apply existsb_exists in Ex as (x & Hx & Hv). exists x. by rewrite list_elem_of_In.
    - intros [H1 H2]. exists tt. split; [done|]. destruct (enum_values e) as [es|]; [|done].
      destruct (H2 eq_refl es eq_refl) as (x & Hx & Hv).
      assert (existsb (json_eq_enum v) es = true) as ->; [|done].
      apply existsb_exists. exists x. by rewrite <- list_elem_of_In. }
  rewrite result_bind_ok. setoid_rewrite <- (validate_range_ok p).
  assert ((if has_modifier (s! "bool") mods && negb (json_eq_num v (NInt 0))
              && negb (json_eq_num v (NInt 1)) then invalid p else validate_range p e v) = Ok tt ↔
          (has_modifier (s! "bool") mods = true →
           json_eq_num v (NInt 0) = true ∨ json_eq_num v (NInt 1) = true) ∧
          validate_range p e v = Ok tt) as Hb.
  { destruct (has_modifier (s! "bool") mods), (json_eq_num v (NInt 0)), (json_eq_num v (NInt 1));
      cbn [andb negb]; split; try done; try tauto.
    by intros [[? | ?] _]. }
  split.
  - intros ([] & H1 & H2). apply Hs in H1. apply Hb in H2. tauto.
  - intros H1. exists tt. rewrite Hs, Hb. tauto.
Qed.

Section Writes.
Context `{UrlLib}.

(** One written value that is accepted without a warning. *)
Definition item_ok (base : pystr) (item : pystr * json) : Prop :=
  ∃ target e, write_target base item.1 = Ok target ∧ find_path_schema target = Ok (Some e) ∧
    permission e = s! "rw" ∧ value_ok e item.2.

Lemma validate_target_ok target v ws :
  validate_target false target v = Ok ws ↔
  ws = [] ∧ ∃ e, find_path_schema target = Ok (Some e) ∧ permission e = s! "rw" ∧ value_ok e v.
Proof.
  unfold validate_target. rewrite result_bind_ok. split.
  - intros ([e|] & Hf & Hv); [|done].
    destruct (zl_eqb (permission e) (s! "rw")) eqn:Ep; [|done]. apply zl_eqb_eq in Ep.
    apply result_bind_ok in Hv as ([] & Hv & [= <-]). apply validate_value_ok in Hv. eauto.
  - intros (-> & e & Hf & Hp & Hv). exists (Some e). split; [done|].
    rewrite Hp, zl_eqb_refl. cbn [negb]. apply (validate_value_ok target) in Hv. by rewrite Hv.
Qed.

Lemma validate_items_ok base body ws :
  validate_items false base body = Ok ws ↔ ws = [] ∧ Forall (item_ok base) body.
Proof.
  revert ws. induction body as [|[key v] body IH]; intros ws; cbn [validate_items].
  { split; [by intros [= <-] | by intros [-> _]]. }
  rewrite result_bind_ok, Forall_cons_iff. split.
  - intros (target & Ht & E). apply result_bind_ok in E as (w & Hw & E).
    apply result_bind_ok in E as (ws' & Hws & [= <-]).
    apply validate_target_ok in Hw as (-> & e & He). apply IH in Hws as [-> Hb].
    split; [done|]. split; [|done]. exists target, e. tauto.
  - intros (-> & (target & e & Ht & He) & Hb). exists target. split; [done|].
    rewrite (proj2 (validate_target_ok target v []) (conj eq_refl (ex_intro _ e He))).
    by rewrite (proj2 (IH []) (conj eq_refl Hb)).
Qed.

(** C9. Exactly the documented writes pass: without [allow_unknown], a body is
    accepted if and only if its path is the datastore or below it and every
    entry resolves to a schema entry that is writable and whose type, enumeration
    and range admit the value; no warning is given then. *)
Theorem validate_write_iff path body ws :
  validate_datastore_write_object path body false = Ok ws ↔
  ws = [] ∧ ∃ normalized, normalize_path path = Ok normalized ∧
    (normalized = DATASTORE ∨ ∃ r, normalized = DATASTORE_PREFIX ++ r) ∧
    Forall (item_ok (rstrip_slashes normalized)) body.
Proof.
  unfold validate_datastore_write_object, _relative_datastore_path.
  destruct (normalize_path path) as [n|e] eqn:En; cbn [mbind result_bind].
  2: { split; [done|]. by intros (_ & n & [=] & _). }
  destruct (zl_eqb n DATASTORE) eqn:E1.
  { apply zl_eqb_eq in E1 as ->. rewrite validate_items_ok. split.
    - intros [-> ?]. eauto 6.
    - intros (-> & n & [= <-] & _ & ?). done. }
  apply zl_eqb_neq in E1. destruct (starts_with DATASTORE_PREFIX n) eqn:E2; cbn [negb].
  - apply starts_with_spec in E2 as [r ->]. rewrite validate_items_ok. split.
    + intros [-> ?]. eauto 8.
    + intros (-> & n & [= <-] & _ & ?). done.
  - split; [done|]. intros (_ & n' & [= <-] & [-> | [r ->]] & _); [done|].
    by rewrite starts_with_app in E2.
Qed.
End Writes.

(** The types of the table: each base type is supported, and bounds are only on
    numbers that are neither lists nor pairs. *)
Definition entry_wf (e : PathSchema) : bool :=
  let '(base, mods) := _split_type (value_type e) in
  existsb (zl_eqb base) [s! "string"; s! "semver"; s! "int"; s! "real"]
  && (existsb (zl_eqb (permission e)) [s! "r"; s! "rw"])
  && match minimum e, maximum e with
     | None, None => true
     | Some lo, Some hi =>
         existsb (zl_eqb base) [s! "int"; s! "real"]
         && negb (has_modifier (s! "list") mods) && negb (has_modifier (s! "pair") mods)
         && num_lt lo hi
     | _, _ => false
     end.

Lemma schema_wf : forallb entry_wf SCHEMA = true.
Proof. vm_compute. reflexivity. Qed.

Lemma validate_scalar_err p v base x :
  _validate_scalar p v base = Err x →
  x = DatastoreValidationError p ∨
  x = OverflowError ∧ base = s! "real" ∧ ∃ z, v = JNum (NInt z) ∧ float_overflow <= Z.abs z.
Proof.
  unfold _validate_scalar, invalid.
  destruct (zl_eqb base (s! "string")); [destruct v; intros [= <-]; auto|].
  destruct (zl_eqb base (s! "semver"));
    [destruct v; try (intros [= <-]; auto); destruct (is_semver s); intros [= <-]; auto|].
  destruct (zl_eqb base (s! "int"));
    [destruct v as [| |[]| | |]; intros [= <-]; auto|].
  destruct (zl_eqb base (s! "real")) eqn:E; [|intros [= <-]; auto].
  apply zl_eqb_eq in E. destruct v as [| |n| | |]; try (intros [= <-]; by left).
  rewrite result_bind_err. intros [Hf | ([] & _ & Hf)]; [|done|injection Hf as <-; auto].
  right. destruct n as [z|[]]; simpl in Hf; try done.
  destruct (float_overflow <=? Z.abs z) eqn:Ez; [|done]. injection Hf as <-. zbool. eauto.
Qed.

Lemma validate_parts_err p v base lo hi x :
  _validate_string_parts p v base lo hi = Err x → x = DatastoreValidationError p.
Proof.
  unfold _validate_string_parts, invalid. destruct v; try (by intros [= <-]).
  destruct (_ || _); [by intros [= <-]|]. rewrite result_bind_err.
  intros [Hm | (? & _ & ?)]; [|done]. revert Hm.
  generalize (if zl_eqb s [] then [] else split_on 58 s) as l. intros l.
  induction l as [|part l IH]; [done|]. cbn [mapR]. rewrite result_bind_err.
  intros [Hp | (u & _ & Hp)].
  - unfold validate_part, invalid in Hp. destruct (zl_eqb base (s! "int")) eqn:Ei.
    + destruct (int10 part); [|by injection Hp as <-].
      apply validate_scalar_err in Hp as [? | (_ & -> & _)]; done.
    + apply validate_scalar_err in Hp as [? | (_ & _ & z & ? & _)]; done.
  - apply result_bind_err in Hp as [Hp | (? & _ & ?)]; [by apply IH | done].
Qed.

(** How the check of a value can fail: for every entry of the table it is
    the validation error of its path, never the assertion about bounds or an
    unsupported type; the one exception is an integer beyond the range of a
    float written to a real-valued path, where the conversion itself raises
    [OverflowError]. *)
Theorem validate_value_errors p e v x :
  e ∈ SCHEMA → _validate_value p e v = Err x →
  x = DatastoreValidationError p ∨
  x = OverflowError ∧ ∃ z, v = JNum (NInt z) ∧ float_overflow <= Z.abs z.
Proof.
  intros He. assert (entry_wf e = true) as Hwf.
  { pose proof schema_wf as Hs. rewrite forallb_forall in Hs. apply Hs.
    by apply list_elem_of_In. }
  unfold entry_wf in Hwf. unfold _validate_value.
  destruct (_split_type (value_type e)) as [base mods]. zbool.
  destruct (has_modifier (s! "opt") mods && _); [done|].
  destruct (has_modifier (s! "list") mods); [intros ?%validate_parts_err; auto|].
  destruct (has_modifier (s! "pair") mods); [intros ?%validate_parts_err; auto|].
  rewrite result_bind_err. intros [Hs | ([] & Hs & Hr)].
  - destruct (has_modifier (s! "enum") mods).
    + apply result_bind_err in Hs as [Hs | ([] & _ & Hs)].
      * apply validate_scalar_err in Hs as [? | (? & _ & ?)]; auto.
      * left. destruct (enum_values e); [|done].
        destruct (existsb (json_eq_enum v) l); [done|]. by injection Hs as <-.
    + apply validate_scalar_err in Hs as [? | (? & _ & ?)]; auto.
  - left. destruct (has_modifier (s! "bool") mods && _ && _); [by injection Hr as <-|].
    assert (scalar_ok base v) as Hsc.
    { apply (validate_scalar_ok p). destruct (has_modifier (s! "enum") mods); [|done].
      by apply result_bind_ok in Hs as ([] & ? & _). }
    unfold validate_range, invalid in Hr.
    destruct (minimum e) as [lo|], (maximum e) as [hi|]; try done. zbool.
    assert (∃ n, v = JNum n) as [n ->].
    { destruct Hsc as [[-> _] | [[-> _] | [[_ [z ->]] | [_ (n & -> & _)]]]]; eauto; done. }
    repeat (case_if_in Hr; [by injection Hr as <-|]). done.
Qed.

(** ** Concrete writes *)

Definition fader_entry : PathSchema := Eval vm_compute in
  match schema_of_segments (split_on 47 (s! "mix/chan/0/matrix/fader")) with
  | Some e => e
  | None => PathSchema_of (raw [] [] [] None None None)
  end.

Lemma fader_in_schema : fader_entry ∈ SCHEMA.
Proof. apply (list_elem_of_lookup_2 SCHEMA 107). vm_compute. reflexivity. Qed.

(** The overflow can happen: a fader set to 10^400. *)
Lemma validate_value_errors_witness :
  _validate_value (s! "/f") fader_entry (JNum (NInt (10 ^ 400))) = Err OverflowError ∧
  (OverflowError = DatastoreValidationError (s! "/f") ∨
   OverflowError = OverflowError ∧
   ∃ z, JNum (NInt (10 ^ 400)) = JNum (NInt z) ∧ float_overflow <= Z.abs z).
Proof.
  assert (_validate_value (s! "/f") fader_entry (JNum (NInt (10 ^ 400))) = Err OverflowError)
    as E by (vm_compute; reflexivity).
  split; [exact E|].
  exact (validate_value_errors _ _ _ _ fader_in_schema E).
Defined.
