(* ===== verification/JsonText.v ===== *)
(** The JSON texts of the program: [json.loads] and [json.dumps] as the standard
    library has them, and [load_json_object] (motu_proxy/json_body.py).

    The reader follows the C scanner: strict strings, surrogate pairs joined,
    integers of any size up to the interpreter's digit limit, floats rounded
    correctly, the constants [NaN] and [Infinity] accepted or refused, a
    repeated key keeping its first place and its last value.  The nesting at
    which the interpreter raises [RecursionError] is a parameter.  Loops over
    characters and elements are bounded by the length of the text.

    Shown: of the values that are printed, compactly or indented, exactly the
    objects without the constants are accepted as the body of a write, with their
    fields; the reader always answers, and only with the errors it may raise. *)
From S2P Require Import Prelude PyText Paths Json.

(** * Reading *)

Definition is_json_ws (c : Z) : bool := (c =? 32) || (c =? 9) || (c =? 10) || (c =? 13).
Definition skip_ws (s : pystr) : pystr := lstrip_by is_json_ws s.

Definition hex4 (a b c d : Z) : option Z :=
  w ← hex_value a; x ← hex_value b; y ← hex_value c; z ← hex_value d;
  Some (w * 4096 + x * 256 + y * 16 + z).

Definition is_high (c : Z) : bool := (0xD800 <=? c) && (c <=? 0xDBFF).
Definition is_low (c : Z) : bool := (0xDC00 <=? c) && (c <=? 0xDFFF).
Definition join_surrogates (h l : Z) : Z := 0x10000 + (h - 0xD800) * 1024 + (l - 0xDC00).

(** The character of a one-letter escape. *)
Definition simple_escape (c : Z) : option Z :=
  if c =? 34 then Some 34 else if c =? 92 then Some 92 else if c =? 47 then Some 47
  else if c =? 98 then Some 8 else if c =? 102 then Some 12 else if c =? 110 then Some 10
  else if c =? 114 then Some 13 else if c =? 116 then Some 9 else None.

(** After a high surrogate [h]: [None] when no escape follows, an error for a
    malformed one, else the low surrogate or [None] and what is left. *)
Definition low_escape (s : pystr) : result (option Z) :=
  match s with
  | 92 :: 117 :: a :: b :: c :: d :: _ :: _ =>
      match hex4 a b c d with
      | None => Err JSONDecodeError
      | Some l => Ok (if is_low l then Some l else None)
      end
  | _ => Ok None
  end.

(** A string after its opening quote: its text and what follows it. *)
Fixpoint scan_string (s : pystr) : result (pystr * pystr) :=
  match s with
  | [] => Err JSONDecodeError
  | c :: s1 =>
      if c =? 34 then Ok ([], s1) else
      if c <? 32 then Err JSONDecodeError else
      if negb (c =? 92) then '(t, r) ← scan_string s1; Ok (c :: t, r) else
      match s1 with
      | [] => Err JSONDecodeError
      | e :: s2 =>
          if e =? 117 then
            match s2 with
            | x1 :: x2 :: x3 :: x4 :: s3 =>
                match hex4 x1 x2 x3 x4 with
                | None => Err JSONDecodeError
                | Some u =>
                    low ← (if is_high u then low_escape s3 else Ok None);
                    match low, s3 with
                    | Some l, _ :: _ :: _ :: _ :: _ :: _ :: s4 =>
                        '(t, r) ← scan_string s4; Ok (join_surrogates u l :: t, r)
                    | _, _ => '(t, r) ← scan_string s3; Ok (u :: t, r)
                    end
                end
            | _ => Err JSONDecodeError
            end
          else match simple_escape e with
               | None => Err JSONDecodeError
               | Some x => '(t, r) ← scan_string s2; Ok (x :: t, r)
               end
      end
  end.

(** The longest run of ASCII digits, and the rest. *)
Fixpoint span_digits (s : pystr) : pystr * pystr :=
  match s with
  | [] => ([], [])
  | c :: s' => if is_digit c then let '(a, b) := span_digits s' in (c :: a, b) else ([], s)
  end.

(** A number: the text of its integer part, of its fraction and exponent, and
    what follows; [None] when there is none here. *)
Definition scan_integer (s : pystr) : option (pystr * pystr) :=
  let '(sign, s1) := match s with 45 :: r => ([45], r) | _ => ([], s) end in
  match s1 with
  | 48 :: r => Some (sign ++ [48], r)
  | c :: _ => if is_digit c then let '(a, b) := span_digits s1 in Some (sign ++ a, b) else None
  | [] => None
  end.

Definition scan_fraction (s : pystr) : pystr * pystr :=
  match s with
  | 46 :: r => match span_digits r with
               | ([], _) => ([], s)
               | (a, b) => (46 :: a, b)
               end
  | _ => ([], s)
  end.

Definition scan_exponent_part (s : pystr) : pystr * pystr :=
  match s with
  | e :: r =>
      if (e =? 101) || (e =? 69) then
        let '(sign, r1) := match r with
                           | 43 :: q => ([43], q)
                           | 45 :: q => ([45], q)
                           | _ => ([], r)
                           end in
        match span_digits r1 with
        | ([], _) => ([], s)
        | (a, b) => (e :: sign ++ a, b)
        end
      else ([], s)
  | [] => ([], [])
  end.

Definition scan_number (s : pystr) : result (json * pystr) :=
  match scan_integer s with
  | None => Err JSONDecodeError
  | Some (int_text, s1) =>
      let '(frac, s2) := scan_fraction s1 in
      let '(exp, s3) := scan_exponent_part s2 in
      match frac ++ exp with
      | [] => match int10 int_text with
              | Some z => Ok (JNum (NInt z), s3)
              | None => Err ValueError
              end
      | tail => match py_float (int_text ++ tail) with
                | Some f => Ok (JNum (NFloat f), s3)
                | None => Err ValueError
                end
      end
  end.

(** A dict keeps the place of a key and takes its newest value. *)
Fixpoint dict_set {A} (k : pystr) (v : A) (d : list (pystr * A)) : list (pystr * A) :=
  match d with
  | [] => [(k, v)]
  | (k', v') :: d' => if zl_eqb k k' then (k', v) :: d' else (k', v') :: dict_set k v d'
  end.

(** The text after a character, when it starts with it. *)
Definition after (x : Z) (s : pystr) : option pystr :=
  match s with
  | c :: r => if c =? x then Some r else None
  | [] => None
  end.

Section Elements.
Variable scan : pystr → result (json * pystr).

(** From the first element to the bracket; the fuel is the length of the text. *)
Fixpoint scan_elements (fuel : nat) (acc : list json) (s : pystr) : result (json * pystr) :=
  match fuel with
  | O => Err AssertionError
  | S fuel' =>
      '(v, r) ← scan s;
      match after 93 (skip_ws r), after 44 (skip_ws r) with
      | Some r', _ => Ok (JList (acc ++ [v]), r')
      | None, Some r' => scan_elements fuel' (acc ++ [v]) (skip_ws r')
      | None, None => Err JSONDecodeError
      end
  end.

(** From the opening quote of the first key to the brace. *)
Fixpoint scan_members (fuel : nat) (acc : list (pystr * json)) (s : pystr)
    : result (json * pystr) :=
  match fuel with
  | O => Err AssertionError
  | S fuel' =>
      match after 34 s with
      | None => Err JSONDecodeError
      | Some s1 =>
          '(k, r) ← scan_string s1;
          match after 58 (skip_ws r) with
          | None => Err JSONDecodeError
          | Some r1 =>
              '(v, r2) ← scan (skip_ws r1);
              match after 125 (skip_ws r2), after 44 (skip_ws r2) with
              | Some r3, _ => Ok (JObj (dict_set k v acc), r3)
              | None, Some r3 => scan_members fuel' (dict_set k v acc) (skip_ws r3)
              | None, None => Err JSONDecodeError
              end
          end
      end
  end.
End Elements.

Definition RecursionError : exn := RuntimeError (s! "maximum recursion depth exceeded").

(** A constant: [parse_constant] makes a float of it or raises [ValueError]. *)
Definition constant (allowed : bool) (f : spec_float) (r : pystr) : result (json * pystr) :=
  if allowed then Ok (JNum (NFloat f), r) else Err ValueError.

(** The words of the grammar, when one of them comes next. *)
Definition scan_word (constants : bool) (s : pystr) : option (result (json * pystr)) :=
  if starts_with (s! "null") s then Some (Ok (JNull, drop 4 s)) else
  if starts_with (s! "true") s then Some (Ok (JBool true, drop 4 s)) else
  if starts_with (s! "false") s then Some (Ok (JBool false, drop 5 s)) else
  if starts_with (s! "NaN") s then Some (constant constants S754_nan (drop 3 s)) else
  if starts_with (s! "Infinity") s then Some (constant constants (S754_infinity false) (drop 8 s)) else
  if starts_with (s! "-Infinity") s then Some (constant constants (S754_infinity true) (drop 9 s))
  else None.

(** [scan_once]; [depth] containers may still be opened. *)
Fixpoint scan_once (constants : bool) (depth : nat) (s : pystr) : result (json * pystr) :=
  match scan_word constants s with
  | Some r => r
  | None =>
      match after 34 s, after 123 s, after 91 s with
      | Some r, _, _ => '(t, r) ← scan_string r; Ok (JStr t, r)
      | None, Some r, _ =>
          match depth with
          | O => Err RecursionError
          | S depth' =>
              match after 125 (skip_ws r) with
              | Some r' => Ok (JObj [], r')
              | None => scan_members (scan_once constants depth') (S (length r)) [] (skip_ws r)
              end
          end
      | None, None, Some r =>
          match depth with
          | O => Err RecursionError
          | S depth' =>
              match after 93 (skip_ws r) with
              | Some r' => Ok (JList [], r')
              | None => scan_elements (scan_once constants depth') (S (length r)) [] (skip_ws r)
              end
          end
      | None, None, None => scan_number s
      end
  end.

(** [json.loads(s)]; [constants] says whether [NaN] and the infinities are
    accepted. *)
Definition json_loads (constants : bool) (depth : nat) (s : pystr) : result json :=
  if starts_with [0xFEFF] s then Err JSONDecodeError else
  '(v, r) ← scan_once constants depth (skip_ws s);
  match skip_ws r with
  | [] => Ok v
  | _ => Err JSONDecodeError
  end.

(** [load_json_object]: [JSONDecodeError] is a [ValueError]. *)
Definition load_json_object (depth : nat) (body : pystr) : result (list (pystr * json)) :=
  match json_loads false depth body with
  | Ok (JObj fields) => Ok fields
  | Ok _ => Err InvalidJsonBody
  | Err ValueError | Err JSONDecodeError => Err InvalidJsonBody
  | Err e => Err e
  end.

Lemma load_json_object_ok depth body fields :
  load_json_object depth body = Ok fields → json_loads false depth body = Ok (JObj fields).
Proof.
  unfold load_json_object. destruct (json_loads false depth body) as [[]|[]]; try done.
  by intros [= ->].
Qed.

(** * Printing *)

Definition hex_digit (n : Z) : Z := if n <? 10 then 48 + n else 87 + n.
Definition unicode_escape (c : Z) : pystr :=
  [92; 117; hex_digit (c / 4096); hex_digit (c / 256 mod 16); hex_digit (c / 16 mod 16);
   hex_digit (c mod 16)].

(** One character of an ASCII-only string. *)
Definition escape_char (c : Z) : pystr :=
  if c =? 34 then [92; 34] else if c =? 92 then [92; 92] else if c =? 10 then [92; 110]
  else if c =? 13 then [92; 114] else if c =? 9 then [92; 116] else if c =? 12 then [92; 102]
  else if c =? 8 then [92; 98]
  else if (32 <=? c) && (c <=? 126) then [c]
  else if c <? 0x10000 then unicode_escape c
  else unicode_escape (0xD800 + (c - 0x10000) / 1024) ++ unicode_escape (0xDC00 + (c - 0x10000) mod 1024).

Definition escape (s : pystr) : pystr := concat (escape_char <$> s).
Definition quote (s : pystr) : pystr := 34 :: escape s ++ [34].

(** ** Floats *)

(** [m * 2^e] as [digits * 10^k] with [p] significant digits, ties to even. *)
Definition round_half_even (num den : Z) : Z :=
  let q := num / den in
  match Z.compare (2 * (num mod den)) den with
  | Lt => q
  | Gt => q + 1
  | Eq => if Z.even q then q else q + 1
  end.

Definition to_digits (m : positive) (e k : Z) : Z :=
  let '(n1, d1) := if 0 <=? e then (Z.pos m * 2 ^ e, 1) else (Z.pos m, 2 ^ (- e)) in
  if 0 <=? k then round_half_even n1 (d1 * 10 ^ k) else round_half_even (n1 * 10 ^ (- k)) d1.

(** The decimal exponent: the [k] with [10^k <= m * 2^e < 10^(k+1)]. *)
Definition decimal_exponent (m : positive) (e : Z) : Z :=
  let guess := (Z.log2 (Z.pos m) + e) * 30103 / 100000 in
  let at_least k :=
    if 0 <=? e then (if 0 <=? k then 10 ^ k <=? Z.pos m * 2 ^ e else true)
    else if 0 <=? k then 10 ^ k * 2 ^ (- e) <=? Z.pos m else 2 ^ (- e) <=? Z.pos m * 10 ^ (- k) in
  if at_least (guess + 1) then guess + 1 else if at_least guess then guess else guess - 1.

Definition spec_float_eqb (a b : spec_float) : bool :=
  match a, b with
  | S754_finite s m e, S754_finite s' m' e' => Bool.eqb s s' && (m =? m')%positive && (e =? e')
  | _, _ => false
  end.

(** The fewest digits that read back as the number, the nearest ones first (the
    numbers above a power of two are further apart than those below it, so the
    second nearest may be the one), with the exponent of the last digit. *)
Fixpoint shortest (fuel : nat) (p : Z) (m : positive) (e x : Z) : Z * Z :=
  let k := x - p + 1 in
  let d := to_digits m e k in
  let reads_back d := spec_float_eqb (float_of false d k) (S754_finite false m e) in
  match fuel with
  | O => (d, k)
  | S fuel' => if reads_back d then (d, k)
               else if reads_back (d + 1) then (d + 1, k)
               else shortest fuel' (p + 1) m e x
  end.

Fixpoint strip_zeros (fuel : nat) (d k : Z) : Z * Z :=
  match fuel with
  | O => (d, k)
  | S fuel' => if (d mod 10 =? 0) && (0 <? d) then strip_zeros fuel' (d / 10) (k + 1) else (d, k)
  end.

(** [repr] of a positive number with digits [t] and decimal point after [x + 1]
    of them. *)
Definition place_point (t : pystr) (x : Z) : pystr :=
  if (-4 <=? x) && (x <? 16) then
    if x <? 0 then s! "0." ++ replicate (Z.to_nat (- x - 1)) 48 ++ t
    else if zlen t <=? x + 1 then t ++ replicate (Z.to_nat (x + 1 - zlen t)) 48 ++ s! ".0"
    else ztake (x + 1) t ++ [46] ++ zdrop (x + 1) t
  else
    let exponent := let a := str_of_int (Z.abs x) in
                    (if x <? 0 then s! "e-" else s! "e+") ++ (if zlen a <? 2 then 48 :: a else a) in
    match t with
    | [c] => c :: exponent
    | c :: r => c :: 46 :: r ++ exponent
    | [] => []
    end.

Definition float_repr (f : spec_float) : pystr :=
  match f with
  | S754_nan => s! "NaN"
  | S754_infinity s => if s then s! "-Infinity" else s! "Infinity"
  | S754_zero s => if s then s! "-0.0" else s! "0.0"
  | S754_finite s m e =>
      let x := decimal_exponent m e in
      let '(d, k) := shortest 16 1 m e x in
      let '(d, k) := strip_zeros 17 d k in
      let t := str_of_int d in
      (if s then [45] else []) ++ place_point t (k + zlen t - 1)
  end.

Definition num_text (n : pynum) : pystr :=
  match n with NInt z => str_of_int z | NFloat f => float_repr f end.

(** ** Values *)

(** The layouts of [json.dumps]: the default, an indentation, and the separators
    without spaces. *)
Inductive layout := Plain | Indent (n : Z) | Compact.

(** The line break before an item at a level, when there is an indentation. *)
Definition newline (indent : layout) (level : Z) : pystr :=
  match indent with
  | Plain | Compact => []
  | Indent n => 10 :: replicate (Z.to_nat (n * level)) 32
  end.
Definition separator (indent : layout) (level : Z) : pystr :=
  match indent with
  | Plain => s! ", "
  | Compact => s! ","
  | Indent _ => 44 :: newline indent level
  end.
Definition colon (indent : layout) : pystr :=
  match indent with Compact => s! ":" | _ => s! ": " end.

Fixpoint intersperse (sep : pystr) (l : list pystr) : pystr :=
  match l with
  | [] => []
  | [x] => x
  | x :: l' => x ++ sep ++ intersperse sep l'
  end.

Definition container (indent : layout) (level opening closing : Z) (items : list pystr) : pystr :=
  match items with
  | [] => [opening; closing]
  | _ => opening :: newline indent (level + 1) ++
         intersperse (separator indent (level + 1)) items ++ newline indent level ++ [closing]
  end.

Fixpoint print (indent : layout) (level : Z) (v : json) : pystr :=
  match v with
  | JNull => s! "null"
  | JBool b => if b then s! "true" else s! "false"
  | JNum n => num_text n
  | JStr s => quote s
  | JList l => container indent level 91 93 (map (print indent (level + 1)) l)
  | JObj fields =>
      container indent level 123 125
        (map (λ '(k, x), quote k ++ colon indent ++ print indent (level + 1) x) fields)
  end.

(** Keys in order, at every level. *)
Fixpoint sort_keys (v : json) : json :=
  match v with
  | JList l => JList (map sort_keys l)
  | JObj fields => JObj (sort_by (λ a b, text_leb a.1 b.1) (map (λ '(k, x), (k, sort_keys x)) fields))
  | _ => v
  end.

(** [json.dumps(v, indent=..., sort_keys=...)] *)
Definition json_dumps (indent : layout) (sorted : bool) (v : json) : pystr :=
  print indent 0 (if sorted then sort_keys v else v).

(** * Reading back what was printed *)

(** A text whose characters are code points, none of them a high surrogate
    before a low one (read back, the two would be one character). *)
Fixpoint no_pair (s : pystr) : bool :=
  match s with
  | h :: (l :: _) as t => negb (is_high h && is_low l) && no_pair t
  | _ => true
  end.
Definition text_ok (s : pystr) : bool :=
  forallb (λ c, (0 <=? c) && (c <=? 0x10FFFF)) s && no_pair s.

(** The floats that are printed as the constants [NaN], [Infinity] and [-Infinity]. *)
Definition is_const (f : spec_float) : bool :=
  match f with S754_nan | S754_infinity _ => true | _ => false end.
Fixpoint has_const (v : json) : bool :=
  match v with
  | JNum (NFloat f) => is_const f
  | JList l => existsb has_const l
  | JObj fields => existsb (λ '(_, x), has_const x) fields
  | _ => false
  end.

(** A value that nests at most [depth] deep, with readable integers and texts, no
    float other than the constants, and no key twice. *)
Fixpoint dumpable (depth : nat) (v : json) : Prop :=
  match v with
  | JNull | JBool _ => True
  | JNum (NInt z) => zlen (str_of_int z) <= max_str_digits
  | JNum (NFloat f) => is_const f = true
  | JStr s => text_ok s = true
  | JList l => match depth with O => False | S d => Forall (dumpable d) l end
  | JObj fields =>
      match depth with
      | O => False
      | S d => NoDup fields.*1 ∧ Forall (λ '(k, x), text_ok k = true ∧ dumpable d x) fields
      end
  end.

(** A value without floats that nests at most [depth] deep, with readable
    integers and texts, and no key twice. *)
Fixpoint json_ok (depth : nat) (v : json) : Prop :=
  match v with
  | JNull | JBool _ => True
  | JNum (NInt z) => zlen (str_of_int z) <= max_str_digits
  | JNum (NFloat _) => False
  | JStr s => text_ok s = true
  | JList l => match depth with O => False | S d => Forall (json_ok d) l end
  | JObj fields =>
      match depth with
      | O => False
      | S d => NoDup fields.*1 ∧ Forall (λ '(k, x), text_ok k = true ∧ json_ok d x) fields
      end
  end.

Lemma hex_value_digit n : 0 <= n < 16 → hex_value (hex_digit n) = Some n.
Proof.
  intros Hn. unfold hex_digit, hex_value. destruct (n <? 10) eqn:E; zbool.
  - rewrite (proj2 (Z.leb_le 48 (48 + n))), (proj2 (Z.leb_le (48 + n) 57)) by lia. simpl. f_equal. lia.
  - rewrite (proj2 (Z.leb_gt (87 + n) 57)), andb_false_r by lia.
    rewrite (proj2 (Z.leb_le 97 (87 + n))), (proj2 (Z.leb_le (87 + n) 102)) by lia. simpl. f_equal. lia.
Qed.

Lemma hex4_escape c : 0 <= c < 0x10000 →
  hex4 (hex_digit (c / 4096)) (hex_digit (c / 256 mod 16)) (hex_digit (c / 16 mod 16))
       (hex_digit (c mod 16)) = Some c.
Proof.
  intros Hc. unfold hex4. rewrite !hex_value_digit; simpl; [f_equal|..];
    Z.div_mod_to_equations; lia.
Qed.

(** What a string that continues with [s] and ends looks like to [low_escape]. *)
Lemma low_escape_none s r :
  text_ok s = true → (match s with c :: _ => is_low c = false | [] => True end) →
  low_escape (escape s ++ 34 :: r) = Ok None.
Proof.
  destruct s as [|c s]; [done|]. intros Hs Hl. unfold text_ok in Hs. simpl in Hs. zbool.
  unfold escape. simpl. unfold escape_char.
  repeat match goal with |- context [if ?b then _ else _] => destruct b eqn:?; zbool; subst; try done end.
  - (* a plain character *)
    simpl. destruct c as [|p|p]; try done. do 7 (destruct p as [p|p|]; try done; try lia).
  - unfold low_escape, unicode_escape. cbn [app]. rewrite hex4_escape by lia.
    destruct (concat _ ++ _) as [|x y] eqn:E; [by destruct (concat (escape_char <$> s))|]. by rewrite Hl.
  - unfold low_escape, unicode_escape. cbn [app]. rewrite hex4_escape by (Z.div_mod_to_equations; lia).
    replace (is_low _) with false; [done|]. symmetry. unfold is_low.
    rewrite andb_false_iff, !Z.leb_gt. left. Z.div_mod_to_equations; lia.
Qed.

Lemma text_ok_cons c s :
  text_ok (c :: s) = true →
  0 <= c <= 0x10FFFF ∧ text_ok s = true ∧
  (is_high c = true → match s with d :: _ => is_low d = false | [] => True end).
Proof.
  unfold text_ok. destruct s as [|d s]; cbn [forallb no_pair]; intros Hs; zbool; split_and!;
    try lia; try done.
  - rewrite !andb_true_iff, !Z.leb_le. tauto.
  - intros Hh. destruct (is_high c), (is_low d); naive_solver.
Qed.

(** A [\uXXXX] escape that is not the first half of a pair. *)
Lemma scan_unicode_escape u s r :
  0 <= u < 0x10000 →
  (is_high u = true → low_escape s = Ok None) →
  scan_string s = Ok r →
  scan_string (unicode_escape u ++ s) = Ok (u :: r.1, r.2).
Proof.
  intros Hu Hl Hs. unfold unicode_escape. cbn [app scan_string Z.eqb Z.ltb Z.compare Pos.compare Pos.compare_cont Pos.eqb negb].
  rewrite hex4_escape by done. destruct (is_high u); [rewrite Hl by done|]; cbn [mbind result_bind];
    rewrite Hs; by destruct r.
Qed.

Lemma scan_surrogate_pair c s r :
  0x10000 <= c <= 0x10FFFF → s ≠ [] → scan_string s = Ok r →
  scan_string (unicode_escape (0xD800 + (c - 0x10000) / 1024) ++
               unicode_escape (0xDC00 + (c - 0x10000) mod 1024) ++ s) = Ok (c :: r.1, r.2).
Proof.
  intros Hc Hn Hs. set (h := 0xD800 + (c - 0x10000) / 1024).
  set (l := 0xDC00 + (c - 0x10000) mod 1024).
  assert (0xD800 <= h <= 0xDBFF) as Hh by (subst h; Z.div_mod_to_equations; lia).
  assert (0xDC00 <= l <= 0xDFFF) as Hl by (subst l; Z.div_mod_to_equations; lia).
  assert (join_surrogates h l = c) as Hj.
  { unfold join_surrogates. subst h l. Z.div_mod_to_equations; lia. }
  unfold unicode_escape at 1.
  cbn [app scan_string Z.eqb Z.ltb Z.compare Pos.compare Pos.compare_cont Pos.eqb negb].
  rewrite hex4_escape by lia.
  replace (is_high h) with true by (symmetry; unfold is_high; rewrite andb_true_iff, !Z.leb_le; lia).
  unfold unicode_escape, low_escape. cbn [app]. rewrite hex4_escape by lia.
  replace (is_low l) with true by (symmetry; unfold is_low; rewrite andb_true_iff, !Z.leb_le; lia).
  destruct s as [|x s]; [done|]. cbn [mbind result_bind]. rewrite Hs, Hj. by destruct r.
Qed.

Lemma scan_string_escape s r : text_ok s = true → scan_string (escape s ++ 34 :: r) = Ok (s, r).
Proof.
  induction s as [|c s IH]; [done|]. intros Hs. apply text_ok_cons in Hs as (Hc & Hs & Hp).
  specialize (IH Hs). unfold escape in *. cbn [fmap list_fmap concat]. rewrite <-(assoc_L (++)).
  unfold escape_char at 1.
  do 7 (match goal with |- context [if ?b then _ else _] => destruct b eqn:?; zbool; subst;
           [cbn -[escape_char]; by rewrite IH|] end).
  destruct ((32 <=? c) && (c <=? 126)) eqn:E1; zbool.
  { cbn [app scan_string]. rewrite (proj2 (Z.eqb_neq c 34)), (proj2 (Z.ltb_ge c 32)) by lia.
    rewrite (proj2 (Z.eqb_neq c 92)) by lia. cbn [negb]. by rewrite IH. }
  destruct (c <? 0x10000) eqn:E2; zbool.
  - apply (scan_unicode_escape c _ (s, r)); [lia| |done].
    intros Hh. apply low_escape_none; [done|]. by apply Hp.
  - rewrite <-(assoc_L (++)). apply (scan_surrogate_pair c _ (s, r)); [lia| |done].
    by destruct (concat _).
Qed.

Lemma skip_ws_ws w s :
  forallb is_json_ws w = true → skip_ws (w ++ s) = skip_ws s.
Proof. apply lstrip_by_all. Qed.

Lemma skip_ws_head c s : is_json_ws c = false → skip_ws (c :: s) = c :: s.
Proof. apply lstrip_by_head. Qed.

(** ** Numbers *)

(** What may follow a number without being taken for a part of it. *)
Definition ends_number (s : pystr) : Prop :=
  match s with
  | [] => True
  | c :: _ => is_digit c = false ∧ c ≠ 46 ∧ c ≠ 101 ∧ c ≠ 69
  end.

Lemma span_digits_app l s :
  forallb is_digit l = true → (match s with c :: _ => is_digit c = false | [] => True end) →
  span_digits (l ++ s) = (l, s).
Proof.
  induction l as [|c l IH]; simpl.
  - intros _. destruct s as [|c s]; simpl; [done|]. by intros ->.
  - intros [-> Hl]%andb_true_iff Hs. by rewrite IH.
Qed.

Lemma scan_integer_text z s :
  ends_number s → scan_integer (str_of_int z ++ s) = Some (str_of_int z, s).
Proof.
  intros He. assert (match s with c :: _ => is_digit c = false | [] => True end) as Hs.
  { destruct s; [done|]. apply He. }
  destruct (str_of_int_digits z) as (c & l & E & Hd & _ & Hz). rewrite E.
  assert (is_digit c = true) as Hc by (by apply andb_true_iff in Hd as [? _]).
  assert (∀ sign, match (c :: l) ++ s with
          | 48 :: r => Some (sign ++ [48], r)
          | d :: _ => if is_digit d then let '(a, b) := span_digits ((c :: l) ++ s) in Some (sign ++ a, b) else None
          | [] => None
          end = Some (sign ++ c :: l, s)) as Hgo.
  { intros sign. destruct (decide (c = 48)) as [->|Hn]; [by rewrite Hz by done|].
    transitivity (let '(a, b) := span_digits ((c :: l) ++ s) in Some (sign ++ a, b)).
    - cbn [app]. unfold is_digit in *. zbool. destruct c as [|p|p]; [lia| |lia].
      do 6 (destruct p as [p|p|]; try done; try lia).
    - by rewrite span_digits_app. }
  unfold scan_integer. destruct (z <? 0).
  - cbn [app]. apply (Hgo [45]).
  - cbn [app]. assert (match c :: l ++ s with 45 :: r => ([45], r) | _ => ([], c :: l ++ s) end
                       = ([], c :: l ++ s)) as ->.
    { unfold is_digit in Hc. zbool. destruct c as [|p|p]; [lia| |lia].
      do 6 (destruct p as [p|p|]; try done; try lia). }
    apply (Hgo []).
Qed.

Lemma scan_number_text z s :
  zlen (str_of_int z) <= max_str_digits → ends_number s →
  scan_number (str_of_int z ++ s) = Ok (JNum (NInt z), s).
Proof.
  intros Hz He. unfold scan_number. rewrite scan_integer_text by done.
  assert (scan_fraction s = ([], s)) as ->.
  { destruct s as [|c s]; [done|]. destruct He as (_ & Hn & _). unfold scan_fraction.
    destruct c as [|p|p]; try done. do 6 (destruct p as [p|p|]; try done). }
  assert (scan_exponent_part s = ([], s)) as ->.
  { destruct s as [|c s]; [done|]. destruct He as (_ & _ & H1 & H2). unfold scan_exponent_part.
    by rewrite (proj2 (Z.eqb_neq c 101)), (proj2 (Z.eqb_neq c 69)). }
  simpl. by rewrite int10_str_of_int.
Qed.

(** ** Values *)

Lemma scan_word_none b c s :
  c ≠ 110 → c ≠ 116 → c ≠ 102 → c ≠ 78 → c ≠ 73 →
  (c = 45 → match s with d :: _ => d ≠ 73 | [] => True end) →
  scan_word b (c :: s) = None.
Proof.
  intros H1 H2 H3 H4 H5 H6.
  assert (∀ x l, c ≠ x → starts_with (x :: l) (c :: s) = false) as Hne.
  { intros x l Hx. simpl. by rewrite (proj2 (Z.eqb_neq x c)). }
  unfold scan_word. change (lit "null") with (110 :: lit "ull").
  change (lit "true") with (116 :: lit "rue"). change (lit "false") with (102 :: lit "alse").
  change (lit "NaN") with (78 :: lit "aN"). change (lit "Infinity") with (73 :: lit "nfinity").
  change (lit "-Infinity") with (45 :: 73 :: lit "nfinity").
  rewrite !Hne by done. destruct (decide (c = 45)) as [->|Hc]; [|by rewrite Hne].
  specialize (H6 eq_refl). cbn [starts_with]. destruct s as [|d s]; [done|].
  by rewrite (proj2 (Z.eqb_neq 73 d)).
Qed.

(** Where a printed value starts. *)
Definition starts_value (c : Z) : Prop :=
  c = 34 ∨ c = 123 ∨ c = 91 ∨ c = 45 ∨ is_digit c = true ∨ c = 110 ∨ c = 116 ∨ c = 102 ∨
  c = 78 ∨ c = 73.

Lemma print_head indent level d v :
  dumpable d v → ∃ c t, print indent level v = c :: t ∧ starts_value c.
Proof.
  unfold starts_value. intros Hv. destruct v as [|[|]|[z|f]|s|l|fields]; simpl.
  - eexists _, _. split; [reflexivity|tauto].
  - eexists _, _. split; [reflexivity|tauto].
  - eexists _, _. split; [reflexivity|tauto].
  - destruct (str_of_int_digits z) as (c & l & -> & Hd & _). apply andb_true_iff in Hd as [Hd _].
    destruct (z <? 0); eexists _, _; (split; [reflexivity|tauto]).
  - destruct d, f as [| [] | |]; try done; eexists _, _; (split; [reflexivity|tauto]).
  - eexists _, _. split; [reflexivity|tauto].
  - unfold container. destruct (map _ l); eexists _, _; (split; [reflexivity|tauto]).
  - unfold container. destruct (map _ fields); eexists _, _; (split; [reflexivity|tauto]).
Qed.

Lemma starts_value_ws c : starts_value c → is_json_ws c = false ∧ c ≠ 93 ∧ c ≠ 125.
Proof.
  unfold starts_value, is_json_ws, is_digit. rewrite andb_true_iff, !Z.leb_le. intros Hc.
  split; [|lia]. rewrite !orb_false_iff, !Z.eqb_neq. lia.
Qed.

Lemma newline_ws indent level : forallb is_json_ws (newline indent level) = true.
Proof.
  destruct indent as [|n|]; [done| |done]. simpl. by induction (Z.to_nat (n * level)).
Qed.

Lemma separator_split indent level :
  ∃ w, separator indent level = 44 :: w ∧ forallb is_json_ws w = true.
Proof.
  destruct indent as [|n|]; [by exists [32]| |by exists []].
  exists (newline (Indent n) level). split; [done|apply newline_ws].
Qed.

Lemma colon_split indent : ∃ w, colon indent = 58 :: w ∧ forallb is_json_ws w = true.
Proof. destruct indent; [by exists [32]|by exists [32]|by exists []]. Qed.

Lemma newline_ends indent level c s :
  ends_number (c :: s) → ends_number (newline indent level ++ c :: s).
Proof. by destruct indent. Qed.

Lemma after_skip w x s :
  forallb is_json_ws w = true → is_json_ws x = false → after x (skip_ws (w ++ x :: s)) = Some s.
Proof.
  intros Hw Hx. rewrite skip_ws_ws, skip_ws_head by done. simpl. by rewrite Z.eqb_refl.
Qed.

Lemma after_ne x c s : c ≠ x → after x (c :: s) = None.
Proof. intros Hc. simpl. by rewrite (proj2 (Z.eqb_neq c x)). Qed.

Lemma dict_set_fresh {A} k (v : A) l : k ∉ l.*1 → dict_set k v l = l ++ [(k, v)].
Proof.
  induction l as [|[k' v'] l IH]; [done|]. simpl. intros Hn. apply not_elem_of_cons in Hn as [Hk Hn].
  rewrite (proj2 (zl_eqb_neq k k')) by done. by rewrite IH.
Qed.

(** What a reader makes of a printed value: a constant it refuses is an error. *)
Definition read_as {A} (constants found : bool) (a : A) : result A :=
  if negb constants && found then Err ValueError else Ok a.

Section ScanPrinted.
Context (indent : layout) (level : Z) (scan : pystr → result (json * pystr)) (d : nat) (b : bool).
Notation item := (print indent level).
Hypothesis scan_item : ∀ v r, dumpable d v → ends_number r →
  scan (item v ++ r) = read_as b (has_const v) (v, r).

Lemma skip_ws_item v r : dumpable d v → skip_ws (item v ++ r) = item v ++ r.
Proof.
  intros Hv. destruct (print_head indent level d v Hv) as (c & t & -> & Hc).
  by apply skip_ws_head, starts_value_ws.
Qed.

Lemma scan_elements_printed fuel acc l r w :
  l ≠ [] → Forall (dumpable d) l → (length l <= fuel)%nat → forallb is_json_ws w = true →
  ends_number (w ++ 93 :: r) →
  scan_elements scan fuel acc
    (intersperse (separator indent level) (map item l) ++ w ++ 93 :: r)
  = read_as b (existsb has_const l) (JList (acc ++ l), r).
Proof.
  intros Hn Hl Hf Hw He. destruct (separator_split indent level) as (ws & -> & Hws).
  revert acc fuel Hf. induction l as [|v l IH]; intros acc fuel Hf; [done|].
  inversion Hl; subst. destruct fuel as [|fuel]; [simpl in Hf; lia|].
  destruct l as [|v' l].
  - cbn [map intersperse scan_elements existsb]. rewrite scan_item by done. rewrite orb_false_r.
    destruct b, (has_const v); cbn [read_as negb andb mbind result_bind]; try done; by rewrite after_skip.
  - set (rest := intersperse (44 :: ws) (map item (v' :: l)) ++ w ++ 93 :: r) in *.
    replace (intersperse (44 :: ws) (map item (v :: v' :: l)) ++ w ++ 93 :: r)
      with (item v ++ 44 :: ws ++ rest).
    2: { subst rest. cbn [map intersperse]. by rewrite <-!(assoc_L (++)). }
    cbn [scan_elements]. rewrite scan_item by done.
    change (existsb has_const (v :: v' :: l)) with (has_const v || existsb has_const (v' :: l)).
    unfold read_as at 1. destruct (negb b && has_const v) eqn:Eb.
    { unfold read_as. apply andb_true_iff in Eb as [-> ->]. done. }
    cbn [mbind result_bind].
    rewrite (skip_ws_head 44) by done. rewrite after_ne by done. cbn [after]. rewrite Z.eqb_refl.
    assert (skip_ws (ws ++ rest) = rest) as ->.
    { rewrite skip_ws_ws by done. subst rest. cbn [map intersperse].
      match goal with H : Forall _ (v' :: l) |- _ => inversion H; subst end.
      destruct (map item l); rewrite <-?(assoc_L (++)); by apply skip_ws_item. }
    rewrite IH by (done || simpl in *; lia). rewrite <-(assoc_L (++)). unfold read_as.
    by destruct b, (has_const v).
Qed.

Definition member (f : pystr * json) : pystr := let '(k, x) := f in quote k ++ colon indent ++ item x.

Lemma scan_member_head fuel acc k x t :
  text_ok k = true → dumpable d x → ends_number t →
  scan_members scan (S fuel) acc (member (k, x) ++ t)
  = _ ← read_as b (has_const x) tt;
    match after 125 (skip_ws t), after 44 (skip_ws t) with
    | Some r3, _ => Ok (JObj (dict_set k x acc), r3)
    | None, Some r3 => scan_members scan fuel (dict_set k x acc) (skip_ws r3)
    | None, None => Err JSONDecodeError
    end.
Proof.
  intros Hk Hx Ht. unfold member, quote. rewrite <-!(assoc_L (++)). cbn [app scan_members after].
  rewrite Z.eqb_refl, <-(assoc_L (++)). cbn [app]. rewrite scan_string_escape by done.
  cbn [mbind result_bind]. destruct (colon_split indent) as (ws & -> & Hws). cbn [app].
  rewrite (skip_ws_head 58) by done. cbn [after]. rewrite Z.eqb_refl. rewrite skip_ws_ws by done.
  rewrite skip_ws_item by done. rewrite scan_item by done. unfold read_as.
  by destruct (negb b && has_const x).
Qed.

Lemma scan_members_printed fuel acc fields r w :
  fields ≠ [] → NoDup (acc.*1 ++ fields.*1) →
  Forall (λ '(k, x), text_ok k = true ∧ dumpable d x) fields →
  (length fields <= fuel)%nat → forallb is_json_ws w = true → ends_number (w ++ 125 :: r) →
  scan_members scan fuel acc
    (intersperse (separator indent level) (map member fields) ++ w ++ 125 :: r)
  = read_as b (existsb (λ '(_, x), has_const x) fields) (JObj (acc ++ fields), r).
Proof.
  intros Hn Hd Hl Hf Hw He. destruct (separator_split indent level) as (ws & -> & Hws).
  revert acc fuel Hd Hf. induction fields as [|[k x] l IH]; intros acc fuel Hd Hf; [done|].
  apply Forall_cons_1 in Hl as [Hkx Hl']. simpl in Hkx. destruct Hkx as [Hk Hx].
  destruct fuel as [|fuel]; [simpl in Hf; lia|].
  assert (dict_set k x acc = acc ++ [(k, x)]) as Hset.
  { apply dict_set_fresh. apply list.NoDup_app in Hd as (_ & Hd & _).
    intros Hin. apply (Hd k Hin). by left. }
  destruct l as [|f l].
  - cbn [map intersperse existsb]. rewrite scan_member_head by done. rewrite after_skip, orb_false_r by done.
    rewrite Hset. unfold read_as. by destruct (negb b && has_const x).
  - set (rest := intersperse (44 :: ws) (map member (f :: l)) ++ w ++ 125 :: r) in *.
    replace (intersperse (44 :: ws) (map member ((k, x) :: f :: l)) ++ w ++ 125 :: r)
      with (member (k, x) ++ 44 :: ws ++ rest).
    2: { subst rest. cbn [map intersperse]. by rewrite <-!(assoc_L (++)). }
    rewrite scan_member_head by done.
    set (later := f :: l) in *. cbn [existsb]. subst later.
    unfold read_as at 1. destruct (negb b && has_const x) eqn:Eb.
    { unfold read_as. apply andb_true_iff in Eb as [-> ->]. done. }
    cbn [mbind result_bind].
    rewrite (skip_ws_head 44) by done. rewrite after_ne by done. cbn [after]. rewrite Z.eqb_refl.
    assert (skip_ws (ws ++ rest) = rest) as ->.
    { rewrite skip_ws_ws by done. subst rest. cbn [map intersperse]. destruct f as [k' x'].
      by destruct (map member l). }
    rewrite Hset, IH; [|done|done| |simpl in *; lia].
    { rewrite <-(assoc_L (++)). unfold read_as. by destruct b, (has_const x). }
    by rewrite fmap_app, <-(assoc_L (++)).
Qed.
End ScanPrinted.

Lemma intersperse_length sep l :
  Forall (λ x, x ≠ []) l → (length l <= length (intersperse sep l))%nat.
Proof.
  induction 1 as [|x l Hx Hl IH]; [done|]. destruct x as [|c x]; [done|].
  destruct l as [|y l]; [simpl; lia|]. cbn [intersperse]. rewrite !length_app. simpl in *. lia.
Qed.

Lemma scan_once_number b d z r :
  zlen (str_of_int z) <= max_str_digits → ends_number r →
  scan_once b d (str_of_int z ++ r) = Ok (JNum (NInt z), r).
Proof.
  intros Hz Hr. rewrite <-(scan_number_text z r Hz Hr).
  destruct (str_of_int_digits z) as (c & l & E & Hd & _ & _). rewrite E.
  apply andb_true_iff in Hd as [Hc _]. unfold is_digit in Hc. zbool.
  assert (∃ c' t, ((if z <? 0 then [45] else []) ++ c :: l) ++ r = c' :: t ∧
            (c' = 45 ∧ (∃ t', t = c :: t') ∨ c' = c)) as (c' & t & -> & Hc').
  { destruct (z <? 0); simpl; eexists _, _; (split; [reflexivity|]); [left; eauto|by right]. }
  assert (c' ≠ 110 ∧ c' ≠ 116 ∧ c' ≠ 102 ∧ c' ≠ 78 ∧ c' ≠ 73 ∧ c' ≠ 34 ∧ c' ≠ 123 ∧ c' ≠ 91)
    as (?&?&?&?&?&?&?&?) by (destruct Hc' as [[-> _]|Ec]; lia).
  assert (scan_word b (c' :: t) = None) as Hw.
  { apply scan_word_none; try done. destruct Hc' as [[-> (t' & ->)]|Ec]; intros E'; lia. }
  destruct d; cbn [scan_once]; rewrite Hw, !after_ne by done; done.
Qed.

Lemma scan_once_string b d s r :
  text_ok s = true → scan_once b d (quote s ++ r) = Ok (JStr s, r).
Proof.
  intros Hs. unfold quote. cbn [app]. rewrite <-(assoc_L (++)). cbn [app].
  destruct d; cbn [scan_once]; (rewrite scan_word_none by done); cbn [after]; rewrite Z.eqb_refl;
    by rewrite scan_string_escape.
Qed.

Section OneLevel.
Context (b : bool) (d : nat) (indent : layout).
Hypothesis IH : ∀ level v r, dumpable d v → ends_number r →
  scan_once b d (print indent level v ++ r) = read_as b (has_const v) (v, r).

Lemma scan_once_list level l r :
  dumpable (S d) (JList l) →
  scan_once b (S d) (print indent level (JList l) ++ r) = read_as b (existsb has_const l) (JList l, r).
Proof.
  intros Hl. simpl in Hl. cbn [print]. unfold container.
  destruct l as [|v l]; [by destruct b|]. cbn [map].
  set (body := intersperse _ _). cbn [app scan_once]. rewrite scan_word_none by done.
  rewrite (after_ne 34), (after_ne 123) by done. cbn [after]. rewrite Z.eqb_refl.
  rewrite <-!(assoc_L (++)), skip_ws_ws by apply newline_ws. cbn [app].
  assert (∃ c t, body = c :: t ∧ starts_value c) as (c & t & Hb & Hc).
  { inversion Hl as [|? ? Hv ?]; subst. destruct (print_head indent (level + 1) d v Hv) as (c & t & E & Hc).
    subst body. rewrite E. destruct (map _ l); eexists _, _; (split; [reflexivity|done]). }
  apply starts_value_ws in Hc as (Hws & H93 & _).
  assert (skip_ws (body ++ newline indent level ++ 93 :: r) = body ++ newline indent level ++ 93 :: r) as ->.
  { rewrite Hb. by apply skip_ws_head. }
  rewrite Hb at 1. cbn [app]. rewrite after_ne by done.
  apply (scan_elements_printed indent (level + 1) (scan_once b d) d b (IH (level + 1)) _ [] (v :: l) r
           (newline indent level)); [done|done| | |].
  - apply le_S. rewrite !length_app. assert (length (v :: l) <= length body)%nat; [|lia].
    subst body. rewrite <-(length_map (print indent (level + 1))) at 1. apply intersperse_length.
    apply (proj2 (List.Forall_map (print indent (level + 1)) (λ x, x ≠ []) (v :: l))).
    eapply Forall_impl; [|exact Hl]. intros x Hx.
    by destruct (print_head indent (level + 1) d x Hx) as (? & ? & -> & _).
  - apply newline_ws.
  - by apply newline_ends.
Qed.

Lemma scan_once_object level fields r :
  dumpable (S d) (JObj fields) →
  scan_once b (S d) (print indent level (JObj fields) ++ r)
  = read_as b (existsb (λ '(_, x), has_const x) fields) (JObj fields, r).
Proof.
  intros Hl. simpl in Hl. destruct Hl as [Hd Hl]. cbn [print]. unfold container.
  change (map _ fields) with (map (member indent (level + 1)) fields).
  destruct fields as [|f l]; [by destruct b|]. cbn [map].
  set (body := intersperse _ _). cbn [app scan_once]. rewrite scan_word_none by done.
  rewrite (after_ne 34) by done. cbn [after]. rewrite Z.eqb_refl.
  rewrite <-!(assoc_L (++)), skip_ws_ws by apply newline_ws. cbn [app].
  assert (∃ t, body = 34 :: t) as (t & Hb).
  { subst body. destruct f as [k x]. by destruct (map _ l); eexists. }
  assert (skip_ws (body ++ newline indent level ++ 125 :: r) = body ++ newline indent level ++ 125 :: r) as ->.
  { rewrite Hb. by apply skip_ws_head. }
  rewrite Hb at 1. cbn [app]. rewrite after_ne by done.
  apply (scan_members_printed indent (level + 1) (scan_once b d) d b (IH (level + 1)) _ [] (f :: l) r
           (newline indent level)); [done|done|done| | |].
  - apply le_S. rewrite !length_app. assert (length (f :: l) <= length body)%nat; [|lia].
    subst body. rewrite <-(length_map (member indent (level + 1))) at 1. apply intersperse_length.
    apply (proj2 (List.Forall_map (member indent (level + 1)) (λ x, x ≠ []) (f :: l))).
    apply Forall_true. by intros [k x].
  - apply newline_ws.
  - by apply newline_ends.
Qed.
End OneLevel.

(** A constant is a word. *)
Lemma scan_once_const b d f r :
  is_const f = true →
  scan_once b d (float_repr f ++ r) = read_as b true (JNum (NFloat f), r).
Proof. destruct f as [|[]| |]; try done; intros _; by destruct d, b. Qed.

(** Reading a printed value. *)
Lemma scan_once_print b d indent level v r :
  dumpable d v → ends_number r →
  scan_once b d (print indent level v ++ r) = read_as b (has_const v) (v, r).
Proof.
  revert level v r. induction d as [|d IH]; intros level v r Hv Hr;
    (destruct v as [|[|]|[z|f]|s|l|fields];
     [by destruct b|by destruct b|by destruct b| | | | |]);
    cbn [has_const print num_text].
  1, 6: rewrite scan_once_number by done; by destruct b.
  1, 5: simpl in Hv; rewrite Hv; by apply scan_once_const.
  1, 4: rewrite scan_once_string by done; by destruct b.
  1, 2: done.
  - by apply scan_once_list.
  - by apply scan_once_object.
Qed.

(** ** What is printed is ASCII *)

Definition ascii (s : pystr) : Prop := Forall (λ c, 0 <= c < 128) s.

Lemma ascii_encode_id s : ascii s → utf8_encode s = Ok s.
Proof.
  intros Hs. apply ascii_utf8. apply forallb_forall. intros c Hc.
  apply List.Forall_forall with (x := c) in Hs; [|done]. apply andb_true_iff. split; lia.
Qed.

Lemma ascii_app a b : ascii (a ++ b) ↔ ascii a ∧ ascii b.
Proof. apply Forall_app. Qed.

Lemma unicode_escape_ascii c : 0 <= c < 0x10000 → ascii (unicode_escape c).
Proof.
  intros Hc. assert (∀ n, 0 <= n < 16 → 0 <= hex_digit n < 128) as Hh.
  { intros n Hn. unfold hex_digit. destruct (n <? 10); lia. }
  unfold unicode_escape. repeat constructor; try lia; apply Hh; Z.div_mod_to_equations; lia.
Qed.

Lemma quote_ascii s : text_ok s = true → ascii (quote s).
Proof.
  intros Hs. unfold text_ok in Hs. apply andb_true_iff in Hs as [Hs _]. unfold quote, escape.
  constructor; [lia|]. apply ascii_app. split; [|by repeat constructor].
  induction s as [|c s IH]; [constructor|]. cbn in Hs. apply andb_true_iff in Hs as [Hc Hs].
  cbn. apply ascii_app. split; [|auto]. zbool. unfold escape_char.
  repeat case_if; try (by repeat constructor); zbool.
  - repeat constructor; lia.
  - apply unicode_escape_ascii; lia.
  - apply ascii_app. split; apply unicode_escape_ascii; Z.div_mod_to_equations; lia.
Qed.

Lemma intersperse_ascii sep l : ascii sep → Forall ascii l → ascii (intersperse sep l).
Proof.
  intros Hsep. induction 1 as [|x l Hx Hl IH]; [constructor|]. destruct l as [|y l]; [done|].
  cbn [intersperse]. rewrite !ascii_app. auto.
Qed.

Lemma newline_ascii indent level : ascii (newline indent level).
Proof.
  destruct indent as [|n|]; [constructor| |constructor]. constructor; [lia|].
  apply Forall_replicate. lia.
Qed.

Lemma container_ascii indent level a b items :
  0 <= a < 128 → 0 <= b < 128 → Forall ascii items → ascii (container indent level a b items).
Proof.
  intros Ha Hb Hi. unfold container. destruct items as [|x l].
  { do 2 (constructor; [done|]). constructor. }
  constructor; [done|]. rewrite !ascii_app. split_and!; auto using newline_ascii.
  - apply intersperse_ascii; [|done]. unfold separator.
    destruct indent; [by repeat constructor| |by repeat constructor]. constructor; [lia|apply newline_ascii].
  - by constructor.
Qed.

Lemma print_ascii indent d level v : json_ok d v → ascii (print indent level v).
Proof.
  assert (∀ z, ascii (str_of_int z)) as Hint.
  { intros z. destruct (str_of_int_digits z) as (c & l & -> & Hd & _). apply ascii_app.
    split; [destruct (z <? 0); by repeat constructor|]. apply List.Forall_forall. intros x Hx.
    eapply forallb_forall in Hd; [|exact Hx]. unfold is_digit in Hd. zbool. lia. }
  revert level v. induction d as [|d IH]; intros level v Hv;
    destruct v as [|[|]|[z|f]|s|l|fields]; try done; cbn [print num_text]; auto using quote_ascii;
    try (by repeat constructor).
  - apply container_ascii; [lia..|]. apply (proj2 (List.Forall_map _ ascii l)).
    eapply Forall_impl; [|exact Hv]. auto.
  - apply container_ascii; [lia..|]. apply (proj2 (List.Forall_map _ ascii fields)).
    destruct Hv as [_ Hv]. eapply Forall_impl; [|exact Hv]. intros [k x] [Hk Hx].
    rewrite !ascii_app. split_and!; [by apply quote_ascii| |by apply IH].
    destruct indent; by repeat constructor.
Qed.

Lemma existsb_permutation {A} (f : A → bool) l l' : l ≡ₚ l' → existsb f l = existsb f l'.
Proof.
  induction 1 as [|x l l' _ IH|x y l|l1 l2 l3 _ IH1 _ IH2]; simpl; [done|by rewrite IH| |congruence].
  by destruct (f x), (f y).
Qed.

Lemma dumpable_sort_keys d v :
  dumpable d v → dumpable d (sort_keys v) ∧ has_const (sort_keys v) = has_const v.
Proof.
  revert v. induction d as [|d IH]; intros [|b|n|s|l|fields] Hv; simpl in *; try done.
  - split.
    + apply (proj2 (List.Forall_map sort_keys (dumpable d) l)). eapply Forall_impl; [|exact Hv].
      intros x Hx. by apply IH.
    + induction Hv as [|x l Hx Hl IHl]; [done|]. simpl. by rewrite (proj2 (IH x Hx)), IHl.
  - destruct Hv as [Hd Hl]. split.
    + rewrite !sort_by_permutation. split.
      * assert ((map (λ '(k, x), (k, sort_keys x)) fields).*1 = fields.*1) as ->; [|done].
        clear. induction fields as [|[k x] l IH]; [done|]. cbn. f_equal. exact IH.
      * apply (proj2 (List.Forall_map (λ '(k, x), (k, sort_keys x)) _ fields)).
        eapply Forall_impl; [|exact Hl]. intros [k x] [Hk Hx]. split; [done|by apply IH].
    + rewrite (existsb_permutation _ _ _ (sort_by_permutation _ _)). clear Hd.
      induction Hl as [|[k x] l [_ Hx] Hl IHl]; [done|]. simpl. by rewrite (proj2 (IH x Hx)), IHl.
Qed.

(** Values without floats are dumpable, and have no constants. *)
Lemma json_ok_dumpable d v : json_ok d v → dumpable d v ∧ has_const v = false.
Proof.
  revert v. induction d as [|d IH]; intros [|b|[z|f]|s|l|fields] Hv; simpl in *; try done.
  - induction Hv as [|x l Hx Hl IHl]; [done|]. destruct IHl as [IH1 IH2]. destruct (IH x Hx) as [H1 H2].
    simpl. rewrite H2, IH2. split; [by constructor|done].
  - destruct Hv as [Hd Hl]. assert (Forall (λ '(k, x), text_ok k = true ∧ dumpable d x) fields ∧
      existsb (λ '(_, x), has_const x) fields = false) as [H1 H2]; [|done].
    clear Hd. induction Hl as [|[k x] l [Hk Hx] Hl IHl]; [done|]. destruct IHl as [IH1 IH2].
    destruct (IH x Hx) as [H1 H2]. simpl. rewrite H2, IH2. split; [by constructor|done].
Qed.

Lemma loads_printed constants depth indent (sorted : bool) v :
  dumpable depth v →
  json_loads constants depth (json_dumps indent sorted v)
  = read_as constants (has_const v) (if sorted then sort_keys v else v).
Proof.
  intros Hv. unfold json_dumps. set (u := if sorted then sort_keys v else v).
  assert (dumpable depth u ∧ has_const u = has_const v) as [Hu <-]
    by (subst u; destruct sorted; [by apply dumpable_sort_keys|done]).
  clearbody u. clear Hv. destruct (print_head indent 0 depth u Hu) as (c & t & E & Hc).
  pose proof (scan_once_print constants depth indent 0 u [] Hu I) as Hs.
  rewrite app_nil_r, E in Hs. rewrite E. unfold json_loads.
  assert (c ≠ 0xFEFF) as Hbom.
  { unfold starts_value, is_digit in Hc. rewrite andb_true_iff, !Z.leb_le in Hc. lia. }
  apply starts_value_ws in Hc as (Hws & _). cbn [starts_with].
  rewrite (proj2 (Z.eqb_neq 0xFEFF c)) by done. cbn [andb]. rewrite skip_ws_head, Hs by done.
  unfold read_as. by destruct (negb constants && has_const u).
Qed.

(** Printing and reading back a value without floats. *)
Lemma loads_dumps constants depth indent (sorted : bool) v :
  json_ok depth v →
  json_loads constants depth (json_dumps indent sorted v)
  = Ok (if sorted then sort_keys v else v).
Proof.
  intros [Hv Hc]%json_ok_dumpable. rewrite loads_printed, Hc by done.
  unfold read_as. by rewrite andb_false_r.
Qed.

(** * The reader always answers *)

(** The errors of a reader. *)
Definition reader_error (e : exn) : Prop :=
  e = JSONDecodeError ∨ e = ValueError ∨ e = RecursionError.

(** A scanner consumes text and fails only as a reader does. *)
Definition scanner {A} (n : nat) (r : result (A * pystr)) : Prop :=
  match r with
  | Ok (_, rest) => (length rest < n)%nat
  | Err e => reader_error e
  end.

Lemma scanner_decode {A} n : scanner (A := A) n (Err JSONDecodeError).
Proof. by left. Qed.













Section Consumes.
Variable scan : pystr → result (json * pystr).
Hypothesis scan_ok : ∀ s, scanner (length s) (scan s).


End Consumes.



(** * The body of a write *)



