(* ===== verification/IpAddr.v ===== *)
(** Whether a text is a loopback address: [ipaddress.ip_address(s).is_loopback],
    as the HTTP front end and the command line use it.

    Follows the standard library's parsers of dotted quads and of IPv6 texts
    (with [::], a dotted suffix and a scope).  Since Python 3.13 an IPv6 address
    that maps an IPv4 one is a loopback address when that one is; [mapped] says
    whether the interpreter does so. *)
From S2P Require Import Prelude PyText Paths.

(** * IPv4 *)

(** [_parse_octet] *)
Definition parse_octet (s : pystr) : option Z :=
  if zl_eqb s [] || negb (forallb is_digit s) || (3 <? zlen s)
     || (negb (zl_eqb s (s! "0")) && starts_with (s! "0") s)
  then None
  else let v := digits_number 0 s in if 255 <? v then None else Some v.

(** [IPv4Address(s)] *)
Definition ipv4_of_text (s : pystr) : option Z :=
  match split_on 46 s with
  | [a; b; c; d] =>
      x ← parse_octet a; y ← parse_octet b; z ← parse_octet c; w ← parse_octet d;
      Some (((x * 256 + y) * 256 + z) * 256 + w)
  | _ => None
  end.

Definition ipv4_is_loopback (n : Z) : bool := n / 2 ^ 24 =? 127.

(** * IPv6 *)

(** [_parse_hextet] *)
Definition parse_hextet (s : pystr) : option Z :=
  if zl_eqb s [] || negb (forallb is_hex s) || (4 <? zlen s) then None
  else foldl (λ o c, v ← o; x ← hex_value c; Some (16 * v + x)) (Some 0) s.

Fixpoint parse_hextets (acc : Z) (l : list pystr) : option Z :=
  match l with
  | [] => Some acc
  | h :: l' => v ← parse_hextet h; parse_hextets (acc * 2 ^ 16 + v) l'
  end.

(** ['%x' % n] *)
Fixpoint hex_text_fuel (fuel : nat) (n : Z) (acc : pystr) : pystr :=
  match fuel with
  | O => acc
  | S fuel' =>
      let d := n mod 16 in
      let acc := (if d <? 10 then 48 + d else 87 + d) :: acc in
      if n / 16 =? 0 then acc else hex_text_fuel fuel' (n / 16) acc
  end.
Definition hex_text (n : Z) : pystr := hex_text_fuel 8 n [].

(** A dotted suffix becomes two groups. *)
Definition expand_suffix (parts : list pystr) : option (list pystr) :=
  match list.last parts with
  | Some t =>
      if contains [46] t then
        n ← ipv4_of_text t;
        Some (take (length parts - 1) parts ++ [hex_text (n / 2 ^ 16); hex_text (n mod 2 ^ 16)])
      else Some parts
  | None => Some parts
  end.

(** The indices of empty groups, the ends aside. *)
Definition inner_empty (parts : list pystr) : list nat :=
  filter (λ i, parts !! i = Some []) (seq 1 (length parts - 2)).

(** [_ip_int_from_string] *)
Definition ipv6_int (s : pystr) : option Z :=
  let parts := split_on 58 s in
  if zl_eqb s [] || (zlen parts <? 3) then None else
  parts ← expand_suffix parts;
  let n := length parts in
  if (9 <? n)%nat then None else
  let first_empty := bool_decide (head parts = Some []) in
  let last_empty := bool_decide (list.last parts = Some []) in
  match inner_empty parts with
  | [] =>
      if negb (n =? 8)%nat || first_empty || last_empty then None else parse_hextets 0 parts
  | [i] =>
      let hi := i in
      let lo := (n - i - 1)%nat in
      if (first_empty && negb (hi - 1 =? 0)%nat) || (last_empty && negb (lo - 1 =? 0)%nat) then None else
      let hi := if first_empty then 0%nat else hi in
      let lo := if last_empty then 0%nat else lo in
      if (8 <? hi + lo + 1)%nat then None else
      v ← parse_hextets 0 (take hi parts);
      parse_hextets (v * 2 ^ (16 * (8 - Z.of_nat hi - Z.of_nat lo))) (drop (n - lo) parts)
  | _ => None
  end.

(** [IPv6Address(s)]: the scope is cut off. *)
Definition ipv6_of_text (s : pystr) : option Z :=
  let '(addr, found, scope) := partition_on 37 s in
  if found && (zl_eqb scope [] || contains [37] scope) then None else ipv6_int addr.

Definition ipv6_is_loopback (mapped : bool) (n : Z) : bool :=
  if mapped && (n / 2 ^ 32 =? 0xFFFF) then ipv4_is_loopback (n mod 2 ^ 32) else n =? 1.

(** [ip_address(s).is_loopback], [false] for the [ValueError]. *)
Definition ip_is_loopback (mapped : bool) (s : pystr) : bool :=
  if contains [47] s then false else
  match ipv4_of_text s with
  | Some n => ipv4_is_loopback n
  | None => match ipv6_of_text s with
            | Some n => ipv6_is_loopback mapped n
            | None => false
            end
  end.

Example loopback_texts :
  map (λ t, ip_is_loopback true (lit t))
    ["127.0.0.1"; "127.255.0.9"; "::1"; "0:0:0:0:0:0:0:1"; "::ffff:127.0.0.1"; "::1%lo";
     "::0.0.0.1"; "1::"; "localhost"; "127.1"; "127.0.0.01"; "128.0.0.1"; "::"; "::1%"; "1:::1";
     ":1::1"; "1:2:3:4:5:6:7:8:9"; "127.0.0.1/8"]%string
  = replicate 7 true ++ replicate 11 false.
Proof. vm_compute. reflexivity. Qed.

(** * The dotted quads *)

Definition dotted (a b c d : Z) : pystr :=
  str_of_int a ++ 46 :: str_of_int b ++ 46 :: str_of_int c ++ 46 :: str_of_int d.

Lemma split_on_app c s t :
  forallb (λ x, negb (x =? c)) s = true → split_on c (s ++ c :: t) = s :: split_on c t.
Proof.
  induction s as [|x s IH]; simpl; [by rewrite Z.eqb_refl|]. intros [Hx Hs]%andb_true_iff.
  apply negb_true_iff in Hx. by rewrite Hx, IH.
Qed.

Lemma split_on_none c s : forallb (λ x, negb (x =? c)) s = true → split_on c s = [s].
Proof.
  induction s as [|x s IH]; simpl; [done|]. intros [Hx Hs]%andb_true_iff.
  apply negb_true_iff in Hx. by rewrite Hx, IH.
Qed.
