(* ===== verification/Http.v ===== *)
(** The HTTP front end (motu_proxy/http_server.py): query fields, the guards of a
    write, the dispatch of a request to the datastore, and the handler with its
    mapping of errors to statuses and the responses it sends.

    The two functions behind the dispatcher ([run_get], [run_post]), the log and
    the status page are the class [Backend] over a world [W]; the socket is the
    function that reads a number of bytes and the one that sends a response, and
    both may raise.  [HttpLib] is what depends on the interpreter. *)
From S2P Require Import Prelude PyText Protocol Parser Walk Paths Json Schema JsonText IpAddr.

Class HttpLib := {
  http_url :: UrlLib;
  http_python :: Interpreter
}.

(** * Query strings *)

(** [unquote] with strict errors. *)
Fixpoint unquote_runs_strict (run s : pystr) : result pystr :=
  match s with
  | [] => utf8_decode (unquote_to_bytes (reverse run))
  | c :: s' =>
      if c <? 128 then unquote_runs_strict (c :: run) s'
      else a ← utf8_decode (unquote_to_bytes (reverse run));
           b ← unquote_runs_strict [] s'; Ok (a ++ c :: b)
  end.
Definition unquote_strict (s : pystr) : result pystr :=
  if contains [37] s then unquote_runs_strict [] s else Ok s.

Definition unquote_errors (strict : bool) (s : pystr) : result pystr :=
  if strict then unquote_strict s else Ok (unquote s).

(** One [name=value] of a query; the missing value is empty. *)
Definition parse_field (strict : bool) (nv : pystr) : result (pystr * pystr) :=
  let '(n, _, v) := partition_on 61 nv in
  let plus := λ s, replace [43] [32] s in
  n ← unquote_errors strict (plus n); v ← unquote_errors strict (plus v); Ok (n, v).

(** [parse_qsl(qs, keep_blank_values=True)] *)
Definition parse_qsl (strict : bool) (qs : pystr) : result (list (pystr * pystr)) :=
  mapR (parse_field strict) (filter (λ nv, nv ≠ []) (split_on 38 qs)).

(** [parse_qs(...).get(name)]; an absent name is the empty list. *)
Definition values_of (name : pystr) (fields : list (pystr * pystr)) : list pystr :=
  snd <$> filter (λ f, f.1 = name) fields.
Definition parse_qs_get (strict : bool) (qs name : pystr) : result (list pystr) :=
  fields ← parse_qsl strict qs; Ok (values_of name fields).

Definition MAX_CLIENT_ID : Z := 0xFFFFFFFF.

Definition validate_client_query_value (value : pystr) : result pystr :=
  let value := strip value in
  if negb (isdecimal value) then Err BadRequest else
  match int10 value with
  | None => Err ValueError
  | Some client => if MAX_CLIENT_ID <? client then Err BadRequest else Ok (str_of_int client)
  end.

Section Http.
Context `{HttpLib}.

Definition parse_client_query (request_path : pystr) : result (option pystr) :=
  url ← urlparse request_path;
  values ← parse_qs_get false (url_query url) (s! "client");
  match values with
  | [] => Ok None
  | v :: _ => c ← validate_client_query_value v; Ok (Some c)
  end.

(** The loop of [parse_get_query_fields]. *)
Fixpoint check_fields (client : option pystr) (pairs : list (pystr * pystr))
    : result (list (pystr * pystr) * option pystr) :=
  match pairs with
  | [] => Ok ([], client)
  | (name, value) :: pairs =>
      if zl_eqb name [] then Err BadRequest else
      if zl_eqb name (s! "client") then
        value ← validate_client_query_value value;
        match client with
        | Some _ => Err BadRequest
        | None => '(fields, c) ← check_fields (Some value) pairs; Ok ((name, value) :: fields, c)
        end
      else '(fields, c) ← check_fields client pairs; Ok ((name, value) :: fields, c)
  end.

Definition unicode_bad_request {A} (r : result A) : result A :=
  match r with Err UnicodeDecodeError => Err BadRequest | _ => r end.

Definition parse_get_query_fields (request_path : pystr)
    : result (list (pystr * pystr) * option pystr) :=
  pairs ← unicode_bad_request (url ← urlparse request_path; parse_qsl true (url_query url));
  check_fields None pairs.

(** * Bodies *)

Definition parse_write_body (raw content_type : pystr) : result pystr :=
  if contains (s! "application/x-www-form-urlencoded") content_type
     || starts_with (s! "json=") raw then
    values ← unicode_bad_request (parse_qs_get true raw (s! "json"));
    match values with
    | v :: _ => Ok v
    | [] => Ok raw
    end
  else Ok raw.

(** * The guards of a write *)

(** [value or ""] and [not value] of an optional header. *)
Definition header_text (h : option pystr) : pystr := match h with Some v => v | None => [] end.

(** The text after the last occurrence of a character, or all of it. *)
Definition after_last (c : Z) (s : pystr) : pystr :=
  match reverse (split_on c s) with last :: _ => last | [] => s end.

(** [parsed.hostname]; the absent one is the empty text. *)
Definition hostname (net : pystr) : pystr :=
  let hostinfo := after_last 64 net in
  let '(_, open, bracketed) := partition_on 91 hostinfo in
  let '(name, _, _) := if open : bool then partition_on 93 bracketed
                       else partition_on 58 hostinfo in
  name.

Definition _host_name (host : option pystr) : result pystr :=
  if zl_eqb (header_text host) [] then Ok [] else
  parsed ← urlparse_with false (s! "//" ++ header_text host);
  Ok (lower (hostname (netloc parsed))).

Definition _is_loopback_host (host : option pystr) : result bool :=
  name ← _host_name host;
  Ok (zl_eqb name (s! "localhost") || ip_is_loopback mapped_loopback name).

Definition _origin_matches_host (origin host : pystr) : result bool :=
  parsed ← urlparse origin;
  Ok (zl_eqb (scheme parsed) (s! "http") && negb (zl_eqb (netloc parsed) [])
      && zl_eqb (lower (netloc parsed)) (lower host)).

Definition is_get (method : pystr) : bool := zl_eqb method (s! "GET").

Definition validate_write_host (method : pystr) (allow_writes : bool) (host : option pystr)
    (allow_remote_writes : bool) : result unit :=
  if is_get method || negb allow_writes || allow_remote_writes then Ok tt else
  loopback ← _is_loopback_host host;
  if negb loopback then Err HostNotAllowed else Ok tt.

Definition validate_write_origin (method : pystr) (allow_writes : bool)
    (origin host : option pystr) : result unit :=
  if is_get method || negb allow_writes || zl_eqb (header_text origin) [] then Ok tt else
  if zl_eqb (header_text origin) (s! "null") then Err CrossOriginWrite else
  if zl_eqb (header_text host) [] then Err CrossOriginWrite else
  same ← _origin_matches_host (header_text origin) (header_text host);
  if negb same then Err CrossOriginWrite else Ok tt.

(** [token.encode("utf-8", "surrogateescape")]: an escaped byte gives itself
    back, another lone surrogate raises. *)
Definition is_escaped_byte (c : Z) : bool := (0xDC80 <=? c) && (c <=? 0xDCFF).
Definition _token_bytes (token : pystr) : result bytes :=
  if existsb (λ c, is_surrogate c && negb (is_escaped_byte c)) token
  then Err UnicodeEncodeError
  else Ok (concat ((λ c, if is_escaped_byte c then [c - 0xDC00] else utf8_bytes c) <$> token)).

Definition validate_write_token (method : pystr) (allow_writes : bool)
    (expected_token request_token : option pystr) : result unit :=
  match expected_token with
  | None => Ok tt
  | Some expected =>
      if is_get method || negb allow_writes then Ok tt else
      if zl_eqb (header_text request_token) [] then Err WriteTokenRequired else
      a ← _token_bytes expected; b ← _token_bytes (header_text request_token);
      if negb (zl_eqb a b) then Err WriteTokenRequired else Ok tt
  end.
End Http.

(** * Dispatch *)

Class Backend (W : Type) := {
  run_get : pystr → option pystr → option pystr → list (pystr * pystr) → M W DatastorePayload;
  run_post : pystr → bytes → option pystr → M W DatastorePayload;
  log_write : pystr → pystr → bytes → W → W;
  (** The body of the status page, when there is one. *)
  status_provider : option (M W bytes)
}.

Record DispatchResult := {
  d_response : bytes;
  d_path : pystr;
  d_etag : option pystr;
  d_status : Z;
  d_content_type : option pystr
}.

Record dispatcher := {
  allow_writes : bool;
  write_token : option pystr;
  allow_remote_writes : bool;
  validate_writes : bool;
  allow_unknown_writes : bool
}.

Definition STATUS_PATH : pystr := s! "/__motu_proxy/status".

Section Dispatch.
Context `{HttpLib} {W : Type} `{Backend W}.

(** A write after the common start: what has to hold, and the body to send. *)
Definition check_write (d : dispatcher) (method path : pystr) (request_path raw_body
    content_type : pystr) (origin host request_token : option pystr)
    : result (bytes * option pystr) :=
  client ← parse_client_query request_path;
  if negb (allow_writes d) then Err WritesDisabled else
  _ ← validate_write_host method (allow_writes d) host (allow_remote_writes d);
  _ ← validate_write_origin method (allow_writes d) origin host;
  _ ← validate_write_token method (allow_writes d) (write_token d) request_token;
  write_body ← parse_write_body raw_body content_type;
  write_object ← load_json_object json_depth write_body;
  write_body_bytes ← utf8_encode write_body;
  _ ← (if validate_writes d
       then validate_datastore_write_object path write_object (allow_unknown_writes d)
       else Ok []);
  _ ← validate_post_frame_size path write_body_bytes (s! "NREK") (QStr <$> client);
  Ok (write_body_bytes, client).

Definition dispatch_datastore_request (d : dispatcher) (method request_path raw_body
    content_type : pystr) (origin host request_token if_none_match : option pystr)
    : M W DispatchResult :=
  request_url ← mlift (urlparse request_path);
  match (if is_get method && zl_eqb (url_path request_url) STATUS_PATH
         then status_provider else None) with
  | Some provider =>
      body ← provider;
      mret {| d_response := body; d_path := STATUS_PATH; d_etag := None; d_status := 200;
              d_content_type := Some (s! "application/json") |}
  | None =>
      path ← mlift (normalize_path (url_path request_url));
      if is_get method then
        '(query_fields, client) ← mlift (parse_get_query_fields request_path);
        payload ← run_get path client (strip <$> if_none_match) query_fields;
        mret {| d_response := body payload; d_path := path; d_etag := etag payload;
                d_status := if not_modified payload then 304 else 200;
                d_content_type := Parser.content_type payload |}
      else
        '(write_body_bytes, client) ← mlift (check_write d method path request_path raw_body
                                       content_type origin host request_token);
        _ ← mputs (log_write method path write_body_bytes);
        payload ← run_post path write_body_bytes client;
        mret {| d_response := body payload; d_path := path; d_etag := etag payload;
                d_status := 200; d_content_type := Parser.content_type payload |}
  end.

(** A lock, and the one that does nothing: [serve] makes the dispatcher with
    [serialize_dispatch=False], the coordinator arbitrates access. *)
Record lock := {
  lock_enter : M W unit;
  lock_exit : M W unit
}.
Definition _NullLock : lock := {| lock_enter := mret tt; lock_exit := mret tt |}.

(** [DatastoreDispatcher.dispatch] *)
Definition dispatch (l : lock) (d : dispatcher) (method request_path raw_body content_type : pystr)
    (origin host request_token if_none_match : option pystr) : M W DispatchResult :=
  _ ← lock_enter l;
  mfinally
    (dispatch_datastore_request d method request_path raw_body content_type origin host request_token
       if_none_match)
    (lock_exit l).

Lemma dispatch_unlocked d method request_path raw_body content_type origin host token inm w :
  dispatch _NullLock d method request_path raw_body content_type origin host token inm w
  = dispatch_datastore_request d method request_path raw_body content_type origin host token inm w.
Proof.
  unfold dispatch, mfinally. cbn. unfold mbind, M_bind, mret, M_ret.
  by destruct (dispatch_datastore_request _ _ _ _ _ _ _ _ _ w) as [[] ?].
Qed.
End Dispatch.

(** * The handler *)

Record headers := {
  h_origin : option pystr;
  h_host : option pystr;
  h_token : option pystr;
  h_authorization : option pystr;
  h_content_type : option pystr;
  h_if_none_match : option pystr;
  h_transfer_encoding : option pystr;
  h_content_length : option pystr
}.

Definition read_write_token (h : headers) : option pystr :=
  if negb (zl_eqb (header_text (h_token h)) []) then Some (strip (header_text (h_token h))) else
  let '(scheme, _, value) := partition_on 32 (header_text (h_authorization h)) in
  if zl_eqb (lower scheme) (s! "bearer") && negb (zl_eqb value [])
  then Some (strip value) else None.

(** [close_get_connection_if_body_announced]: the outcome, and whether the
    connection is closed after the response. *)
Definition close_get_connection_if_body_announced (h : headers) : result unit * bool :=
  if negb (zl_eqb (header_text (h_transfer_encoding h)) []) then (Ok tt, true) else
  match h_content_length h with
  | None => (Ok tt, false)
  | Some text =>
      match int10 (if zl_eqb text [] then s! "0" else text) with
      | None => (Err BadRequest, true)
      | Some length =>
          if length <? 0 then (Err BadRequest, true) else (Ok tt, 0 <? length)
      end
  end.

Section Handler.
Context `{HttpLib} {W : Type} `{Backend W}.
(** [self.rfile.read(length)] under the body timeout. *)
Variable read_body : Z → M W bytes.

Definition _read_exact_body_bytes (length : Z) : M W bytes :=
  if length =? 0 then mret [] else
  mcatch (read_body length)
    (λ e, match e with TimeoutError => mraise RequestBodyTimeout | _ => mraise e end).

Definition read_raw_body (max_write_body_bytes : Z) (h : headers) : M W pystr :=
  let transfer_encoding := header_text (h_transfer_encoding h) in
  if negb (zl_eqb transfer_encoding []) && negb (zl_eqb (lower transfer_encoding) (s! "identity"))
  then mraise BadRequest else
  let text := header_text (h_content_length h) in
  match int10 (if zl_eqb text [] then s! "0" else text) with
  | None => mraise BadRequest
  | Some length =>
      if length <? 0 then mraise BadRequest else
      if max_write_body_bytes <? length then mraise RequestBodyTooLarge else
      raw ← _read_exact_body_bytes length;
      if negb (zlen raw =? length) then mraise BadRequest else
      mlift (match utf8_decode raw with Err UnicodeDecodeError => Err BadRequest | r => r end)
  end.

Definition validate_write_headers (d : dispatcher) (method : pystr)
    (origin host request_token : option pystr) : result unit :=
  if is_get method then Ok tt else
  if negb (allow_writes d) then Err WritesDisabled else
  _ ← validate_write_host method (allow_writes d) host (allow_remote_writes d);
  _ ← validate_write_origin method (allow_writes d) origin host;
  validate_write_token method (allow_writes d) (write_token d) request_token.

(** The [except] clause that catches an exception: its status, and the public
    message of a failure of the backend. *)
Definition error_clause (e : exn) : Z * option pystr :=
  match e with
  | WritesDisabled | CrossOriginWrite | HostNotAllowed | WriteTokenRequired
  | DatastorePermissionError _ => (403, None)
  | DatastoreValidationError _ => (422, None)
  | RequestBodyTooLarge => (413, None)
  | ProtocolFrameTooLarge _ _ => (413, None)
  | RequestBodyTimeout => (408, None)
  | BadRequest | InvalidJsonBody => (400, None)
  | DatastoreDeviceUnavailable | DeviceDiscoveryError _ _ | NoDeviceFound
  | MultipleDevicesFound | NoControlInterfaceFound =>
      (503, Some (s! "MOTU USB device is not available"))
  | DatastoreNoResponse _ | DatastoreTimeout _ =>
      (504, Some (s! "MOTU USB datastore did not respond"))
  | ResponseFrameError _ | DatastoreResponseLimit _ | ShortUsbFrame _ _ | ShortUsbWrite _ _ =>
      (502, Some (s! "MOTU USB datastore returned an invalid response"))
  | _ => (502, Some (s! "MOTU USB datastore request failed"))
  end.
Definition error_status (e : exn) : Z := (error_clause e).1.

(** A response: its status, the headers the handler adds, and its body. *)
Record response := {
  r_status : Z;
  r_headers : list (pystr * pystr);
  r_content : bytes
}.

Definition header_if (b : bool) (name value : pystr) : list (pystr * pystr) :=
  if b then [(name, value)] else [].

(** The response of a dispatched request; [close] is [self.close_connection]. *)
Definition answer (method : pystr) (result : DispatchResult) (close : bool) : response :=
  let modified := negb (d_status result =? 304) in
  let content := if modified then d_response result else [] in
  {| r_status := d_status result;
     r_headers :=
       header_if modified (s! "Content-Type")
         (match d_content_type result with
          | Some ((_ :: _) as t) => t
          | _ => datastore_body_content_type content
          end) ++
       [(s! "Cache-Control", s! "no-cache")] ++
       match d_etag result with
       | Some tag => header_if (is_get method) (s! "ETag") tag
       | None => []
       end ++
       header_if modified (s! "Content-Length") (str_of_int (zlen content)) ++
       header_if close (s! "Connection") (s! "close");
     r_content := content |}.

(** [json.dumps({"error": message}).encode("utf-8")]: the text is ASCII. *)
Definition error_body (message : pystr) : bytes :=
  json_dumps Plain false (JObj [(s! "error", JStr message)]).

Definition send_json_error (status : Z) (message : pystr) (close : bool) : response :=
  let content := error_body message in
  {| r_status := status;
     r_headers := [(s! "Content-Type", s! "application/json");
                   (s! "Content-Length", str_of_int (zlen content))] ++
                  header_if close (s! "Connection") (s! "close");
     r_content := content |}.

(** The error response of an exception: a failure of the backend shows its own
    text only when debugging. *)
Definition error_response (debug : bool) (e : exn) (close : bool) : response :=
  let '(status, public) := error_clause e in
  send_json_error status
    (match public with
     | Some message => if debug then exn_text e else message
     | None => exn_text e
     end) close.

(** Sending a response, which may raise half way. *)
Variable send : response → M W unit.

(** What became of a request: the response that was started, whether the
    connection is closed after it, and what escaped the handler. *)
Record handled := {
  h_response : response;
  h_close : bool;
  h_outcome : result unit
}.

Definition close_write_connection (method : pystr) (close : bool) : bool :=
  close || negb (is_get method).

(** Whether an error may be answered, and whether the connection closes. *)
Definition can_send_error_response (response_started close : bool) : bool * bool :=
  if response_started then (false, true) else (true, close).

(** The [except] clauses: what they all do; [started] is the response that was
    begun, after which there is no second one. *)
Definition request_failed (debug : bool) (method : pystr) (started : option response) (e : exn)
    (close : bool) (w : W) : handled * W :=
  let close := close_write_connection method close in
  let '(_, close) :=
    can_send_error_response (match started with Some _ => true | None => false end) close in
  match started with
  | None =>
      let r := error_response debug e close in
      let '(sent, w2) := send r w in
      ({| h_response := r; h_close := close; h_outcome := sent |}, w2)
  | Some r => ({| h_response := r; h_close := close; h_outcome := Ok tt |}, w)
  end.

(** [handle_datastore_request]; [close] is what the request line and headers
    made of [self.close_connection]. *)
Definition handle_datastore_request (d : dispatcher) (debug : bool) (max_write_body_bytes : Z)
    (close : bool) (method request_path : pystr) (h : headers) (w : W) : handled * W :=
  let request_token := if is_get method then None else read_write_token h in
  let '(announced, announced_close) :=
    if is_get method then close_get_connection_if_body_announced h else (Ok tt, false) in
  let close := close || announced_close in
  let run : M W DispatchResult :=
    _ ← mlift announced;
    _ ← mlift (validate_write_headers d method (h_origin h) (h_host h) request_token);
    raw_body ← (if is_get method then mret [] else read_raw_body max_write_body_bytes h);
    dispatch _NullLock d method request_path raw_body (header_text (h_content_type h))
      (h_origin h) (h_host h) request_token
      (if is_get method then h_if_none_match h else None) in
  match run w with
  | (Ok result, w1) =>
      let r := answer method result close in
      match send r w1 with
      | (Ok _, w2) => ({| h_response := r; h_close := close; h_outcome := Ok tt |}, w2)
      | (Err e, w2) => request_failed debug method (Some r) e close w2
      end
  | (Err e, w1) => request_failed debug method None e close w1
  end.
End Handler.

(** * Properties *)

Section Theorems.
Context `{HttpLib} {W : Type} `{Backend W}.

(** What holds of a write that reaches the device. *)
Record write_allowed (d : dispatcher) (path : pystr) (sent : bytes)
    (client origin host request_token : option pystr) : Prop := {
  wa_enabled : allow_writes d = true;
  wa_host : allow_remote_writes d = true ∨
    ∃ name, _host_name host = Ok name ∧ (name = s! "localhost" ∨ ip_is_loopback mapped_loopback name = true);
  wa_origin : header_text origin = [] ∨
    header_text origin ≠ s! "null" ∧
    ∃ o, urlparse (header_text origin) = Ok o ∧ scheme o = s! "http" ∧ netloc o ≠ [] ∧
         lower (netloc o) = lower (header_text host);
  wa_token : ∀ token, write_token d = Some token →
    ∃ t b, request_token = Some t ∧ t ≠ [] ∧ _token_bytes token = Ok b ∧ _token_bytes t = Ok b;
  wa_json : ∃ text fields, json_loads false json_depth text = Ok (JObj fields) ∧ utf8_encode text = Ok sent ∧
    (validate_writes d = true →
     ∃ ws, validate_datastore_write_object path fields (allow_unknown_writes d) = Ok ws);
  wa_fits : ∃ n, max_post_json_body_bytes path (s! "NREK") (QStr <$> client) = Ok n ∧
    zlen sent <= n;
  wa_path : device_path path
}.

Lemma write_host_ok method allow host remote :
  is_get method = false → allow = true → validate_write_host method allow host remote = Ok tt →
  remote = true ∨
  ∃ name, _host_name host = Ok name ∧ (name = s! "localhost" ∨ ip_is_loopback mapped_loopback name = true).
Proof.
  intros Hg -> E. unfold validate_write_host, _is_loopback_host in E. rewrite Hg in E.
  destruct remote; [by left|]. right. cbn [negb orb] in E.
  apply result_bind_ok in E as (l & El & E). destruct l; [|done].
  apply result_bind_ok in El as (name & Hn & [= El]). exists name. split; [done|].
  apply orb_true_iff in El as [El|El]; [left; by apply zl_eqb_eq | by right].
Qed.

Lemma write_origin_ok method allow origin host :
  is_get method = false → allow = true → validate_write_origin method allow origin host = Ok tt →
  header_text origin = [] ∨
  header_text origin ≠ s! "null" ∧
  ∃ o, urlparse (header_text origin) = Ok o ∧ scheme o = s! "http" ∧ netloc o ≠ [] ∧
       lower (netloc o) = lower (header_text host).
Proof.
  intros Hg -> E. unfold validate_write_origin in E. rewrite Hg in E. cbn [negb orb] in E.
  destruct (zl_eqb (header_text origin) []) eqn:E1; [left; by apply zl_eqb_eq|]. right.
  destruct (zl_eqb (header_text origin) (s! "null")) eqn:E2; [done|].
  apply zl_eqb_neq in E2. destruct (zl_eqb (header_text host) []); [done|].
  apply result_bind_ok in E as (same & Es & E). destruct same; [|done].
  unfold _origin_matches_host in Es. apply result_bind_ok in Es as (o & Ho & [= Es]).
  split; [done|]. exists o. split; [done|]. apply andb_true_iff in Es as [Es E5].
  apply andb_true_iff in Es as [E3 E4]. apply zl_eqb_eq in E3, E5.
  apply negb_true_iff, zl_eqb_neq in E4. done.
Qed.

Lemma write_token_ok method allow expected token :
  is_get method = false → allow = true →
  validate_write_token method allow expected token = Ok tt →
  ∀ x, expected = Some x →
  ∃ t b, token = Some t ∧ t ≠ [] ∧ _token_bytes x = Ok b ∧ _token_bytes t = Ok b.
Proof.
  intros Hg -> E x ->. unfold validate_write_token in E. rewrite Hg in E. cbn [negb orb] in E.
  destruct (zl_eqb (header_text token) []) eqn:E1; [done|]. apply zl_eqb_neq in E1.
  apply result_bind_ok in E as (a & Ha & E). apply result_bind_ok in E as (b & Hb & E).
  destruct (zl_eqb a b) eqn:E2; [|done]. apply zl_eqb_eq in E2 as ->.
  destruct token as [t|]; [|done]. exists t, b. done.
Qed.

Lemma check_write_ok d method path request_path raw ct origin host token sent client :
  is_get method = false → device_path path →
  check_write d method path request_path raw ct origin host token = Ok (sent, client) →
  write_allowed d path sent client origin host token.
Proof.
  intros Hg Hp E. unfold check_write in E. apply result_bind_ok in E as (c & Hc & E).
  destruct (allow_writes d) eqn:Ea; [|done]. cbn [negb] in E.
  apply result_bind_ok in E as ([] & Hh & E). apply result_bind_ok in E as ([] & Ho & E).
  apply result_bind_ok in E as ([] & Ht & E). apply result_bind_ok in E as (text & Hb & E).
  apply result_bind_ok in E as (fields & Hl & E). apply result_bind_ok in E as (b & Hu & E).
  apply result_bind_ok in E as (ws & Hv & E). apply result_bind_ok in E as ([] & Hf & [= <- <-]).
  constructor; auto.
  - exact (write_host_ok _ _ _ _ Hg eq_refl Hh).
  - exact (write_origin_ok _ _ _ _ Hg eq_refl Ho).
  - exact (write_token_ok _ _ _ _ Hg eq_refl Ht).
  - exists text, fields. split; [|split; [done|]].
    + by apply load_json_object_ok.
    + intros Hvw. rewrite Hvw in Hv. eauto.
  - unfold validate_post_frame_size in Hf. apply result_bind_ok in Hf as (n & Hn & Hf).
    destruct (n <? zlen b) eqn:E; [done|]. zbool. eauto.
Qed.

(** The path, the bytes and the client that a request names: those of its target, and
    of the body as the content type has it read. *)
Record write_named (request_path raw ct path : pystr) (sent : bytes) (client : option pystr) : Prop := {
  wn_path : ∃ url, urlparse request_path = Ok url ∧ normalize_path (url_path url) = Ok path;
  wn_client : parse_client_query request_path = Ok client;
  wn_body : ∃ text, parse_write_body raw ct = Ok text ∧ utf8_encode text = Ok sent
}.

Lemma check_write_named d method path url request_path raw ct origin host token sent client :
  urlparse request_path = Ok url → normalize_path (url_path url) = Ok path →
  check_write d method path request_path raw ct origin host token = Ok (sent, client) →
  write_named request_path raw ct path sent client.
Proof.
  intros Hu Hp E. unfold check_write in E. apply result_bind_ok in E as (c & Hc & E).
  destruct (allow_writes d); [|done]. cbn [negb] in E.
  do 3 (apply result_bind_ok in E as ([] & _ & E)). apply result_bind_ok in E as (text & Hb & E).
  apply result_bind_ok in E as (fields & _ & E). apply result_bind_ok in E as (b & Hs & E).
  apply result_bind_ok in E as (ws & _ & E). apply result_bind_ok in E as ([] & _ & [= <- <-]).
  split; eauto.
Qed.

(** A write that is not dispatched changes nothing; one that is runs the backend
    once and answers what it answers. *)
Lemma dispatch_write d method request_path raw ct origin host token inm w :
  is_get method = false →
  let run := dispatch_datastore_request (W:=W) d method request_path raw ct
               origin host token inm w in
  (∃ e, run = (Err e, w)) ∨
  ∃ path sent client,
    write_allowed d path sent client origin host token ∧
    write_named request_path raw ct path sent client ∧
    run = match run_post path sent client (log_write method path sent w) with
          | (Ok p, w') =>
              (Ok {| d_response := body p; d_path := path; d_etag := etag p; d_status := 200;
                     d_content_type := Parser.content_type p |}, w')
          | (Err e, w') => (Err e, w')
          end.
Proof.
  intros Hg run. subst run. unfold dispatch_datastore_request. rewrite Hg. cbn [andb].
  unfold mbind, M_bind, mlift, mputs, mret, M_ret.
  destruct (urlparse request_path) as [url|e] eqn:Eu; cbn beta iota; [|eauto].
  destruct (normalize_path (url_path url)) as [path|e] eqn:En; [|eauto].
  destruct (check_write d method path request_path raw ct origin host token)
    as [[sent client]|e] eqn:Ec; [|eauto].
  right. exists path, sent, client.
  split_and!; [eapply check_write_ok; eauto using normalize_device | by eapply check_write_named | done].
Qed.

(** C2. Nothing reaches the device unless every guard of a write passed: for any
    request that is not a GET, either the backend was run once, on a datastore
    path, with exactly the bytes of a JSON object that the schema admits and
    that fit one frame, writes being enabled, the host local (or remote writes
    allowed), the origin the same and the token right; or the request failed and
    neither the device nor the log was touched. *)
Theorem write_guarded d method request_path raw ct origin host token inm w :
  is_get method = false →
  let '(r, w') := dispatch_datastore_request (W:=W) d method request_path raw ct
                    origin host token inm w in
  (∃ path sent client,
     write_allowed d path sent client origin host token ∧
     w' = (run_post path sent client (log_write method path sent w)).2 ∧
     is_ok r = is_ok (run_post path sent client (log_write method path sent w)).1) ∨
  (is_ok r = false ∧ w' = w).
Proof.
  intros Hg.
  destruct (dispatch_write d method request_path raw ct origin host token inm w Hg)
    as [[e ->] | (path & sent & client & Ha & _ & ->)]; [by right|].
  destruct (run_post path sent client (log_write method path sent w)) as [[p|e] w'] eqn:E;
    left; exists path, sent, client; by rewrite E.
Qed.

(** The length a request announces for its body. *)
Definition announced_length (h : headers) : option Z :=
  let text := header_text (h_content_length h) in int10 (if zl_eqb text [] then s! "0" else text).

(** A body that was read: as many bytes as announced, no more than allowed. *)
Lemma read_raw_body_ok read_body max h (w : W) raw w' :
  read_raw_body read_body max h w = (Ok raw, w') →
  ∃ n b, announced_length h = Some n ∧ 0 <= n <= max ∧ zlen b = n ∧ utf8_decode b = Ok raw ∧
         (n = 0 ∨ ∃ w0 w1, read_body n w0 = (Ok b, w1)).
Proof.
  unfold read_raw_body. intros E. destruct (_ && _); [done|]. fold (announced_length h) in E.
  destruct (announced_length h) as [n|]; [|done]. destruct (n <? 0) eqn:E0; [done|].
  destruct (max <? n) eqn:E1; [done|]. apply M_bind_ok in E as (b & w1 & Er & E).
  destruct (zlen b =? n) eqn:El; [|done]. cbn [negb] in E. zbool. exists n, b.
  split_and!; [done|lia|lia|done| |].
  - unfold mlift in E. destruct (utf8_decode b) as [t|[]]; congruence.
  - unfold _read_exact_body_bytes in Er. destruct (n =? 0) eqn:En; zbool; [by left|right].
    unfold mcatch in Er. destruct (read_body n w) as [[x|[]] w2] eqn:Eb; try discriminate Er.
    injection Er as <- <-. eauto.
Qed.

Lemma error_status_range e : error_status e ∈ [400; 403; 408; 413; 422; 502; 503; 504].
Proof. apply list_elem_of_In. destruct e; simpl; tauto. Qed.

(** The status of a dispatched request. *)
Lemma dispatch_status d method request_path raw ct origin host token inm w result w' :
  dispatch_datastore_request (W:=W) d method request_path raw ct origin host token inm w
    = (Ok result, w') →
  d_status result = 200 ∨ d_status result = 304 ∧ is_get method = true.
Proof.
  intros Er. unfold dispatch_datastore_request in Er.
  apply M_bind_ok in Er as (url & ? & _ & Er).
  destruct (if is_get method && _ then _ else _).
  { apply M_bind_ok in Er as (? & ? & _ & Er). injection Er as <- _. by left. }
  apply M_bind_ok in Er as (path & ? & _ & Er). destruct (is_get method).
  - apply M_bind_ok in Er as ([? ?] & ? & _ & Er). apply M_bind_ok in Er as (p & ? & _ & Er).
    injection Er as <- _. simpl. destruct (not_modified p); auto.
  - apply M_bind_ok in Er as ([? ?] & ? & _ & Er). apply M_bind_ok in Er as (? & ? & _ & Er).
    apply M_bind_ok in Er as (p & ? & _ & Er). injection Er as <- _. by left.
Qed.

(** What holds of a response to a request. *)
Record well_answered (debug : bool) (method : pystr) (r : response) (close : bool) : Prop := {
  wr_status : r_status r ∈ [200; 304; 400; 403; 408; 413; 422; 502; 503; 504];
  wr_not_modified : r_status r = 304 →
    is_get method = true ∧ r_content r = [] ∧
    Forall (λ f, f.1 ∉ [s! "Content-Type"; s! "Content-Length"]) (r_headers r);
  wr_length : r_status r ≠ 304 → (s! "Content-Length", str_of_int (zlen (r_content r))) ∈ r_headers r;
  wr_private : debug = false → 500 <= r_status r → r_content r ∈
    error_body <$> [s! "MOTU USB device is not available";
                    s! "MOTU USB datastore did not respond";
                    s! "MOTU USB datastore returned an invalid response";
                    s! "MOTU USB datastore request failed"];
  wr_failed_write : is_get method = false → 400 <= r_status r → close = true;
  wr_close : (s! "Connection", s! "close") ∈ r_headers r → close = true
}.

Lemma elem_of_header_if f b n v : f ∈ header_if b n v ↔ b = true ∧ f = (n, v).
Proof.
  destruct b; simpl; [rewrite list_elem_of_singleton; naive_solver|].
  split; [by intros ?%not_elem_of_nil | by intros [? _]].
Qed.

(** The headers of an answer, one by one. *)
Lemma answer_headers method result close f :
  f ∈ r_headers (answer method result close) →
  f.1 ∈ [s! "Content-Type"; s! "Content-Length"] ∧ d_status result ≠ 304 ∨
  f.1 ∈ [s! "Cache-Control"; s! "ETag"] ∨
  f = (s! "Connection", s! "close") ∧ close = true.
Proof.
  unfold answer. cbn [r_headers]. rewrite !elem_of_app, !elem_of_header_if, list_elem_of_singleton.
  intros [[Hm ->] | [-> | [Ht | [[Hm ->] | [Hc ->]]]]].
  - left. zbool. split; [apply list_elem_of_In; simpl; tauto | done].
  - right; left. apply list_elem_of_In; simpl; tauto.
  - right; left. destruct (d_etag result); [|by apply not_elem_of_nil in Ht].
    apply elem_of_header_if in Ht as [_ ->]. apply list_elem_of_In; simpl; tauto.
  - left. zbool. split; [apply list_elem_of_In; simpl; tauto | done].
  - right; right. done.
Qed.

Lemma answer_well debug method result close close' :
  d_status result = 200 ∨ d_status result = 304 ∧ is_get method = true →
  (close = true → close' = true) →
  well_answered debug method (answer method result close) close'.
Proof.
  intros Hs Hc. constructor.
  - apply list_elem_of_In. simpl. destruct Hs as [-> | [-> _]]; auto.
  - cbn [r_status answer]. intros E. destruct Hs as [Hs | [_ Hg]]; [lia|]. split; [done|].
    split; [simpl; by rewrite E|]. apply list.Forall_forall. intros f Hf.
    apply answer_headers in Hf as [[_ ?] | [Hf | [-> _]]]; [done| |].
    + intros Hn. apply list_elem_of_In in Hf, Hn.
      destruct Hf as [Hf | [Hf | []]]; rewrite <- Hf in Hn;
        destruct Hn as [Hn | [Hn | []]]; discriminate Hn.
    + rewrite list_elem_of_In. intros [Hn | [Hn | []]]; discriminate Hn.
  - cbn [r_status r_headers r_content answer]. intros E.
    rewrite !elem_of_app, !elem_of_header_if. apply Z.eqb_neq in E. rewrite E.
    right; right; right; left. done.
  - simpl. lia.
  - simpl. lia.
  - intros Hin. apply answer_headers in Hin as [[Hin _] | [Hin | [_ ?]]]; [| |auto];
      apply list_elem_of_In in Hin as [Hn | [Hn | []]]; discriminate Hn.
Qed.

Lemma error_well debug method e close :
  (is_get method = false → close = true) →
  well_answered debug method (error_response debug e close) close.
Proof.
  intros Hc. unfold error_response. pose proof (error_status_range e) as Hs.
  unfold error_status in Hs. apply list_elem_of_In in Hs.
  destruct (error_clause e) as [status public] eqn:Ec. simpl in Hs.
  constructor; cbn [r_status r_headers r_content send_json_error].
  - apply list_elem_of_In. simpl. tauto.
  - lia.
  - intros _. apply list_elem_of_In. simpl. tauto.
  - intros -> H5. apply list_elem_of_In. destruct public as [m|].
    + destruct e; try discriminate Ec; injection Ec as <- <-; simpl; tauto.
    + destruct e; try discriminate Ec; injection Ec as <-; lia.
  - auto.
  - rewrite elem_of_app, elem_of_header_if. intros [Hin | [? _]]; [|done].
    apply list_elem_of_In in Hin as [Hn | [Hn | []]]; discriminate Hn.
Qed.

(** ** The responses of a connection *)

(** [replies] are the responses begun on the connection: sending one adds it, whether
    or not it gets through, and nothing else does. *)
Record reply_log (replies : W → list response) (read_body : Z → M W bytes)
    (send : response → M W unit) : Prop := {
  rl_send r w : replies (send r w).2 = replies w ++ [r];
  rl_read n w : replies (read_body n w).2 = replies w;
  rl_get p c i f w : replies (run_get p c i f w).2 = replies w;
  rl_post p b c w : replies (run_post p b c w).2 = replies w;
  rl_log m p b w : replies (log_write m p b w) = replies w;
  rl_status provider w : status_provider = Some provider → replies (provider w).2 = replies w
}.

(** The responses begun stay as they are. *)
Definition same_replies (replies : W → list response) (w w' : W) : Prop := replies w' = replies w.
#[local] Instance same_replies_preorder replies : PreOrder (same_replies replies).
Proof. split; [by intros w|]. unfold same_replies. intros a b c -> ->. done. Qed.

Section ReplyLog.
Context (replies : W → list response) (read_body : Z → M W bytes) (send : response → M W unit).
Hypothesis Hlog : reply_log replies read_body send.
#[local] Notation silent := (follows (same_replies replies)).

Lemma dispatch_silent d method request_path raw ct origin host token inm :
  silent (dispatch _NullLock d method request_path raw ct origin host token inm).
Proof.
  intros w. rewrite dispatch_unlocked. revert w. change (silent (dispatch_datastore_request d method
    request_path raw ct origin host token inm)).
  assert (∀ p c i f, silent (run_get p c i f)) by (intros p c i f w; apply (rl_get _ _ _ Hlog)).
  assert (∀ p b c, silent (run_post p b c)) by (intros p b c w; apply (rl_post _ _ _ Hlog)).
  assert (∀ p b, silent (mputs (log_write method p b))) by (intros p b w; apply (rl_log _ _ _ Hlog)).
  unfold dispatch_datastore_request. apply follows_bind; [exact _|walk|]. intros url.
  destruct (if is_get method && _ then _ else _) as [provider|] eqn:Ep; [|walk].
  apply follows_bind; [exact _| |intros ?; walk].
  intros w. apply (rl_status _ _ _ Hlog). by destruct (is_get method && _).
Qed.

Lemma read_raw_body_silent max h : silent (read_raw_body read_body max h).
Proof.
  assert (∀ n, silent (read_body n)) by (intros n w; apply (rl_read _ _ _ Hlog)).
  unfold read_raw_body, _read_exact_body_bytes. cbv zeta. walk.
Qed.
End ReplyLog.

(** C30. Every request gets exactly one response: whatever is raised on the way, and
    also when sending the response raises, exactly one is begun on the connection, and
    it has one of ten statuses; a 304 is a GET's, has no body and no entity headers;
    any other response states the length of its body; without debugging a response of
    status 500 or more shows one of four fixed messages and nothing of the exception;
    a failed write closes its connection, and so does a response cut short by the
    socket; the header [Connection: close] is only sent when the connection closes; and
    when the headers of a write do not pass the guards, not a byte of its body is read
    and the backend is not run. *)
Theorem handler_replies replies read_body send d debug max close method request_path h w :
  reply_log replies read_body send →
  let '(out, w') := handle_datastore_request (W:=W) read_body send d debug max close method
                      request_path h w in
  replies w' = replies w ++ [h_response out] ∧
  well_answered debug method (h_response out) (h_close out) ∧
  (∃ w1 sent, send (h_response out) w1 = (sent, w') ∧ replies w1 = replies w ∧
     (is_ok sent = false → h_close out = true ∨ h_outcome out = sent) ∧
     (is_get method = false →
      is_ok (validate_write_headers d method (h_origin h) (h_host h) (read_write_token h)) = false →
      400 <= r_status (h_response out) ∧ w1 = w)).
Proof.
  intros Hlog.
  unfold handle_datastore_request, request_failed, can_send_error_response, close_write_connection.
  destruct (if is_get method then close_get_connection_if_body_announced h else (Ok tt, false))
    as [announced close'] eqn:Ec.
  match goal with |- context [match ?m w with _ => _ end] => set (run := m) end.
  assert (same_replies replies w (run w).2) as Hsame.
  { subst run. revert w. pose proof (dispatch_silent replies read_body send Hlog).
    pose proof (read_raw_body_silent replies read_body send Hlog).
    match goal with |- ∀ w, _ w (?m w).2 => change (follows (same_replies replies) m) end. walk. }
  assert (∀ r w1 sent w2, same_replies replies w w1 → send r w1 = (sent, w2) →
            replies w2 = replies w ++ [r]) as Hone.
  { intros r w1 sent w2 Hw Es. pose proof (rl_send _ _ _ Hlog r w1) as Hs. rewrite Es in Hs.
    by rewrite <- Hw. }
  destruct (run w) as [[result|e] w1] eqn:Er; cbn [snd] in Hsame.
  - assert (d_status result = 200 ∨ d_status result = 304 ∧ is_get method = true) as Hst.
    { subst run. apply M_bind_ok in Er as (? & ? & _ & Er).
      apply M_bind_ok in Er as (? & ? & _ & Er). apply M_bind_ok in Er as (raw & ? & _ & Er).
      rewrite dispatch_unlocked in Er. by eapply dispatch_status. }
    assert (∀ b : bool, is_get method = false →
      is_ok (validate_write_headers d method (h_origin h) (h_host h) (read_write_token h)) = b →
      b = true) as Hv.
    { intros b Hg Hv. subst run. rewrite Hg in *. injection Ec as <- <-.
      unfold mbind, M_bind, mlift in Er. by destruct (validate_write_headers _ _ _ _ _); subst. }
    destruct (send _ w1) as [[[]|e] w2] eqn:Es; cbn;
      (split; [by eapply Hone|]); (split; [apply answer_well; auto|]);
      (eexists w1, _; split; [exact Es|]); (split; [done|]); split; auto;
      intros Hg Hf; by specialize (Hv _ Hg Hf).
  - destruct (send _ w1) as [sent w2] eqn:Es. cbn. split; [by eapply Hone|]. split.
    { apply error_well. intros ->. apply orb_true_r. }
    eexists w1, _. split; [exact Es|]. split; [done|]. split; [by right|]. intros Hg Hv. split.
    { pose proof (error_status_range e) as Hs. apply list_elem_of_In in Hs.
      unfold error_status, error_response in *. destruct (error_clause e). simpl in *. lia. }
    subst run. rewrite Hg in *. injection Ec as <- <-. unfold mbind, M_bind, mlift in Er.
    destruct (validate_write_headers _ _ _ _ _); [done|]. by injection Er as _ <-.
Qed.
End Theorems.

(** * Client numbers *)

Lemma decimal_value_nonneg c d : decimal_value c = Some d → 0 <= d.
Proof.
  unfold decimal_value. destruct (list_find _ nd_zeros) as [[i z]|] eqn:E; [|done].
  apply list_find_Some in E as (_ & Hz & _). intros [= <-]. lia.
Qed.

Lemma digits_value_nonneg acc b s v : 0 <= acc → digits_value acc b s = Some v → 0 <= v.
Proof.
  revert acc b. induction s as [|c s IH]; intros acc b Ha; simpl.
  - destruct b; [by intros [= <-] | done].
  - destruct ((c =? 95) && b); [by apply IH|].
    destruct (decimal_value c) as [d|] eqn:Ed; [|done]. apply decimal_value_nonneg in Ed.
    apply IH. lia.
Qed.

(** A text of decimal digits has no sign. *)
Lemma int10_decimal s v : isdecimal s = true → int10 s = Some v → 0 <= v.
Proof.
  intros Hd. unfold isdecimal in Hd. apply andb_true_iff in Hd as [_ Hd].
  unfold int10. destruct (strip_by_split is_int_space s) as (w1 & w2 & Hs & _).
  set (body := strip_by is_int_space s) in *.
  assert (forallb is_decimal_char body = true) as Hb.
  { rewrite Hs, !forallb_app in Hd. zbool. done. }
  assert (∀ x y : Z, (match body with 43 :: s' => (1, s') | 45 :: s' => (-1, s') | _ => (1, body) end)
          = (1, body)) as E.
  { intros _ _. destruct body as [|c body']; [done|]. simpl in Hb. zbool.
    assert (c ≠ 43 ∧ c ≠ 45) as [H1 H2] by (split; intros ->; vm_compute in H; done).
    destruct c as [|p|]; try done. repeat (destruct p as [p|p|]; try done). }
  rewrite (E 0 0). destruct (max_str_digits <? _); [done|]. intros Hv.
  destruct (digits_value 0 false body) as [n|] eqn:En; [|done].
  apply digits_value_nonneg in En; [|done]. injection Hv as <-. lia.
Qed.

(** A client number that passes is the decimal text of an integer below
    2^32, whatever spaces, leading zeros or digits of other scripts it was
    written with. *)
Theorem client_query_value_range value s :
  validate_client_query_value value = Ok s → ∃ n, 0 <= n < 2 ^ 32 ∧ s = str_of_int n.
Proof.
  unfold validate_client_query_value. destruct (isdecimal (strip value)) eqn:Ed; [|done].
  cbn [negb]. destruct (int10 (strip value)) as [n|] eqn:En; [|done].
  destruct (MAX_CLIENT_ID <? n) eqn:Em; [done|]. intros [= <-]. zbool.
  apply int10_decimal in En; [|done]. exists n. unfold MAX_CLIENT_ID in Em. split; [lia|done].
Qed.

Lemma client_query_value_range_witness :
  validate_client_query_value (s! " 0042 ") = Ok (s! "42") ∧
  ∃ n, 0 <= n < 2 ^ 32 ∧ s! "42" = str_of_int n.
Proof.
  assert (validate_client_query_value (s! " 0042 ") = Ok (s! "42")) as E
    by (vm_compute; reflexivity).
  split; [exact E|]. exact (client_query_value_range _ _ E).
Defined.

(** ** A concrete write *)

Definition demo_lib : HttpLib := {|
  http_url := any_netloc; http_python := demo_python
|}.

Definition demo_body : pystr := [123; 34] ++ s! "value" ++ [34; 58; 34] ++ s! "win" ++ [34; 125].

Definition demo_backend : Backend (list bytes) := {|
  run_get := λ _ _ _ _ w, (Ok {| body := []; etag := None; status := None;
                                  content_type := None |}, w);
  run_post := λ _ b _ w, (Ok {| body := b; etag := None; status := None;
                                content_type := None |}, w ++ [b]);
  log_write := λ _ _ _ w, w;
  status_provider := None
|}.

Definition demo_dispatcher : dispatcher :=
  {| allow_writes := true; write_token := Some (s! "secret"); allow_remote_writes := false;
     validate_writes := true; allow_unknown_writes := false |}.

Lemma write_guarded_witness :
  let '(r, w') := dispatch_datastore_request (H := demo_lib) (H0 := demo_backend)
    demo_dispatcher (s! "POST") (s! "/datastore/host/os?client=7") demo_body []
    (Some (s! "http://localhost:1280")) (Some (s! "localhost:1280")) (Some (s! "secret")) None [] in
  w' = [demo_body] ∧ ∃ path sent client,
    write_allowed (H := demo_lib) demo_dispatcher path sent client
      (Some (s! "http://localhost:1280")) (Some (s! "localhost:1280")) (Some (s! "secret")).
Proof.
  pose proof (write_guarded (H := demo_lib) (H0 := demo_backend) demo_dispatcher (s! "POST")
    (s! "/datastore/host/os?client=7") demo_body [] (Some (s! "http://localhost:1280"))
    (Some (s! "localhost:1280")) (Some (s! "secret")) None [] eq_refl) as Hw.
  assert (∃ r, dispatch_datastore_request (H := demo_lib) (H0 := demo_backend)
    demo_dispatcher (s! "POST") (s! "/datastore/host/os?client=7") demo_body []
    (Some (s! "http://localhost:1280")) (Some (s! "localhost:1280")) (Some (s! "secret")) None []
    = (Ok r, [demo_body])) as [r E] by (eexists; vm_compute; reflexivity).
  rewrite E in Hw. rewrite E. split; [reflexivity|].
  destruct Hw as [(path & sent & client & Hw & _) | [Hw _]]; [|discriminate Hw].
  exists path, sent, client. exact Hw.
Defined.

(** A backend beside the responses of a connection that breaks on contents over 404
    bytes. *)
Definition wire_backend : Backend (list bytes * list response) := {|
  run_get := λ p c i f w, let '(r, w') := run_get (Backend := demo_backend) p c i f w.1 in (r, (w', w.2));
  run_post := λ p b c w, let '(r, w') := run_post (Backend := demo_backend) p b c w.1 in (r, (w', w.2));
  log_write := λ _ _ _ w, w;
  status_provider := None
|}.
Definition wire_send (r : response) : M (list bytes * list response) unit := λ w,
  (if 404 <? zlen (r_content r) then Err (OSError 32) else Ok tt, (w.1, w.2 ++ [r])).
Definition wire_read (body : bytes) (n : Z) : M (list bytes * list response) bytes := λ w,
  (Ok (ztake n body), w).
Definition wire_headers : headers :=
  {| h_origin := None; h_host := Some (s! "localhost:1280"); h_token := Some (s! "secret");
     h_authorization := None; h_content_type := None; h_if_none_match := None;
     h_transfer_encoding := None; h_content_length := Some (s! "15") |}.

Definition wire_request : list bytes * list response → handled * (list bytes * list response) :=
  handle_datastore_request (H := demo_lib) (H0 := wire_backend) (wire_read demo_body) wire_send
    demo_dispatcher false 61440 false (s! "POST") (s! "/datastore/host/os") wire_headers.

Lemma handler_replies_witness :
  let '(out, w') := wire_request ([], []) in
  w'.1 = [demo_body] ∧ w'.2 = [h_response out] ∧ r_status (h_response out) = 200.
Proof.
  assert ((wire_request ([], [])).2.1 = [demo_body] ∧
          r_status (h_response (wire_request ([], [])).1) = 200) as [H1 H2]
    by (split; vm_compute; reflexivity).
  pose proof (handler_replies (H := demo_lib) (H0 := wire_backend) snd (wire_read demo_body) wire_send
    demo_dispatcher false 61440 false (s! "POST") (s! "/datastore/host/os") wire_headers ([], [])) as Hr.
  fold (wire_request ([], [])) in Hr. destruct (wire_request ([], [])) as [out w'].
  destruct Hr as [Hw _]; [by split|]. split; [exact H1|]. split; [exact Hw|exact H2].
Defined.
