(* ===== verification/Status.v ===== *)
(** The status page: [DatastoreCoordinator.status] with [_exception_status],
    [_response_stats_status] and [ManagedDatastore.status] (motu_proxy/datastore.py)
    as the dispatcher serves them (motu_proxy/http_server.py), and
    [DatastoreCoordinator.start].

    The dictionary is built from the states of the other files: the coordinator,
    the fields of the arbitration, and the session manager.  Times are
    microseconds there; [ms_float] and [s_float] are the floats Python shows for
    them, and [class_name] is [exc.__class__.__name__]. *)
From S2P Require Import Prelude PyText Protocol Parser Usb Managed Coordinator Arbiter.
From S2P Require Import Paths Json Schema JsonText IpAddr Http.

Section Status.
Context `{Interpreter}.
Variable class_name : exn → pystr.
Variables ms_float s_float : Z → spec_float.

Definition jint (z : Z) : json := JNum (NInt z).
Definition jopt {A} (f : A → json) (o : option A) : json :=
  match o with Some a => f a | None => JNull end.

Definition _exception_status (exc : option exn) : json :=
  jopt (λ e, JObj [(s! "type", JStr (class_name e)); (s! "message", JStr (exn_text e))]) exc.

Definition _response_stats_status (stats : option ResponseStats) : json :=
  jopt (λ st, JObj
    [(s! "timeout_ms", jint (rs_timeout_ms st));
     (s! "elapsed_ms", JNum (NFloat (ms_float (rs_elapsed_us st))));
     (s! "reads", jint (rs_reads st));
     (s! "accepted_frames", jint (rs_accepted_frames st));
     (s! "ignored_packets", jint (rs_ignored_packets st));
     (s! "ack_packets", jint (rs_ack_packets st));
     (s! "response_bytes", jint (rs_response_bytes st))]) stats.

Definition state_name (r : reconnect_state) : pystr :=
  match r with
  | Unavailable => s! "unavailable"
  | Backoff => s! "backoff"
  | Reconnecting => s! "reconnecting"
  | Available => s! "available"
  | ConfigurationError => s! "configuration_error"
  | Closed => s! "closed"
  end.

(** [ManagedDatastore.status] as a dictionary. *)
Definition managed_dict (s : managed_status) : list (pystr * json) :=
  let seconds := λ t, JNum (NFloat (s_float t)) in
  [(s! "datastore_available", JBool (datastore_available s));
   (s! "datastore_reconnect_state", JStr (state_name (datastore_reconnect_state s)));
   (s! "datastore_session_generation", jint (datastore_session_generation s));
   (s! "datastore_last_reconnect_error", _exception_status (datastore_last_reconnect_error s));
   (s! "datastore_retry_delay_s", seconds (datastore_retry_delay s));
   (s! "datastore_next_retry_in_s", jopt seconds (datastore_next_retry_in s))].

(** The background thread: none, or whether it is alive. *)
Definition worker : Type := option bool.

(** [DatastoreCoordinator.start] *)
Definition start (cfg : coord_cfg) (k : worker) : worker :=
  if negb (foreground_preemptive_native_long_poll_available cfg) then k else
  match k with Some _ => k | None => Some true end.

Definition long_poll_mode (cfg : coord_cfg) : pystr :=
  if foreground_preemptive_native_long_poll_available cfg
  then s! "native-preemptive" else s! "degraded-refresh".

Definition owner_name (o : owner) : pystr :=
  match o with Poller => s! "poller" | Foreground => s! "foreground" end.

(** [d.update(u)] *)
Definition dict_update (d u : list (pystr * json)) : list (pystr * json) :=
  foldl (λ d '(k, v), dict_set k v d) d u.

(** [DatastoreCoordinator.status]; [manager] is the manager's part, when the
    datastore has one. *)
Definition coordinator_status (cfg : coord_cfg) (c : coordinator) (x : io) (k : worker)
    (stats : option ResponseStats) (manager : option managed_status) : list (pystr * json) :=
  let status :=
    [(s! "long_poll_mode", JStr (long_poll_mode cfg));
     (s! "latest_etag", jopt JStr (latest_etag c));
     (s! "last_poller_error", _exception_status (last_poller_error c));
     (s! "last_response_stats", _response_stats_status stats);
     (s! "poller_running", JBool (bool_decide (k = Some true)));
     (s! "io_owner", jopt (λ o, JStr (owner_name o)) (io_owner x));
     (s! "foreground_waiters", jint (foreground_waiters x))] in
  match manager with
  | Some m => dict_update status (managed_dict m)
  | None => status
  end.

(** The body of the page: [json.dumps(status, sort_keys=True).encode("utf-8")]. *)
Definition status_body (status : list (pystr * json)) : bytes := json_dumps Plain true (JObj status).

(** The manager's fields add to the coordinator's and replace none. *)
Lemma status_keys cfg c x k stats m :
  (coordinator_status cfg c x k stats (Some m)).*1
  = (coordinator_status cfg c x k stats None).*1 ++ (managed_dict m).*1 ∧
  NoDup (coordinator_status cfg c x k stats (Some m)).*1.
Proof.
  split; [reflexivity|]. unfold coordinator_status. cbn [managed_dict dict_update foldl dict_set].
  refine (bool_decide_unpack _ _). vm_compute. exact I.
Qed.
End Status.

Section Page.
Context `{HttpLib} {W : Type} `{Backend W}.

(** The status page never touches the device: a GET of the status path is answered
    with 200 and the status, whatever the query, the headers and the state of the
    device, and the world is left as the provider left it. *)
Lemma status_page_served d provider request_path raw ct origin host token inm w url status w' :
  status_provider (W := W) = Some provider → urlparse request_path = Ok url →
  url_path url = STATUS_PATH → provider w = (Ok status, w') →
  dispatch_datastore_request d (s! "GET") request_path raw ct origin host token inm w
  = (Ok {| d_response := status; d_path := STATUS_PATH; d_etag := None; d_status := 200;
           d_content_type := Some (s! "application/json") |}, w').
Proof.
  intros Hp Hu Hs Hw. unfold dispatch_datastore_request, mbind, M_bind, mlift. rewrite Hu.
  change (is_get (s! "GET")) with true. rewrite Hs. cbn [andb].
  rewrite (proj2 (zl_eqb_eq STATUS_PATH STATUS_PATH)) by done. by rewrite Hp, Hw.
Qed.
End Page.
