(* ===== verification/WireLog.v ===== *)
(** What the program puts on the wire.

    [UsbLog] is an interface on top of [UsbEnv]: a log of the frames given to
    [bulk_write], which no other operation of the transport changes.  The lemmas
    here follow the log through the USB client (class [MotuUsbDatastore]) and the
    session manager ([ManagedDatastore]) of motu_proxy/datastore.py, for any device:
    reads only add frames that ask for nothing but data, and a write adds at most
    one POST, which a receiver decodes to exactly what was to be written.

    Frames are told apart by what a receiver reads in them ([Wire.decode]), not by
    the builder that made them. *)
From S2P Require Import Prelude PyText Protocol Parser Usb Managed Coordinator Walk.

(** * Frames that write *)

(** The write requests among some frames, as their receiver decodes them. *)
Definition is_post (rq : Wire.request) : Prop := Wire.rq_method rq = s! "POST".
#[global] Instance is_post_dec rq : Decision (is_post rq).
Proof. unfold is_post. apply _. Defined.

Definition posts_in (frames : list bytes) : list Wire.request :=
  filter is_post (omap Wire.decode frames).

Lemma posts_in_app a b : posts_in (a ++ b) = posts_in a ++ posts_in b.
Proof. unfold posts_in. by rewrite omap_app, list.filter_app. Qed.

Lemma posts_in_cons f fs : posts_in (f :: fs) = posts_in [f] ++ posts_in fs.
Proof. apply (posts_in_app [f]). Qed.

Lemma ack_no_post q : posts_in [build_ack q] = [].
Proof. done. Qed.
Lemma init_no_post q : posts_in [build_init q] = [].
Proof. done. Qed.

#[local] Ltac unbind E :=
  repeat match type of E with
  | (_ ≫= _) = Ok _ =>
      let a := fresh "a" in let Ha := fresh "Ha" in apply result_bind_ok in E as (a & Ha & E)
  end.

#[local] Ltac wire_parts :=
  repeat match goal with
  | H : sized_word _ = Ok _ |- _ => apply sized_word_ok in H as (? & ? & ? & ->)
  | H : u32 _ = Ok _ |- _ => apply u32_ok in H as [? ->]
  | H : encode_query_fields _ _ = Ok _ |- _ => apply encode_query_fields_ok in H as (? & ? & ? & ->)
  | H : query_fields _ _ = Ok _ |- _ => apply encode_query_fields_ok in H as (? & ? & ? & ->)
  | H : _value_bytes (Str (s! _)) = Ok _ |- _ => injection H as <-
  | H : _value_bytes _ = Ok _ |- _ => cbn [_value_bytes] in H
  | H : Ok _ = Ok _ |- _ => injection H as <-
  end.

Lemma utom_prefix_ok rq u : utom_prefix rq = Ok u → fits32 rq ∧ u = utom_bytes rq.
Proof.
  unfold utom_prefix. intros E. unbind E. wire_parts. split; [unfold fits32; lia|].
  unfold utom_bytes. by rewrite <- !app_assoc || done.
Qed.

(** A GET frame that was built decodes to a GET. *)
Lemma get_frame_decodes q m path etag header client fields f :
  build_get_frame q m path etag header client fields = Ok f →
  ∃ hb pb eb fs, utf8_encode path = Ok pb ∧ Wire.decode f = Some (get_request q hb m pb eb fs).
Proof.
  unfold build_get_frame. intros E. unbind E. wire_parts.
  match goal with H : utom_prefix _ = Ok _ |- _ => apply utom_prefix_ok in H as [? ->] end.
  apply build_motu_frame_ok in E as (hb & Hh & Hm & Hl & ->).
  match goal with He : utf8_encode etag = Ok ?e, Hp : utf8_encode path = Ok ?p, Hf : pairs_fit ?fs |- _ =>
    exists hb, p, e, fs; split; [done|] end.
  rewrite get_rq_parts in *. rewrite <- (app_nil_r (utom_bytes _)).
  apply decode_frame_bytes; try done.
  - by apply (header_bytes_len header).
  - by rewrite app_nil_r.
  - split; [done|]. by repeat constructor.
Qed.

(** A POST frame that was built decodes to that POST. *)
Lemma post_frame_decodes q m path body header client f :
  build_post_frame q m path body header client = Ok f →
  ∃ hb pb fs, _header_bytes header = Ok hb ∧ utf8_encode path = Ok pb ∧
    Forall2 utf8_pair (_normalize_query_fields (fields_of_client client) None) fs ∧
    Wire.decode f = Some (post_request q hb m pb fs body).
Proof.
  unfold build_post_frame. intros E. unbind E. wire_parts.
  match goal with H : utom_prefix _ = Ok _ |- _ => apply utom_prefix_ok in H as [? ->] end.
  apply build_motu_frame_ok in E as (hb & Hh & Hm & Hl & ->).
  match goal with Hp : utf8_encode path = Ok ?p, Hf : pairs_fit ?fs |- _ =>
    exists hb, p, fs; split_and!; [done..|] end.
  match goal with |- context [utom_bytes ?r] =>
    match goal with Hp : utf8_encode path = Ok ?p, Hf : pairs_fit ?fs |- _ =>
      assert (r = post_rq p fs) as Hr end end.
  { unfold post_rq, request_bytes, counted at 2, pair_bytes.
    cbn [fmap list_fmap concat fst snd]. by rewrite app_nil_r, <- !app_assoc. }
  rewrite Hr in *. apply decode_frame_bytes; try done.
  - by apply (header_bytes_len header).
  - split; [done|]. by repeat constructor.
  - apply decode_json_body. autorewrite with motu in Hl.
    pose proof (zlen_nonneg body). change (zlen (s! "json")) with 4 in Hl.
    match type of Hl with context [zlen (post_rq ?p ?fs)] =>
      pose proof (zlen_nonneg (post_rq p fs)) end.
    lia.
Qed.

(** * The log of a computation *)

(** What may be said of the frames of a part of a computation and its outcome, and
    then of the whole when the rest is quiet and makes no success of a failure. *)
Record stable (Q : ∀ A, result A → list bytes → Prop) : Prop := {
  stable_silent A e new : posts_in new = [] → Q A (Err e) new;
  stable_after A (r : result A) new new' : posts_in new = [] → Q A r new' → Q A r (new ++ new');
  stable_then A B (r : result A) (r' : result B) new new' :
    (is_ok r = false → is_ok r' = false) → posts_in new' = [] → Q A r new → Q B r' (new ++ new')
}.

(** Computations over a state from which the frames sent can be read. *)
Section Appends.
Context {S : Type} (log : S → list bytes).

(** [m] adds frames to the log, of which [Q] holds with its outcome. *)
Definition appends {A} (Q : result A → list bytes → Prop) (m : M S A) : Prop :=
  ∀ s, ∃ new, log (m s).2 = log s ++ new ∧ Q (m s).1 new.

(** Only frames that ask for data are added. *)
Definition asks (s s' : S) : Prop := ∃ new, log s' = log s ++ new ∧ posts_in new = [].

#[global] Instance asks_preorder : PreOrder asks.
Proof.
  split.
  - intros s. exists []. by rewrite app_nil_r.
  - intros s1 s2 s3 (n1 & E1 & Q1) (n2 & E2 & Q2). exists (n1 ++ n2).
    by rewrite E2, E1, app_assoc, posts_in_app, Q1, Q2.
Qed.

Lemma asks_same s s' : log s' = log s → asks s s'.
Proof. intros E. exists []. by rewrite E, app_nil_r. Qed.

(** Computations that send no write request. *)
#[local] Abbreviation quiet := (follows asks).

Section Stable.
Context (Q : ∀ A, result A → list bytes → Prop) (HQ : stable Q).

(** The outcome of the first part is known in the second. *)
Lemma appends_known {A B} (m : M S A) (f : A → M S B) :
  quiet m →
  (∀ s a s1, m s = (Ok a, s1) → ∃ new, log (f a s1).2 = log s1 ++ new ∧ Q B (f a s1).1 new) →
  appends (Q B) (m ≫= f).
Proof.
  intros Hm Hf s. unfold mbind, M_bind. destruct (Hm s) as (n1 & E1 & Q1).
  destruct (m s) as [[a|e] s1] eqn:E; cbn [fst snd] in *;
    [|exists n1; split; [done|by apply stable_silent]].
  destruct (Hf s a s1 E) as (n2 & E2 & Q2). exists (n1 ++ n2). rewrite E2, E1, app_assoc.
  split; [done|]. by apply stable_after.
Qed.

Lemma appends_bind {A B} (m : M S A) (f : A → M S B) :
  quiet m → (∀ a, appends (Q B) (f a)) → appends (Q B) (m ≫= f).
Proof. intros Hm Hf. apply appends_known; [done|]. intros s a s1 _. apply Hf. Qed.

Lemma appends_then {A B} (m : M S A) (f : A → M S B) :
  appends (Q A) m → (∀ a, quiet (f a)) → appends (Q B) (m ≫= f).
Proof.
  intros Hm Hf s. unfold mbind, M_bind. destruct (Hm s) as (n1 & E1 & Q1).
  destruct (m s) as [[a|e] s1]; cbn [fst snd] in *.
  - destruct (Hf a s1) as (n2 & E2 & Q2). exists (n1 ++ n2). rewrite E2, E1, app_assoc.
    split; [done|]. by eapply (stable_then Q HQ A B (Ok a)).
  - exists n1. split; [done|]. rewrite <- (app_nil_r n1). by eapply (stable_then Q HQ A B (Err e)).
Qed.

(** A handler that always raises. *)
Lemma appends_catch {A} (m : M S A) h :
  appends (Q A) m → (∀ e, quiet (h e)) → (∀ e s, is_ok (h e s).1 = false) →
  appends (Q A) (mcatch m h).
Proof.
  intros Hm Hh Hr s. unfold mcatch. destruct (Hm s) as (n1 & E1 & Q1).
  destruct (m s) as [[a|e] s1]; cbn [fst snd] in *; [exists n1; auto|].
  destruct (Hh e s1) as (n2 & E2 & Q2). exists (n1 ++ n2). rewrite E2, E1, app_assoc.
  split; [done|]. eapply (stable_then Q HQ A A (Err e)); eauto.
Qed.

Lemma appends_finally {A} (m : M S A) f :
  appends (Q A) m → quiet f → appends (Q A) (mfinally m f).
Proof.
  intros Hm Hf s. unfold mfinally. destruct (Hm s) as (n1 & E1 & Q1).
  destruct (m s) as [r s1]; cbn [fst snd] in *.
  destruct (Hf s1) as (n2 & E2 & Q2). exists (n1 ++ n2).
  destruct (f s1) as [[]]; cbn [fst snd] in *; rewrite E2, E1, app_assoc;
    (split; [done|]; eapply (stable_then Q HQ A A r); eauto).
Qed.
End Stable.

End Appends.

(** Computations that send no write request. *)
Abbreviation quiet log := (follows (asks log)).

(** * The log of a transport *)

(** A log of the frames given to the transport.  A [bulk_write] that raises may be
    in it or not. *)
Class UsbLog (W : Type) `{UsbEnv W} := {
  sent : W → list bytes;
  sent_monotonic w : sent (monotonic w).2 = sent w;
  sent_write f w :
    sent (bulk_write f w).2 = sent w ++ [f] ∨
    is_ok (bulk_write f w).1 = false ∧ sent (bulk_write f w).2 = sent w;
  sent_read n t w : sent (bulk_read n t w).2 = sent w;
  sent_begin n t w : sent (begin_cancellable_bulk_read n t w).2 = sent w;
  sent_cancellable w : sent (cancellable_read w).2 = sent w
}.

(** What a write may send: at most one POST, of exactly this path, body and client;
    none only when the write fails. *)
Inductive posted {A} (path : pystr) (json : bytes) (client : option QueryFieldValue)
    : result A → list bytes → Prop :=
  | posted_nothing e new : posts_in new = [] → posted path json client (Err e) new
  | posted_once r new q m pb fs :
      posts_in new = [post_request q (s! "NREK") m pb fs json] →
      utf8_encode path = Ok pb →
      Forall2 utf8_pair (_normalize_query_fields (fields_of_client client) None) fs →
      posted path json client r new.

Lemma posted_stable path json client : stable (λ A, posted (A := A) path json client).
Proof.
  split.
  - intros A e new. apply posted_nothing.
  - intros A r new new' Hn []; [apply posted_nothing | eapply posted_once; eauto];
      rewrite posts_in_app, Hn; eauto.
  - intros A B r r' new new' Hr Hn Hp. revert Hr. destruct Hp as [e new Hp|]; intros Hr.
    + destruct r' as [b|e']; [by specialize (Hr eq_refl)|].
      apply posted_nothing. by rewrite posts_in_app, Hn, app_nil_r.
    + eapply posted_once; eauto. rewrite posts_in_app, Hn, app_nil_r. eauto.
Qed.

Section Client.
Context {W : Type} `{UsbLog W}.

Definition usb_sent {X} (s : X * W) : list bytes := sent s.2.

(** Frames without a write request. *)
Definition asking (f : bytes) : Prop := posts_in [f] = [].

Lemma asking_follows : usb_follows (asks sent) asking.
Proof.
  split; try (intros; apply asks_same;
    solve [auto using sent_monotonic, sent_read, sent_begin, sent_cancellable]).
  - intros f w Hf. destruct (sent_write f w) as [E|[_ E]]; [exists [f]; auto | by apply asks_same].
  - intros q. apply ack_no_post.
  - intros q. apply init_no_post.
  - intros q m path etag header client fields f E.
    apply get_frame_decodes in E as (hb & pb & eb & fs & _ & E).
    unfold asking, posts_in. simpl. by rewrite E.
Qed.

(** A frame is sent, or the write raises. *)
Lemma write_frame_appends f :
  appends usb_sent (λ r new, new = [f] ∨ new = [] ∧ is_ok r = false) (_write_frame (W := W) f).
Proof.
  intros s. unfold _write_frame, envR, usb_sent, mbind, M_bind. pose proof (sent_write f s.2) as Hw.
  destruct (bulk_write f s.2) as [[n|e] w]; cbn [fst snd] in *.
  - destruct Hw as [Hw|[[=] _]]. exists [f]. destruct (negb _); eauto.
  - destruct Hw as [Hw|[_ Hw]]; [exists [f]; auto | exists []; rewrite Hw, app_nil_r; auto].
Qed.

(** A write sends its POST at most once, and only a failed one sends none. *)
Lemma usb_post_posted path json client t :
  appends usb_sent (posted path json client) (Usb.post (W := W) path json client t).
Proof.
  pose proof (posted_stable path json client) as HQ. unfold Usb.post.
  apply (appends_bind _ _ HQ); [apply (walk_this (asks sent))|]. intros m.
  apply (appends_bind _ _ HQ); [apply (walk_seq (asks sent))|]. intros q s.
  destruct (build_post_frame q m path json (s! "NREK") client) as [f|e] eqn:E.
  2: { exists []. rewrite app_nil_r. split; [done|]. by apply posted_nothing. }
  apply post_frame_decodes in E as (hb & pb & fs & Hh & Hp & Hf & E). injection Hh as <-.
  assert (posts_in [f] = [post_request q (s! "NREK") m pb fs json]) as Hpost
    by (unfold posts_in; simpl; by rewrite E).
  pose proof (walk_advance_collect (asks sent) asking asking_follows m t no_callbacks
                (no_callbacks_follow _)) as Hq.
  rewrite (M_bind_eq (mlift (Ok f)) _ s f s eq_refl).
  destruct (write_frame_appends f s) as (n1 & E1 & Hn).
  destruct (_write_frame f s) as [[[]|e] s1] eqn:Ew; cbn [fst snd] in *.
  - rewrite (M_bind_eq _ _ _ _ _ Ew). destruct Hn as [->|[_ [=]]]. destruct (Hq s1) as (n2 & E2 & Q2).
    exists ([f] ++ n2). unfold usb_sent in *. rewrite E2, E1, app_assoc. split; [done|].
    eapply posted_once; eauto. by rewrite posts_in_app, Q2, Hpost.
  - rewrite (M_bind_err _ _ _ _ _ Ew). exists n1. split; [done|].
    destruct Hn as [->|[-> _]]; [by eapply posted_once|by apply posted_nothing].
Qed.
End Client.

(** * The session manager *)

Section Manager.
Context {D W : Type} `{SessionOps D W} (log : W → list bytes).
Hypothesis session_asks : session_follows (asks log).

Definition managed_sent (s : MSt D W) : list bytes := log s.2.

(** A call runs its operation at most once: what the operation sends on a session
    is what the call sends, the opening of the session aside. *)
Lemma call_appends (Q : ∀ A, result A → list bytes → Prop) (op : operation D W) :
  stable Q →
  (∀ d w, ∃ new, log (op d w).2.2 = log w ++ new ∧ Q _ (op d w).1 new) →
  appends managed_sent (Q bytes) (_call op).
Proof.
  intros HQ Hop. unfold _call.
  apply (appends_bind _ Q HQ); [apply (walk_ensure (asks log) session_asks)|]. intros g.
  apply (appends_then _ Q HQ).
  2: { intros b. intros s. apply (walk_remember (asks log) g s). }
  fold (call_failed (D := D) (W := W) g). apply (appends_catch _ Q HQ).
  - intros s. unfold on_session, managed_sent. destruct (session s.1) as [[g' d]|].
    + destruct (Hop d s.2) as (new & E & Hn). destruct (op d s.2) as [r [d' w]]. by exists new.
    + exists []. rewrite app_nil_r. split; [done|]. by apply (stable_silent Q HQ).
  - intros e. apply (walk_call_failed (asks log) session_asks).
  - apply call_failed_raises.
Qed.
End Manager.

(** ** The log of the scripted device *)

Definition script_log : UsbLog script.
Proof.
  refine {| sent := sc_out |}; try done.
  - intros f w. by left.
  - intros n t w. cbn. unfold script_read. by destruct (sc_in w).
  - intros w. cbn. unfold script_read. by destruct (sc_in w).
Defined.
