(* ===== verification/Stack.v ===== *)
(** The proxy put together, as [command_serve] of motu_proxy/cli.py does: the HTTP
    handler (http_server.py) over the coordinator, the session manager and the USB
    client (datastore.py), over any transport whose frames are logged ([UsbLog]).

    [CoordWire] is what the HTTP side needs to know of the coordinator's device:
    reads and polls send no write request, a post sends at most one.  The sessions
    over USB discharge it ([usb_wire]), so that the theorem is about the whole stack
    down to the frames.  [CoordClock] (LongPoll.v) is what makes a
    long poll end; it is discharged by the same sessions over a clock that never
    goes back ([usb_coord_clock]). *)
From S2P Require Import Prelude PyText Protocol Parser Usb Managed Coordinator Walk LongPoll.
From S2P Require Import Paths Json Schema JsonText IpAddr Http WireLog.

(** * The coordinator *)

(** A device as the coordinator uses it, with the frames it sends.  The frames are
    those of the calling thread: what others send while it waits is not in its log. *)
Class CoordWire (S : Type) `{CoordEnv S} := {
  coord_sent : S → list bytes;
  now_silent w : coord_sent (now_us w).2 = coord_sent w;
  wait_silent t s : coord_sent (cond_wait t s).2 = coord_sent s.2;
  acquire_silent w : coord_sent (acquire_foreground_io w).2 = coord_sent w;
  release_silent w : coord_sent (release_io w) = coord_sent w;
  log_silent k w : coord_sent (log_line k w) = coord_sent w;
  get_quiet p e c t f : quiet coord_sent (ds_get p e c t f);
  poll_quiet p e t i : quiet coord_sent (ds_poll p e t i);
  post_posted p j c : appends coord_sent (posted p j c) (ds_post p j c)
}.

Section CoordinatorWire.
Context {S : Type} `{CoordWire S} (cfg : coord_cfg).

Definition csent (s : CSt (S := S)) : list bytes := coord_sent s.2.

Lemma wire_follows : coord_follows (asks coord_sent).
Proof.
  split; intros; try (apply asks_same;
    solve [auto using now_silent, wait_silent, acquire_silent, release_silent, log_silent]).
  apply get_quiet.
Qed.

Lemma quiet_coordinator_get fuel p c inm f : quiet csent (get cfg fuel p c inm f).
Proof. exact (walk_coordinator_get (asks coord_sent) cfg wire_follows fuel p c inm f). Qed.

Lemma quiet_poll i e : quiet csent (poll_held cfg i e).
Proof.
  apply (walk_poll (asks coord_sent) cfg wire_follows). intros p e' t i' w. apply poll_quiet.
Qed.

(** A post of the coordinator sends its POST at most once: the refresh after it
    only reads. *)
Lemma coordinator_post_posted p j c : appends csent (posted p j c) (post cfg p j c).
Proof.
  pose proof (posted_stable p j c) as HQ. unfold post, holding.
  assert (∀ w, asks coord_sent w (acquire_foreground_io w).2) as Ha
    by (intros w; apply asks_same, acquire_silent).
  apply (appends_bind _ _ HQ); [apply (walk_cenvR (asks coord_sent) _ Ha)|]. intros _.
  apply (appends_finally _ _ HQ); [|apply (walk_release (asks coord_sent) wire_follows)].
  apply (appends_then _ _ HQ (A := bytes)).
  - intros s. unfold cenvR, csent. destruct (post_posted p j c s.2) as (new & E & Hn). exists new.
    by destruct (ds_post p j c s.2).
  - intros r. apply follows_bind; [exact _|exact (walk_payload (asks coord_sent) r)|]. intros x.
    apply follows_bind;
      [exact _|exact (walk_refresh_after (asks coord_sent) cfg wire_follows _)|]. intros _.
    apply follows_ret, _.
Qed.
End CoordinatorWire.

(** * The server *)

(** What a backend may return: bytes or a payload. *)
Definition _coerce_datastore_payload (value : bytes + DatastorePayload) : DatastorePayload :=
  match value with
  | inr p => p
  | inl b => {| body := b; etag := None; status := None; content_type := None |}
  end.

(** [repr] of a bytes object. *)
Definition byte_repr (quote b : Z) : pystr :=
  if (b =? quote) || (b =? 92) then [92; b]
  else if b =? 9 then [92; 116] else if b =? 10 then [92; 110] else if b =? 13 then [92; 114]
  else if (b <? 32) || (127 <=? b) then [92; 120; hex_digit (b / 16); hex_digit (b mod 16)]
  else [b].
Definition bytes_repr (l : bytes) : pystr :=
  let quote := if existsb (Z.eqb 39) l && negb (existsb (Z.eqb 34) l) then 34 else 39 in
  [98; quote] ++ concat (byte_repr quote <$> l) ++ [quote].

(** The line a write is logged with. *)
Definition log_write_attempt (method path : pystr) (body : bytes) : pystr :=
  s! "write attempt method=" ++ method ++ s! " path=" ++ path ++ s! " body_bytes="
    ++ str_of_int (zlen body).
Definition log_write_attempt_debug (method path : pystr) (body : bytes) : pystr :=
  s! "write attempt method=" ++ method ++ s! " path=" ++ path ++ s! " body=" ++ bytes_repr body.

(** [do_GET], [do_POST] and [do_PATCH] of the handler. *)
Inductive verb := GET | POST | PATCH.
#[global] Instance verb_eq_dec : EqDecision verb.
Proof. solve_decision. Defined.
Definition method_of (v : verb) : pystr :=
  match v with GET => s! "GET" | POST => s! "POST" | PATCH => s! "PATCH" end.

(** A request: its line, its headers and the bytes that follow them. *)
Record http_request := {
  hr_verb : verb;
  hr_target : pystr;
  hr_headers : headers;
  hr_body : bytes;
  hr_close : bool
}.

(** What happens to a running server, one device exchange at a time: a request is
    served; the poller starts a pass, and, when it gets the device, ends it. *)
Inductive server_event := Served (q : http_request) | PollStarts | Polls.

Section Server.
Context `{HttpLib} {S : Type} `{CoordEnv S} (cfg : coord_cfg).
(** [print(line, file=sys.stderr)] and [coordinator.status] as JSON. *)
Variable stderr : pystr → S → S.
Variable status : M (CSt (S := S)) bytes.

(** Two passes for each microsecond of the waiting time: [long_poll_ends]. *)
Definition long_poll_fuel : nat := Z.to_nat (2 * Z.max 0 (http_wait_timeout_ms cfg * 1000) + 2).

(** [coordinator.get] as the server runs it; running out of fuel is the last case. *)
Definition coordinator_get (path : pystr) (client if_none_match : option pystr)
    (fields : list (pystr * pystr)) : M (CSt (S := S)) DatastorePayload :=
  o ← get cfg long_poll_fuel path (QStr <$> client) if_none_match
        (Some (prod_map id QStr <$> fields));
  match o with
  | Some p => mret (_coerce_datastore_payload (inr p))
  | None => mraise AssertionError
  end.

Definition coordinator_post (path : pystr) (json_body : bytes) (client : option pystr)
    : M (CSt (S := S)) DatastorePayload :=
  p ← post cfg path json_body (QStr <$> client); mret (_coerce_datastore_payload (inr p)).

(** The backend [command_serve] gives to [MotuProxyServer]. *)
Definition proxy_backend (debug : bool) : Backend (CSt (S := S)) := {|
  run_get := coordinator_get;
  run_post := coordinator_post;
  log_write := λ method path body s,
    (s.1, stderr (if debug then log_write_attempt_debug method path body
                  else log_write_attempt method path body) s.2);
  status_provider := Some status
|}.

(** The socket of the connection of a request. *)
Variable read_body : http_request → Z → M (CSt (S := S)) bytes.
Variable send : response → M (CSt (S := S)) unit.

Definition serve_request (d : dispatcher) (debug : bool) (max_write_body_bytes : Z)
    (q : http_request) : CSt (S := S) → handled * CSt (S := S) :=
  handle_datastore_request (H0 := proxy_backend debug) (read_body q) send d debug max_write_body_bytes
    (hr_close q) (method_of (hr_verb q)) (hr_target q) (hr_headers q).

(** The state of a running server: what the poller captured, and the coordinator. *)
Definition server_state : Type := option (bool * pystr) * CSt (S := S).

Definition server_step (d : dispatcher) (debug : bool) (max_write_body_bytes : Z)
    (e : server_event) (x : server_state) : option handled * server_state :=
  let '(captured, s) := x in
  match e with
  | Served q =>
      let '(h, s') := serve_request d debug max_write_body_bytes q s in (Some h, (captured, s'))
  | PollStarts => (None, (poll_capture s.1, s))
  | Polls =>
      match captured with
      | Some (initial_refresh, etag) => (None, (None, (poll_held cfg initial_refresh etag s).2))
      | None => (None, x)
      end
  end.

(** The replies, and the state at the end. *)
Fixpoint run_server (d : dispatcher) (debug : bool) (max_write_body_bytes : Z)
    (es : list server_event) (x : server_state) : list (option handled) * server_state :=
  match es with
  | [] => ([], x)
  | e :: es =>
      let '(h, x) := server_step d debug max_write_body_bytes e x in
      let '(hs, x) := run_server d debug max_write_body_bytes es x in (h :: hs, x)
  end.
End Server.

(** A GET of the server never runs out of passes: it ends with a payload or the
    error of the device. *)
Lemma coordinator_get_total {S} `{CoordClock S} cfg path client inm fields (s : CSt (S := S)) :
  1 <= degraded_refresh_interval cfg →
  (get cfg (long_poll_fuel cfg) path (QStr <$> client) inm
     (Some (prod_map id QStr <$> fields)) s).1 ≠ Ok None.
Proof.
  intros Hi. apply get_ends; [done|]. unfold long_poll_fuel. rewrite Z2Nat.id by lia. lia.
Qed.

(** * What reaches the device *)

(** What a request asks to be written: the path and the client of its target, and the
    bytes its content type has read in the body it announced. *)
Definition asks_for `{HttpLib} (max : Z) (q : http_request) (path : pystr) (body : bytes)
    (client : option pystr) : Prop :=
  ∃ n raw, announced_length (hr_headers q) = Some n ∧ 0 <= n <= max ∧ n <= zlen (hr_body q) ∧
    utf8_decode (ztake n (hr_body q)) = Ok raw ∧
    write_named (hr_target q) raw (header_text (h_content_type (hr_headers q))) path body client.

(** A write request on the wire that a request was allowed to make: for the path, the
    body and the client that it asks for and that were checked, and nothing else. *)
Definition permitted_write `{HttpLib} (d : dispatcher) (max : Z) (q : http_request)
    (rq : Wire.request) : Prop :=
  ∃ path body client seq m pb fs,
    rq = post_request seq (s! "NREK") m pb fs body ∧ utf8_encode path = Ok pb ∧
    Forall2 utf8_pair (_normalize_query_fields (fields_of_client (QStr <$> client)) None) fs ∧
    asks_for max q path body client ∧
    write_allowed d path body client (h_origin (hr_headers q)) (h_host (hr_headers q))
      (read_write_token (hr_headers q)).

(** What an event may send, given its reply. *)
Inductive caused `{HttpLib} (d : dispatcher) (max : Z)
    : server_event → option handled → option Wire.request → Prop :=
  | caused_by_start : caused d max PollStarts None None
  | caused_by_poll : caused d max Polls None None
  | caused_nothing q h :
      (hr_verb q ≠ GET → r_status (h_response h) ≠ 200) → caused d max (Served q) (Some h) None
  | caused_write q h rq :
      hr_verb q ≠ GET → permitted_write d max q rq →
      caused d max (Served q) (Some h) (Some rq).

Section SafeWrites.
Context `{HttpLib} {S : Type} `{CoordWire S} (cfg : coord_cfg).
Variable stderr : pystr → S → S.
Variable status : M (CSt (S := S)) bytes.
Variable read_body : http_request → Z → M (CSt (S := S)) bytes.
Variable send : response → M (CSt (S := S)) unit.
(** The standard error stream, the status page and the connection are not the
    device. *)
Hypothesis stderr_silent : ∀ line w, coord_sent (stderr line w) = coord_sent w.
Hypothesis status_quiet : quiet csent status.
Hypothesis read_quiet : ∀ q n, quiet csent (read_body q n).
(** [rfile.read(n)]: the first [n] bytes of the body, or what there is of them. *)
Hypothesis read_bytes : ∀ q n s b s', read_body q n s = (Ok b, s') → b = ztake n (hr_body q).
Hypothesis send_quiet : ∀ r, quiet csent (send r).

Variables (d : dispatcher) (debug : bool) (max : Z).

#[local] Instance backend : Backend CSt := proxy_backend cfg stderr status debug.

#[local] Hint Resolve quiet_coordinator_get status_quiet read_quiet send_quiet : walk.

(** The outcome of a write request and the frames it sent. *)
Definition written (q : http_request) (A : Type) (r : result A) (new : list bytes) : Prop :=
  (posts_in new = [] ∧ is_ok r = false) ∨
  ∃ rq, posts_in new = [rq] ∧ permitted_write d max q rq.

Lemma written_stable q : stable (written q).
Proof.
  unfold written. split.
  - auto.
  - intros A r new new' Hn [[Hp Hr]|(rq & Hp & Hw)]; [left|right; exists rq];
      by rewrite posts_in_app, Hn, Hp.
  - intros A B r r' new new' Hr Hn [[Hp He]|(rq & Hp & Hw)]; [left|right; exists rq];
      rewrite posts_in_app, Hn, Hp; auto.
Qed.

Lemma quiet_run_get p c i f : quiet csent (run_get p c i f).
Proof. unfold run_get, backend, proxy_backend, coordinator_get. walk. Qed.

Lemma run_post_posted p b c : appends csent (posted p b (QStr <$> c)) (run_post p b c).
Proof.
  unfold run_post, backend, proxy_backend, coordinator_post.
  apply (appends_then _ _ (posted_stable _ _ _) (A := DatastorePayload));
    [apply coordinator_post_posted | intros ?; walk].
Qed.

Lemma quiet_dispatch_get target raw ct origin host token inm :
  quiet csent (dispatch_datastore_request (W := CSt) d (s! "GET") target raw ct origin host token inm).
Proof.
  pose proof quiet_run_get. unfold dispatch_datastore_request.
  change (is_get (s! "GET")) with true. cbn [status_provider backend proxy_backend].
  apply follows_bind; [exact _|walk|]. intros url. destruct (_ && _); walk.
Qed.

Lemma dispatch_written q n raw method inm :
  is_get method = false →
  announced_length (hr_headers q) = Some n → 0 <= n <= max → n <= zlen (hr_body q) →
  utf8_decode (ztake n (hr_body q)) = Ok raw →
  let h := hr_headers q in
  appends csent (written q DispatchResult)
    (dispatch_datastore_request (W := CSt) d method (hr_target q) raw (header_text (h_content_type h))
       (h_origin h) (h_host h) (read_write_token h) inm).
Proof.
  intros Hg Hl Hm Hn Hr h s.
  destruct (dispatch_write d method (hr_target q) raw (header_text (h_content_type h)) (h_origin h)
              (h_host h) (read_write_token h) inm s Hg)
    as [[e ->] | (path & b & client & Ha & Hnamed & ->)].
  { exists []. rewrite app_nil_r. split; [done|]. by left. }
  set (s1 := log_write method path b s).
  assert (csent s1 = csent s) as Hs1 by apply stderr_silent.
  destruct (run_post_posted path b client s1) as (new & E & Hp).
  destruct (run_post path b client s1) as [r s2]; cbn [fst snd] in *.
  exists new. rewrite Hs1 in E. split; [by destruct r|].
  destruct Hp as [e new Hp|r new seq m pb fs Hp Hu Hf]; [by left|]. right.
  eexists. split; [exact Hp|]. exists path, b, client, seq, m, pb, fs. split_and!; [done..| |done].
  by exists n, raw.
Qed.

(** The body of a request, as it is read. *)
Lemma raw_body_of q s raw s' :
  read_raw_body (read_body q) max (hr_headers q) s = (Ok raw, s') →
  ∃ n, announced_length (hr_headers q) = Some n ∧ 0 <= n <= max ∧ n <= zlen (hr_body q) ∧
       utf8_decode (ztake n (hr_body q)) = Ok raw.
Proof.
  intros E. apply read_raw_body_ok in E as (n & b & Hl & Hm & Hb & Hr & Hread).
  assert (b = ztake n (hr_body q)) as ->.
  { destruct Hread as [->|(w0 & w1 & Hread)]; [by destruct b|by eapply read_bytes]. }
  exists n. split_and!; [done|lia|lia| |done]. rewrite <- Hb at 1. unfold ztake, zlen.
  rewrite length_take. lia.
Qed.

Lemma quiet_raw_body q h : quiet csent (read_raw_body (read_body q) max h).
Proof. unfold read_raw_body, _read_exact_body_bytes. cbv zeta. walk. Qed.

Lemma error_not_200 e close : r_status (error_response debug e close) ≠ 200.
Proof.
  unfold error_response. pose proof (error_status_range e) as He. unfold error_status in He.
  destruct (error_clause e) as [st pub]. cbn in *. intros ->.
  repeat (apply elem_of_cons in He as [?|He]; [lia|]). by apply elem_of_nil in He.
Qed.

(** The frames of a response that is sent after some frames. *)
Lemma send_after r s1 s new :
  csent s1 = csent s ++ new →
  ∃ new', csent (send r s1).2 = csent s ++ new' ∧ posts_in new' = posts_in new.
Proof.
  intros E. destruct (send_quiet r s1) as (n2 & E2 & Q2). exists (new ++ n2).
  rewrite E2, E, app_assoc, posts_in_app, Q2, app_nil_r. done.
Qed.

#[local] Hint Resolve quiet_raw_body quiet_dispatch_get : walk.

(** What one request sends, and what its reply says of that. *)
Lemma serve_request_caused q s :
  let '(h, s') := serve_request cfg stderr status read_body send d debug max q s in
  ∃ new o, csent s' = csent s ++ new ∧ posts_in new = option_list o ∧
           caused d max (Served q) (Some h) o.
Proof.
  unfold serve_request, handle_datastore_request, request_failed, can_send_error_response, close_write_connection.
  fold backend.
  destruct (if is_get _ then close_get_connection_if_body_announced _ else _) as [an cl].
  match goal with |- context [match ?m s with _ => _ end] => set (run := m) end.
  assert (∀ r s1, run s = (r, s1) → ∃ new, csent s1 = csent s ++ new ∧
            if bool_decide (hr_verb q = GET) then posts_in new = [] else
            written q _ r new) as Hrun.
  { intros r s1 Er. destruct (bool_decide (hr_verb q = GET)) eqn:Ev.
    - apply bool_decide_eq_true in Ev. assert (quiet csent run) as Hq by (subst run; rewrite Ev; walk).
      destruct (Hq s) as (new & E & Q). rewrite Er in *. eauto.
    - assert (is_get (method_of (hr_verb q)) = false) as Hg by (by destruct (hr_verb q)).
      assert (appends csent (written q _) run) as Hq.
      { subst run. rewrite Hg. do 2 (apply (appends_bind _ _ (written_stable _)); [walk|intros ?]).
        apply (appends_known _ _ (written_stable _)); [walk|]. intros s0 raw s2 Hraw.
        apply raw_body_of in Hraw as (n & Hl & Hm & Hb & Hraw).
        rewrite dispatch_unlocked. by apply (dispatch_written q n). }
      destruct (Hq s) as (new & E & Q). rewrite Er in *. eauto. }
  destruct (run s) as [[result|e] s1]; destruct (Hrun _ _ eq_refl) as (new & E & Hn); clear Hrun run.
  - set (r := answer _ _ _). destruct (send_after r s1 s new E) as (new' & E' & Hp).
    assert (∃ o, posts_in new' = option_list o ∧
              ∀ h, caused d max (Served q) (Some h) o) as (o & Ho & Hc).
    { rewrite Hp. case_bool_decide as Hv; [exists None; split; [done|]; by constructor|].
      destruct Hn as [[_ [=]]|(rq & Hn & Hw)]. exists (Some rq). split; [done|]. by constructor. }
    destruct (send r s1) as [[] s2]; exists new', o; split_and!; eauto.
  - set (r := error_response _ _ _). destruct (send_after r s1 s new E) as (new' & E' & Hp).
    assert (∃ o, posts_in new' = option_list o ∧ ∀ h, h_response h = r →
              caused d max (Served q) (Some h) o) as (o & Ho & Hc).
    { rewrite Hp. case_bool_decide as Hv; [exists None; split; [done|]; by constructor|].
      destruct Hn as [[Hn _]|(rq & Hn & Hw)]; [exists None|exists (Some rq)]; split; auto.
      - intros h Hh. constructor. intros _. rewrite Hh. apply error_not_200.
      - by constructor. }
    destruct (send r s1) as [sent s2]. exists new', o. auto.
Qed.

(** What a run of the server sends, over a coordinator's device. *)
Lemma server_written es x :
  let '(replies, x') := run_server cfg stderr status read_body send d debug max es x in
  ∃ new posts, csent x'.2 = csent x.2 ++ new ∧ Forall3 (caused d max) es replies posts ∧
    posts_in new = omap id posts.
Proof.
  revert x. induction es as [|e es IH]; intros x; cbn [run_server].
  { exists [], []. rewrite app_nil_r. by repeat constructor. }
  assert (∃ new o h, csent (server_step cfg stderr status read_body send d debug max e x).2.2
                    = csent x.2 ++ new ∧ posts_in new = option_list o ∧
                   (server_step cfg stderr status read_body send d debug max e x).1 = h ∧
                   caused d max e h o) as (n1 & o & h & E1 & Hp1 & Hh & Hc).
  { destruct x as [captured s]. destruct e as [q| |]; cbn [server_step].
    - pose proof (serve_request_caused q s) as Hs. destruct (serve_request _ _ _ _ _ _ _ _ _ _) as [h s1].
      destruct Hs as (new & o & ? & ? & ?). by exists new, o, (Some h).
    - exists [], None, None. rewrite app_nil_r. split_and!; auto. constructor.
    - destruct captured as [[i e]|].
      + destruct (quiet_poll cfg i e s) as (new & ? & ?). exists new, None, None.
        split_and!; auto. constructor.
      + exists [], None, None. rewrite app_nil_r. split_and!; auto. constructor. }
  destruct (server_step _ _ _ _ _ _ _ _ e x) as [h' x1]. cbn [fst snd] in *. subst h'.
  specialize (IH x1). destruct (run_server _ _ _ _ _ _ _ _ es x1) as [hs x2].
  destruct IH as (n2 & posts & E2 & Hf & Hp2). exists (n1 ++ n2), (o :: posts).
  rewrite E2, E1, app_assoc, posts_in_app, Hp1, Hp2. split_and!; auto; [by constructor|].
  by destruct o.
Qed.
End SafeWrites.

(** * The proxy over USB *)

(** A transport and its host have a clock that never goes back. *)
Class UsbClock (W : Type) `{UsbEnv W} := {
  time_of : W → Z;
  monotonic_reads w : (monotonic w).1 = time_of w;
  time_forward : usb_follows (λ w w', time_of w <= time_of w') (λ _, True)
}.

#[global] Instance time_preorder {W} (t : W → Z) : PreOrder (λ w w', t w <= t w').
Proof. split; [intros w | intros a b c]; lia. Qed.

Section UsbStack.
Context {W : Type} `{UsbEnv W} `{SessionOps datastore W}.
Variable poll_callbacks : bool → callbacks (W := W).
Variable wait_on : Z → coordinator * MSt datastore W → coordinator * MSt datastore W.
Variable acquire_fg : W → result unit * W.
Variable acquire_poll : coordinator * MSt datastore W → bool * (coordinator * MSt datastore W).
Variable release : W → W.
Variable key_of : exn → pystr * pystr.
Variable log_to : pystr * pystr → W → W.

(** What the arbitration, the condition and the log do to the world, for a preorder. *)
Record host_follows (R : W → W → Prop) : Prop := {
  hf_wait t s : R s.2.2 (wait_on t s).2.2;
  hf_acquire w : R w (acquire_fg w).2;
  hf_release w : R w (release w);
  hf_log k w : R w (log_to k w)
}.

#[local] Instance usb_env : CoordEnv (MSt datastore W) :=
  usb_coordinator poll_callbacks wait_on acquire_fg acquire_poll release key_of log_to.

(** The coordinator's calls over USB sessions. *)
Lemma usb_calls_follow (R : W → W → Prop) `{!PreOrder R} (plain : bytes → Prop) :
  usb_follows R plain → session_follows R → host_follows R → coord_follows (on_world R).
Proof.
  intros Hu Hs Hh. split; unfold on_world; cbn.
  - intros [m w]. cbn. pose proof (uf_monotonic R plain Hu w) as Hm. by destruct (monotonic w).
  - apply (hf_wait R Hh).
  - intros [m w]. cbn. pose proof (hf_acquire R Hh w). by destruct (acquire_fg w).
  - intros [m w]. apply (hf_release R Hh).
  - intros k [m w]. apply (hf_log R Hh).
  - intros p e c t f s. apply (walk_call R Hs). intros d w.
    apply (walk_usb_get R plain Hu p e c t no_callbacks f (no_callbacks_follow R) (d, w)).
Qed.

(** Reads of the proxy send no write request and its writes at most one: the
    coordinator's view of the wire, over USB. *)
Definition usb_wire `{!UsbLog W}
    (Hs : session_follows (asks sent)) (Hh : host_follows (λ w w', sent w' = sent w))
    (Hc : ∀ i, callbacks_follow (asks sent) (poll_callbacks i)) : CoordWire (MSt datastore W).
Proof.
  refine {| coord_sent := managed_sent sent |}; unfold managed_sent; cbn.
  - intros [m w]. cbn. pose proof (sent_monotonic w) as Hm. by destruct (monotonic w).
  - apply (hf_wait _ Hh).
  - intros [m w]. cbn. pose proof (hf_acquire _ Hh w). by destruct (acquire_fg w).
  - intros [m w]. apply (hf_release _ Hh).
  - intros k [m w]. apply (hf_log _ Hh).
  - intros p e c t f. apply (walk_call (asks sent) Hs). intros d w.
    exact (walk_usb_get (asks sent) asking asking_follows p e c t no_callbacks f
             (no_callbacks_follow _) (d, w)).
  - intros p e t i. apply (walk_call (asks sent) Hs). intros d w.
    exact (walk_usb_get (asks sent) asking asking_follows p e None t _ None (Hc i) (d, w)).
  - intros p j c. apply (call_appends sent Hs (λ A, posted p j c)); [apply posted_stable|].
    intros d w. exact (usb_post_posted p j c DEFAULT_RESPONSE_TIMEOUT_MS (d, w)).
Defined.

(** Its time, when waiting takes some. *)
Definition usb_coord_clock `{!UsbClock W}
    (Hs : session_follows (λ w w', time_of w <= time_of w'))
    (Hh : host_follows (λ w w', time_of w <= time_of w'))
    (Hw : ∀ t s, time_of s.2.2 < time_of (wait_on t s).2.2) : CoordClock (MSt datastore W).
Proof.
  pose proof (usb_calls_follow _ _ time_forward Hs Hh) as Hf.
  refine {| clock_of := λ s, time_of s.2 |}.
  - intros [m w]. cbn. pose proof (monotonic_reads w) as Hm. by destruct (monotonic w).
  - apply (kf_now _ Hf).
  - apply Hw.
  - apply (kf_get _ Hf).
  - apply (kf_acquire _ Hf).
  - apply (kf_release _ Hf).
  - apply (kf_log _ Hf).
Defined.
End UsbStack.

(** * The whole proxy *)

Section Proxy.
Context `{HttpLib} {W : Type} `{HU : UsbEnv W} `{HL : !UsbLog W} {Dev : Type}.
(** Finding the device and opening its transport; the options of a session. *)
Variable find_motu_device : W → result Dev * W.
Variable transport_open : Dev → W → result unit * W.
Variable transport_close : W → result unit * W.
Variables (seq_start message_seq : Z) (no_init : bool).
(** The host: threads, the error log, the status page and the connections. *)
Variable poll_callbacks : bool → callbacks (W := W).
Variable wait_on : Z → coordinator * MSt datastore W → coordinator * MSt datastore W.
Variable acquire_fg : W → result unit * W.
Variable acquire_poll : coordinator * MSt datastore W → bool * (coordinator * MSt datastore W).
Variable release : W → W.
Variable key_of : exn → pystr * pystr.
Variable log_to : pystr * pystr → W → W.
Variable stderr : pystr → MSt datastore W → MSt datastore W.
Variable status : M (coordinator * MSt datastore W) bytes.
Variable read_body : http_request → Z → M (coordinator * MSt datastore W) bytes.
Variable send : response → M (coordinator * MSt datastore W) unit.

#[local] Instance proxy_sessions : SessionOps datastore W :=
  usb_session find_motu_device transport_open transport_close seq_start message_seq no_init.
#[local] Instance proxy_env : CoordEnv (MSt datastore W) :=
  usb_coordinator poll_callbacks wait_on acquire_fg acquire_poll release key_of log_to.

(** Nothing but the USB client sends frames: not the host, nor the opening of a
    transport; and a connection gives the bytes of its request. *)
Record host_apart : Prop := {
  ap_find w : sent (find_motu_device w).2 = sent w;
  ap_open dev w : sent (transport_open dev w).2 = sent w;
  ap_close w : sent (transport_close w).2 = sent w;
  ap_cancel i f w : should_cancel (poll_callbacks i) = Some f → sent (f w).2 = sent w;
  ap_started i f b w : read_started (poll_callbacks i) = Some f → sent (f b w) = sent w;
  ap_host : host_follows wait_on acquire_fg release log_to (λ w w', sent w' = sent w);
  ap_stderr line s : sent (stderr line s).2 = sent s.2;
  ap_status s : sent (status s).2.2.2 = sent s.2.2;
  ap_read q n s : sent (read_body q n s).2.2.2 = sent s.2.2;
  ap_send r s : sent (send r s).2.2.2 = sent s.2.2;
  ap_body q n s b s' : read_body q n s = (Ok b, s') → b = ztake n (hr_body q)
}.

Lemma apart_sessions : host_apart → session_follows (asks sent).
Proof.
  intros Ha. apply (usb_session_follows _ asking). split; [apply asking_follows|..];
    intros; apply asks_same; by apply Ha.
Qed.

Lemma apart_callbacks : host_apart → ∀ i, callbacks_follow (asks sent) (poll_callbacks i).
Proof. intros Ha i. split; intros; apply asks_same; by eapply Ha. Qed.

(** C1. The device is written only by the requests that may, and by each at most once:
    whatever the requests, the passes of the poller, the failures of the device and the
    reconnections, the write requests on the wire are, in the order of the events, at
    most one for each POST or PATCH.  Each goes to exactly the path of the request's
    target, with its client id and the bytes of the body it announced (or of the field
    [json] of a form), and these passed every check; reads, polls, the first exchange
    of a session and refreshes send none.  A write answered with 200 was sent.  This is
    the HTTP handler over the coordinator, over the session manager, over the USB
    client, for any transport that logs its frames. *)
Theorem device_written_by_requests cfg d debug max es x :
  host_apart →
  let '(replies, x') := run_server cfg stderr status read_body send d debug max es x in
  ∃ new posts, sent x'.2.2.2 = sent x.2.2.2 ++ new ∧ Forall3 (caused d max) es replies posts ∧
    posts_in new = omap id posts.
Proof.
  intros Ha.
  set (wire := usb_wire _ _ _ acquire_poll _ key_of _ (apart_sessions Ha) (ap_host Ha) (apart_callbacks Ha)).
  apply (server_written (H1 := wire) cfg stderr status read_body send).
  - intros line s. apply (ap_stderr Ha).
  - intros s. apply asks_same, (ap_status Ha).
  - intros q n s. apply asks_same, (ap_read Ha).
  - apply (ap_body Ha).
  - intros r s. apply asks_same, (ap_send Ha).
Qed.
End Proxy.

(** ** The scripted device *)

(** A server over it: a client writes and reads, a page of another origin and a
    client without the token do not get through. *)
Definition demo_headers (origin token : option pystr) : headers :=
  {| h_origin := origin; h_host := Some (s! "localhost:1280"); h_token := token;
     h_authorization := None; h_content_type := Some (s! "application/json");
     h_if_none_match := None; h_transfer_encoding := None; h_content_length := Some (s! "15") |}.

Definition demo_request (v : verb) (origin token : option pystr) : http_request :=
  {| hr_verb := v; hr_target := s! "/datastore/host/os?client=7";
     hr_headers := demo_headers origin token; hr_body := demo_body ++ s! "GET /"; hr_close := false |}.

(** The poller starts a pass before the write and asks the device after it. *)
Definition demo_events : list server_event :=
  [Served (demo_request POST (Some (s! "http://evil")) (Some (s! "secret")));
   Served (demo_request PATCH None None);
   PollStarts;
   Served (demo_request POST (Some (s! "http://localhost:1280")) (Some (s! "secret")));
   Polls;
   Served (demo_request GET None None)].

Definition demo_start : server_state (S := MSt datastore script) :=
  (None, (coordinator_init 1,
   (open_usb, {| sc_clock := 0; sc_out := [];
                 sc_in := [reply_packet 2 (s! "8") (s! "{}");
                           reply_packet 3 (s! "8") (s! "{}");
                           reply_packet 4 (s! "9") (s! "{}");
                           reply_packet 5 (s! "9") demo_body] |}))).

Definition demo_read (q : http_request) (n : Z) : M (coordinator * MSt datastore script) bytes :=
  λ s, (Ok (ztake n (hr_body q)), s).

Definition demo_env : CoordEnv (MSt datastore script) :=
  proxy_env (HU := script_env) (λ w, (Ok tt, w)) (λ _ w, (Ok tt, w)) (λ w, (Ok tt, w)) 0x20 2 true
    (λ _, no_callbacks) (λ _ s, s) (λ w, (Ok tt, w)) (λ w, (true, w)) id (λ _, ([], [])) (λ _, id).

Lemma demo_apart :
  host_apart (HL := script_log) (λ w, (Ok tt, w)) (λ _ w, (Ok tt, w)) (λ w, (Ok tt, w))
    (λ _, no_callbacks) (λ _ s, s) (λ w, (Ok tt, w)) id (λ _, id) (λ _, id) (λ s, (Ok [], s))
    demo_read (λ _ s, (Ok tt, s)).
Proof. constructor; try reflexivity; try (intros; discriminate); [by split|]. by intros q n s b s' [= <- _]. Qed.

Definition demo_run : list (option handled) * server_state (S := MSt datastore script) :=
  run_server (H := demo_lib) (H0 := demo_env) (default_cfg true) (λ _, id)
    (λ s, (Ok [], s)) demo_read (λ _ s, (Ok tt, s)) demo_dispatcher false 61440
    demo_events demo_start.

Definition demo_posts : list Wire.request :=
  [post_request 0x20 (s! "NREK") 2 (s! "/datastore/host/os") [(s! "client", s! "7")] demo_body].

Lemma device_written_by_requests_witness :
  posts_in (sc_out demo_run.2.2.2.2) = demo_posts ∧
  ∃ posts, omap id posts = demo_posts ∧
    Forall3 (caused (H := demo_lib) demo_dispatcher 61440) demo_events demo_run.1 posts.
Proof.
  assert (posts_in (sc_out demo_run.2.2.2.2) = demo_posts) as Hp by (vm_compute; reflexivity).
  assert (let '(replies, x') := demo_run in
          ∃ new posts, sc_out x'.2.2.2 = sc_out demo_start.2.2.2 ++ new ∧
            Forall3 (caused (H := demo_lib) demo_dispatcher 61440) demo_events replies posts ∧
            posts_in new = omap id posts) as Hr.
  { apply (device_written_by_requests (H := demo_lib) (HL := script_log)
      (λ w, (Ok tt, w)) (λ _ w, (Ok tt, w)) (λ w, (Ok tt, w)) 0x20 2 true (λ _, no_callbacks)
      (λ _ s, s) (λ w, (Ok tt, w)) (λ w, (true, w)) id (λ _, ([], [])) (λ _, id) (λ _, id)
      (λ s, (Ok [], s)) demo_read (λ _ s, (Ok tt, s)) (default_cfg true) demo_dispatcher false 61440
      demo_events demo_start).
    apply demo_apart. }
  destruct demo_run as [replies x']. cbn [fst snd] in *. split; [exact Hp|].
  destruct Hr as (new & posts & En & Hf & Hn).
  exists posts. split; [|exact Hf]. rewrite <- Hn, <- Hp, En. reflexivity.
Defined.
