(* ===== verification/Threads.v ===== *)
(** Threads that share a state.

    A piece of Python that runs beside other threads is a program: a tree of
    atomic actions on the shared state, each of which may block.  Programs are
    composed with the exceptions of the other files.  A loop that the source does
    not bound is given fuel; a program out of fuel stops at [OutOfFuel].

    What a program does among other threads is shown with a rely-guarantee
    logic: [wp] follows the tree, lets the other threads act (the rely) before
    each action and at the end, asks each action to stay within the guarantee,
    and says in which states the program may be blocked.  [together] composes
    the proofs: in every interleaving of a main thread with any number of others
    and an environment, each thread keeps its own. *)
From stdpp Require Import relations.
From S2P Require Import Prelude.

(** * Programs *)

Inductive prog (S A : Type) : Type :=
  | Done (r : result A)
  | Act (X : Type) (f : S → option (X * S)) (k : X → prog S A)
  | OutOfFuel.
Arguments Done {_ _} _.
Arguments Act {_ _} _ _ _.
Arguments OutOfFuel {_ _}.

(** What follows a program, whichever way it ends. *)
Fixpoint pthen {S A B} (p : prog S A) (k : result A → prog S B) : prog S B :=
  match p with
  | Done r => k r
  | Act X f c => Act X f (λ x, pthen (c x) k)
  | OutOfFuel => OutOfFuel
  end.

#[global] Instance prog_ret {S} : MRet (prog S) := λ A a, Done (Ok a).
#[global] Instance prog_bind {S} : MBind (prog S) := λ A B k p,
  pthen p (λ r, match r with Ok a => k a | Err e => Done (Err e) end).

Definition praise {S A} (e : exn) : prog S A := Done (Err e).
Definition plift {S A} (r : result A) : prog S A := Done r.
Definition pcatch {S A} (p : prog S A) (h : exn → prog S A) : prog S A :=
  pthen p (λ r, match r with Ok a => Done (Ok a) | Err e => h e end).
Definition pfinally {S A} (p : prog S A) (f : prog S unit) : prog S A :=
  pthen p (λ r, pthen f (λ q, match q with Ok _ => Done r | Err e => Done (Err e) end)).

(** An atomic read, an atomic update, an atomic action with an answer, and one
    that may block. *)
Definition pget {S A} (f : S → A) : prog S A := Act A (λ s, Some (f s, s)) mret.
Definition pput {S} (f : S → S) : prog S unit := Act unit (λ s, Some (tt, f s)) mret.
Definition pact {S A} (f : S → result A * S) : prog S A :=
  Act (result A) (λ s, Some (f s)) Done.
Definition pblock {S A} (f : S → option (result A * S)) : prog S A :=
  Act (result A) f Done.

(** * The logic *)

Section Logic.
Context {S : Type}.
Implicit Types (R G : S → S → Prop) (B : S → Prop).

(** [t] asks that the fuel is enough; [B] holds wherever the program is blocked. *)
Fixpoint wp (t : bool) R G B {A} (p : prog S A) (Q : result A → S → Prop) (s : S) : Prop :=
  match p with
  | Done r => ∀ s', R s s' → Q r s'
  | Act X f k => ∀ s', R s s' →
      match f s' with
      | None => B s'
      | Some (x, s'') => G s' s'' ∧ wp t R G B (k x) Q s''
      end
  | OutOfFuel => t = false
  end.

Lemma wp_mono t R G B {A} (p : prog S A) (Q Q' : result A → S → Prop) s :
  wp t R G B p Q s → (∀ r s', Q r s' → Q' r s') → wp t R G B p Q' s.
Proof.
  intros Hp HQ. revert s Hp. induction p as [r | X f k IH | ]; simpl; [by eauto| |done].
  intros s Hp s' Hs. specialize (Hp s' Hs). destruct (f s') as [[x s'']|]; [|done].
  destruct Hp as [HG Hp]. auto.
Qed.

Lemma wp_rely t R G B {A} (p : prog S A) (Q : result A → S → Prop) s s' :
  Transitive R → wp t R G B p Q s → R s s' → wp t R G B p Q s'.
Proof.
  intros HR. destruct p; simpl; [| |done]; intros Hp Hs s'' Hs''; apply Hp; by transitivity s'.
Qed.

Lemma wp_then t R G B {A C} (p : prog S A) (k : result A → prog S C)
    (Q : result C → S → Prop) s :
  Reflexive R → wp t R G B p (λ r, wp t R G B (k r) Q) s → wp t R G B (pthen p k) Q s.
Proof.
  intros HR. revert s. induction p as [r | X f c IH | ]; simpl; [by eauto| |done].
  intros s Hp s' Hs. specialize (Hp s' Hs). destruct (f s') as [[x s'']|]; [|done].
  destruct Hp as [HG Hp]. auto.
Qed.

Lemma wp_bind t R G B {A C} (p : prog S A) (k : A → prog S C) (Q : result C → S → Prop) s :
  Reflexive R →
  wp t R G B p (λ r, match r with
                     | Ok a => wp t R G B (k a) Q
                     | Err e => wp t R G B (Done (Err e)) Q
                     end) s →
  wp t R G B (p ≫= k) Q s.
Proof.
  intros HR Hp. apply wp_then; [done|]. eapply wp_mono; [exact Hp|]. by intros [a|e] s'.
Qed.

Lemma wp_catch t R G B {A} (p : prog S A) (h : exn → prog S A) (Q : result A → S → Prop) s :
  Reflexive R →
  wp t R G B p (λ r, match r with
                     | Ok a => wp t R G B (Done (Ok a)) Q
                     | Err e => wp t R G B (h e) Q
                     end) s →
  wp t R G B (pcatch p h) Q s.
Proof.
  intros HR Hp. apply wp_then; [done|]. eapply wp_mono; [exact Hp|]. by intros [a|e] s'.
Qed.

(** Weaker relations for a weaker claim. *)
Lemma wp_conseq t R G B R' G' B' {A} (p : prog S A) (Q : result A → S → Prop) s :
  (∀ x y, R' x y → R x y) → (∀ x y, G x y → G' x y) → (∀ x, B x → B' x) →
  wp t R G B p Q s → wp t R' G' B' p Q s.
Proof.
  intros HR HG HB. revert s. induction p as [r | X f k IH | ]; simpl; [by eauto| |done].
  intros s Hp s' Hs. specialize (Hp s' (HR _ _ Hs)). destruct (f s') as [[x s'']|]; [|by auto].
  destruct Hp as [? Hp]. auto.
Qed.

(** What every step of a program and of the others does holds from its start to
    its end. *)
Lemma wp_steps t R G B T {A} (p : prog S A) (Q : result A → S → Prop) s0 s :
  PreOrder T → (∀ x y, R x y → T x y) → (∀ x y, G x y → T x y) →
  T s0 s → wp t R G B p Q s → wp t R G B p (λ r s', Q r s' ∧ T s0 s') s.
Proof.
  intros HT HR HG. revert s. induction p as [r | X f k IH | ]; simpl.
  - intros s H0 Hp s' Hs. split; [by auto|]. etransitivity; eauto.
  - intros s H0 Hp s' Hs. specialize (Hp s' Hs). destruct (f s') as [[x s'']|]; [|done].
    destruct Hp as [Hg Hp]. split; [done|]. apply IH; [|done].
    transitivity s'; [|by auto]. transitivity s; auto.
  - done.
Qed.

(** ** One action *)

Lemma wp_done t R G B {A} (r : result A) (Q : result A → S → Prop) s :
  (∀ s', R s s' → Q r s') → wp t R G B (Done r) Q s.
Proof. done. Qed.

Lemma wp_get t R G B {A C} (f : S → A) (k : A → prog S C) (Q : result C → S → Prop) s :
  Reflexive G → (∀ s', R s s' → wp t R G B (k (f s')) Q s') → wp t R G B (pget f ≫= k) Q s.
Proof. intros HG Hk s' Hs. split; [done|]. by apply Hk. Qed.

Lemma wp_put t R G B {C} (f : S → S) (k : unit → prog S C) (Q : result C → S → Prop) s :
  (∀ s', R s s' → G s' (f s') ∧ wp t R G B (k tt) Q (f s')) → wp t R G B (pput f ≫= k) Q s.
Proof. done. Qed.

Lemma wp_act t R G B {A} (f : S → result A * S) (Q : result A → S → Prop) s :
  (∀ s', R s s' → G s' (f s').2 ∧ ∀ s'', R (f s').2 s'' → Q (f s').1 s'') →
  wp t R G B (pact f) Q s.
Proof. intros H s' Hs. specialize (H s' Hs). by destruct (f s'). Qed.

Lemma wp_act_bind t R G B {A C} (f : S → result A * S) (k : A → prog S C)
    (Q : result C → S → Prop) s :
  (∀ s', R s s' → G s' (f s').2 ∧
     match (f s').1 with
     | Ok a => wp t R G B (k a) Q (f s').2
     | Err e => wp t R G B (Done (Err e)) Q (f s').2
     end) →
  wp t R G B (pact f ≫= k) Q s.
Proof. intros H s' Hs. specialize (H s' Hs). destruct (f s') as [[a|e] s'']; done. Qed.

(** ** Interleavings *)

(** A main thread, the other threads and the shared state. *)
Record pool (A C : Type) := {
  main : prog S A;
  others : list (prog S C);
  shared : S
}.

End Logic.
Arguments pool _ _ _ : clear implicits.
#[global] Arguments wp : simpl never.
Arguments main {_ _ _} _.
Arguments others {_ _ _} _.
Arguments shared {_ _ _} _.

Section Interleaving.
Context {S A C : Type} (env : S → S → Prop).

Inductive pstep : pool S A C → pool S A C → Prop :=
  | step_main X f k x os s s' :
      f s = Some (x, s') →
      pstep {| main := Act X f k; others := os; shared := s |}
            {| main := k x; others := os; shared := s' |}
  | step_other X f k x m os i s s' :
      os !! i = Some (Act X f k) → f s = Some (x, s') →
      pstep {| main := m; others := os; shared := s |}
            {| main := m; others := <[i := k x]> os; shared := s' |}
  | step_env m os s s' :
      env s s' →
      pstep {| main := m; others := os; shared := s |}
            {| main := m; others := os; shared := s' |}.

(** The main thread cannot act. *)
Definition main_blocked (c : pool S A C) : Prop :=
  match main c with
  | Act X f k => f (shared c) = None
  | _ => False
  end.

Section Sound.
Context (t : bool) (Rm Gm Ro Go : S → S → Prop) (Bm Bo : S → Prop)
        (Qm : result A → S → Prop) (Qo : result C → S → Prop).
Context `{!PreOrder Rm, !PreOrder Ro}.
Hypothesis main_to_other : ∀ s s', Gm s s' → Ro s s'.
Hypothesis other_to_main : ∀ s s', Go s s' → Rm s s'.
Hypothesis other_to_other : ∀ s s', Go s s' → Ro s s'.
Hypothesis env_to_main : ∀ s s', env s s' → Rm s s'.
Hypothesis env_to_other : ∀ s s', env s s' → Ro s s'.

Definition pool_ok (c : pool S A C) : Prop :=
  wp t Rm Gm Bm (main c) Qm (shared c) ∧
  Forall (λ p, wp t Ro Go Bo p Qo (shared c)) (others c).

Lemma pstep_ok c c' : pool_ok c → pstep c c' → pool_ok c'.
Proof using All.
  intros [Hm Ho] Hs.
  destruct Hs as [X f k x os s s' Hf | X f k x m os i s s' Hi Hf | m os s s' He];
    unfold pool_ok in *; simpl in *.
  - specialize (Hm s ltac:(reflexivity)). rewrite Hf in Hm. destruct Hm as [HG Hm].
    split; [done|]. eapply Forall_impl; [|exact Ho]. intros p Hp.
    eapply wp_rely; [apply _|exact Hp|by apply main_to_other].
  - pose proof (Forall_lookup_1 _ _ _ _ Ho Hi) as Hp. cbn beta in Hp.
    specialize (Hp s ltac:(reflexivity)). rewrite Hf in Hp. destruct Hp as [HG Hp].
    split; [eapply wp_rely; [apply _|exact Hm|by apply other_to_main]|].
    apply Forall_insert; [|done]. eapply Forall_impl; [|exact Ho]. intros q Hq.
    eapply wp_rely; [apply _|exact Hq|by apply other_to_other].
  - split; [eapply wp_rely; [apply _|exact Hm|by apply env_to_main]|].
    eapply Forall_impl; [|exact Ho]. intros q Hq.
    eapply wp_rely; [apply _|exact Hq|by apply env_to_other].
Qed.

(** In every interleaving: a main thread that has ended has its
    postcondition, one that is blocked is so where it may be, and with [t] it
    never runs out of fuel. *)
Lemma together c c' :
  pool_ok c → rtc pstep c c' →
  (∀ r, main c' = Done r → Qm r (shared c')) ∧
  (main_blocked c' → Bm (shared c')) ∧
  (t = true → main c' ≠ OutOfFuel).
Proof using All.
  intros H0 Hr. assert (pool_ok c') as [Hm _].
  { induction Hr as [|c1 c2 c3 H12 _ IH]; [done|]. apply IH. by eapply pstep_ok. }
  split_and!.
  - intros r Hd. rewrite Hd in Hm. by apply Hm.
  - unfold main_blocked. destruct (main c') as [|X f k|]; [done| |done]. intros Hb.
    specialize (Hm (shared c') ltac:(reflexivity)). by rewrite Hb in Hm.
  - intros Ht Hd. rewrite Hd in Hm. simpl in Hm. congruence.
Qed.
End Sound.
End Interleaving.

(** * Running under a schedule *)

(** One turn: the main thread, another thread or a step of the environment. *)
Inductive turn (S : Type) :=
  | Main
  | Other (i : nat)
  | Env (f : S → S).
Arguments Main {_}.
Arguments Other {_} _.
Arguments Env {_} _.

Definition take_turn {S A C} (u : turn S) (c : pool S A C) : option (pool S A C) :=
  match u with
  | Main =>
      match main c with
      | Act X f k => '(x, s) ← f (shared c);
                     Some {| main := k x; others := others c; shared := s |}
      | _ => None
      end
  | Other i =>
      match others c !! i with
      | Some (Act X f k) =>
          '(x, s) ← f (shared c);
          Some {| main := main c; others := <[i := k x]> (others c); shared := s |}
      | _ => None
      end
  | Env f => Some {| main := main c; others := others c; shared := f (shared c) |}
  end.

Definition take_turns {S A C} (l : list (turn S)) (c : pool S A C) : option (pool S A C) :=
  foldl (λ o u, o ≫= take_turn u) (Some c) l.

Definition env_turns {S} (env : S → S → Prop) (l : list (turn S)) : Prop :=
  Forall (λ u, match u with Env f => ∀ s, env s (f s) | _ => True end) l.

Lemma take_turn_step {S A C} (env : S → S → Prop) u (c c' : pool S A C) :
  env_turns env [u] → take_turn u c = Some c' → pstep env c c'.
Proof.
  intros Hu Ht. destruct c as [m os s]. destruct u as [|i|f]; simpl in Ht.
  - destruct m as [|X f k|]; [done| |done]. destruct (f s) as [[x s']|] eqn:E; [|done].
    injection Ht as <-. by constructor.
  - destruct (os !! i) as [[|X f k|]|] eqn:Ei; try done.
    destruct (f s) as [[x s']|] eqn:E; [|done]. injection Ht as <-. by econstructor.
  - injection Ht as <-. constructor. by inversion Hu.
Qed.

Lemma take_turns_steps {S A C} (env : S → S → Prop) l (c c' : pool S A C) :
  env_turns env l → take_turns l c = Some c' → rtc (pstep env) c c'.
Proof.
  unfold take_turns. revert c. induction l as [|u l IH]; intros c Hl Ht; simpl in Ht.
  - by injection Ht as <-.
  - inversion Hl; subst. destruct (take_turn u c) as [c1|] eqn:E.
    + eapply rtc_l; [|by apply IH]. eapply take_turn_step; [|done]. by repeat constructor.
    + exfalso. clear -Ht. induction l; simpl in Ht; [done|auto].
Qed.
