(* ===== verification/Urb.v ===== *)
(** The cancellable bulk read (class [UsbFsCancellableBulkRead] of
    motu_proxy/transports/usbfs.py).

    One thread calls [read], which hands a USB request block (URB) to the kernel
    and waits for it; any number of other threads may call [cancel] at any
    moment.  The object has no lock around its flags, so every access of an
    attribute and every system call is an action of its own ([Threads]).

    The kernel's side of usbfs is the class [UrbKernel], with the documented
    behaviour of its system calls as the laws of [UrbLaws].  The wake-up pipe is
    a counter of the bytes in it; a write after the reader took the pipe away
    fails with [EBADF] (in the window before the ends are closed it would go
    unread: nothing is waiting then).  Times are integer microseconds.  The two
    loops the source does not bound take fuel.

    [UrbLogic] proves what each operation does among the others, [UrbRace] what
    that means for a whole read. *)
From stdpp Require Import relations.
From S2P Require Import Prelude PyText Protocol Managed Threads.

(** * The kernel *)

Definition EINTR : Z := 4.
Definition EIO : Z := 5.
Definition EBADF : Z := 9.
Definition EAGAIN : Z := 11.
Definition EINVAL : Z := 22.
Definition ETIMEDOUT : Z := 110.
Definition ECANCELED : Z := 125.

(** [OSError(n, ...)] makes the subclass of the error number. *)
Definition os_error (n : Z) : exn :=
  if n =? EINTR then InterruptedError
  else if n =? ETIMEDOUT then TimeoutError
  else if (n =? 1) || (n =? 13) then PermissionError
  else OSError n.

(** [exc.errno] of an [OSError]. *)
Definition errno_of (e : exn) : option Z :=
  match e with
  | OSError n => Some n
  | InterruptedError => Some EINTR
  | TimeoutError => Some ETIMEDOUT
  | PermissionError => Some 13
  | _ => None
  end.

Definition errno_in (e : exn) (l : list Z) : bool :=
  match errno_of e with Some n => bool_decide (n ∈ l) | None => false end.

Lemma errno_in_os_error e l :
  (∀ n, n ∈ l → n ≠ EINTR ∧ n ≠ ETIMEDOUT ∧ n ≠ 13) →
  errno_in (os_error e) l = true → e ∈ l.
Proof.
  intros Hl. unfold errno_in, os_error, errno_of. repeat case_match; zbool; simplify_eq;
    try done; rewrite bool_decide_eq_true; intros Hin; naive_solver.
Qed.

(** Where the URB of this read is: with its owner, at work, or finished and
    waiting to be reaped. *)
Inductive urb_state :=
  | Idle
  | InFlight
  | Completed.

#[global] Instance urb_state_eq_dec : EqDecision urb_state.
Proof. solve_decision. Defined.

(** A system call answers with an error number or a value. *)
Class UrbKernel (K : Type) := {
  know : K → Z;
  urb : K → urb_state;
  gone : K → bool;
  fd_ready : K → bool;
  (** The fields [status] and [actual_length] of the URB and its buffer. *)
  urb_status : K → Z;
  urb_actual_length : K → Z;
  urb_buffer : K → bytes;
  urb_address : Z;
  sys_submit : K → option Z * K;
  sys_discard : K → option Z * K;
  sys_reap_ndelay : K → (Z + Z) * K;
  (** [None] while it blocks. *)
  sys_reap : K → option ((Z + Z) * K);
  sys_pipe : K → option Z * K;
  (** What the kernel does by itself. *)
  kstep : K → K → Prop
}.

Definition memory `{UrbKernel K} (k : K) : Z * Z * bytes :=
  (urb_status k, urb_actual_length k, urb_buffer k).

(** What no call undoes. *)
Record kernel_goes_on `{UrbKernel K} (k k' : K) : Prop := {
  go_now : know k <= know k';
  go_gone : gone k = true → gone k' = true
}.

(** Documented behaviour of usbfs. *)
Class UrbLaws (K : Type) `{UrbKernel K} := {
  kstep_preorder :: PreOrder kstep;
  kstep_on k k' : kstep k k' → kernel_goes_on k k';
  kstep_urb k k' : kstep k k' → urb k' = urb k ∨ urb k = InFlight ∧ urb k' = Completed;
  kstep_memory k k' : kstep k k' → urb k ≠ InFlight → memory k' = memory k;
  kstep_ready k k' : kstep k k' → fd_ready k = true → fd_ready k' = true;

  submit_on k : kernel_goes_on k (sys_submit k).2;
  submit_urb k : urb k = Idle →
    urb (sys_submit k).2 = match (sys_submit k).1 with None => InFlight | Some _ => Idle end;

  discard_on k : kernel_goes_on k (sys_discard k).2;
  discard_ok k : (sys_discard k).1 = None →
    urb k = InFlight ∧ urb (sys_discard k).2 = Completed;
  discard_err k e : (sys_discard k).1 = Some e →
    urb (sys_discard k).2 = urb k ∧ memory (sys_discard k).2 = memory k;
  discard_late k e : (sys_discard k).1 = Some e → e = EINVAL ∨ e = ENOENT → urb k ≠ InFlight;
  discard_gone k : (sys_discard k).1 = Some ENODEV → gone k = true;
  discard_ready k : fd_ready k = true → fd_ready (sys_discard k).2 = true;

  reap_on k : kernel_goes_on k (sys_reap_ndelay k).2;
  reap_ours k : (sys_reap_ndelay k).1 = inr urb_address → urb (sys_reap_ndelay k).2 = Idle;
  reap_other k r : (sys_reap_ndelay k).1 = r → r ≠ inr urb_address →
    urb (sys_reap_ndelay k).2 = urb k ∧ memory (sys_reap_ndelay k).2 = memory k;
  reap_again k : (sys_reap_ndelay k).1 = inl EAGAIN → fd_ready k = false;

  reap_wait_on k r k' : sys_reap k = Some (r, k') → kernel_goes_on k k';
  reap_wait_ours k k' : sys_reap k = Some (inr urb_address, k') → urb k' = Idle;
  reap_wait_other k r k' : sys_reap k = Some (r, k') → r ≠ inr urb_address → urb k' = urb k;
  reap_wait_blocks k : sys_reap k = None → urb k ≠ Completed ∧ gone k = false;

  pipe_on k : kernel_goes_on k (sys_pipe k).2;
  pipe_urb k : urb (sys_pipe k).2 = urb k;
  pipe_ready k : fd_ready k = true → fd_ready (sys_pipe k).2 = true
}.

(** * The object *)

Record urb_read (K : Type) := {
  kernel : K;
  _submitted : bool;
  _reaped : bool;
  _cancel_requested : bool;
  _discard_submitted : bool;
  _discard_failed_without_reap : bool;
  _discard_failure_errno : option Z;
  _timed_out : bool;
  _cancel_event : bool;
  (** The wake-up pipe while its ends are stored: the bytes waiting in it. *)
  wakeup : option Z;
  (** Auxiliary: a cancel found nothing submitted; a cancel has done its
      wake-up; a system call was interrupted by a signal. *)
  early : bool;
  woken : bool;
  signalled : bool
}.
Arguments kernel {_} _.
Arguments _submitted {_} _.
Arguments _reaped {_} _.
Arguments _cancel_requested {_} _.
Arguments _discard_submitted {_} _.
Arguments _discard_failed_without_reap {_} _.
Arguments _discard_failure_errno {_} _.
Arguments _timed_out {_} _.
Arguments _cancel_event {_} _.
Arguments wakeup {_} _.
Arguments early {_} _.
Arguments woken {_} _.
Arguments signalled {_} _.

Section Updates.
Context {K : Type}.
Implicit Types s : urb_read K.

Definition set_kernel (v : K) s : urb_read K :=
  {| kernel := v; _submitted := _submitted s; _reaped := _reaped s; _cancel_requested :=
     _cancel_requested s; _discard_submitted := _discard_submitted s;
     _discard_failed_without_reap := _discard_failed_without_reap s; _discard_failure_errno
     := _discard_failure_errno s; _timed_out := _timed_out s; _cancel_event := _cancel_event
     s; wakeup := wakeup s; early := early s; woken := woken s; signalled := signalled s |}.
Definition set_submitted (v : bool) s : urb_read K :=
  {| kernel := kernel s; _submitted := v; _reaped := _reaped s; _cancel_requested :=
     _cancel_requested s; _discard_submitted := _discard_submitted s;
     _discard_failed_without_reap := _discard_failed_without_reap s; _discard_failure_errno
     := _discard_failure_errno s; _timed_out := _timed_out s; _cancel_event := _cancel_event
     s; wakeup := wakeup s; early := early s; woken := woken s; signalled := signalled s |}.
Definition set_reaped (v : bool) s : urb_read K :=
  {| kernel := kernel s; _submitted := _submitted s; _reaped := v; _cancel_requested :=
     _cancel_requested s; _discard_submitted := _discard_submitted s;
     _discard_failed_without_reap := _discard_failed_without_reap s; _discard_failure_errno
     := _discard_failure_errno s; _timed_out := _timed_out s; _cancel_event := _cancel_event
     s; wakeup := wakeup s; early := early s; woken := woken s; signalled := signalled s |}.
Definition set_cancel_requested (v : bool) s : urb_read K :=
  {| kernel := kernel s; _submitted := _submitted s; _reaped := _reaped s; _cancel_requested
     := v; _discard_submitted := _discard_submitted s; _discard_failed_without_reap :=
     _discard_failed_without_reap s; _discard_failure_errno := _discard_failure_errno s;
     _timed_out := _timed_out s; _cancel_event := _cancel_event s; wakeup := wakeup s; early
     := early s; woken := woken s; signalled := signalled s |}.
Definition set_discard_submitted (v : bool) s : urb_read K :=
  {| kernel := kernel s; _submitted := _submitted s; _reaped := _reaped s; _cancel_requested
     := _cancel_requested s; _discard_submitted := v; _discard_failed_without_reap :=
     _discard_failed_without_reap s; _discard_failure_errno := _discard_failure_errno s;
     _timed_out := _timed_out s; _cancel_event := _cancel_event s; wakeup := wakeup s; early
     := early s; woken := woken s; signalled := signalled s |}.
Definition set_discard_failed_without_reap (v : bool) s : urb_read K :=
  {| kernel := kernel s; _submitted := _submitted s; _reaped := _reaped s; _cancel_requested
     := _cancel_requested s; _discard_submitted := _discard_submitted s;
     _discard_failed_without_reap := v; _discard_failure_errno := _discard_failure_errno s;
     _timed_out := _timed_out s; _cancel_event := _cancel_event s; wakeup := wakeup s; early
     := early s; woken := woken s; signalled := signalled s |}.
Definition set_discard_failure_errno (v : option Z) s : urb_read K :=
  {| kernel := kernel s; _submitted := _submitted s; _reaped := _reaped s; _cancel_requested
     := _cancel_requested s; _discard_submitted := _discard_submitted s;
     _discard_failed_without_reap := _discard_failed_without_reap s; _discard_failure_errno
     := v; _timed_out := _timed_out s; _cancel_event := _cancel_event s; wakeup := wakeup s;
     early := early s; woken := woken s; signalled := signalled s |}.
Definition set_timed_out (v : bool) s : urb_read K :=
  {| kernel := kernel s; _submitted := _submitted s; _reaped := _reaped s; _cancel_requested
     := _cancel_requested s; _discard_submitted := _discard_submitted s;
     _discard_failed_without_reap := _discard_failed_without_reap s; _discard_failure_errno
     := _discard_failure_errno s; _timed_out := v; _cancel_event := _cancel_event s; wakeup
     := wakeup s; early := early s; woken := woken s; signalled := signalled s |}.
Definition set_cancel_event (v : bool) s : urb_read K :=
  {| kernel := kernel s; _submitted := _submitted s; _reaped := _reaped s; _cancel_requested
     := _cancel_requested s; _discard_submitted := _discard_submitted s;
     _discard_failed_without_reap := _discard_failed_without_reap s; _discard_failure_errno
     := _discard_failure_errno s; _timed_out := _timed_out s; _cancel_event := v; wakeup :=
     wakeup s; early := early s; woken := woken s; signalled := signalled s |}.
Definition set_wakeup (v : option Z) s : urb_read K :=
  {| kernel := kernel s; _submitted := _submitted s; _reaped := _reaped s; _cancel_requested
     := _cancel_requested s; _discard_submitted := _discard_submitted s;
     _discard_failed_without_reap := _discard_failed_without_reap s; _discard_failure_errno
     := _discard_failure_errno s; _timed_out := _timed_out s; _cancel_event := _cancel_event
     s; wakeup := v; early := early s; woken := woken s; signalled := signalled s |}.
Definition set_early (v : bool) s : urb_read K :=
  {| kernel := kernel s; _submitted := _submitted s; _reaped := _reaped s; _cancel_requested
     := _cancel_requested s; _discard_submitted := _discard_submitted s;
     _discard_failed_without_reap := _discard_failed_without_reap s; _discard_failure_errno
     := _discard_failure_errno s; _timed_out := _timed_out s; _cancel_event := _cancel_event
     s; wakeup := wakeup s; early := v; woken := woken s; signalled := signalled s |}.
Definition set_woken (v : bool) s : urb_read K :=
  {| kernel := kernel s; _submitted := _submitted s; _reaped := _reaped s; _cancel_requested
     := _cancel_requested s; _discard_submitted := _discard_submitted s;
     _discard_failed_without_reap := _discard_failed_without_reap s; _discard_failure_errno
     := _discard_failure_errno s; _timed_out := _timed_out s; _cancel_event := _cancel_event
     s; wakeup := wakeup s; early := early s; woken := v; signalled := signalled s |}.
Definition set_signalled (v : bool) s : urb_read K :=
  {| kernel := kernel s; _submitted := _submitted s; _reaped := _reaped s; _cancel_requested
     := _cancel_requested s; _discard_submitted := _discard_submitted s;
     _discard_failed_without_reap := _discard_failed_without_reap s; _discard_failure_errno
     := _discard_failure_errno s; _timed_out := _timed_out s; _cancel_event := _cancel_event
     s; wakeup := wakeup s; early := early s; woken := woken s; signalled := v |}.
End Updates.

(** [__init__] *)
Definition urb_read_init {K} (k : K) : urb_read K :=
  {| kernel := k; _submitted := false; _reaped := false; _cancel_requested := false;
     _discard_submitted := false; _discard_failed_without_reap := false;
     _discard_failure_errno := None; _timed_out := false; _cancel_event := false;
     wakeup := None; early := false; woken := false; signalled := false |}.

Definition PIPE_CAPACITY : Z := 65536.

Section Operations.
Context {K : Type} `{UrbKernel K}.
Notation P := (prog (urb_read K)).

(** ** System calls *)

(** [_ioctl]: an error number becomes an exception. *)
Definition answer {A} (r : Z + A) (k : K) (s : urb_read K) : result A * urb_read K :=
  match r with
  | inl e => (Err (os_error e), set_kernel k (set_signalled (signalled s || (e =? EINTR)) s))
  | inr a => (Ok a, set_kernel k s)
  end.

Definition unit_answer (o : option Z) : Z + unit :=
  match o with Some e => inl e | None => inr tt end.

Definition call_unit (f : K → option Z * K) : P unit :=
  pact (λ s, let '(o, k) := f (kernel s) in answer (unit_answer o) k s).
Definition call_reap_ndelay : P Z :=
  pact (λ s, let '(r, k) := sys_reap_ndelay (kernel s) in answer r k s).
Definition call_reap : P Z :=
  pblock (λ s, match sys_reap (kernel s) with
               | Some (r, k) => Some (answer r k s)
               | None => None
               end).
Definition monotonic_now : P Z := pget (λ s, know (kernel s)).

(** ** The wake-up pipe *)

Definition _open_cancel_wakeup : P unit :=
  _ ← call_unit sys_pipe; pput (set_wakeup (Some 0)).

Definition _close_cancel_wakeup : P unit := pput (set_wakeup None).

Definition os_write_wakeup : P unit :=
  pact (λ s, match wakeup s with
             | None => (Err (OSError EBADF), set_woken true s)
             | Some n =>
                 if n <? PIPE_CAPACITY
                 then (Ok tt, set_woken true (set_wakeup (Some (n + 1)) s))
                 else (Err (OSError EAGAIN), set_woken true s)
             end).

Definition _wake_cancel_waiters : P unit :=
  writer ← pact (λ s, match wakeup s with
                      | None => (Ok false, set_woken true s)
                      | Some _ => (Ok true, s)
                      end);
  if negb writer then mret tt else
  pcatch os_write_wakeup
    (λ exc, if errno_in exc [EAGAIN; EBADF; EPIPE] then mret tt else praise exc).

(** The number of bytes read. *)
Definition os_read_wakeup : P Z :=
  pact (λ s, match wakeup s with
             | None => (Err (OSError EBADF), s)
             | Some n =>
                 if n =? 0 then (Err (OSError EAGAIN), s)
                 else (Ok (Z.min n 1024), set_wakeup (Some (n - Z.min n 1024)) s)
             end).

Definition try_read_wakeup : P (option Z) :=
  pcatch (n ← os_read_wakeup; mret (Some n))
    (λ exc, if errno_in exc [EAGAIN; EBADF] then mret None else praise exc).

Fixpoint drain_wakeup_loop (fuel : nat) : P unit :=
  match fuel with
  | O => OutOfFuel
  | S fuel' =>
      data ← try_read_wakeup;
      match data with
      | None => mret tt
      | Some n => if n =? 0 then mret tt else drain_wakeup_loop fuel'
      end
  end.

Definition _drain_cancel_wakeup (fuel : nat) : P unit :=
  reader ← pget (λ s, bool_decide (is_Some (wakeup s)));
  if negb reader then mret tt else drain_wakeup_loop fuel.

(** ** Cancelling *)

Definition _discard_pending_urb : P unit :=
  submitted ← pact (λ s, (Ok (_submitted s),
                          if _submitted s then s else set_early true s));
  if negb submitted then mret tt else
  reaped ← pget _reaped;
  if reaped : bool then mret tt else
  discard_submitted ← pget _discard_submitted;
  if discard_submitted : bool then mret tt else
  discard_failed ← pget _discard_failed_without_reap;
  if discard_failed : bool then mret tt else
  pcatch (_ ← call_unit sys_discard; pput (set_discard_submitted true))
    (λ exc, if errno_in exc [EINVAL; ENODEV; ENOENT]
            then _ ← pput (set_discard_failed_without_reap true);
                 pput (set_discard_failure_errno (errno_of exc))
            else praise exc).

Definition cancel : P unit :=
  _ ← pput (set_cancel_requested true);
  _ ← _discard_pending_urb;
  _ ← pput (set_cancel_event true);
  _wake_cancel_waiters.

(** ** Reaping *)

Definition _submit : P unit :=
  submitted ← pget _submitted;
  if submitted : bool then mret tt else
  _ ← call_unit sys_submit; pput (set_submitted true).

Definition _accept_reaped_urb (reaped : Z) : P unit :=
  if negb (reaped =? urb_address) then praise (OSError EIO) else pput (set_reaped true).

Definition _reap_blocking : P unit := reaped ← call_reap; _accept_reaped_urb reaped.

(** [try: ioctl(REAPURBNDELAY)] with [EAGAIN] told apart. *)
Definition try_reap : P (option Z) :=
  pcatch (p ← call_reap_ndelay; mret (Some p))
    (λ exc, if errno_in exc [EAGAIN] then mret None else praise exc).

Definition _reap_discard_race_completion : P unit :=
  reaped ← try_reap;
  match reaped with
  | None => pput (set_reaped true)
  | Some p => _accept_reaped_urb p
  end.

Definition _finish_cancelled_reap : P unit :=
  failed ← pget _discard_failed_without_reap;
  if failed : bool then
    errno ← pget _discard_failure_errno;
    if bool_decide (errno ∈ [Some EINVAL; Some ENOENT]) then _reap_discard_race_completion
    else pput (set_reaped true)
  else _reap_blocking.

(** [poller.poll(timeout_ms)] returns when the device file or the pipe is ready
    or the time is over. *)
Definition poll (with_pipe : bool) (start : Z) (timeout_ms : option Z) : P unit :=
  pblock (λ s,
    if fd_ready (kernel s)
       || (with_pipe && match wakeup s with Some n => 0 <? n | None => false end)
       || match timeout_ms with Some t => start + t * 1000 <=? know (kernel s) | None => false end
    then Some (Ok tt, s) else None).

Definition _poll_reap_ready (fuel : nat) (timeout_ms : option Z) : P unit :=
  cancel_reader ← pget (λ s, bool_decide (is_Some (wakeup s)));
  start ← monotonic_now;
  _ ← poll cancel_reader start timeout_ms;
  _drain_cancel_wakeup fuel.

Definition _wait_for_reap_ready (fuel : nat) (deadline : option Z) : P unit :=
  match deadline with
  | None => _poll_reap_ready fuel None
  | Some d =>
      now ← monotonic_now;
      if d - now <=? 0 then mret tt
      else _poll_reap_ready fuel (Some (Z.max 1 ((d - now) / 1000)))
  end.

Definition past (deadline : option Z) : P bool :=
  match deadline with
  | None => mret false
  | Some d => pget (λ s, d <=? know (kernel s))
  end.

Fixpoint reap_loop (fuel : nat) (deadline : option Z) : P unit :=
  match fuel with
  | O => OutOfFuel
  | S fuel' =>
      reaped ← try_reap;
      match reaped with
      | Some p => _accept_reaped_urb p
      | None =>
          cancelled ← pget _cancel_requested;
          if cancelled : bool then _finish_cancelled_reap else
          late ← past deadline;
          if late : bool then
            _ ← pput (set_timed_out true);
            _ ← cancel;
            _finish_cancelled_reap
          else
            _ ← _wait_for_reap_ready fuel' deadline;
            reap_loop fuel' deadline
      end
  end.

Definition _reap (fuel : nat) (deadline : option Z) : P unit :=
  _ ← _open_cancel_wakeup;
  pfinally (reap_loop fuel deadline) _close_cancel_wakeup.

(** ** Reading *)

Definition _CANCELLED_URB_STATUSES : list Z := [- ENOENT; - ECONNRESET; - ECANCELED].

Definition read (fuel : nat) (timeout_ms : option Z) : P bytes :=
  cancelled ← pget _cancel_requested;
  if cancelled : bool then praise InterruptedError else
  _ ← _submit;
  cancelled ← pget _cancel_requested;
  _ ← (if cancelled : bool then cancel else mret tt);
  deadline ← match timeout_ms with
             | None => mret None
             | Some t => now ← monotonic_now; mret (Some (now + t * 1000))
             end;
  _ ← _reap fuel deadline;
  status ← pget (λ s, urb_status (kernel s));
  timed_out ← pget _timed_out;
  if timed_out : bool then mret [] else
  cancelled ← pget _cancel_requested;
  if cancelled || bool_decide (status ∈ _CANCELLED_URB_STATUSES) then praise InterruptedError else
  if negb (status =? 0) then praise (os_error (Z.abs status)) else
  pget (λ s, ztake (urb_actual_length (kernel s)) (urb_buffer (kernel s))).
End Operations.
