(* ===== verification/UrbLogic.v ===== *)
(** The operations of [Urb] among other threads: the invariant of the flags, what
    the reading thread may rely on ([calm]) and what a cancelling one may
    ([onward]), and a specification of each operation in the logic of [Threads],
    up to the whole of [cancel] and [read]. *)
From stdpp Require Import relations.
From S2P Require Import Prelude PyText Protocol Managed Threads Urb.

(** * Invariant and interference *)

Section Interference.
Context {K : Type} `{UrbLaws K}.
Implicit Types s : urb_read K.

(** The URB is not at work, or the device is gone with everything on it. *)
Definition settled s : Prop := urb (kernel s) ≠ InFlight ∨ gone (kernel s) = true.

Record inv s : Prop := {
  inv_discarded : _discard_submitted s = true → _submitted s = true ∧ settled s;
  inv_failed : _discard_failed_without_reap s = true → _submitted s = true ∧ settled s;
  inv_reaped : _reaped s = true → _submitted s = true ∧ settled s;
  inv_early : early s = true → _cancel_requested s = true;
  inv_woken : woken s = true →
    _cancel_requested s = true ∧ (early s = true ∨ _submitted s = true ∧ settled s);
  inv_pipe n : wakeup s = Some n → 0 <= n
}.

(** What a cancelling thread can rely on. *)
Record onward s s' : Prop := {
  on_inv : inv s → inv s';
  on_cancel : _cancel_requested s = true → _cancel_requested s' = true;
  on_early : early s = true → early s' = true;
  on_submitted : _submitted s = true → _submitted s' = true;
  on_settled : _submitted s = true → settled s → settled s';
  on_signalled : signalled s = true → signalled s' = true
}.

(** What the reading thread can rely on: what cancelling threads and the kernel
    do. *)
Record calm s s' : Prop := {
  calm_inv : inv s → inv s';
  calm_submitted : _submitted s' = _submitted s;
  calm_reaped : _reaped s' = _reaped s;
  calm_timed_out : _timed_out s' = _timed_out s;
  calm_cancel : _cancel_requested s = true → _cancel_requested s' = true;
  calm_early : early s = true → early s' = true;
  calm_not_early : _submitted s = true → early s' = early s;
  calm_signalled : signalled s = true → signalled s' = true;
  calm_kernel : kernel_goes_on (kernel s) (kernel s');
  calm_urb : urb (kernel s') = urb (kernel s) ∨
             urb (kernel s) = InFlight ∧ urb (kernel s') = Completed;
  calm_memory : urb (kernel s) ≠ InFlight → memory (kernel s') = memory (kernel s);
  calm_ready : fd_ready (kernel s) = true → fd_ready (kernel s') = true;
  calm_no_pipe : wakeup s = None → wakeup s' = None;
  calm_pipe n : wakeup s = Some n → ∃ n', wakeup s' = Some n' ∧ n <= n' ∧
                (woken s' = true → woken s = true ∨ 0 < n')
}.

#[global] Instance kernel_goes_on_preorder : PreOrder (@kernel_goes_on K _).
Proof.
  split; [intros k; by constructor|]. intros k1 k2 k3 [??] [??]. constructor; [lia|auto].
Qed.

#[global] Instance onward_preorder : PreOrder onward.
Proof.
  split; [intros s; by constructor|]. intros s1 s2 s3 [] []. constructor; auto.
Qed.

#[global] Instance calm_preorder : PreOrder calm.
Proof.
  split.
  { intros s. constructor; try done; [by left|].
    intros n Hn. exists n. split_and!; [done|lia|auto]. }
  intros s1 s2 s3 [] []. constructor; auto; try congruence.
  - intros Hs. rewrite calm_not_early1 by congruence. auto.
  - by transitivity (kernel s2).
  - destruct calm_urb0 as [E|[E1 E2]], calm_urb1 as [E'|[E1' E2']]; try congruence; [left|right|right];
      try split; congruence.
  - intros Hu. rewrite calm_memory1, calm_memory0; [done|done|].
    destruct calm_urb0 as [E|[E _]]; congruence.
  - intros n Hn. destruct (calm_pipe0 n Hn) as (n1 & Hn1 & Hle1 & Hw1).
    destruct (calm_pipe1 n1 Hn1) as (n2 & Hn2 & Hle2 & Hw2). exists n2. split_and!; [done|lia|].
    intros Hw. destruct (Hw2 Hw) as [Hw3|]; [|auto]. destruct (Hw1 Hw3); [auto|right; lia].
Qed.

Lemma calm_settled s s' : calm s s' → settled s → settled s'.
Proof.
  intros [] [Hu|Hg]; [left|right; by apply calm_kernel0].
  destruct calm_urb0 as [E|[E _]]; congruence.
Qed.

Lemma calm_onward s s' : calm s s' → onward s s'.
Proof.
  intros Hc. pose proof (calm_settled _ _ Hc) as Hs. destruct Hc. constructor; auto; congruence.
Qed.

(** The kernel moves by itself. *)
Definition kernel_moves s s' : Prop := ∃ k', kstep (kernel s) k' ∧ s' = set_kernel k' s.

(** ** Steps of a cancelling thread *)

(** A cancel that is past its discard; [eo] if it may have come too early. *)
Definition taken_note (eo : bool) s : Prop :=
  eo = true ∧ early s = true ∨ _submitted s = true ∧ settled s.

#[local] Ltac calm_step :=
  constructor; simpl; auto; try reflexivity;
  try (intros Hi; destruct Hi as [???? Hwoken ?]; constructor; try assumption; simpl in *; intros;
       first [by auto | simplify_eq; lia | split; [by auto|first [by auto | by apply Hwoken]]]);
  try (let n := fresh in let E := fresh in intros n E; exists n; split_and!; [done|lia|by auto]).

Lemma calm_set_cancel s : calm s (set_cancel_requested true s).
Proof. calm_step. Qed.

Lemma calm_set_early s :
  _submitted s = false → _cancel_requested s = true → calm s (set_early true s).
Proof. intros Hs Hc. calm_step. congruence. Qed.

Lemma calm_set_discarded s :
  _submitted s = true → settled s → calm s (set_discard_submitted true s).
Proof. intros Hs Hn. calm_step. Qed.

Lemma calm_set_failed s :
  _submitted s = true → settled s → calm s (set_discard_failed_without_reap true s).
Proof. intros Hs Hn. calm_step. Qed.

Lemma calm_set_errno v s : calm s (set_discard_failure_errno v s).
Proof. calm_step. Qed.

Lemma calm_set_event s : calm s (set_cancel_event true s).
Proof. calm_step. Qed.

Lemma calm_set_signalled v s : (signalled s = true → v = true) → calm s (set_signalled v s).
Proof. intros Hv. calm_step. Qed.

Lemma calm_set_kernel s k :
  kernel_goes_on (kernel s) k →
  urb k = urb (kernel s) ∨ urb (kernel s) = InFlight ∧ urb k = Completed →
  (urb (kernel s) ≠ InFlight → memory k = memory (kernel s)) →
  (fd_ready (kernel s) = true → fd_ready k = true) →
  calm s (set_kernel k s).
Proof.
  intros Hon Hu Hm Hr.
  assert (settled s → settled (set_kernel k s)) as Hset.
  { intros [Hn|Hg]; [left|right; by apply Hon]. simpl. destruct Hu as [->|[? _]]; [done|congruence]. }
  constructor; simpl; auto; [|intros n Hn; exists n; split_and!; [done|lia|auto]].
  intros []. constructor; simpl; naive_solver.
Qed.

Lemma calm_discard s :
  calm s (answer (unit_answer (sys_discard (kernel s)).1) (sys_discard (kernel s)).2 s).2.
Proof.
  pose proof (discard_on (kernel s)) as Hon. pose proof (discard_ok (kernel s)) as Hok.
  pose proof (discard_err (kernel s)) as Herr. pose proof (discard_ready (kernel s)) as Hr.
  destruct (sys_discard (kernel s)) as [[e|] k]; simpl in *.
  - destruct (Herr e eq_refl) as [Hu Hm].
    etransitivity; [apply calm_set_signalled|apply calm_set_kernel; simpl; auto].
    intros ->. done.
  - destruct (Hok eq_refl). apply calm_set_kernel; auto. done.
Qed.

Lemma calm_kernel_moves s s' : kernel_moves s s' → calm s s'.
Proof.
  intros (k & Hk & ->).
  apply calm_set_kernel; [by apply kstep_on|by apply kstep_urb|by apply kstep_memory|by apply kstep_ready].
Qed.

Lemma calm_wake eo s :
  _cancel_requested s = true → taken_note eo s →
  (wakeup s = None → calm s (set_woken true s)) ∧
  ∀ n, wakeup s = Some n → 0 <= n →
    calm s (set_woken true (set_wakeup (Some (n + 1)) s)) ∧
    (PIPE_CAPACITY <= n → calm s (set_woken true s)).
Proof.
  intros Hc Hn0. assert (early s = true ∨ _submitted s = true ∧ settled s) as Hd.
  { by destruct Hn0 as [[_ ?]|?]; [left|right]. }
  clear Hn0. split; [|intros n Hn Hpos; split].
  - intros Hw. calm_step. intros n Hn. congruence.
  - calm_step; [congruence|]. intros n' Hn'. exists (n + 1). split_and!; [done|simplify_eq; lia|intros _; right; lia].
  - intros Hcap. unfold PIPE_CAPACITY in Hcap. calm_step. intros n' Hn'. exists n'. split_and!; [done|lia|intros _; right; simplify_eq; lia].
Qed.

(** ** Cancelling *)

Section Cancel.
Variables (t eo : bool) (B : urb_read K → Prop).
Notation WP := (wp t onward calm B).

(** An exception is an interruption only when a signal interrupted a call. *)
Definition only_signals {A} (r : result A) s : Prop :=
  match r with
  | Err InterruptedError => signalled s = true
  | _ => True
  end.

#[global] Arguments only_signals : simpl never.

Lemma only_signals_mono {A} (r : result A) s s' :
  (signalled s = true → signalled s' = true) → only_signals r s → only_signals r s'.
Proof. unfold only_signals. intros Hs. by repeat case_match; auto. Qed.

Lemma answer_signals {A} (r : Z + A) k s : only_signals (answer r k s).1 (answer r k s).2.
Proof.
  unfold only_signals, answer. destruct r as [e|a]; simpl; [|done]. unfold os_error.
  destruct (e =? EINTR) eqn:E; [by rewrite orb_true_r|]. by repeat case_match.
Qed.

Record requested s : Prop := { rq_inv : inv s; rq_cancel : _cancel_requested s = true }.

Lemma onward_requested s s' : onward s s' → requested s → requested s'.
Proof. intros [] []. constructor; auto. Qed.

Lemma onward_noted s s' : onward s s' → taken_note eo s → taken_note eo s'.
Proof. intros [] [[??]|[??]]; [left; auto|right; split; auto]. Qed.

Definition cancelled_post (r : result unit) s : Prop :=
  requested s ∧ only_signals r s ∧ (is_ok r = true → taken_note eo s).

Definition noted_post (r : result unit) s : Prop :=
  r = Ok tt ∧ requested s ∧ taken_note eo s.

Lemma noted_cancelled r s : noted_post r s → cancelled_post r s.
Proof. intros (-> & Hr & Hn). by split_and!. Qed.

Lemma wp_noted s : requested s → taken_note eo s → WP (mret tt) noted_post s.
Proof.
  intros Hr Hn. apply wp_done. intros s' Hs.
  split_and!; [done|by eapply onward_requested|by eapply onward_noted].
Qed.

Lemma wp_skip s : requested s → taken_note eo s → WP (mret tt) cancelled_post s.
Proof. intros Hr Hn. eapply wp_mono; [by apply wp_noted|apply noted_cancelled]. Qed.

Lemma wp_put_noted f s :
  (∀ s', onward s s' → calm s' (f s')) → requested s → taken_note eo s →
  WP (pput f) noted_post s.
Proof.
  intros Hf Hr Hn s' Hs. split; [by apply Hf|]. pose proof (calm_onward _ _ (Hf s' Hs)) as Hc.
  assert (onward s (f s')) by (by transitivity s').
  apply wp_noted; [by eapply onward_requested|by eapply onward_noted].
Qed.

Lemma post_stable r s s' : onward s s' → cancelled_post r s → cancelled_post r s'.
Proof.
  intros Ho (Hr & Hs & Hn). split_and!; [by eapply onward_requested|by eapply only_signals_mono; [apply Ho|]|].
  intros Hok. eapply onward_noted; [done|auto].
Qed.

(** The discard itself, for a cancel that found the URB submitted. *)
Lemma wp_discard_call s :
  requested s → _submitted s = true →
  WP (pcatch (_ ← call_unit sys_discard; pput (set_discard_submitted true))
        (λ exc, if errno_in exc [EINVAL; ENODEV; ENOENT]
                then _ ← pput (set_discard_failed_without_reap true);
                     pput (set_discard_failure_errno (errno_of exc))
                else praise exc)) cancelled_post s.
Proof.
  intros Hr Hsub. apply wp_catch; [apply _|]. apply wp_act_bind. intros s1 H1.
  pose proof (onward_requested _ _ H1 Hr) as Hr1. pose proof (on_submitted _ _ H1 Hsub) as Hsub1.
  pose proof (calm_discard s1) as Hc. pose proof (discard_ok (kernel s1)) as Hok.
  pose proof (discard_err (kernel s1)) as Herr. pose proof (discard_late (kernel s1)) as Hlate.
  pose proof (discard_gone (kernel s1)) as Hgone.
  destruct (sys_discard (kernel s1)) as [o k]. simpl in Hc, Hok, Herr, Hlate, Hgone.
  pose proof (answer_signals (unit_answer o) k s1) as Hsig.
  split; [done|]. apply calm_onward in Hc. pose proof (onward_requested _ _ Hc Hr1) as Hr2.
  destruct o as [e|]; simpl in *.
  - intros s3 H3. destruct (errno_in (os_error e) _) eqn:Ee.
    + assert (settled s1) as Hset.
      { apply errno_in_os_error in Ee; [|intros n Hn; rewrite !elem_of_cons, elem_of_nil in Hn;
          unfold EINVAL, ENODEV, ENOENT, EINTR, ETIMEDOUT in *; lia].
        rewrite !elem_of_cons, elem_of_nil in Ee. destruct Ee as [->|[->|[->|[]]]].
        - left. apply (Hlate EINVAL eq_refl). by left.
        - right. by apply Hgone.
        - left. apply (Hlate ENOENT eq_refl). by right. }
      assert (∀ s', onward s3 s' → requested s' ∧ _submitted s' = true ∧ settled s') as Hon.
      { intros s' Hs'. assert (onward s1 s') as Ho by (etransitivity; [done|by transitivity s3]).
        split_and!; [by eapply onward_requested|by eapply on_submitted|by eapply on_settled]. }
      apply wp_put. intros s4 H4. destruct (Hon s4 H4) as (Hr4 & Hs4 & Hset4).
      pose proof (calm_set_failed s4 Hs4 Hset4) as Hf. split; [done|]. apply calm_onward in Hf.
      destruct (Hon _ ltac:(etransitivity; [exact H4|exact Hf])) as (Hr5 & Hs5 & Hset5).
      eapply wp_mono; [|apply noted_cancelled].
      apply wp_put_noted; [intros; apply calm_set_errno|done|by right].
    + intros s4 H4. eapply post_stable; [by transitivity s3|].
      split_and!; [done|done|done].
  - eapply wp_mono.
    + apply wp_put_noted; [|done|].
      * intros s' Hs'. apply calm_set_discarded; [by eapply on_submitted|].
        eapply on_settled; [done|done|]. left. simpl. by rewrite (proj2 (Hok eq_refl)).
      * right. split; [done|]. left. simpl. by rewrite (proj2 (Hok eq_refl)).
    + intros r s' Hp. destruct (Hp) as [-> _]. intros s3 H3.
      eapply post_stable; [done|by apply noted_cancelled].
Qed.

Lemma wp_discard s :
  requested s → (eo = false → _submitted s = true) →
  WP _discard_pending_urb cancelled_post s.
Proof.
  intros Hr Heo. apply wp_act_bind. intros s1 H1. pose proof (onward_requested _ _ H1 Hr) as Hr1.
  assert (eo = false → _submitted s1 = true) as Heo1.
  { intros E. eapply on_submitted; eauto. }
  simpl. destruct (_submitted s1) eqn:Esub; cbn [negb].
  2: { assert (calm s1 (set_early true s1)) as Hc by (by apply calm_set_early, rq_cancel).
       split; [done|]. apply wp_skip; [|left; split; [by destruct eo; [|discriminate Heo1]|done]]. eapply onward_requested; [|done].
       by apply calm_onward. }
  split; [reflexivity|].
  assert (∀ s', onward s1 s' → requested s' ∧ _submitted s' = true) as Hon.
  { intros s' Hs. split; [by eapply onward_requested|by eapply on_submitted]. }
  clear s H1 Hr Heo.
  apply wp_get; [apply _|]. intros s2 H2. destruct (Hon s2 H2) as [Hr2 Hs2].
  destruct (_reaped s2) eqn:E2; [apply wp_skip; [done|right; by apply (inv_reaped _ (rq_inv _ Hr2))]|].
  apply wp_get; [apply _|]. intros s3 H3. destruct (Hon s3 ltac:(by transitivity s2)) as [Hr3 Hs3].
  destruct (_discard_submitted s3) eqn:E3; [apply wp_skip; [done|right; by apply (inv_discarded _ (rq_inv _ Hr3))]|].
  apply wp_get; [apply _|]. intros s4 H4.
  destruct (Hon s4 ltac:(transitivity s3; [by transitivity s2|done])) as [Hr4 Hs4].
  destruct (_discard_failed_without_reap s4) eqn:E4; [apply wp_skip; [done|right; by apply (inv_failed _ (rq_inv _ Hr4))]|].
  by apply wp_discard_call.
Qed.

Lemma wp_wake s : requested s → taken_note eo s → WP _wake_cancel_waiters cancelled_post s.
Proof.
  intros Hr Hn. apply wp_act_bind. intros s1 H1.
  pose proof (onward_requested _ _ H1 Hr) as Hr1. pose proof (onward_noted _ _ H1 Hn) as Hn1.
  destruct (wakeup s1) as [n|] eqn:Ew; simpl.
  2: { destruct (calm_wake eo s1 (rq_cancel _ Hr1) Hn1) as [Hc _].
       specialize (Hc Ew). split; [done|]. apply calm_onward in Hc.
       apply wp_skip; [by eapply onward_requested|by eapply onward_noted]. }
  split; [reflexivity|]. apply wp_catch; [apply _|]. clear n Ew. apply wp_act. intros s2 H2.
  pose proof (onward_requested _ _ H2 Hr1) as Hr2. pose proof (onward_noted _ _ H2 Hn1) as Hn2.
  destruct (calm_wake eo s2 (rq_cancel _ Hr2) Hn2) as [Hnone Hsome].
  assert (∀ s3 s4, calm s2 s3 → onward s3 s4 → WP (mret tt) cancelled_post s4) as Hend.
  { intros s3 s4 Hc Ho. apply calm_onward in Hc. assert (onward s2 s4) by (by transitivity s3).
    apply wp_skip; [by eapply onward_requested|by eapply onward_noted]. }
  destruct (wakeup s2) as [n|] eqn:Ew; simpl.
  - destruct (Hsome n eq_refl) as [Hput Hfull].
    { by apply (inv_pipe _ (rq_inv _ Hr2)). }
    destruct (n <? PIPE_CAPACITY) eqn:En; zbool; simpl.
    + split; [done|]. intros s3 H3. by eapply Hend.
    + split; [by auto|]. intros s3 H3. change (WP (mret tt) cancelled_post s3). eauto.
  - split; [by auto|]. intros s3 H3. change (WP (mret tt) cancelled_post s3). eauto.
Qed.

Lemma wp_cancel s :
  inv s → (eo = false → _submitted s = true) → WP cancel cancelled_post s.
Proof.
  intros Hi Heo. apply wp_put. intros s1 H1. split; [apply calm_set_cancel|].
  assert (requested (set_cancel_requested true s1)) as Hr.
  { constructor; [|done]. by apply calm_set_cancel, H1. }
  apply wp_bind; [apply _|]. eapply wp_mono.
  { apply wp_discard; [done|]. intros E. simpl. eapply on_submitted; eauto. }
  intros [[]|e] s2 (Hr2 & Hs2 & Hn2); [|apply wp_done; intros s3 H3; by eapply post_stable].
  specialize (Hn2 eq_refl). apply wp_put. intros s3 H3. split; [apply calm_set_event|].
  pose proof (calm_onward _ _ (calm_set_event s3)) as Hc.
  assert (onward s2 (set_cancel_event true s3)) by (by transitivity s3).
  apply wp_wake; [by eapply onward_requested|by eapply onward_noted].
Qed.
End Cancel.

(** ** Reading *)

Section Read.
(** With [t] the read is not cancelled and has to get by with its fuel. *)
Variable t : bool.

Definition hush s s' : Prop :=
  calm s s' ∧
  (t = true → wakeup s' = wakeup s ∧ _cancel_requested s' = _cancel_requested s).

#[global] Instance hush_preorder : PreOrder hush.
Proof.
  split; [intros s; by split; [reflexivity|]|]. intros s1 s2 s3 [C1 H1] [C2 H2].
  split; [by transitivity s2|]. intros E. destruct (H1 E), (H2 E). split; congruence.
Qed.

(** The read may be blocked only while no cancel is through. *)
Notation WP := (wp t hush onward (λ s, woken s = false)).

Lemma hush_calm s s' : hush s s' → calm s s'.
Proof. by intros []. Qed.

Record at_work s : Prop := {
  work_inv : inv s;
  work_submitted : _submitted s = true;
  work_urb : urb (kernel s) ≠ Idle;
  work_early : early s = false ∨ settled s
}.

Lemma calm_at_work s s' : calm s s' → at_work s → at_work s'.
Proof.
  intros Hc []. pose proof (calm_settled _ _ Hc) as Hs. destruct Hc. constructor; auto.
  - congruence.
  - destruct calm_urb0 as [->|[_ ->]]; [done|done].
  - rewrite calm_not_early0 by done. naive_solver.
Qed.

(** What the reaping leaves behind. *)
Definition reap_post (r : result unit) s : Prop :=
  match r with
  | Ok _ => inv s ∧ settled s ∧ (_cancel_requested s = true ∨ urb (kernel s) = Idle)
  | Err _ => only_signals r s
  end.

Lemma only_signals_stable {A} (r : result A) s s' :
  hush s s' → only_signals r s → only_signals r s'.
Proof. intros [[] _]. by apply only_signals_mono. Qed.

Lemma reap_post_stable r s s' : hush s s' → reap_post r s → reap_post r s'.
Proof.
  intros Hh. destruct r as [[]|e]; [|by apply only_signals_stable]. intros (Hi & Hs & Hc).
  apply hush_calm in Hh. pose proof (calm_settled _ _ Hh Hs) as Hs'. destruct Hh.
  split_and!; [by auto|done|]. destruct Hc as [Hc|Hc]; [left; auto|right].
  destruct calm_urb0 as [->|[E _]]; congruence.
Qed.

Lemma wp_err {A} (e : exn) (Q : result A → urb_read K → Prop) s :
  (∀ s', only_signals (A:=A) (Err e) s' → Q (Err e) s') →
  only_signals (A:=A) (Err e) s → WP (Done (Err e)) Q s.
Proof. intros HQ Hs. apply wp_done. intros s' Hh. by apply HQ, (only_signals_stable _ s). Qed.

(** *** Steps of the reading thread *)

Lemma onward_set_kernel s k :
  kernel_goes_on (kernel s) k → urb k = urb (kernel s) ∨ urb k = Idle →
  onward s (set_kernel k s).
Proof.
  intros Hon Hu. assert (settled s → settled (set_kernel k s)) as Hset.
  { intros [Hn|Hg]; [left|right; by apply Hon]. simpl. destruct Hu as [->| ->]; done. }
  constructor; simpl; auto. intros []. constructor; simpl; naive_solver.
Qed.

Lemma onward_answer {A} (r : Z + A) k s :
  kernel_goes_on (kernel s) k → urb k = urb (kernel s) ∨ urb k = Idle →
  onward s (answer r k s).2.
Proof.
  intros Hon Hu. destruct r as [e|a]; simpl; [|by apply onward_set_kernel].
  etransitivity; [apply calm_onward, calm_set_signalled|by apply onward_set_kernel].
  by intros ->.
Qed.

Lemma onward_set_reaped s : _submitted s = true → settled s → onward s (set_reaped true s).
Proof. intros Hs Hn. constructor; simpl; auto. intros []. by constructor. Qed.

Lemma onward_set_wakeup v s : (∀ n, v = Some n → 0 <= n) → onward s (set_wakeup v s).
Proof. intros Hv. constructor; simpl; auto. intros []. by constructor. Qed.

Lemma wp_accept p s :
  inv s → _submitted s = true → (p = urb_address → urb (kernel s) = Idle) →
  WP (_accept_reaped_urb p) reap_post s.
Proof.
  intros Hi Hs Hu. unfold _accept_reaped_urb. destruct (p =? urb_address) eqn:E; zbool; simpl.
  2: { by apply wp_err. }
  specialize (Hu E). intros s1 H1. apply hush_calm in H1.
  assert (urb (kernel s1) = Idle) as Hu1.
  { destruct (calm_urb _ _ H1) as [->|[??]]; congruence. }
  assert (_submitted s1 = true) by (rewrite (calm_submitted _ _ H1); done).
  assert (settled s1) by (left; rewrite Hu1; done).
  pose proof (onward_set_reaped s1 ltac:(done) ltac:(done)) as Ho. split; [done|].
  apply wp_done. intros s2 Hh2. eapply reap_post_stable; [done|].
  split_and!; [by apply Ho, H1|done|by right].
Qed.

Lemma wp_try_reap s :
  at_work s →
  WP try_reap (λ r s', match r with
                       | Ok None => hush s s' ∧ fd_ready (kernel s) = false
                       | Ok (Some p) => inv s' ∧ _submitted s' = true ∧
                                        (p = urb_address → urb (kernel s') = Idle)
                       | Err _ => only_signals r s'
                       end) s.
Proof.
  intros Hw. apply wp_catch; [apply _|]. apply wp_act_bind. intros s1 Hh1.
  pose proof (calm_at_work _ _ (hush_calm _ _ Hh1) Hw) as [Hi1 Hs1 Hu1 _].
  pose proof (reap_on (kernel s1)) as Hon. pose proof (reap_ours (kernel s1)) as Hours.
  pose proof (reap_other (kernel s1)) as Hother. pose proof (reap_again (kernel s1)) as Hagain.
  destruct (sys_reap_ndelay (kernel s1)) as [r k]. simpl in Hon, Hours, Hother, Hagain.
  assert (urb k = urb (kernel s1) ∨ urb k = Idle) as Hu.
  { destruct (decide (r = inr urb_address)) as [->|Hr]; [right; auto|left; by apply (Hother r)]. }
  pose proof (onward_answer r k s1 Hon Hu) as Ho. pose proof (answer_signals r k s1) as Hsig.
  split; [done|]. destruct r as [e|p].
  - destruct (Hother _ eq_refl ltac:(done)) as [Hue Hme].
    simpl. apply wp_done. intros s2 Hh2. destruct (errno_in (os_error e) [EAGAIN]) eqn:Ee.
    + assert (e = EAGAIN) as ->.
      { apply errno_in_os_error in Ee; [by apply list_elem_of_singleton in Ee|].
        intros n ->%list_elem_of_singleton. done. }
      apply wp_done. intros s3 Hh3. split.
      * transitivity s1; [done|]. transitivity s2; [|done]. etransitivity; [|done].
        split; [|done]. simpl. rewrite orb_false_r.
        etransitivity; [by apply (calm_set_signalled (signalled s1))|]. apply calm_set_kernel; simpl; auto.
        intros E. by rewrite Hagain in E.
      * destruct (fd_ready (kernel s)) eqn:E; [|done].
        apply (calm_ready _ _ (hush_calm _ _ Hh1)) in E. by rewrite Hagain in E.
    + apply wp_err; [done|]. by apply (only_signals_stable _ _ _ Hh2) in Hsig.
  - simpl. apply wp_done. intros s2 Hh2. apply wp_done. intros s3 Hh3.
    assert (calm (set_kernel k s1) s3) as Hc by (apply hush_calm; by transitivity s2).
    split_and!; [by apply Hc, Ho|by rewrite (calm_submitted _ _ Hc)|].
    intros ->. destruct (calm_urb _ _ Hc) as [->|[E _]]; simpl in *; [by auto|].
    rewrite Hours in E; done.
Qed.

Lemma wp_reap_blocking s1 : at_work s1 → WP _reap_blocking reap_post s1.
Proof.
  intros Hw1. apply wp_bind; [apply _|]. intros s2 Hh2.
  pose proof (calm_at_work _ _ (hush_calm _ _ Hh2) Hw1) as Hw2.
  destruct (sys_reap (kernel s2)) as [[r k]|] eqn:Er.
  + assert (urb k = urb (kernel s2) ∨ urb k = Idle) as Hu.
    { destruct (decide (r = inr urb_address)) as [->|Hr];
        [right; by eapply reap_wait_ours|left; by eapply reap_wait_other]. }
    pose proof (onward_answer r k s2 ltac:(by eapply reap_wait_on) Hu) as Ho.
    pose proof (answer_signals r k s2) as Hsig.
    assert (reap_ours' : ∀ p, r = inr p → p = urb_address → urb k = Idle).
    { intros p -> ->. by eapply reap_wait_ours. }
    destruct r as [e|p]; simpl in *; (split; [done|]); apply wp_done; intros s3 Hh3.
    * apply wp_err; [done|]. by apply (only_signals_stable _ _ _ Hh3) in Hsig.
    * apply hush_calm in Hh3. apply wp_accept; [by apply Hh3, Ho, Hw2| |].
      -- rewrite (calm_submitted _ _ Hh3). exact (work_submitted _ Hw2).
      -- intros Ep. destruct (calm_urb _ _ Hh3) as [->|[E _]]; simpl in *; [by eauto|].
         rewrite (reap_ours' p) in E; done.
  + destruct (reap_wait_blocks _ Er) as [Hn Hg]. destruct (woken s2) eqn:Ew; [|done]. exfalso.
    destruct Hw2 as [Hi2 Hs2 Hu2 He2].
    assert (settled s2) as [Hnf|Hg2]; [|destruct (urb (kernel s2)); done|congruence].
    destruct (inv_woken _ Hi2 Ew) as [_ [Hearly|[_ ?]]]; [|done]. naive_solver congruence.
Qed.

Lemma wp_finish s :
  at_work s → _cancel_requested s = true → WP _finish_cancelled_reap reap_post s.
Proof.
  intros Hw Hc. apply wp_get; [apply _|]. intros s1 Hh1.
  pose proof (calm_at_work _ _ (hush_calm _ _ Hh1) Hw) as Hw1.
  pose proof (calm_cancel _ _ (hush_calm _ _ Hh1) Hc) as Hc1.
  destruct (_discard_failed_without_reap s1) eqn:Ef.
  - assert (settled s1) as Hset1 by (by apply (inv_failed _ (work_inv _ Hw1))).
    assert (∀ s', hush s1 s' → WP (pput (set_reaped true)) reap_post s') as Hput.
    { intros s' Hh s2 Hh2. assert (calm s1 s2) as Hcm by (apply hush_calm; by transitivity s').
      pose proof (calm_at_work _ _ Hcm Hw1) as Hw2. pose proof (calm_settled _ _ Hcm Hset1) as Hs2.
      pose proof (onward_set_reaped s2 (work_submitted _ Hw2) Hs2) as Ho. split; [done|].
      apply wp_done. intros s3 Hh3. eapply reap_post_stable; [done|].
      split_and!; [by apply Ho, Hw2|done|left; by apply (calm_cancel _ _ Hcm)]. }
    apply wp_get; [apply _|]. intros s2 Hh2. destruct (bool_decide _); [|by apply Hput].
    apply wp_bind; [apply _|]. eapply wp_mono.
    { apply wp_try_reap. by eapply calm_at_work; [apply hush_calm|]. }
    intros [[p|]|e] s3; [intros (?&?&?); by apply wp_accept|intros [Hh3 _]|intros Hsig; by apply wp_err; [|exact Hsig]].
    apply Hput. by transitivity s2.
  - by apply wp_reap_blocking.
Qed.

(** The reading thread cancels its own URB. *)
Lemma wp_own_cancel s :
  inv s → _submitted s = true → urb (kernel s) ≠ Idle →
  WP cancel (λ r s', match r with
                     | Ok _ => at_work s' ∧ _cancel_requested s' = true
                     | Err _ => only_signals r s'
                     end) s.
Proof.
  intros Hi Hs Hu. apply (wp_conseq t hush calm (λ s, woken s = false)); [auto|apply calm_onward|auto|].
  eapply wp_mono.
  { apply (wp_steps t hush calm _ calm _ (cancelled_post false) s s);
      [apply _|apply hush_calm|auto|reflexivity|].
    apply (wp_conseq t onward calm (λ s, woken s = false)); [intros x y Hh; by apply calm_onward, hush_calm|auto|auto|].
    by apply wp_cancel. }
  intros [[]|e] s' [(Hr & Hsig & Hn) Hc]; [|done].
  destruct (Hn eq_refl) as [[? _]|[_ Hset]]; [done|].
  split; [|exact (rq_cancel _ Hr)]. constructor; [exact (rq_inv _ Hr)| | |by right].
  - by rewrite (calm_submitted _ _ Hc).
  - by destruct (calm_urb _ _ Hc) as [->|[_ ->]].
Qed.

(** *** Waiting *)

Definition later s s' : Prop :=
  know (kernel s) <= know (kernel s') ∧
  (fd_ready (kernel s) = true → fd_ready (kernel s') = true).

#[global] Instance later_preorder : PreOrder later.
Proof.
  split; [intros s; by split|]. intros s1 s2 s3 [??] [??]. split; [lia|auto].
Qed.

(** The passes of the loop that may still end in a wait. *)
Definition level (deadline : option Z) s : nat :=
  if fd_ready (kernel s) then 0 else
  match deadline with
  | None => 1
  | Some d => if d <=? know (kernel s) then 0
              else if d <? know (kernel s) + 1000 then 1 else 2
  end.

Lemma level_later d s s' : later s s' → (level d s' <= level d s)%nat.
Proof.
  intros [Hn Hr]. unfold level. destruct (fd_ready (kernel s)); [by rewrite Hr|].
  destruct (fd_ready (kernel s')); [lia|]. destruct d as [d|]; [|lia].
  repeat case_match; zbool; lia.
Qed.

Lemma calm_later s s' : calm s s' → later s s'.
Proof. intros []. split; [by apply calm_kernel0|done]. Qed.

(** The reading thread between two actions of its loop. *)
Record in_loop s : Prop := {
  loop_work : at_work s;
  loop_pipe : is_Some (wakeup s);
  loop_quiet : t = true → wakeup s = Some 0
}.

Lemma hush_in_loop s s' : hush s s' → in_loop s → in_loop s'.
Proof.
  intros [Hc Hq] [Hw [n Hn] Hl]. constructor; [by eapply calm_at_work| |].
  - destruct (calm_pipe _ _ Hc n Hn) as (n' & -> & _). done.
  - intros E. by rewrite (proj1 (Hq E)), Hl.
Qed.

Lemma wp_try_read s :
  in_loop s →
  WP try_read_wakeup
     (λ r s', in_loop s' ∧ later s s' ∧
              (r = Ok None ∨ t = false ∧ ∃ n, r = Ok (Some n) ∧ n ≠ 0)) s.
Proof.
  intros Hl. apply wp_catch; [apply _|]. apply wp_act_bind. intros s1 Hh1.
  pose proof (hush_in_loop _ _ Hh1 Hl) as Hl1. destruct (Hl1) as [Hw1 [n Hn] Hq1]. rewrite Hn.
  pose proof (inv_pipe _ (work_inv _ Hw1) n Hn) as Hpos.
  assert (later s s1) as Hlt by (by apply calm_later, hush_calm).
  destruct (n =? 0) eqn:E; zbool; cbn [fst snd].
  - split; [reflexivity|]. apply wp_done. intros s2 Hh2.
    replace (errno_in (OSError EAGAIN) [EAGAIN; EBADF]) with true by done.
    apply wp_done. intros s3 Hh3. assert (hush s1 s3) as Hh by (by transitivity s2).
    split_and!; [by eapply hush_in_loop| |by left].
    transitivity s1; [done|by apply calm_later, hush_calm].
  - split; [apply onward_set_wakeup; intros ? [= <-]; lia|].
    set (s2 := set_wakeup (Some (n - n `min` 1024)) s1).
    assert (t = false) as Ht.
    { destruct t; [|done]. rewrite Hq1 in Hn by done. congruence. }
    assert (in_loop s2) as Hl2.
    { constructor; [|done|congruence]. destruct Hw1 as [Hi ???]. constructor; [|done|done|done].
      apply (onward_set_wakeup (Some (n - n `min` 1024)) s1); [intros ? [= <-]; lia|done]. }
    apply wp_done. intros s3 Hh3. apply wp_done. intros s4 Hh4.
    assert (hush s2 s4) as Hh by (by transitivity s3).
    split_and!; [by eapply hush_in_loop| |right; split; [done|]; eexists; split; [done|lia]].
    transitivity s2; [done|by apply calm_later, hush_calm].
Qed.

Lemma wp_drain_loop fuel s :
  in_loop s → (t = true → (1 <= fuel)%nat) →
  WP (drain_wakeup_loop fuel) (λ r s', r = Ok tt ∧ in_loop s' ∧ later s s') s.
Proof.
  revert s. induction fuel as [|fuel IH]; intros s Hl Hf.
  { change (t = false). destruct t; [exfalso; specialize (Hf eq_refl); lia|done]. }
  cbn [drain_wakeup_loop]. apply wp_bind; [apply _|].
  eapply wp_mono; [by apply wp_try_read|].
  intros r s1 (Hl1 & Hlt & [-> | (Ht & n & -> & Hn)]).
  - apply wp_done. intros s2 Hh2. split_and!; [done|by eapply hush_in_loop|].
    transitivity s1; [done|by apply calm_later, hush_calm].
  - rewrite (proj2 (Z.eqb_neq n 0) Hn). eapply wp_mono; [apply IH; [done|congruence]|].
    intros r s2 (-> & Hl2 & Hlt2). split_and!; [done|done|by transitivity s1].
Qed.

Lemma wp_drain fuel s :
  in_loop s → (t = true → (1 <= fuel)%nat) →
  WP (_drain_cancel_wakeup fuel) (λ r s', r = Ok tt ∧ in_loop s' ∧ later s s') s.
Proof.
  intros Hl Hf. apply wp_get; [apply _|]. intros s1 Hh1.
  pose proof (hush_in_loop _ _ Hh1 Hl) as Hl1.
  rewrite bool_decide_eq_true_2 by apply Hl1. cbn [negb].
  eapply wp_mono; [by apply wp_drain_loop|]. intros r s2 (-> & Hl2 & Hlt). split_and!; [done|done|].
  transitivity s1; [by apply calm_later, hush_calm|done].
Qed.

(** Every cancel that is through has left a byte. *)
Definition heard s : Prop := ∀ n, wakeup s = Some n → woken s = true → 0 < n.

Lemma hush_heard s s' : hush s s' → is_Some (wakeup s) → heard s → heard s'.
Proof.
  intros [Hc _] [n Hn] Hh n' Hn' Hw. destruct (calm_pipe _ _ Hc n Hn) as (m & Hm & Hle & Hor).
  simplify_eq. destruct (Hor Hw) as [Hws|]; [|done]. specialize (Hh n Hn Hws). lia.
Qed.

Lemma wp_poll fuel timeout_ms s :
  in_loop s → heard s → (t = true → (1 <= fuel)%nat) →
  WP (_poll_reap_ready fuel timeout_ms)
     (λ r s', r = Ok tt ∧ in_loop s' ∧ later s s' ∧
              (t = true → fd_ready (kernel s') = true ∨
                          ∃ m, timeout_ms = Some m ∧ know (kernel s) + m * 1000 <= know (kernel s'))) s.
Proof.
  intros Hl Hwk Hf. apply wp_get; [apply _|]. intros s1 Hh1.
  pose proof (hush_in_loop _ _ Hh1 Hl) as Hl1. rewrite bool_decide_eq_true_2 by apply Hl1.
  apply wp_get; [apply _|]. intros s2 Hh2. apply wp_bind; [apply _|]. intros s3 Hh3.
  assert (hush s s3) as Hh by (transitivity s1; [done|by transitivity s2]).
  pose proof (hush_in_loop _ _ Hh Hl) as Hl3. destruct (Hl3) as [Hw3 [n Hn] Hq3]. rewrite Hn.
  destruct (fd_ready (kernel s3) || _ || _) eqn:Ep.
  2: { destruct (woken s3) eqn:E; [|done]. exfalso.
       pose proof (hush_heard _ _ Hh (loop_pipe _ Hl) Hwk n Hn E). simpl in Ep. zbool. lia. }
  split; [reflexivity|]. apply wp_done. intros s4 Hh4.
  pose proof (hush_in_loop _ _ Hh4 Hl3) as Hl4.
  eapply wp_mono; [by apply wp_drain|]. intros r s5 (-> & Hl5 & Hlt5).
  assert (later s3 s5) as Hlt3 by (transitivity s4; [by apply calm_later, hush_calm|done]).
  split_and!; [done|done|transitivity s3; [by apply calm_later, hush_calm|done]|].
  intros Et. rewrite Hq3 in Hn by done. injection Hn as <-. rewrite andb_false_r, orb_false_r in Ep.
  apply orb_true_iff in Ep as [Er|Em]; [left; by apply Hlt3|right].
  destruct timeout_ms as [m|]; [|done]. exists m. split; [done|]. zbool.
  assert (later s s2) as [Hk _] by (apply calm_later, hush_calm; by transitivity s1).
  destruct Hlt3 as [Hk3 _]. lia.
Qed.

(** A wait takes the loop one level down. *)
Lemma wp_wait fuel deadline s :
  in_loop s → heard s → (t = true → (1 <= fuel)%nat) →
  WP (_wait_for_reap_ready fuel deadline)
     (λ r s', r = Ok tt ∧ in_loop s' ∧
              (t = true → level deadline s' = 0%nat ∨ (level deadline s' < level deadline s)%nat)) s.
Proof.
  intros Hl Hwk Hf. destruct deadline as [d|].
  2: { eapply wp_mono; [by apply wp_poll|]. intros r s' (-> & Hl' & _ & Hp).
       split_and!; [done|done|]. intros Et. left. unfold level.
       by destruct (Hp Et) as [->|(m & ? & _)]. }
  apply wp_get; [apply _|]. intros s1 Hh1. pose proof (hush_in_loop _ _ Hh1 Hl) as Hl1.
  destruct (d - know (kernel s1) <=? 0) eqn:Ed; zbool.
  - apply wp_done. intros s2 Hh2. split_and!; [done|by eapply hush_in_loop|]. intros _. left.
    destruct (calm_later _ _ (hush_calm _ _ Hh2)) as [Hk _]. unfold level.
    destruct (fd_ready (kernel s2)); [done|]. by rewrite (proj2 (Z.leb_le d (know (kernel s2)))) by lia.
  - eapply wp_mono.
    { apply wp_poll; [done|exact (hush_heard _ _ Hh1 (loop_pipe _ Hl) Hwk)|done]. }
    intros r s' (-> & Hl' & Hlt & Hp). split_and!; [done|done|]. intros Et.
    destruct (calm_later _ _ (hush_calm _ _ Hh1)) as [Hk1 Hr1]. destruct Hlt as [Hk' Hr'].
    unfold level. destruct (fd_ready (kernel s')) eqn:Er; [by left|].
    destruct (fd_ready (kernel s)) eqn:Er0; [by specialize (Hr' (Hr1 eq_refl))|].
    destruct (Hp Et) as [?|(m & [= <-] & Hm)]; [done|].
    pose proof (Z.div_mod (d - know (kernel s1)) 1000 ltac:(done)) as Hdm.
    pose proof (Z.mod_pos_bound (d - know (kernel s1)) 1000 ltac:(done)) as Hmb.
    repeat case_match; zbool; try (left; lia); right; lia.
Qed.

Lemma onward_set_timed_out v s : onward s (set_timed_out v s).
Proof. constructor; simpl; auto. intros []. by constructor. Qed.

Lemma wp_past deadline s s0 :
  later s0 s → fd_ready (kernel s0) = false →
  WP (past deadline) (λ r s', ∃ late, r = Ok late ∧ hush s s' ∧
                              (late = false → (1 <= level deadline s0)%nat)) s.
Proof.
  intros [Hk _] Hr. unfold level. rewrite Hr. destruct deadline as [d|]; simpl.
  - intros s1 Hh1. split; [reflexivity|]. apply wp_done. intros s2 Hh2.
    eexists. split_and!; [done|by transitivity s1|]. intros E. zbool.
    destruct (calm_later _ _ (hush_calm _ _ Hh1)) as [Hk1 _].
    repeat case_match; zbool; lia.
  - apply wp_done. intros s1 Hh1. exists false. split_and!; [done|done|lia].
Qed.

(** The deadline is over: the reading thread cancels and collects the URB. *)
Lemma wp_give_up s :
  at_work s →
  WP (_ ← pput (set_timed_out true); _ ← cancel; _finish_cancelled_reap) reap_post s.
Proof.
  intros Hw. apply wp_put. intros s1 Hh1.
  pose proof (calm_at_work _ _ (hush_calm _ _ Hh1) Hw) as [Hi ???].
  pose proof (onward_set_timed_out true s1) as Ho. split; [done|].
  assert (at_work (set_timed_out true s1)) as Hw1 by (constructor; [by apply Ho|done|done|done]).
  apply wp_bind; [apply _|]. eapply wp_mono; [by apply wp_own_cancel; destruct Hw1|].
  intros [[]|e] s2; [intros [Hw2 Hc2]; by apply wp_finish|].
  intros Hsig. by apply wp_err; [|exact Hsig].
Qed.

(** The whole loop; with [t] its fuel is enough. *)
Lemma wp_reap_loop fuel deadline s :
  in_loop s → (t = true → (level deadline s < fuel)%nat) →
  WP (reap_loop fuel deadline) reap_post s.
Proof.
  revert s. induction fuel as [|fuel IH]; intros s Hl Hf.
  { change (t = false). destruct t; [exfalso; specialize (Hf eq_refl); lia|done]. }
  cbn [reap_loop]. apply wp_bind; [apply _|].
  eapply wp_mono; [exact (wp_try_reap _ (loop_work _ Hl))|]. intros [[p|]|e] s1.
  { intros (? & ? & ?). by apply wp_accept. }
  2: { intros Hsig. by apply wp_err; [|exact Hsig]. }
  intros [Hh1 Hready]. pose proof (hush_in_loop _ _ Hh1 Hl) as Hl1.
  apply wp_get; [apply _|]. intros s2 Hh2. pose proof (hush_in_loop _ _ Hh2 Hl1) as Hl2.
  destruct (_cancel_requested s2) eqn:Ec; [by apply wp_finish; [exact (loop_work _ Hl2)|]|].
  assert (heard s2) as Hd2.
  { intros n _ Hw. apply (inv_woken _ (work_inv _ (loop_work _ Hl2))) in Hw as [? _]. congruence. }
  assert (later s s2) as Hlt by (apply calm_later, hush_calm; by transitivity s1).
  apply wp_bind; [apply _|].
  eapply wp_mono; [exact (wp_past deadline s2 s Hlt Hready)|].
  intros ? s3 (late & -> & Hh3 & Hlate). pose proof (hush_in_loop _ _ Hh3 Hl2) as Hl3.
  destruct late; [exact (wp_give_up _ (loop_work _ Hl3))|].
  apply wp_bind; [apply _|]. eapply wp_mono.
  { apply wp_wait; [done|exact (hush_heard _ _ Hh3 (loop_pipe _ Hl2) Hd2)|].
    intros Et. specialize (Hf Et). specialize (Hlate eq_refl). lia. }
  intros ? s4 (-> & Hl4 & Hlev). apply IH; [done|]. intros Et.
  assert (later s s3) as Hlt3 by (transitivity s2; [done|by apply calm_later, hush_calm]).
  apply (level_later deadline) in Hlt3. specialize (Hf Et). specialize (Hlate eq_refl).
  destruct (Hlev Et); lia.
Qed.

Lemma level_bound deadline s : (level deadline s <= 2)%nat.
Proof. unfold level. repeat case_match; lia. Qed.

Lemma wp_reap fuel deadline s :
  at_work s → (t = true → (3 <= fuel)%nat) → WP (_reap fuel deadline) reap_post s.
Proof.
  intros Hw Hf. unfold _reap, _open_cancel_wakeup. apply wp_bind; [apply _|].
  apply wp_act_bind. intros s1 Hh1. pose proof (pipe_on (kernel s1)) as Hon.
  pose proof (pipe_urb (kernel s1)) as Hu.
  pose proof (calm_at_work _ _ (hush_calm _ _ Hh1) Hw) as [Hi1 Hs1 Hu1 He1].
  destruct (sys_pipe (kernel s1)) as [o k]; simpl in Hon, Hu.
  pose proof (onward_answer (unit_answer o) k s1 Hon ltac:(by left)) as Ho.
  pose proof (answer_signals (unit_answer o) k s1) as Hsig. split; [done|].
  destruct o as [e|]; [|clear Hsig]; simpl in *.
  { apply wp_done. intros s2 Hh2. apply wp_err; [done|].
    exact (only_signals_stable _ _ _ Hh2 Hsig). }
  assert (at_work (set_kernel k s1)) as Hw1.
  { constructor; simpl; [by apply Ho|done|congruence|].
    destruct He1; [by left|right]. by apply (on_settled _ _ Ho). }
  intros s2 Hh2. pose proof (calm_at_work _ _ (hush_calm _ _ Hh2) Hw1) as [Hi2 ???].
  pose proof (onward_set_wakeup (Some 0) s2 ltac:(intros ? [= <-]; done)) as Hs. split; [done|].
  assert (in_loop (set_wakeup (Some 0) s2)) as Hl.
  { constructor; [|done|done]. constructor; [by apply Hs|done|done|done]. }
  apply wp_done. intros s3 Hh3. apply wp_then; [apply _|]. eapply wp_mono.
  { apply wp_reap_loop; [exact (hush_in_loop _ _ Hh3 Hl)|].
    intros Et. pose proof (level_bound deadline s3). specialize (Hf Et). lia. }
  intros r s4 Hp. apply wp_then; [apply _|]. intros s5 Hh5.
  pose proof (onward_set_wakeup None s5 ltac:(done)) as Hc. split; [done|].
  apply wp_done. intros s6 Hh6. apply wp_done. intros s7 Hh7.
  apply (reap_post_stable _ (set_wakeup None s5)); [by transitivity s6|].
  apply (reap_post_stable _ _ _ Hh5) in Hp. destruct r as [[]|e]; [|done].
  destruct Hp as (? & ? & ?). split_and!; [by apply Hc|done|done].
Qed.

(** *** The outcome *)

Definition read_post (r : result bytes) s : Prop :=
  match r with
  | Ok data =>
      settled s ∧
      (_timed_out s = true ∧ data = [] ∨
       urb (kernel s) = Idle ∧ urb_status (kernel s) = 0 ∧
       data = ztake (urb_actual_length (kernel s)) (urb_buffer (kernel s)))
  | Err InterruptedError =>
      signalled s = false →
      settled s ∧ (_cancel_requested s = true ∨ urb_status (kernel s) ≠ 0)
  | Err _ => True
  end.

Lemma signals_read_post e s : only_signals (A:=bytes) (Err e) s → read_post (Err e) s.
Proof. destruct e; simpl; try done. unfold only_signals. congruence. Qed.

Lemma calm_idle s s' :
  calm s s' → urb (kernel s) = Idle →
  urb (kernel s') = Idle ∧ memory (kernel s') = memory (kernel s).
Proof.
  intros [] Hu. split; [destruct calm_urb0 as [->|[??]]; congruence|].
  apply calm_memory0. by rewrite Hu.
Qed.

(** What follows the reaping. *)
Lemma wp_outcome s :
  reap_post (Ok tt) s →
  WP (status ← pget (λ s, urb_status (kernel s));
      timed_out ← pget _timed_out;
      if timed_out : bool then mret [] else
      cancelled ← pget _cancel_requested;
      if cancelled || bool_decide (status ∈ _CANCELLED_URB_STATUSES) then praise InterruptedError else
      if negb (status =? 0) then praise (os_error (Z.abs status)) else
      pget (λ s, ztake (urb_actual_length (kernel s)) (urb_buffer (kernel s)))) read_post s.
Proof.
  intros Hp. apply wp_get; [apply _|]. intros s1 Hh1.
  apply (reap_post_stable _ _ _ Hh1) in Hp. apply wp_get; [apply _|]. intros s2 Hh2.
  apply (reap_post_stable _ _ _ Hh2) in Hp as Hp2.
  destruct (_timed_out s2) eqn:Et.
  { apply wp_done. intros s3 Hh3. apply (reap_post_stable _ _ _ Hh3) in Hp2 as (_ & Hset & _).
    split; [done|left]. split; [|done]. by rewrite (calm_timed_out _ _ (hush_calm _ _ Hh3)). }
  apply wp_get; [apply _|]. intros s3 Hh3. apply (reap_post_stable _ _ _ Hh3) in Hp2 as Hp3.
  assert (∀ s', hush s3 s' → settled s' ∧ (_cancel_requested s3 = true → _cancel_requested s' = true) ∧
            (_cancel_requested s3 = false →
             urb (kernel s') = Idle ∧ memory (kernel s') = memory (kernel s1))) as Hend.
  { intros s' Hh. destruct (reap_post_stable _ _ _ Hh Hp3) as (_ & Hset & _).
    split_and!; [done|apply (hush_calm _ _ Hh)|]. intros Ec.
    assert (hush s1 s') as Hh' by (transitivity s2; [done|by transitivity s3]).
    destruct Hp as (_ & _ & [Hc|Hu]); [|by apply (calm_idle s1); [apply hush_calm|]].
    assert (hush s1 s3) as Hh13 by (by transitivity s2).
    apply (calm_cancel _ _ (hush_calm _ _ Hh13)) in Hc. congruence. }
  destruct (_cancel_requested s3 || _) eqn:Ec; [|apply orb_false_iff in Ec as [Ec Est]].
  { apply wp_done. intros s4 Hh4 _. destruct (Hend s4 Hh4) as (Hset & Hc & Hi). split; [done|].
    destruct (_cancel_requested s3); [left; auto|right]. destruct (Hi eq_refl) as [_ [= -> _ _]].
    simpl in Ec. intros E. rewrite E in Ec. by vm_compute in Ec. }
  destruct (urb_status (kernel s1) =? 0) eqn:E0; zbool; cbn [negb].
  - intros s4 Hh4. split; [reflexivity|]. apply wp_done. intros s5 Hh5.
    destruct (Hend s4 Hh4) as (_ & _ & H4). destruct (H4 Ec) as [_ Hm4].
    destruct (Hend s5 ltac:(by transitivity s4)) as (Hset & _ & H5). destruct (H5 Ec) as [Hu Hm5].
    split; [done|right]. injection Hm4 as ???. injection Hm5 as ???.
    split_and!; [done|congruence|congruence].
  - apply wp_done. intros s4 Hh4. destruct (Hend s4 Hh4) as (Hset & _ & H4).
    destruct (H4 Ec) as [Hu [= Hm _ _]]. unfold read_post.
    destruct (os_error _); try done. intros _. split; [done|right]. congruence.
Qed.

Lemma wp_submit s :
  inv s → urb (kernel s) = Idle → _submitted s = false →
  WP _submit (λ r s', match r with
                      | Ok _ => inv s' ∧ _submitted s' = true ∧ urb (kernel s') ≠ Idle
                      | Err _ => only_signals r s'
                      end) s.
Proof.
  intros Hi Hu Hs. apply wp_get; [apply _|]. intros s1 Hh1.
  rewrite (calm_submitted _ _ (hush_calm _ _ Hh1)), Hs. apply wp_act_bind. intros s2 Hh2.
  assert (calm s s2) as Hc by (apply hush_calm; by transitivity s1).
  destruct (calm_idle _ _ Hc Hu) as [Hu2 _]. pose proof (calm_submitted _ _ Hc) as Hs2.
  pose proof (calm_inv _ _ Hc Hi) as Hi2. pose proof (submit_on (kernel s2)) as Hon.
  pose proof (submit_urb (kernel s2) Hu2) as Hsu.
  destruct (sys_submit (kernel s2)) as [o k]; simpl in Hon, Hsu. destruct o as [e|].
  { pose proof (onward_answer (unit_answer (Some e)) k s2 Hon ltac:(by right)) as Ho.
    pose proof (answer_signals (unit_answer (Some e)) k s2) as Hsig. split; [done|].
    by apply wp_err. }
  assert (onward s2 (set_kernel k s2)) as Ho.
  { constructor; simpl; auto; [|congruence].
    intros []. constructor; simpl; try congruence; [naive_solver congruence..|]. done. }
  split; [done|]. simpl. intros s3 Hh3. pose proof (hush_calm _ _ Hh3) as Hc3.
  assert (inv s3) as Hi3 by (by apply Hc3, Ho).
  assert (onward s3 (set_submitted true s3)) as Ho3.
  { constructor; simpl; auto. intros []. constructor; simpl; naive_solver. }
  split; [done|]. apply wp_done. intros s4 Hh4. apply hush_calm in Hh4.
  split_and!; [by apply Hh4, Ho3|by rewrite (calm_submitted _ _ Hh4)|].
  assert (urb (kernel s3) ≠ Idle) as Hu3.
  { destruct (calm_urb _ _ Hc3) as [->|[_ ->]]; simpl; congruence. }
  destruct (calm_urb _ _ Hh4) as [->|[_ ->]]; simpl; done.
Qed.

Lemma wp_read fuel timeout_ms s :
  inv s → urb (kernel s) = Idle → _submitted s = false → (t = true → (3 <= fuel)%nat) →
  WP (read fuel timeout_ms) read_post s.
Proof.
  intros Hi Hu Hs Hf. apply wp_get; [apply _|]. intros s1 Hh1.
  assert (calm s s1) as Hc1 by (by apply hush_calm). destruct (calm_idle _ _ Hc1 Hu) as [Hu1 _].
  destruct (_cancel_requested s1) eqn:Ec.
  { apply wp_done. intros s2 Hh2 _. pose proof (hush_calm _ _ Hh2) as Hc2.
    split; [|left; by apply (calm_cancel _ _ Hc2)]. left. destruct (calm_idle _ _ Hc2 Hu1) as [-> _]. done. }
  apply wp_bind; [apply _|]. eapply wp_mono.
  { apply wp_submit; [by apply Hc1|done|by rewrite (calm_submitted _ _ Hc1)]. }
  intros [[]|e] s2; [intros (Hi2 & Hs2 & Hu2)|].
  2: { intros Hsig. apply wp_err; [apply signals_read_post|exact Hsig]. }
  apply wp_get; [apply _|]. intros s3 Hh3. pose proof (hush_calm _ _ Hh3) as Hc3.
  assert (inv s3) as Hi3 by (by apply Hc3).
  assert (_submitted s3 = true) as Hs3 by (by rewrite (calm_submitted _ _ Hc3)).
  assert (urb (kernel s3) ≠ Idle) as Hu3 by (destruct (calm_urb _ _ Hc3) as [->|[_ ->]]; done).
  apply wp_bind; [apply _|]. eapply (wp_mono _ _ _ _ _
    (λ r s', match r with Ok _ => at_work s' | Err _ => only_signals r s' end)).
  { destruct (_cancel_requested s3) eqn:Ec3.
    - eapply wp_mono; [by apply wp_own_cancel|]. by intros [[]|e] s4; [intros [? _]|].
    - apply wp_done. intros s4 Hh4. eapply calm_at_work; [by apply hush_calm|].
      constructor; try done. left. destruct (early s3) eqn:Ee; [|done].
      apply (inv_early _ Hi3) in Ee. congruence. }
  intros [[]|e] s4; [intros Hw4|].
  2: { intros Hsig. apply wp_err; [apply signals_read_post|exact Hsig]. }
  apply wp_bind; [apply _|]. eapply (wp_mono _ _ _ _ _ (λ r s', ∃ d, r = Ok d ∧ at_work s')).
  { destruct timeout_ms as [ms|].
    - apply wp_get; [apply _|]. intros s5 Hh5. apply wp_done. intros s6 Hh6. eexists. split; [done|].
      eapply calm_at_work; [apply hush_calm; by transitivity s5|done].
    - apply wp_done. intros s5 Hh5. eexists. split; [done|].
      by eapply calm_at_work; [apply hush_calm|]. }
  intros ? s5 (d & -> & Hw5). apply wp_bind; [apply _|].
  eapply wp_mono; [exact (wp_reap fuel d s5 Hw5 Hf)|].
  intros [[]|e] s6; [apply wp_outcome|].
  intros Hsig. apply wp_err; [apply signals_read_post|exact Hsig].
Qed.
End Read.
End Interference.
