(* ===== verification/UrbRace.v ===== *)
(** A cancellable read in every interleaving with cancelling threads and the
    kernel: one that returns or is cancelled leaves no URB in flight and returns
    only data the kernel delivered; it is not left waiting once a cancel is
    through; one that nobody cancels makes at most three passes.  A small kernel
    satisfies the laws, for the witnesses and for two schedules in which a URB is
    left behind after an error. *)
From stdpp Require Import relations.
From S2P Require Import Prelude PyText Protocol Managed Threads Urb UrbLogic.

(** * A read among cancelling threads *)

Section Together.
Context {K : Type} `{UrbLaws K}.

Definition read_pool (fuel : nat) (timeout_ms : option Z) (cancels : nat) (k : K)
    : pool (urb_read K) bytes unit :=
  {| main := read fuel timeout_ms; others := replicate cancels cancel;
     shared := urb_read_init k |}.

Lemma init_inv (k : K) : inv (urb_read_init k).
Proof. by constructor. Qed.

Lemma read_pool_ok t fuel timeout_ms cancels k :
  urb k = Idle → (t = true → (3 <= fuel)%nat) →
  pool_ok t (hush t) onward onward calm (λ s, woken s = false) (λ _, True) read_post
    (λ _ _, True) (read_pool fuel timeout_ms cancels k).
Proof.
  intros Hu Hf. split; [by apply wp_read|]. apply Forall_replicate.
  eapply wp_mono; [apply (wp_cancel t true); [apply init_inv|done]|done].
Qed.

Lemma kernel_moves_hush t (s s' : urb_read K) : kernel_moves s s' → hush t s s'.
Proof. intros Hm. split; [by apply calm_kernel_moves|]. by destruct Hm as (k & _ & ->). Qed.

(** In every interleaving with cancels and the kernel the read keeps its
    promises. *)
Lemma read_among_cancels fuel timeout_ms cancels k c' :
  urb k = Idle →
  rtc (pstep kernel_moves) (read_pool fuel timeout_ms cancels k) c' →
  (∀ r, main c' = Done r → read_post r (shared c')) ∧
  (main_blocked c' → woken (shared c') = false).
Proof.
  intros Hu Hr. destruct (together (C := unit) kernel_moves false (hush false) onward onward calm
    (λ s, woken s = false) (λ _, True) read_post (λ _ _, True)) with
    (c := read_pool fuel timeout_ms cancels k) (c' := c') as (Hd & Hb & _); auto.
  - by split.
  - apply calm_onward.
  - apply kernel_moves_hush.
  - intros s s' Hm. by apply calm_onward, calm_kernel_moves.
  - by apply read_pool_ok.
Qed.

(** C7. Whatever other threads cancel and whenever, and whatever the kernel
    does in between: a cancellable read that returns, or that raises the
    cancellation without a signal having interrupted a system call, leaves no
    URB in flight, unless the device is gone.  What it returns is either the
    empty answer of a timeout or exactly the bytes the kernel delivered with a
    reaped URB of status 0; it raises the cancellation only after a cancel or
    for a URB that did not succeed. *)
Theorem cancellable_read_settles fuel timeout_ms cancels k c' r :
  urb k = Idle →
  rtc (pstep kernel_moves) (read_pool fuel timeout_ms cancels k) c' →
  main c' = Done r → read_post r (shared c').
Proof. intros Hu Hr. by apply (read_among_cancels _ _ _ _ _ Hu Hr). Qed.

(** C10. No cancel is missed: in every interleaving, a read that is waiting, be
    it for the device, for its wake-up or for its discarded URB, is waiting only
    while no cancel has gone through its wake-up. *)
Theorem cancel_wakes_read fuel timeout_ms cancels k c' :
  urb k = Idle →
  rtc (pstep kernel_moves) (read_pool fuel timeout_ms cancels k) c' →
  main_blocked c' → woken (shared c') = false.
Proof. intros Hu Hr. by apply (read_among_cancels _ _ _ _ _ Hu Hr). Qed.

(** C28. A read that nobody cancels needs at most three passes of its reaping
    loop, with or without a deadline: however the kernel behaves, it does not go
    for a fourth. *)
Theorem read_loop_bounded timeout_ms k c' :
  urb k = Idle →
  rtc (pstep kernel_moves) (read_pool 3 timeout_ms 0 k) c' →
  main c' ≠ OutOfFuel.
Proof.
  intros Hu Hr. destruct (together (C := unit) kernel_moves true (hush true) onward onward (λ _ _, False)
    (λ s, woken s = false) (λ _, True) read_post (λ _ _, True)) with
    (c := read_pool 3 timeout_ms 0 k) (c' := c') as (_ & _ & Ht); auto; try done.
  - apply kernel_moves_hush.
  - intros s s' Hm. by apply calm_onward, calm_kernel_moves.
  - split; [|done]. by apply wp_read.
Qed.
End Together.

(** * A kernel *)

Record toy := {
  toy_now : Z;
  toy_urb : urb_state;
  toy_gone : bool;
  toy_pipe_errno : option Z;
  (** What the device sends, and the user memory of the URB. *)
  toy_data : bytes;
  toy_memory : Z * bytes
}.

Definition toy_start (data : bytes) (pipe_errno : option Z) : toy :=
  {| toy_now := 0; toy_urb := Idle; toy_gone := false; toy_pipe_errno := pipe_errno;
     toy_data := data; toy_memory := (0, []) |}.

Definition toy_set_urb (u : urb_state) (data : bytes) (m : Z * bytes) (k : toy) : toy :=
  {| toy_now := toy_now k; toy_urb := u; toy_gone := toy_gone k;
     toy_pipe_errno := toy_pipe_errno k; toy_data := data; toy_memory := m |}.

Definition toy_take (k : toy) : toy := toy_set_urb Idle (toy_data k) (0, toy_data k) k.

Definition toy_step (k k' : toy) : Prop :=
  toy_now k <= toy_now k' ∧ (toy_gone k = true → toy_gone k' = true) ∧
  (toy_urb k' = toy_urb k ∨ toy_urb k = InFlight ∧ toy_urb k' = Completed) ∧
  toy_memory k' = toy_memory k.

#[local] Instance toy_kernel : UrbKernel toy := {|
  know := toy_now;
  urb := toy_urb;
  gone := toy_gone;
  fd_ready k := bool_decide (toy_urb k = Completed) || toy_gone k;
  urb_status k := (toy_memory k).1;
  urb_actual_length k := zlen (toy_memory k).2;
  urb_buffer k := (toy_memory k).2;
  urb_address := 4096;
  sys_submit k :=
    if toy_gone k then (Some ENODEV, k)
    else (None, toy_set_urb InFlight (toy_data k) (toy_memory k) k);
  sys_discard k :=
    if toy_gone k then (Some ENODEV, k)
    else match toy_urb k with
         | InFlight => (None, toy_set_urb Completed [] (toy_memory k) k)
         | _ => (Some EINVAL, k)
         end;
  sys_reap_ndelay k :=
    match toy_urb k with
    | Completed => (inr 4096, toy_take k)
    | _ => (inl (if toy_gone k then ENODEV else EAGAIN), k)
    end;
  sys_reap k :=
    match toy_urb k with
    | Completed => Some (inr 4096, toy_take k)
    | _ => if toy_gone k then Some (inl ENODEV, k) else None
    end;
  sys_pipe k := (toy_pipe_errno k, k);
  kstep := toy_step
|}.

#[local] Instance toy_laws : UrbLaws toy.
Proof.
  assert (∀ k : toy, kernel_goes_on k k) as Hrefl by (intros k; reflexivity).
  constructor; simpl; unfold memory; simpl.
  - split; [intros k; split_and!; auto; lia|].
    intros k1 k2 k3 (?&?&Hu1&?) (?&?&Hu2&?). split_and!; [lia|auto| |congruence].
    destruct Hu1 as [?|[??]], Hu2 as [?|[??]]; (left; congruence) || (right; split; congruence).
  - intros k k' (?&?&_). by constructor.
  - by intros k k' (?&?&?&_).
  - intros k k' (_&_&_&Hm) _. by rewrite Hm.
  - intros k k' (_&Hg&Hu&_). rewrite !orb_true_iff, !bool_decide_eq_true.
    destruct Hu as [->|[_ ->]]; naive_solver.
  - intros k. destruct (toy_gone k) eqn:E; simpl; [done|]. constructor; simpl; [lia|done].
  - intros k Hk. by destruct (toy_gone k).
  - intros k. destruct (toy_gone k); [done|]. destruct (toy_urb k); simpl; try done.
  - intros k. destruct (toy_gone k); [done|]. by destruct (toy_urb k).
  - intros k e. destruct (toy_gone k); [done|]. by destruct (toy_urb k) eqn:E; simpl; rewrite ?E.
  - intros k e. destruct (toy_gone k); simpl; [by intros [= <-] [?|?]|].
    by destruct (toy_urb k).
  - intros k. destruct (toy_gone k); [done|]. by destruct (toy_urb k).
  - intros k. destruct (toy_gone k) eqn:Eg; simpl; [by rewrite Eg, orb_true_r|].
    by destruct (toy_urb k) eqn:Eu; simpl; rewrite ?Eu, ?Eg.
  - intros k. by destruct (toy_urb k).
  - intros k. by destruct (toy_urb k).
  - intros k r. destruct (toy_urb k) eqn:Eu; simpl; intros <- Hn; rewrite ?Eu; done.
  - intros k. destruct (toy_urb k) eqn:Eu, (toy_gone k) eqn:Eg; done.
  - intros k r k'. destruct (toy_urb k), (toy_gone k); intros [= <- <-]; done.
  - intros k k'. destruct (toy_urb k), (toy_gone k); intros [= <-]; done.
  - intros k r k'. destruct (toy_urb k) eqn:E, (toy_gone k); intros [= <- <-] Hr; done.
  - intros k. by destruct (toy_urb k), (toy_gone k).
  - done.
  - done.
  - done.
Qed.

(** The device answers. *)
Definition toy_complete (s : urb_read toy) : urb_read toy :=
  match toy_urb (kernel s) with
  | InFlight =>
      set_kernel (toy_set_urb Completed (toy_data (kernel s)) (toy_memory (kernel s)) (kernel s)) s
  | _ => s
  end.

Lemma toy_complete_moves s : kernel_moves s (toy_complete s).
Proof.
  assert (kernel_moves s s) as Hs by (exists (kernel s); split; [reflexivity|by destruct s]).
  unfold toy_complete. destruct (toy_urb (kernel s)) eqn:E; [done| |done].
  eexists. split; [|reflexivity]. split_and!; simpl; [lia|done|by right|done].
Qed.

Definition run (pipe_errno : option Z) (cancels : nat) (l : list (turn (urb_read toy))) :=
  take_turns l (read_pool 3 (Some 100) cancels (toy_start [1; 2; 3] pipe_errno)).

Definition ended (o : option (pool (urb_read toy) bytes unit)) : option (result bytes) :=
  match o with
  | Some c => match main c with Done r => Some r | _ => None end
  | None => None
  end.

(** A read that is cancelled while it waits. *)
Definition cancelled_run : list (turn (urb_read toy)) :=
  replicate 14 Main ++ replicate 10 (Other 0) ++ replicate 10 Main.

Lemma run_steps pipe_errno cancels l c' :
  env_turns kernel_moves l → run pipe_errno cancels l = Some c' →
  rtc (pstep kernel_moves) (read_pool 3 (Some 100) cancels (toy_start [1; 2; 3] pipe_errno)) c'.
Proof. intros Hl. by apply take_turns_steps. Qed.

#[local] Ltac turns_ok :=
  repeat (apply Forall_cons_2; [first [exact I | exact toy_complete_moves]|]); apply Forall_nil_2.

Lemma cancellable_read_settles_witness :
  ended (run None 1 cancelled_run) = Some (Err InterruptedError) ∧
  ∃ c', run None 1 cancelled_run = Some c' ∧ read_post (Err InterruptedError) (shared c').
Proof.
  split; [vm_compute; reflexivity|].
  destruct (run None 1 cancelled_run) as [c'|] eqn:E; [|vm_compute in E; discriminate].
  exists c'. split; [reflexivity|].
  apply (cancellable_read_settles 3 (Some 100) 1 (toy_start [1; 2; 3] None)).
  - reflexivity.
  - apply (run_steps _ _ cancelled_run); [turns_ok|exact E].
  - vm_compute in E. injection E as <-. reflexivity.
Defined.

(** The read waits, and a cancel that has not begun has woken nobody. *)
Lemma cancel_wakes_read_witness :
  ∃ c', run None 1 (replicate 14 Main) = Some c' ∧ main_blocked c' ∧ woken (shared c') = false.
Proof.
  assert (match run None 1 (replicate 14 Main) with Some c => main_blocked c | None => False end)
    as Hb by (vm_compute; reflexivity).
  destruct (run None 1 (replicate 14 Main)) as [c'|] eqn:E; [|destruct Hb].
  exists c'. split; [reflexivity|].
  split; [exact Hb|].
  apply (cancel_wakes_read 3 (Some 100) 1 (toy_start [1; 2; 3] None)); [reflexivity| |exact Hb].
  apply (run_steps _ _ (replicate 14 Main)); [turns_ok|exact E].
Defined.

(** The device answers while the read waits. *)
Definition answered_run : list (turn (urb_read toy)) :=
  replicate 14 Main ++ Env toy_complete :: replicate 10 Main.

Lemma read_loop_bounded_witness :
  ended (run None 0 answered_run) = Some (Ok [1; 2; 3]) ∧
  ∃ c', run None 0 answered_run = Some c' ∧ main c' ≠ OutOfFuel.
Proof.
  split; [vm_compute; reflexivity|].
  destruct (run None 0 answered_run) as [c'|] eqn:E; [|vm_compute in E; discriminate].
  exists c'. split; [reflexivity|].
  apply (read_loop_bounded (Some 100) (toy_start [1; 2; 3] None)); [reflexivity|].
  apply (run_steps _ _ answered_run); [turns_ok|exact E].
Defined.

(** * Two ways a URB is left behind *)

(** The wake-up pipe cannot be made (here: too many open files): the read
    raises with its URB still in flight. *)
Example pipe_failure_leaves_urb :
  match run (Some 24) 0 (replicate 7 Main) with
  | Some c => main c = Done (Err (OSError 24)) ∧ urb (kernel (shared c)) = InFlight
  | None => False
  end.
Proof. vm_compute. split; reflexivity. Qed.

(** A cancel has noted that its discard failed and not yet why: the read takes
    the URB for lost and leaves it, completed, to be reaped by the next one. *)
Example failed_discard_leaves_urb :
  match run None 1 (replicate 9 Main ++ Env toy_complete :: replicate 7 (Other 0) ++ replicate 8 Main) with
  | Some c => main c = Done (Err InterruptedError) ∧ _reaped (shared c) = true ∧
              urb (kernel (shared c)) = Completed
  | None => False
  end.
Proof. vm_compute. repeat split; reflexivity. Qed.
