(* ===== verification/Usbfs.v ===== *)
(** The usbfs transport (class [UsbFsTransport] and the ioctl layer of
    motu_proxy/transports/usbfs.py).

    The device file is the class [UsbFile]: opening, closing, claiming and
    releasing an interface, and bulk transfers, each with any answer the system
    may give.  The state of the transport is its descriptor; [held] records the
    descriptors that were opened and not closed since.  [usbfs_env] makes the
    transport the environment of the datastore client, and [open_usbfs_datastore]
    composes discovery, transport and client as [open_datastore] does. *)
From S2P Require Import Prelude PyText Protocol Parser Usb Managed Device Urb.

(** * Request numbers and structures *)

Definition _IOC_READ : Z := 2.
Definition _IOC_WRITE : Z := 1.
Definition _IOC_NONE : Z := 0.
Definition USBDEVFS_URB_TYPE_BULK : Z := 3.

Definition _ioc (direction type_char number size : Z) : Z :=
  Z.lor (Z.lor (Z.lor (Z.shiftl direction 30) (Z.shiftl size 16)) (Z.shiftl type_char 8)) number.

(** C types on a 64-bit system: a field is aligned to its size, a structure to
    its widest field. *)
Inductive ctype := c_ubyte | c_int | c_uint | c_void_p.

Definition sizeof_ctype (t : ctype) : Z :=
  match t with c_ubyte => 1 | c_int | c_uint => 4 | c_void_p => 8 end.

Definition align_up (n a : Z) : Z := (n + a - 1) / a * a.

Definition sizeof (fields : list ctype) : Z :=
  align_up (foldl (λ n t, align_up n (sizeof_ctype t) + sizeof_ctype t) 0 fields)
           (foldr (λ t m, Z.max (sizeof_ctype t) m) 1 fields).

(** What a field of the type keeps of an integer. *)
Definition to_uint (z : Z) : Z := z mod 2 ^ 32.
Definition to_int (z : Z) : Z := (z + 2 ^ 31) mod 2 ^ 32 - 2 ^ 31.
Definition to_ubyte (z : Z) : Z := z mod 2 ^ 8.

Definition UsbdevfsBulkTransfer_fields : list ctype := [c_uint; c_uint; c_uint; c_void_p].
Definition UsbdevfsUrb_fields : list ctype :=
  [c_ubyte; c_ubyte; c_int; c_uint; c_void_p; c_int; c_int; c_int; c_int; c_int; c_uint; c_void_p].

Definition ord_U : Z := 85.
Definition USBDEVFS_BULK : Z :=
  _ioc (Z.lor _IOC_READ _IOC_WRITE) ord_U 2 (sizeof UsbdevfsBulkTransfer_fields).
Definition USBDEVFS_SUBMITURB : Z := _ioc _IOC_READ ord_U 10 (sizeof UsbdevfsUrb_fields).
Definition USBDEVFS_DISCARDURB : Z := _ioc _IOC_NONE ord_U 11 0.
Definition USBDEVFS_REAPURB : Z := _ioc _IOC_WRITE ord_U 12 (sizeof_ctype c_void_p).
Definition USBDEVFS_REAPURBNDELAY : Z := _ioc _IOC_WRITE ord_U 13 (sizeof_ctype c_void_p).
Definition USBDEVFS_CLAIMINTERFACE : Z := _ioc _IOC_READ ord_U 15 (sizeof_ctype c_uint).
Definition USBDEVFS_RELEASEINTERFACE : Z := _ioc _IOC_READ ord_U 16 (sizeof_ctype c_uint).

(** The values of linux/usbdevice_fs.h. *)
Example request_numbers :
  (USBDEVFS_BULK, USBDEVFS_SUBMITURB, USBDEVFS_DISCARDURB, USBDEVFS_REAPURB,
   USBDEVFS_REAPURBNDELAY, USBDEVFS_CLAIMINTERFACE, USBDEVFS_RELEASEINTERFACE)
  = (0xC0185502, 0x8038550A, 0x550B, 0x4008550C, 0x4008550D, 0x8004550F, 0x80045510).
Proof. reflexivity. Qed.

(** [UsbdevfsBulkTransfer], with its buffer. *)
Record UsbdevfsBulkTransfer := {
  bt_ep : Z;
  bt_len : Z;
  bt_timeout : Z;
  bt_data : bytes
}.

Definition bulk_transfer (ep len timeout : Z) (data : bytes) : UsbdevfsBulkTransfer :=
  {| bt_ep := to_uint ep; bt_len := to_uint len; bt_timeout := to_uint timeout; bt_data := data |}.

(** * The device file *)

Class UsbFile (W : Type) := {
  sys_open : list pystr → W → (Z + Z) * W;
  sys_close : Z → W → option Z * W;
  (** [ioctl] with an interface number, by request. *)
  sys_interface : Z → Z → Z → W → option Z * W;
  (** [USBDEVFS_BULK]: the number of bytes and the buffer after the call. *)
  sys_bulk : Z → UsbdevfsBulkTransfer → W → (Z + Z * bytes) * W;
  file_clock : W → Z * W
}.

(** * The transport *)

Record transport (W : Type) := {
  device : UsbDeviceInfo;
  timeout_ms : Z;
  fd : option Z;
  (** Auxiliary: descriptors that are open. *)
  held : list Z;
  system : W
}.
Arguments device {_} _.
Arguments timeout_ms {_} _.
Arguments fd {_} _.
Arguments held {_} _.
Arguments system {_} _.

Section Transport.
Context {W : Type} `{UsbFile W}.
Notation T := (M (transport W)).

(** [UsbFsTransport(device, timeout_ms)] *)
Definition UsbFsTransport_init (d : UsbDeviceInfo) (t : Z) (h : list Z) (w : W) : transport W :=
  {| device := d; timeout_ms := t; fd := None; held := h; system := w |}.

Definition set_system (w : W) (s : transport W) : transport W :=
  {| device := device s; timeout_ms := timeout_ms s; fd := fd s; held := held s; system := w |}.
Definition set_fd (v : option Z) (s : transport W) : transport W :=
  {| device := device s; timeout_ms := timeout_ms s; fd := v; held := held s; system := system s |}.
Definition set_held (v : list Z) (s : transport W) : transport W :=
  {| device := device s; timeout_ms := timeout_ms s; fd := fd s; held := v; system := system s |}.

Definition os_open : T Z := λ s,
  match sys_open (devfs_path (device s)) (system s) with
  | (inl e, w) => (Err (os_error e), set_system w s)
  | (inr f, w) => (Ok f, set_held (f :: held s) (set_system w s))
  end.

(** A descriptor is gone even when [close] reports an error. *)
Fixpoint remove_one (x : Z) (l : list Z) : list Z :=
  match l with
  | [] => []
  | y :: l' => if x =? y then l' else y :: remove_one x l'
  end.

Definition os_close (f : Z) : T unit := λ s,
  match sys_close f (system s) with
  | (o, w) => (match o with Some e => Err (os_error e) | None => Ok tt end,
               set_held (remove_one f (held s)) (set_system w s))
  end.

Definition ioctl_interface (request : Z) (f interface : Z) : T unit := λ s,
  match sys_interface request f (to_uint interface) (system s) with
  | (Some e, w) => (Err (os_error e), set_system w s)
  | (None, w) => (Ok tt, set_system w s)
  end.

Definition claim_interface : Z → Z → T unit := ioctl_interface USBDEVFS_CLAIMINTERFACE.
Definition release_interface : Z → Z → T unit := ioctl_interface USBDEVFS_RELEASEINTERFACE.

Definition ioctl_bulk (f : Z) (x : UsbdevfsBulkTransfer) : T (Z * bytes) := λ s,
  match sys_bulk f x (system s) with
  | (inl e, w) => (Err (os_error e), set_system w s)
  | (inr r, w) => (Ok r, set_system w s)
  end.

Definition __enter__ : T unit :=
  f ← os_open;
  _ ← mputs (set_fd (Some f));
  mcatch (s ← mget; claim_interface f (interface (device s)))
    (λ exc, _ ← os_close f; _ ← mputs (set_fd None); mraise exc).

Definition __exit__ : T unit :=
  s ← mget;
  match fd s with
  | None => mret tt
  | Some f =>
      mfinally (release_interface f (interface (device s)))
               (_ ← os_close f; mputs (set_fd None))
  end.

Definition transport_max_packet_size (d : UsbDeviceInfo) : Z :=
  if info_max_packet_size d =? 0 then DEFAULT_MAX_USB_CHUNK else info_max_packet_size d.

(** [if self.fd is None: raise RuntimeError] *)
Definition open_fd : T Z :=
  s ← mget;
  match fd s with
  | None => mraise (RuntimeError (s! "transport is not open"))
  | Some f => mret f
  end.

Definition fs_bulk_write (data : bytes) : T Z :=
  f ← open_fd;
  s ← mget;
  '(ret, _) ← ioctl_bulk f (bulk_transfer (ep_out (device s)) (zlen data) (timeout_ms s) data);
  if negb (ret =? zlen data) then mraise (OSError EIO) else mret ret.

(** [ctypes.create_string_buffer(n)] is [n] zeros and refuses a negative [n]. *)
Definition create_string_buffer (n : Z) : T bytes :=
  if n <? 0 then mraise ValueError else mret (replicate (Z.to_nat n) 0).

(** [buf.raw[:ret]]: a negative [ret] cannot come from [_ioctl]. *)
Definition fs_bulk_read (size timeout : option Z) : T bytes :=
  f ← open_fd;
  s ← mget;
  let read_size := default (transport_max_packet_size (device s)) size in
  buf ← create_string_buffer read_size;
  r ← mcatch
        (r ← ioctl_bulk f (bulk_transfer (ep_in (device s)) read_size
                             (default (timeout_ms s) timeout) buf); mret (Some r))
        (λ exc, if errno_in exc [ETIMEDOUT; EAGAIN] then mret None else mraise exc);
  match r with
  | None => mret []
  | Some (ret, raw) => mret (ztake ret raw)
  end.

(** What a cancellable read is started with: descriptor, endpoint, size and
    timeout ([UsbFsCancellableBulkRead.__init__]). *)
Record read_request := {
  rq_fd : Z;
  rq_endpoint : Z;
  rq_buffer_length : Z;
  rq_timeout_ms : Z
}.

Definition fs_begin_cancellable_bulk_read (size timeout : option Z) : T read_request :=
  f ← open_fd;
  s ← mget;
  let read_size := default (transport_max_packet_size (device s)) size in
  _ ← create_string_buffer read_size;
  mret {| rq_fd := f; rq_endpoint := to_ubyte (ep_in (device s));
          rq_buffer_length := to_int read_size;
          rq_timeout_ms := default (timeout_ms s) timeout |}.
End Transport.

(** * The transport as the environment of the client *)

Section Composition.
Context {W : Type} `{UsbFile W} `{Sysfs}.
(** The outcome of a cancellable read ([UrbRace] says which outcomes there are). *)
Variable read_cancellably : read_request → W → result bytes * W.

(** The read that was begun last waits in the world. *)
Definition world : Type := transport W * option read_request.

Definition on_transport {A} (m : M (transport W) A) (w : world) : result A * world :=
  let '(r, s) := m w.1 in (r, (s, w.2)).

Definition usbfs_env (d : UsbDeviceInfo) : UsbEnv world := {|
  monotonic w := let '(t, s) := file_clock (system w.1) in (t, (set_system s w.1, w.2));
  bulk_write data := on_transport (fs_bulk_write data);
  bulk_read size t := on_transport (fs_bulk_read (Some size) (Some t));
  supports_cancellable_bulk_reads := true;
  begin_cancellable_bulk_read size t w :=
    match fs_begin_cancellable_bulk_read (Some size) (Some t) w.1 with
    | (Ok rq, s) => (Ok tt, (s, Some rq))
    | (Err e, s) => (Err e, (s, w.2))
    end;
  cancellable_read w :=
    match w.2 with
    | Some rq => let '(r, s) := read_cancellably rq (system w.1) in (r, (set_system s w.1, None))
    | None => (Err AssertionError, w)
    end;
  max_packet_size := transport_max_packet_size d
|}.

Definition transport_open (t : Z) (d : UsbDeviceInfo) (w : world) : result unit * world :=
  on_transport __enter__ (UsbFsTransport_init d t (held w.1) (system w.1), None).

Definition transport_close : world → result unit * world := on_transport __exit__.

(** [DatastoreConfig]; the file system below [sysfs_root] is what [Sysfs] stands for. *)
Record DatastoreConfig := {
  vid : Z;
  pid : Z;
  cfg_serial : option pystr;
  cfg_overrides : overrides;
  cfg_timeout_ms : Z;
  seq_start : Z;
  message_seq : Z;
  no_init : bool;
  cfg_debug : bool;
  cfg_sysfs_root : pystr;
  cfg_devfs_root : pystr
}.

(** [open_datastore] with the program's own parts. *)
Definition open_usbfs_datastore (c : DatastoreConfig) (w : world) : result datastore * world :=
  match find_motu_device (vid c) (pid c) (cfg_serial c) (cfg_overrides c) with
  | Err e => (Err e, w)
  | Ok d => open_datastore (H := usbfs_env d) (λ w, (Ok d, w)) (transport_open (cfg_timeout_ms c))
              transport_close (seq_start c) (message_seq c) (no_init c) w
  end.
End Composition.

(** * What the client leaves of the world *)

(** Of a property of the world that transfers keep, the first exchange keeps it
    too. *)
Section Spared.
Context {W : Type} `{UsbEnv W} (P : W → Prop).
Hypothesis P_write : ∀ data w, P w → P (bulk_write data w).2.
Hypothesis P_read : ∀ size t w, P w → P (bulk_read size t w).2.

Definition spares {A} (m : M (St (W := W)) A) : Prop := triple (λ s, P s.2) m (λ _ s, P s.2).

Lemma spares_ret {A} (a : A) : spares (mret a).
Proof. by intros s Hs. Qed.
Lemma spares_lift {A} (r : result A) : spares (mlift r).
Proof. by intros s Hs. Qed.
Lemma spares_raise {A} e : spares (A := A) (mraise e).
Proof. by intros s Hs. Qed.
Lemma spares_bind {A B} (m : M (St (W := W)) A) (f : A → M St B) :
  spares m → (∀ a, spares (f a)) → spares (m ≫= f).
Proof.
  intros Hm Hf. eapply triple_bind; [|exact Hf].
  eapply triple_conseq; [exact Hm | done |]. by intros [].
Qed.
Lemma spares_envR {A} (f : W → result A * W) : (∀ w, P w → P (f w).2) → spares (envR f).
Proof. intros Hf s Hs. unfold envR. specialize (Hf s.2 Hs). by destruct (f s.2). Qed.

#[local] Ltac spare :=
  repeat first
    [ solve [auto]
    | apply spares_ret | apply spares_lift | apply spares_raise
    | apply spares_envR; auto; fail
    | apply spares_bind; [|intros ?]
    | match goal with
      | |- spares (if ?b then _ else _) => destruct b
      | |- spares (match ?x with _ => _ end) => destruct x
      end ].

Lemma spares_chunks fuel t e g b : spares (read_chunks fuel t no_callbacks e g b).
Proof. revert g b. induction fuel; intros g b; cbn [read_chunks]; unfold _bulk_read; simpl; spare. Qed.

Lemma spares_frame t : spares (_read_logical_frame t no_callbacks).
Proof.
  unfold _read_logical_frame, _bulk_read. simpl. pose proof spares_chunks. spare.
Qed.

Lemma spares_drain fuel n t m q r ps : spares (drain_loop fuel n t m q r ps).
Proof. pose proof spares_frame. revert q r ps. induction fuel; intros q r ps; cbn [drain_loop]; spare. Qed.

Lemma spares_init : spares init.
Proof.
  pose proof spares_drain. unfold init, _drain_quiet, _write_frame. spare.
  intros s Hs. unfold _next_host_seq. by destruct (take_seq _).
Qed.
End Spared.

(** * Descriptors *)

Section Descriptors.
Context {W : Type} `{UsbFile W} `{Sysfs}.
Variable read_cancellably : read_request → W → result bytes * W.

(** The descriptor and the open ones. *)
Definition files (s : transport W) : option Z * list Z := (fd s, held s).

Lemma ioctl_interface_files q f i s : files (ioctl_interface q f i s).2 = files s.
Proof. unfold ioctl_interface. by destruct (sys_interface q f (to_uint i) (system s)) as [[]]. Qed.

Lemma ioctl_bulk_files f x s : files (ioctl_bulk f x s).2 = files s.
Proof. unfold ioctl_bulk. by destruct (sys_bulk f x (system s)) as [[]]. Qed.

Lemma bulk_write_files data s : files (fs_bulk_write data s).2 = files s.
Proof.
  unfold fs_bulk_write, open_fd, mget, mbind, M_bind, mret, M_ret, mraise. simpl.
  destruct (fd s) as [f|] eqn:Ef; [|done].
  pose proof (ioctl_bulk_files f (bulk_transfer (ep_out (device s)) (zlen data) (timeout_ms s) data) s)
    as Hf. destruct (ioctl_bulk _ _ s) as [[[ret raw]|e] s']; [|done]. simpl in Hf.
  by destruct (negb _).
Qed.

Lemma bulk_read_files size t s : files (fs_bulk_read size t s).2 = files s.
Proof.
  unfold fs_bulk_read, open_fd, create_string_buffer, mget, mcatch, mbind, M_bind, mret, M_ret, mraise.
  simpl. destruct (fd s) as [f|] eqn:Ef; [|done]. destruct (_ <? 0); [done|].
  match goal with |- context [ioctl_bulk f ?x s] => pose proof (ioctl_bulk_files f x s) as Hf;
    destruct (ioctl_bulk f x s) as [[[ret raw]|e] s'] end; simpl in *; [done|].
  by destruct (errno_in e _).
Qed.

Lemma remove_one_head f l : remove_one f (f :: l) = l.
Proof. simpl. by rewrite Z.eqb_refl. Qed.

Lemma enter_files s :
  let '(r, s') := __enter__ s in
  match r with
  | Ok _ => ∃ f, files s' = (Some f, f :: held s)
  | Err _ => held s' = held s
  end.
Proof.
  unfold __enter__, os_open, mputs, mcatch, mget, claim_interface, os_close, mbind, M_bind, mraise.
  destruct (sys_open _ _) as [[e|f] w]; [done|]. simpl.
  match goal with |- context [ioctl_interface ?q f ?i ?x] => pose proof (ioctl_interface_files q f i x) as Hf;
    destruct (ioctl_interface q f i x) as [[[]|e] s'] end; simpl in *; [by exists f|].
  injection Hf as _ Hh. destruct (sys_close f (system s')) as [[e'|] w']; simpl; rewrite Hh; apply remove_one_head.
Qed.

Lemma exit_files s f l : files s = (Some f, f :: l) → held (__exit__ s).2 = l.
Proof.
  intros [= Hf Hh]. unfold __exit__, mget, mfinally, release_interface, os_close, mbind, M_bind, mputs.
  simpl. rewrite Hf. match goal with |- context [ioctl_interface ?q f ?i s] =>
    pose proof (ioctl_interface_files q f i s) as Hi; destruct (ioctl_interface q f i s) as [r s'] end.
  simpl in *. injection Hi as _ Hh'. destruct (sys_close f (system s')) as [[e|] w]; simpl;
    rewrite Hh', Hh; apply remove_one_head.
Qed.

(** C17. Opening a session never leaks the device file: for any device tree, any
    answers of the system and any configuration, a failure on the way, be it in
    discovery, in claiming the interface or in the first exchange with the
    device, leaves open exactly the descriptors that were open before; a success
    adds the one of the transport, and leaving the session closes it. *)
Theorem open_usbfs_datastore_closes c (w : world (W := W)) :
  let '(r, w') := open_usbfs_datastore read_cancellably c w in
  match r with
  | Ok _ => ∃ f, files w'.1 = (Some f, f :: held w.1) ∧
                 held (transport_close w').2.1 = held w.1
  | Err _ => held w'.1 = held w.1
  end.
Proof.
  unfold open_usbfs_datastore. destruct (find_motu_device _ _ _ _) as [d|e]; [|done].
  unfold open_datastore, transport_open, on_transport. simpl.
  set (s0 := UsbFsTransport_init d (cfg_timeout_ms c) (held w.1) (system w.1)).
  pose proof (enter_files s0) as He. destruct (__enter__ s0) as [[[]|e] s1]; [|done].
  destruct He as [f Hf]. assert (∀ s r, files s = (Some f, f :: held s0) →
    held (transport_close (s, r)).2.1 = held w.1) as Hclose.
  { intros s r Hs. unfold transport_close, on_transport. simpl.
    apply exit_files in Hs. by destruct (__exit__ s). }
  unfold start_datastore. destruct (MotuUsbDatastore_init _ _) as [o|e].
  2: { specialize (Hclose s1 None Hf). unfold transport_close in *. by destruct (on_transport _ _) as [[] ?]. }
  destruct (no_init c); [by eauto|].
  pose proof (spares_init (H := usbfs_env read_cancellably d)
                (λ w, files w.1 = (Some f, f :: held s0))) as Hi.
  specialize (Hi ltac:(intros data v Hv; simpl; unfold on_transport;
    pose proof (bulk_write_files data v.1); destruct (fs_bulk_write data v.1); simpl in *; congruence)).
  specialize (Hi ltac:(intros size t v Hv; simpl; unfold on_transport;
    pose proof (bulk_read_files (Some size) (Some t) v.1); destruct (fs_bulk_read _ _ v.1);
    simpl in *; congruence)).
  specialize (Hi (o, (s1, None)) Hf). destruct (init _) as [[[]|e] [o' [s2 rq]]]; simpl in Hi; [by eauto|].
  specialize (Hclose s2 rq Hi). unfold transport_close in *. by destruct (on_transport _ _) as [[] ?].
Qed.
End Descriptors.
