(* ===== verification/Report.v ===== *)
(** What the command line shows of the device: the text of a response
    ([response_to_text], motu_proxy/parser.py) and the capability report
    ([read_device_capability_info], motu_proxy/datastore.py, and
    [print_capability_info], motu_proxy/cli.py).

    The datastore is the function that reads a path over a world.  A Python
    value that came from JSON is a [json], [None] being [JNull].

    Shown: the pretty text of a response reads back as the value the device
    sent; the report says of each section what the device says of it, on every
    branch; an absent path never fails the report; and a printed value is one
    line. *)
From S2P Require Import Prelude PyText Protocol Parser Paths Json JsonText.

(** * Text of a response *)

Section Text.
Context `{Interpreter}.

Definition response_to_text (response : bytes) (pretty : bool) : result pystr :=
  match extract_json_bytes response with
  | Some json_bytes =>
      let text := utf8_decode_replace json_bytes in
      if pretty then
        match json_loads true json_depth text with
        | Ok v => Ok (json_dumps (Indent 2) true v)
        | Err JSONDecodeError => Ok text
        | Err e => Err e
        end
      else Ok text
  | None => Ok (utf8_decode_replace response)
  end.
End Text.

(** * The capability report *)

Record CapabilityVersion := {
  present : bool;
  version : json
}.
Definition version_as_dict (c : CapabilityVersion) : json :=
  JObj [(s! "present", JBool (present c)); (s! "version", version c)].

Record DeviceCapabilityInfo := {
  apiversion : json;
  capabilities : list (pystr * CapabilityVersion);
  identity : list (pystr * json)
}.
Definition info_as_dict (i : DeviceCapabilityInfo) : json :=
  JObj [(s! "apiversion", apiversion i);
        (s! "capabilities", JObj (prod_map id version_as_dict <$> capabilities i));
        (s! "identity", JObj (identity i))].

Definition CAPABILITY_SECTIONS : list pystr := [s! "avb"; s! "router"; s! "mixer"].
Definition IDENTITY_KEYS : list pystr :=
  [s! "uid"; s! "model_name"; s! "firmware_version"; s! "serial_number"].

Definition capability_path (section : pystr) : pystr := s! "/datastore/ext/caps/" ++ section.
Definition identity_path (key : pystr) : pystr := s! "/datastore/" ++ key.

Definition is_null (v : json) : bool := match v with JNull => true | _ => false end.

(** [decoded["value"]] of an object that has it. *)
Definition unwrap_value (decoded : json) : json :=
  match decoded with
  | JObj fields =>
      match list_find (λ f, f.1 = s! "value") fields with
      | Some (_, (_, v)) => v
      | None => decoded
      end
  | _ => decoded
  end.

(** [text or None] *)
Definition text_or_none (s : pystr) : json := match s with [] => JNull | _ => JStr s end.

(** [for x in l: ...], in order, with the results kept. *)
Fixpoint mapW {W A B} (f : A → M W B) (l : list A) : M W (list B) :=
  match l with
  | [] => mret []
  | x :: l' => y ← f x; ys ← mapW f l'; mret (y :: ys)
  end.

Section Capability.
Context `{Interpreter}.

Definition _decode_datastore_value (response : bytes) : result json :=
  p ← parse_datastore_response response false;
  let body := bytes_strip (body p) in
  if zl_eqb body [] then Ok JNull else
  match (text ← utf8_decode body; json_loads true json_depth text) with
  | Err UnicodeDecodeError | Err JSONDecodeError =>
      Ok (text_or_none (strip (utf8_decode_replace body)))
  | Err e => Err e
  | Ok decoded => Ok (unwrap_value decoded)
  end.

Definition _looks_like_absent_path (exc : exn) : bool :=
  let message := lower (exn_text exc) in
  contains (s! "404") message || contains (s! "not found") message
  || contains (s! "does not exist") message.

Section Reading.
Context {W : Type}.
(** [datastore.get(path)] *)
Variable datastore_get : pystr → M W bytes.

Definition _read_required_datastore_value (path : pystr) : M W json :=
  response ← datastore_get path; mlift (_decode_datastore_value response).

(** The [except] clauses around the read: an absent path is [None]. *)
Definition absent_error (exc : exn) : bool :=
  match exc with
  | DatastoreNoResponse _ => true
  | _ => is_runtime_error exc && _looks_like_absent_path exc
  end.

Definition _read_optional_datastore_value (path : pystr) : M W (bool * json) :=
  response ← mcatch (r ← datastore_get path; mret (Some r))
               (λ exc, if absent_error exc then mret None else mraise exc);
  match response with
  | None => mret (false, JNull)
  | Some response =>
      status ← mlift (response_status_code response);
      if bool_decide (status = Some 404) then mret (false, JNull) else
      value ← mlift (_decode_datastore_value response);
      mret (negb (is_null value), value)
  end.

Definition read_device_capability_info : M W DeviceCapabilityInfo :=
  api ← _read_required_datastore_value (s! "/apiversion");
  caps ← mapW (λ section,
            '(p, v) ← _read_optional_datastore_value (capability_path section);
            mret (section, {| present := p; version := v |})) CAPABILITY_SECTIONS;
  ids ← mapW (λ key,
            '(_, v) ← _read_optional_datastore_value (identity_path key);
            mret (key, v)) IDENTITY_KEYS;
  mret {| apiversion := api; capabilities := caps; identity := ids |}.
End Reading.

(** * Printing the report *)

Definition hex2 (c : Z) : pystr := [hex_digit (c / 16 mod 16); hex_digit (c mod 16)].
Definition hex4_text (c : Z) : pystr := hex2 (c / 256) ++ hex2 c.

(** One character of [repr(s)] between quotes [q]. *)
Definition repr_char (q c : Z) : pystr :=
  if (c =? q) || (c =? 92) then [92; c]
  else if c =? 9 then [92; 116] else if c =? 10 then [92; 110] else if c =? 13 then [92; 114]
  else if (c <? 32) || (c =? 127) then [92; 120] ++ hex2 c
  else if (c <? 127) || printable c then [c]
  else if c <? 0x100 then [92; 120] ++ hex2 c
  else if c <? 0x10000 then [92; 117] ++ hex4_text c
  else [92; 85] ++ hex4_text (c / 0x10000) ++ hex4_text c.

Definition str_repr (s : pystr) : pystr :=
  let q := if contains [39] s && negb (contains [34] s) then 34 else 39 in
  q :: concat (repr_char q <$> s) ++ [q].

Definition num_repr (n : pynum) : pystr :=
  match n with
  | NFloat S754_nan => s! "nan"
  | NFloat (S754_infinity s) => if s then s! "-inf" else s! "inf"
  | _ => num_text n
  end.

Fixpoint py_repr (v : json) : pystr :=
  match v with
  | JNull => s! "None"
  | JBool b => if b then s! "True" else s! "False"
  | JNum n => num_repr n
  | JStr s => str_repr s
  | JList l => 91 :: intersperse (s! ", ") (map py_repr l) ++ [93]
  | JObj fields =>
      123 :: intersperse (s! ", ") (map (λ '(k, x), str_repr k ++ s! ": " ++ py_repr x) fields)
      ++ [125]
  end.

Definition _format_info_value (value : json) : pystr :=
  match value with
  | JNull => s! "not present"
  | JStr s => replace [10] [92; 110] (replace [13; 10] [10] (rstrip_by (λ c, c =? 10) s))
  | _ => py_repr value
  end.

Definition dict_get {A} (d : list (pystr * A)) (k : pystr) : option A :=
  (λ x, x.2.2) <$> list_find (λ f, f.1 = k) d.

(** The lines [print_capability_info] prints; [None] for a section the report
    does not have (the [KeyError]). *)
Definition print_capability_info (info : DeviceCapabilityInfo) : option (list pystr) :=
  caps ← mapM (λ section, capability ← dict_get (capabilities info) section;
                 Some (s! "  " ++ section ++ s! ": " ++
                       _format_info_value (if present capability then version capability else JNull)))
           CAPABILITY_SECTIONS;
  Some ([s! "apiversion: " ++ _format_info_value (apiversion info); s! "capabilities:"] ++ caps ++
        [s! "identity:"] ++
        map (λ key, s! "  " ++ key ++ s! ": " ++
                    _format_info_value (default JNull (dict_get (identity info) key)))
            IDENTITY_KEYS).
End Capability.

(** * Properties *)

(** ** The text of a response *)

(** Pretty printing keeps what the device sent: when the JSON of a response
    is a value [json.dumps] can print exactly (no floats), the text shown reads
    back as that value with its keys in order, and the compact text is the one
    that was sent. *)
Theorem response_text_reads_back `{Interpreter} response json_bytes v :
  extract_json_bytes response = Some json_bytes →
  json_loads true json_depth (utf8_decode_replace json_bytes) = Ok v → json_ok json_depth v →
  ∃ text, response_to_text response true = Ok text ∧
    json_loads true json_depth text = Ok (sort_keys v) ∧
    response_to_text response false = Ok (utf8_decode_replace json_bytes).
Proof.
  intros E Hl Hok. unfold response_to_text. rewrite E, Hl. eexists. split; [done|].
  split; [|done]. by rewrite (loads_dumps true json_depth (Indent 2) true v Hok).
Qed.

(** ** What the report says *)

(** What a device shows at an optional path: nothing, when it does not answer,
    says so in an error or answers 404; else the value it answers. *)
Inductive shows `{Interpreter} (dev : pystr → result bytes) (path : pystr) : json → Prop :=
  | shows_absent e : dev path = Err e → absent_error e = true → shows dev path JNull
  | shows_missing r : dev path = Ok r → response_status_code r = Ok (Some 404) →
      shows dev path JNull
  | shows_value r s v : dev path = Ok r → response_status_code r = Ok s → s ≠ Some 404 →
      _decode_datastore_value r = Ok v → shows dev path v.

Section Device.
Context `{Interpreter} {W : Type} (dev : pystr → result bytes).

#[local] Notation ask := (λ p, mlift (S := W) (dev p)).

Lemma read_optional_iff path w b v w' :
  _read_optional_datastore_value ask path w = (Ok (b, v), w') ↔
  shows dev path v ∧ b = negb (is_null v) ∧ w' = w.
Proof.
  unfold _read_optional_datastore_value, mcatch, mbind, M_bind, mlift, mret, M_ret, mraise.
  split.
  - destruct (dev path) as [r|e] eqn:Ed.
    + destruct (response_status_code r) as [s|e] eqn:Es; [|done].
      case_bool_decide as H4.
      * intros [= <- <- <-]. split; [|done]. subst s. by eapply shows_missing.
      * destruct (_decode_datastore_value r) as [x|] eqn:Ex; [|done].
        intros [= <- <- <-]. split; [|done]. by eapply shows_value.
    + destruct (absent_error e) eqn:Ea; [|done]. intros [= <- <- <-].
      split; [|done]. by eapply shows_absent.
  - intros (Hs & -> & ->). destruct Hs as [e Ed Ea | r Ed Es | r s v Ed Es H4 Ev];
      rewrite Ed; simpl.
    + by rewrite Ea.
    + by rewrite Es.
    + rewrite Es. case_bool_decide; [done|]. by rewrite Ev.
Qed.

Lemma mapW_iff {A B} (f : A → M W B) (P : A → B → Prop) w :
  (∀ a b w', f a w = (Ok b, w') ↔ P a b ∧ w' = w) →
  ∀ l bs w', mapW f l w = (Ok bs, w') ↔ Forall2 P l bs ∧ w' = w.
Proof.
  intros Hf. induction l as [|a l IH]; intros bs w'; simpl.
  - unfold mret, M_ret. split.
    + intros [= <- <-]. by split; [constructor|].
    + intros [Hp ->]. by inversion Hp.
  - unfold mbind, M_bind, mret, M_ret. split.
    + destruct (f a w) as [[b|e] w1] eqn:Ea; [|done]. apply Hf in Ea as [Ha ->].
      destruct (mapW f l w) as [[bs'|e] w2]; [|done]. destruct (proj1 (IH _ _) eq_refl) as [Hl ->].
      intros [= <- <-]. by split; [constructor|].
    + intros [Hp ->]. inversion Hp as [|? b ? bs' Ha Hl]; subst.
      rewrite (proj2 (Hf a b w)) by done. by rewrite (proj2 (IH bs' w)).
Qed.

(** The report a device deserves. *)
Record reports (info : DeviceCapabilityInfo) : Prop := {
  rp_api : ∃ r, dev (s! "/apiversion") = Ok r ∧ _decode_datastore_value r = Ok (apiversion info);
  rp_sections : Forall2 (λ section f, f.1 = section ∧
    shows dev (capability_path section) (version f.2) ∧
    present f.2 = negb (is_null (version f.2))) CAPABILITY_SECTIONS (capabilities info);
  rp_identity : Forall2 (λ key f, f.1 = key ∧ shows dev (identity_path key) f.2)
    IDENTITY_KEYS (identity info)
}.

(** C35. The capability report is exactly what the device shows: it succeeds with
    a report when and only when the version of the interface can be read and
    every optional path is either absent (no answer, an error that says so, or a
    404) or has a value that can be decoded; and then each section is listed in
    order, present if and only if it has a value, and each identity field has the
    device's value or none. *)
Theorem capability_report_exact (w w' : W) info :
  read_device_capability_info ask w = (Ok info, w') ↔ reports info ∧ w' = w.
Proof.
  set (cap := λ section, '(p, v) ← _read_optional_datastore_value ask (capability_path section);
            mret (section, {| present := p; version := v |})).
  set (idn := λ key, '(_, v) ← _read_optional_datastore_value ask (identity_path key);
            mret (M := M W) (key, v)).
  assert (∀ a b w', cap a w = (Ok b, w') ↔ (b.1 = a ∧ shows dev (capability_path a) (version b.2) ∧
    present b.2 = negb (is_null (version b.2))) ∧ w' = w) as Hcap.
  { intros a [k [p v]] w1. unfold cap, mbind at 1, M_bind. simpl. split.
    - destruct (_read_optional_datastore_value _ _ w) as [[[p' v']|e] w2] eqn:E; [|done].
      apply read_optional_iff in E as (? & -> & ->). unfold mret, M_ret. by intros [= <- <- <- <-].
    - intros [(-> & Hs & ->) ->]. by rewrite (proj2 (read_optional_iff _ w (negb (is_null v)) v w)). }
  assert (∀ a b w', idn a w = (Ok b, w') ↔ (b.1 = a ∧ shows dev (identity_path a) b.2) ∧ w' = w)
    as Hidn.
  { intros a [k v] w1. unfold idn, mbind at 1, M_bind. simpl. split.
    - destruct (_read_optional_datastore_value _ _ w) as [[[p' v']|e] w2] eqn:E; [|done].
      apply read_optional_iff in E as (? & -> & ->). unfold mret, M_ret. by intros [= <- <- <-].
    - intros [(-> & Hs) ->]. by rewrite (proj2 (read_optional_iff _ w (negb (is_null v)) v w)). }
  pose proof (mapW_iff cap _ w Hcap CAPABILITY_SECTIONS) as Hcs.
  pose proof (mapW_iff idn _ w Hidn IDENTITY_KEYS) as Hids.
  unfold read_device_capability_info, _read_required_datastore_value. fold cap idn.
  unfold mbind, M_bind, mlift, mret, M_ret. split.
  - destruct (dev (s! "/apiversion")) as [r|] eqn:Ed; [|done].
    destruct (_decode_datastore_value r) as [api|] eqn:Er; [|done].
    destruct (mapW cap _ w) as [[cs|] w1]; [|done]. destruct (proj1 (Hcs _ _) eq_refl) as [E1 ->].
    destruct (mapW idn _ w) as [[ids|] w1]; [|done]. destruct (proj1 (Hids _ _) eq_refl) as [E2 ->].
    intros [= <- <-]. split; [|done]. constructor; simpl; eauto.
  - intros [[(r & Ed & Er) Hc Hi] ->]. rewrite Ed, Er.
    rewrite (proj2 (Hcs (capabilities info) w)) by done.
    rewrite (proj2 (Hids (identity info) w)) by done. by destruct info.
Qed.
End Device.

(** ** One line per value *)

Definition one_line (s : pystr) : Prop := Forall (λ c, c ≠ 10) s.

Lemma one_line_app a b : one_line a → one_line b → one_line (a ++ b).
Proof. intros. by apply Forall_app. Qed.

Lemma one_line_concat l : Forall one_line l → one_line (concat l).
Proof. induction 1; simpl; [constructor|by apply one_line_app]. Qed.

Lemma one_line_intersperse sep l : one_line sep → Forall one_line l → one_line (intersperse sep l).
Proof.
  intros Hs. induction 1 as [|x l Hx Hl IH]; [constructor|]. destruct l; [done|].
  simpl. auto using one_line_app.
Qed.

(** A constant text, by evaluation. *)
Lemma one_line_by s : forallb (λ c, negb (c =? 10)) s = true → one_line s.
Proof.
  intros Hs. apply List.Forall_forall. intros x Hx. rewrite forallb_forall in Hs.
  specialize (Hs x Hx). by apply negb_true_iff, Z.eqb_neq in Hs.
Qed.

Lemma one_line_digits s : forallb is_digit s = true → one_line s.
Proof.
  intros Hs. apply one_line_by. rewrite forallb_forall in *. intros x Hx. specialize (Hs x Hx).
  unfold is_digit in Hs. zbool. apply negb_true_iff, Z.eqb_neq. lia.
Qed.

Lemma one_line_int n : one_line (str_of_int n).
Proof.
  destruct (str_of_int_digits n) as (c & l & -> & Hd & _). apply one_line_app.
  - by destruct (n <? 0); apply one_line_by.
  - by apply one_line_digits.
Qed.

Lemma one_line_replicate n c : c ≠ 10 → one_line (replicate n c).
Proof. intros. by apply Forall_replicate. Qed.

#[local] Hint Resolve one_line_app one_line_int one_line_replicate Forall_take Forall_drop : line.
#[local] Hint Extern 5 (one_line _) => (apply one_line_by; reflexivity) : line.

Lemma one_line_place t x : one_line t → one_line (place_point t x).
Proof.
  intros Ht. unfold place_point, ztake, zdrop.
  assert (one_line (if zlen (str_of_int (Z.abs x)) <? 2 then 48 :: str_of_int (Z.abs x)
                    else str_of_int (Z.abs x))) as He.
  { case_if; [constructor; [done|]|]; apply one_line_int. }
  set (e := if _ <? 2 then _ else _) in *. clearbody e.
  assert (one_line ((if x <? 0 then s! "e-" else s! "e+") ++ e)) as Hx.
  { apply one_line_app; [|done]. by destruct (x <? 0); apply one_line_by. }
  destruct (_ && _); [destruct (x <? 0); [|destruct (_ <=? _)]|].
  - repeat apply one_line_app; auto with line.
  - repeat apply one_line_app; auto with line.
  - repeat apply one_line_app; [by apply Forall_take|by apply one_line_by|by apply Forall_drop].
  - destruct t as [|c [|c' t]]; [constructor| |]; inversion Ht as [|? ? Hc Ht']; subst.
    + by constructor.
    + constructor; [done|]. constructor; [done|]. by apply (one_line_app (c' :: t)).
Qed.

Section OneLine.
Context `{Interpreter}.

Lemma one_line_num n : one_line (num_repr n).
Proof.
  destruct n as [z|[s|s| |s m e]]; cbn [num_repr num_text float_repr];
    [apply one_line_int|by destruct s; apply one_line_by|by destruct s; apply one_line_by
    |by apply one_line_by|].
  destruct (shortest 16 1 m e _) as [d k]. destruct (strip_zeros 17 d k) as [d' k'].
  apply one_line_app; [by destruct s; apply one_line_by|]. apply one_line_place, one_line_int.
Qed.

Lemma hex_digit_line n : 0 <= n → hex_digit n ≠ 10.
Proof. unfold hex_digit. case_if; zbool; lia. Qed.

Lemma one_line_hex2 c : one_line (hex2 c).
Proof.
  repeat constructor; apply hex_digit_line; apply Z.mod_pos_bound; lia.
Qed.

Lemma one_line_repr_char q c : q ≠ 10 → one_line (repr_char q c).
Proof.
  intros Hq. pose proof one_line_hex2. unfold repr_char, hex4_text.
  repeat case_if; zbool; auto with line; repeat constructor; auto.
  all: try lia; repeat apply one_line_app; auto with line.
Qed.

Lemma one_line_str_repr s : one_line (str_repr s).
Proof.
  unfold str_repr. set (q := if contains [39] s && negb (contains [34] s) then 34 else 39).
  assert (q ≠ 10) as Hq by (subst q; by case_if). constructor; [done|].
  apply one_line_app; [|by repeat constructor]. apply one_line_concat.
  apply Forall_fmap, Forall_true. intros c. by apply one_line_repr_char.
Qed.

Lemma one_line_repr : ∀ v, one_line (py_repr v).
Proof.
  fix IH 1. intros [|b|n|s|l|fields]; cbn [py_repr].
  - by apply one_line_by.
  - by destruct b; apply one_line_by.
  - apply one_line_num.
  - apply one_line_str_repr.
  - constructor; [done|]. apply one_line_app; [|by apply one_line_by].
    apply one_line_intersperse; [by apply one_line_by|].
    induction l as [|v l IHl]; constructor; [apply IH|exact IHl].
  - constructor; [done|]. apply one_line_app; [|by apply one_line_by].
    apply one_line_intersperse; [by apply one_line_by|].
    induction fields as [|[k v] l IHl]; constructor; [|exact IHl].
    apply one_line_app; [apply one_line_str_repr|]. apply one_line_app; [by apply one_line_by|apply IH].
Qed.

Lemma one_line_replace fuel s :
  (length s <= fuel)%nat → one_line (replace_fuel fuel [10] [92; 110] s).
Proof.
  revert s. induction fuel as [|fuel IH]; intros s Hs; [destruct s; [constructor|simpl in Hs; lia]|].
  destruct s as [|c s]; [constructor|]. simpl in Hs. cbn [replace_fuel starts_with].
  destruct (10 =? c) eqn:E; zbool; simpl.
  - do 2 (constructor; [done|]). apply IH. rewrite ?drop_0. lia.
  - constructor; [congruence|]. apply IH. lia.
Qed.

Lemma format_one_line v : one_line (_format_info_value v).
Proof.
  destruct v; try apply one_line_repr; [by apply one_line_by|].
  unfold _format_info_value. by apply one_line_replace.
Qed.
End OneLine.

(** The printed report has its ten lines: a report of the three sections
    prints, one line per section and identity field whatever the values are
    (texts with line breaks, nested values, floats), so no value of the device
    can forge a line of the report. *)
Theorem report_lines `{Interpreter} info :
  (capabilities info).*1 = CAPABILITY_SECTIONS →
  ∃ lines, print_capability_info info = Some lines ∧ length lines = 10%nat ∧ Forall one_line lines.
Proof.
  intros Hc. unfold print_capability_info.
  destruct (capabilities info) as [|[k1 c1] [|[k2 c2] [|[k3 c3] [|]]]]; try discriminate Hc.
  injection Hc as -> -> ->. cbn. eexists. split; [reflexivity|]. split; [reflexivity|].
  repeat constructor; try done; repeat (constructor; [done|]); apply format_one_line.
Qed.

(** ** Examples *)

Definition quoted (s : pystr) : pystr := 34 :: s ++ [34].

(** A device with one capability and a name of two lines. *)
Definition demo_device (path : pystr) : result bytes :=
  if zl_eqb path (s! "/apiversion") then Ok (s! "1.0.0")
  else if zl_eqb path (s! "/datastore/ext/caps/avb") then Ok (s! "{" ++ quoted (s! "value") ++ s! ": 2}")
  else if zl_eqb path (s! "/datastore/model_name") then Ok (quoted (s! "a\nb"))
  else if zl_eqb path (s! "/datastore/uid") then Ok (s! "HTTP/1.1 404 Not Found" ++ [13; 10; 13; 10])
  else Err (DatastoreNoResponse (NoneAfter 500)).

Example demo_report :
  let '(r, _) := read_device_capability_info (H := demo_python) (λ p, mlift (demo_device p)) tt in
  match r with
  | Ok info => print_capability_info (H := demo_python) info
  | Err _ => None
  end = Some [s! "apiversion: 1.0.0"; s! "capabilities:"; s! "  avb: 2"; s! "  router: not present";
              s! "  mixer: not present"; s! "identity:"; s! "  uid: not present";
              s! "  model_name: a\nb"; s! "  firmware_version: not present";
              s! "  serial_number: not present"].
Proof. vm_compute. reflexivity. Qed.

Lemma report_lines_witness :
  let info := {| apiversion := JStr (s! "a" ++ [13; 10; 10] ++ s! "b");
                 capabilities := (λ s, (s, {| present := false; version := JNull |})) <$> CAPABILITY_SECTIONS;
                 identity := [] |} in
  ∃ lines, print_capability_info (H := demo_python) info = Some lines ∧ length lines = 10%nat ∧
           Forall one_line lines.
Proof. intros info. apply (report_lines (H := demo_python) info). reflexivity. Defined.

Definition demo_text : bytes := s! "{" ++ quoted (s! "b") ++ s! ":[1,-2]," ++ quoted (s! "a") ++ s! ":true}".

Definition shallow_python : Interpreter :=
  {| json_depth := 3; mapped_loopback := true; exn_text := λ _, []; printable := λ _, true |}.

Lemma response_text_reads_back_witness :
  let v := JObj [(s! "b", JList [JNum (NInt 1); JNum (NInt (-2))]); (s! "a", JBool true)] in
  ∃ text, response_to_text (H := shallow_python) (s! "xx" ++ demo_text ++ s! "yy") true = Ok text ∧
    json_loads true 3 text = Ok (sort_keys v).
Proof.
  intros v. assert (json_ok 3 v) as Hv.
  { subst v. simpl. split.
    - refine (bool_decide_unpack _ _). vm_compute. exact I.
    - repeat constructor; vm_compute; congruence. }
  assert (extract_json_bytes (s! "xx" ++ demo_text ++ s! "yy") = Some demo_text) as He
    by (vm_compute; reflexivity).
  assert (json_loads true 3 (utf8_decode_replace demo_text) = Ok v) as Hl by (vm_compute; reflexivity).
  destruct (response_text_reads_back (H := shallow_python) _ _ _ He Hl Hv) as (text & E & Hr & _).
  exists text. exact (conj E Hr).
Defined.
