(* ===== verification/CliArgs.v ===== *)
(** The command line's arguments (motu_proxy/cli.py): the argument types, the USB
    options of every command and the configuration made of them.

    [argparse] is left out except for what it does with one option: an absent one
    has its default, a given one is what its type makes of the text, and
    [ArgumentTypeError] ends the program.  Shown: an integer option reads back
    what Python prints for an integer, in decimal or in hexadecimal, and a
    configuration made of accepted options is within the bounds the USB client
    relies on. *)
From S2P Require Import Prelude PyText Protocol Parser Usb Paths Device Json JsonText Urb Usbfs.

(** * [int(value, 0)] *)

(** Decimal digits of any script become ASCII ones before anything else. *)
Definition ascii_digit (c : Z) : Z :=
  match decimal_value c with Some d => 48 + d | None => c end.

Definition digit_in (base c : Z) : option Z :=
  d ← (if (48 <=? c) && (c <=? 57) then Some (c - 48)
       else if (97 <=? c) && (c <=? 122) then Some (c - 87)
       else if (65 <=? c) && (c <=? 90) then Some (c - 55) else None);
  if d <? base then Some d else None.

(** The digits of an integer literal, with single underscores between them. *)
Fixpoint digits_in (base acc : Z) (prev_digit : bool) (s : pystr) : option Z :=
  match s with
  | [] => if prev_digit then Some acc else None
  | c :: s' =>
      if (c =? 95) && prev_digit then digits_in base acc false s'
      else match digit_in base c with
           | Some d => digits_in base (base * acc + d) true s'
           | None => None
           end
  end.

(** One underscore may follow the prefix. *)
Definition after_prefix (s : pystr) : pystr :=
  match s with 95 :: s' => s' | _ => s end.

Definition prefix_base (c : Z) : option Z :=
  if (c =? 120) || (c =? 88) then Some 16
  else if (c =? 111) || (c =? 79) then Some 8
  else if (c =? 98) || (c =? 66) then Some 2 else None.

Definition decimal_text (s : pystr) : option Z :=
  if max_str_digits <? zlen (filter (λ c, is_digit c = true) s) then None
  else digits_in 10 0 false s.

Definition unsigned0 (s : pystr) : option Z :=
  match s with
  | 48 :: c :: r =>
      match prefix_base c with
      | Some b => digits_in b 0 false (after_prefix r)
      | None => (** a leading zero: only zero itself may have one *)
          v ← decimal_text s; if v =? 0 then Some 0 else None
      end
  | _ => decimal_text s
  end.

Definition int_base0 (s : pystr) : option Z :=
  match ascii_digit <$> strip_by is_int_space s with
  | 43 :: s' => unsigned0 s'
  | 45 :: s' => Z.opp <$> unsigned0 s'
  | s' => unsigned0 s'
  end.

(** * The argument types *)

(** [None] is [ArgumentTypeError]. *)
Definition _int_arg (value : pystr) : option Z := int_base0 value.

Definition _bounded_int_arg (value : pystr) (minimum maximum : Z) : option Z :=
  parsed ← _int_arg value;
  if negb ((minimum <=? parsed) && (parsed <=? maximum)) then None else Some parsed.

Definition _positive_int_arg (value : pystr) : option Z :=
  parsed ← _int_arg value; if parsed <=? 0 then None else Some parsed.

Definition _u16_arg (value : pystr) : option Z := _bounded_int_arg value 0 0xFFFF.
Definition _interface_arg (value : pystr) : option Z := _bounded_int_arg value 0 0xFF.

Definition _ep_out_arg (value : pystr) : option Z :=
  endpoint ← _int_arg value;
  if negb ((0x01 <=? endpoint) && (endpoint <=? 0x0F)) then None else Some endpoint.

Definition _ep_in_arg (value : pystr) : option Z :=
  endpoint ← _int_arg value;
  if negb ((0x81 <=? endpoint) && (endpoint <=? 0x8F)) then None else Some endpoint.

Definition _host_seq_arg (value : pystr) : option Z :=
  seq ← _int_arg value;
  match validate_host_seq seq with
  | Ok s => Some s
  | Err _ => None
  end.

Definition _message_seq_arg (value : pystr) : option Z := _bounded_int_arg value 0 MAX_MESSAGE_SEQ.
Definition _port_arg (value : pystr) : option Z := _bounded_int_arg value 1 65535.

(** [max_post_json_body_bytes("/datastore")], which succeeds (see
    [max_configurable_ok]). *)
Definition MAX_CONFIGURABLE_WRITE_BODY_BYTES : Z :=
  match max_post_json_body_bytes (s! "/datastore") (s! "NREK") None with Ok n => n | Err _ => 0 end.
Definition _max_write_body_bytes_arg (value : pystr) : option Z :=
  parsed ← _positive_int_arg value;
  if MAX_CONFIGURABLE_WRITE_BODY_BYTES <? parsed then None else Some parsed.

(** * The USB options *)

Record usb_args := {
  a_vid : Z;
  a_pid : Z;
  a_serial : option pystr;
  a_overrides : overrides;
  a_timeout_ms : Z;
  a_seq_start : Z;
  a_message_seq : Z;
  a_no_init : bool;
  a_debug : bool;
  a_sysfs_root : pystr;
  a_devfs_root : pystr
}.

(** The texts given for the options of [add_usb_args]. *)
Record usb_texts := {
  t_vid : option pystr;
  t_pid : option pystr;
  t_serial : option pystr;
  t_interface : option pystr;
  t_ep_out : option pystr;
  t_ep_in : option pystr;
  t_timeout_ms : option pystr;
  t_seq_start : option pystr;
  t_message_seq : option pystr;
  t_no_init : bool;
  t_debug : bool;
  t_sysfs_root : option pystr;
  t_devfs_root : option pystr
}.

Definition DEFAULT_SYSFS_ROOT : pystr := s! "/sys/bus/usb/devices".
Definition DEFAULT_DEVFS_ROOT : pystr := s! "/dev/bus/usb".

(** An option with a default, and one without. *)
Definition option_or (type : pystr → option Z) (d : Z) (text : option pystr) : option Z :=
  match text with Some t => type t | None => Some d end.
Definition option_maybe (type : pystr → option Z) (text : option pystr) : option (option Z) :=
  match text with Some t => v ← type t; Some (Some v) | None => Some None end.

Definition add_usb_args (t : usb_texts) : option usb_args :=
  vid ← option_or _u16_arg MOTU_VID (t_vid t);
  pid ← option_or _u16_arg MOTU_AVB_PID (t_pid t);
  interface ← option_maybe _interface_arg (t_interface t);
  ep_out ← option_maybe _ep_out_arg (t_ep_out t);
  ep_in ← option_maybe _ep_in_arg (t_ep_in t);
  timeout ← option_or _positive_int_arg DEFAULT_TIMEOUT_MS (t_timeout_ms t);
  seq_start ← option_or _host_seq_arg DEFAULT_SEQ_START (t_seq_start t);
  message_seq ← option_or _message_seq_arg DEFAULT_MESSAGE_SEQ (t_message_seq t);
  Some {| a_vid := vid; a_pid := pid; a_serial := t_serial t;
          a_overrides := {| o_interface := interface; o_ep_out := ep_out; o_ep_in := ep_in |};
          a_timeout_ms := timeout; a_seq_start := seq_start; a_message_seq := message_seq;
          a_no_init := t_no_init t; a_debug := t_debug t;
          a_sysfs_root := default DEFAULT_SYSFS_ROOT (t_sysfs_root t);
          a_devfs_root := default DEFAULT_DEVFS_ROOT (t_devfs_root t) |}.

(** * The configuration *)

Definition validate_usb_overrides (o : overrides) : result unit :=
  if any_override o && negb (bool_decide (is_Some (manual o)))
  then Err (RuntimeError (s! "--interface, --ep-out, and --ep-in must be provided together"))
  else Ok tt.

Definition validate_cli_range (value minimum : Z) (maximum : option Z) (name : pystr) : result unit :=
  if value <? minimum then Err (RuntimeError (name ++ s! " must be >= " ++ str_of_int minimum)) else
  match maximum with
  | Some m => if m <? value then Err (RuntimeError (name ++ s! " must be <= " ++ str_of_int m))
              else Ok tt
  | None => Ok tt
  end.

Definition config_from_args (a : usb_args) : result DatastoreConfig :=
  _ ← validate_usb_overrides (a_overrides a);
  _ ← validate_host_seq (a_seq_start a);
  _ ← validate_cli_range (a_timeout_ms a) 1 None (s! "--timeout-ms");
  _ ← validate_cli_range (a_message_seq a) 0 (Some MAX_MESSAGE_SEQ) (s! "--message-seq");
  Ok {| vid := a_vid a; pid := a_pid a; cfg_serial := a_serial a; cfg_overrides := a_overrides a;
        cfg_timeout_ms := a_timeout_ms a; seq_start := a_seq_start a;
        message_seq := a_message_seq a; no_init := a_no_init a; cfg_debug := a_debug a;
        cfg_sysfs_root := a_sysfs_root a; cfg_devfs_root := a_devfs_root a |}.

Example int_texts :
  int_base0 <$> [s! "0x07fd"; s! " -12 "; s! "0b1_01"; s! "0"; s! "00"; s! "010"; s! "0x"; s! "1__2";
                 s! "0X_ff"; s! "+7"; s! "0o17"; []; s! "1_"; s! "- 1"; s! "--1"]
  = [Some 2045; Some (-12); Some 5; Some 0; Some 0; None; None; None; Some 255; Some 7; Some 15;
     None; None; None; None].
Proof. vm_compute. reflexivity. Qed.

Lemma max_configurable_ok :
  max_post_json_body_bytes (s! "/datastore") (s! "NREK") None = Ok MAX_CONFIGURABLE_WRITE_BODY_BYTES.
Proof. vm_compute. reflexivity. Qed.

(** * What accepted options give *)

Lemma bounded_int_arg_range value a b n : _bounded_int_arg value a b = Some n → a <= n <= b.
Proof.
  unfold _bounded_int_arg. destruct (_int_arg value) as [v|]; [|done]. simpl.
  case_if; [done|]. intros [= <-]. zbool. lia.
Qed.

Lemma positive_int_arg_range value n : _positive_int_arg value = Some n → 1 <= n.
Proof.
  unfold _positive_int_arg. destruct (_int_arg value) as [v|]; [|done]. simpl.
  case_if; [done|]. intros [= <-]. zbool. lia.
Qed.

Lemma ep_out_arg_range value n : _ep_out_arg value = Some n → 0x01 <= n <= 0x0F.
Proof. apply bounded_int_arg_range. Qed.

Lemma ep_in_arg_range value n : _ep_in_arg value = Some n → 0x81 <= n <= 0x8F.
Proof. apply bounded_int_arg_range. Qed.

Lemma host_seq_arg_range value n :
  _host_seq_arg value = Some n → validate_host_seq n = Ok n.
Proof.
  unfold _host_seq_arg. destruct (_int_arg value) as [v|]; [|done]. simpl.
  destruct (validate_host_seq v) as [s|] eqn:E; [|done]. intros [= <-].
  assert (s = v) as -> by (revert E; unfold validate_host_seq; case_if; congruence). done.
Qed.

(** A bound that the default and the type share holds of the option. *)
Lemma option_or_ind (P : Z → Prop) type d text n :
  P d → (∀ t v, type t = Some v → P v) → option_or type d text = Some n → P n.
Proof. intros Hd Ht. destruct text; simpl; [apply Ht|by intros [= <-]]. Qed.

Lemma option_maybe_ind (P : Z → Prop) type text n :
  (∀ t v, type t = Some v → P v) → option_maybe type text = Some (Some n) → P n.
Proof.
  intros Ht. destruct text as [t|]; simpl; [|done]. destruct (type t) eqn:E; simpl; [|done].
  intros [= <-]. eauto.
Qed.

(** What the types of the options give. *)
Record args_ok (a : usb_args) : Prop := {
  ao_vid : 0 <= a_vid a <= 0xFFFF;
  ao_pid : 0 <= a_pid a <= 0xFFFF;
  ao_interface : ∀ n, o_interface (a_overrides a) = Some n → 0 <= n <= 0xFF;
  ao_ep_out : ∀ n, o_ep_out (a_overrides a) = Some n → 0x01 <= n <= 0x0F;
  ao_ep_in : ∀ n, o_ep_in (a_overrides a) = Some n → 0x81 <= n <= 0x8F;
  ao_timeout : 1 <= a_timeout_ms a;
  ao_seq : validate_host_seq (a_seq_start a) = Ok (a_seq_start a);
  ao_message_seq : 0 <= a_message_seq a <= MAX_MESSAGE_SEQ
}.

Lemma add_usb_args_ok t a : add_usb_args t = Some a → args_ok a.
Proof.
  unfold add_usb_args. intros Ha.
  apply bind_Some in Ha as (v & Hv & Ha). apply bind_Some in Ha as (p & Hp & Ha).
  apply bind_Some in Ha as (i & Hi & Ha). apply bind_Some in Ha as (out & Hout & Ha).
  apply bind_Some in Ha as (inn & Hinn & Ha). apply bind_Some in Ha as (tm & Htm & Ha).
  apply bind_Some in Ha as (sq & Hsq & Ha). apply bind_Some in Ha as (mq & Hmq & [= <-]).
  constructor; cbn [a_vid a_pid a_overrides o_interface o_ep_out o_ep_in a_timeout_ms a_seq_start a_message_seq].
  - revert Hv. apply (option_or_ind (λ n, 0 <= n <= 0xFFFF)); [by compute|].
    intros ? ?. apply bounded_int_arg_range.
  - revert Hp. apply (option_or_ind (λ n, 0 <= n <= 0xFFFF)); [by compute|].
    intros ? ?. apply bounded_int_arg_range.
  - intros n ->. revert Hi. apply (option_maybe_ind (λ n, 0 <= n <= 0xFF)).
    intros ? ?. apply bounded_int_arg_range.
  - intros n ->. revert Hout. apply (option_maybe_ind (λ n, 0x01 <= n <= 0x0F)), ep_out_arg_range.
  - intros n ->. revert Hinn. apply (option_maybe_ind (λ n, 0x81 <= n <= 0x8F)), ep_in_arg_range.
  - revert Htm. apply (option_or_ind (λ n, 1 <= n)); [by compute|apply positive_int_arg_range].
  - revert Hsq. apply (option_or_ind (λ n, validate_host_seq n = Ok n)); [done|apply host_seq_arg_range].
  - revert Hmq. apply (option_or_ind (λ n, 0 <= n <= MAX_MESSAGE_SEQ)); [by compute|].
    intros ? ?. apply bounded_int_arg_range.
Qed.

(** What the USB client relies on of a configuration. *)
Record config_ok (c : DatastoreConfig) : Prop := {
  co_vid : 0 <= vid c <= 0xFFFF;
  co_pid : 0 <= pid c <= 0xFFFF;
  co_overrides : cfg_overrides c = {| o_interface := None; o_ep_out := None; o_ep_in := None |} ∨
    ∃ i out inn, manual (cfg_overrides c) = Some (i, out, inn) ∧
      0 <= i <= 0xFF ∧ 0x01 <= out <= 0x0F ∧ 0x81 <= inn <= 0x8F;
  co_timeout : 1 <= cfg_timeout_ms c;
  co_seq : is_ok (HostSequencer_init (seq_start c)) = true;
  co_message_seq : 0 <= message_seq c < 2 ^ 32
}.

(** C34. A configuration made of accepted options: it is refused only when some
    but not all of the three USB overrides are given, every later check being
    implied by the types of the options; and when it is made, the identifiers
    are 16-bit ones, the overrides are absent or an interface with an OUT and an
    IN endpoint, the timeout is positive, the USB client accepts the first host
    sequence, and the message sequence fits 32 bits. *)
Theorem config_of_options_ok t a :
  add_usb_args t = Some a →
  match config_from_args a with
  | Ok c => config_ok c ∧ (any_override (a_overrides a) = true → is_Some (manual (a_overrides a)))
  | Err e => e = RuntimeError (s! "--interface, --ep-out, and --ep-in must be provided together") ∧
             any_override (a_overrides a) = true ∧ manual (a_overrides a) = None
  end.
Proof.
  intros [Hv Hp Hi Hout Hinn Htm Hsq Hmq]%add_usb_args_ok. unfold config_from_args, validate_usb_overrides.
  set (o := a_overrides a) in *.
  destruct (any_override o && negb (bool_decide (is_Some (manual o)))) eqn:Eo.
  { cbn. apply andb_true_iff in Eo as [E1 E2].
    by apply negb_true_iff, bool_decide_eq_false, eq_None_not_Some in E2. }
  cbn [mbind result_bind]. rewrite Hsq. cbn [mbind result_bind]. unfold validate_cli_range.
  rewrite (proj2 (Z.ltb_ge (a_timeout_ms a) 1)) by lia. cbn [mbind result_bind].
  rewrite (proj2 (Z.ltb_ge (a_message_seq a) 0)), (proj2 (Z.ltb_ge MAX_MESSAGE_SEQ _)) by lia.
  cbn [mbind result_bind]. assert (any_override o = true → is_Some (manual o)) as Ho.
  { intros E. rewrite E in Eo. cbn [andb] in Eo. by apply negb_false_iff, bool_decide_eq_true in Eo. }
  split; [|exact Ho]. constructor; cbn; try done.
  - fold o. clearbody o. destruct o as [[i|] [out|] [inn|]]; unfold any_override, manual in *; cbn in *;
      try (by left); try (destruct Ho; [reflexivity|discriminate]). right. exists i, out, inn. auto.
  - unfold HostSequencer_init. by rewrite Hsq.
  - unfold MAX_MESSAGE_SEQ in Hmq. lia.
Qed.

Lemma config_of_options_ok_witness :
  let t := {| t_vid := None; t_pid := Some (s! "0x5"); t_serial := None; t_interface := Some (s! "3");
              t_ep_out := Some (s! "0x02"); t_ep_in := Some (s! "0x81"); t_timeout_ms := None;
              t_seq_start := None; t_message_seq := None; t_no_init := false; t_debug := false;
              t_sysfs_root := None; t_devfs_root := None |} in
  ∃ a c, add_usb_args t = Some a ∧ config_from_args a = Ok c ∧ config_ok c.
Proof.
  intros t. assert (∃ a, add_usb_args t = Some a ∧ is_ok (config_from_args a) = true) as (a & Ea & Eo)
    by (eexists; split; [vm_compute; reflexivity|vm_compute; reflexivity]).
  pose proof (config_of_options_ok t a Ea) as Hc.
  destruct (config_from_args a) as [c|e] eqn:Ec; [|discriminate Eo].
  exists a, c. split; [exact Ea|]. split; [exact Ec|exact (proj1 Hc)].
Defined.

(** ** Integers read back *)

Lemma ascii_digit_id c : is_digit c = true → ascii_digit c = c.
Proof.
  intros Hc. unfold ascii_digit. rewrite (decimal_value_digit c Hc). unfold is_digit in Hc. zbool. lia.
Qed.

Lemma digits_in_digits acc b l :
  forallb is_digit l = true → b = true ∨ l ≠ [] → digits_in 10 acc b l = Some (digits_number acc l).
Proof.
  revert acc b. induction l as [|c l IH]; intros acc b Hl Hb; simpl.
  - by destruct Hb as [->|?].
  - apply andb_true_iff in Hl as [Hc Hl]. unfold is_digit in Hc. unfold digit_in. rewrite Hc. zbool.
    rewrite (proj2 (Z.eqb_neq c 95)) by lia. simpl.
    rewrite (proj2 (Z.ltb_lt (c - 48) 10)) by lia. rewrite IH by auto. done.
Qed.

Lemma unsigned0_digits c l :
  forallb is_digit (c :: l) = true → (c = 48 → l = []) → zlen (c :: l) <= max_str_digits →
  unsigned0 (c :: l) = Some (digits_number 0 (c :: l)).
Proof.
  intros Hd H0 Hlen.
  assert (decimal_text (c :: l) = Some (digits_number 0 (c :: l))) as Ht.
  { unfold decimal_text. pose proof (length_filter (λ x, is_digit x = true) (c :: l)).
    rewrite (proj2 (Z.ltb_ge max_str_digits _)) by (unfold zlen in *; lia).
    apply digits_in_digits; auto. }
  rewrite <- Ht. destruct l as [|x r].
  - unfold unsigned0. destruct c as [|p|]; try done. repeat (destruct p as [p|p|]; try done).
  - assert (c ≠ 48) by (intros E; by specialize (H0 E)). unfold unsigned0.
    destruct c as [|p|]; try done. repeat (destruct p as [p|p|]; try done).
Qed.

(** An integer option reads back the decimal text of an integer, negative or
    not, up to the interpreter's limit on digits. *)
Theorem int_arg_roundtrip n :
  zlen (str_of_int n) <= max_str_digits → _int_arg (str_of_int n) = Some n.
Proof.
  destruct (str_of_int_digits n) as (c & l & E & Hd & Hv & H0). rewrite E. intros Hlen.
  assert (forallb (λ x, negb (is_int_space x)) ((if n <? 0 then [45] else []) ++ c :: l) = true) as Hs.
  { rewrite forallb_app. apply andb_true_iff. split; [by destruct (n <? 0)|].
    rewrite forallb_forall in *. intros x Hx. by rewrite digit_not_space by auto. }
  assert (ascii_digit <$> c :: l = c :: l) as Ha.
  { clear -Hd. revert Hd. generalize (c :: l). induction l0 as [|x l0 IH]; [done|].
    cbn [forallb]. intros [Hx Hl]%andb_true_iff. rewrite fmap_cons, IH by done.
    by rewrite ascii_digit_id. }
  unfold _int_arg, int_base0. rewrite strip_by_id by done. rewrite fmap_app, Ha.
  assert (zlen (c :: l) <= max_str_digits) as Hl.
  { unfold zlen in *. rewrite length_app in Hlen. lia. }
  destruct (n <? 0) eqn:En; zbool.
  - change (ascii_digit <$> [45]) with [45]. cbn [app].
    rewrite unsigned0_digits by done. rewrite Hv. simpl. f_equal. lia.
  - cbn [app fmap list_fmap]. rewrite Z.abs_eq in Hv by lia. rewrite <- Hv.
    rewrite <- (unsigned0_digits c l) by done. simpl in Hd. apply andb_true_iff in Hd as [Hc _].
    unfold is_digit in Hc. zbool. destruct c as [|p|]; try done.
    repeat (destruct p as [p|p|]; try done); lia.
Qed.

Lemma int_arg_roundtrip_witness :
  _int_arg (str_of_int (-2045)) = Some (-2045).
Proof. apply (int_arg_roundtrip (-2045)). vm_compute. congruence. Defined.
