(* ===== verification/Token.v ===== *)
(** The write-token file of [serve] (motu_proxy/cli.py: [write_token_file],
    [prepare_write_token], [remove_write_token_file]).

    The file system is the class [TokenFs]: one function per call the code makes,
    each free to fail, over a world [W]; [os.open] gets the flags the code
    computes.  [TokenFsLaws] states what the code relies on, as the system
    documents it: what [lstat] reports, what each flag of [open(2)] does (on
    regular files and on FIFOs and devices, which can be opened too), and which
    file a call on a descriptor changes.  The laws say nothing of the directory
    entries between two calls, so another process may replace them at any time.
    A descriptor is named by the file it is open on.

    Shown: the token only ever gets into a file that nobody else can read and
    that was not reached through a link, or into a FIFO or device found at the
    path; and only a file that holds this very token is removed. *)
From stdpp Require Import gmap.
From S2P Require Import Prelude PyText.

Inductive file_kind :=
  | Regular (inode : Z)
  | Symlink
  | OtherKind (inode : Z).
#[global] Instance file_kind_eq_dec : EqDecision file_kind.
Proof. solve_decision. Defined.

(** A file; of a FIFO or device the content is what it was given so far. *)
Record file := {
  f_special : bool;
  f_mode : Z;
  f_content : bytes
}.

Definition owner_only : Z := 0x180. (* 0o600 *)
Definition ENOENT : Z := 2.
Definition ELOOP : Z := 40.

(** The flags of [os.open] on Linux. *)
Definition O_WRONLY : Z := 0x1.
Definition O_CREAT : Z := 0x40.
Definition O_TRUNC : Z := 0x200.
Definition O_NOFOLLOW : Z := 0x20000.
Definition has_flag (flags flag : Z) : bool := Z.land flags flag =? flag.

Class TokenFs (W : Type) := {
  (** [path.parent.mkdir(parents=True, mode=0o700, exist_ok=True)] *)
  mkdir_parent : pystr → M W unit;
  lstat : pystr → M W file_kind;
  (** [hasattr(os, "O_NOFOLLOW")] *)
  has_o_nofollow : bool;
  (** [os.open(path, flags, mode)] *)
  os_open : pystr → Z → Z → M W Z;
  fchmod : Z → Z → M W unit;
  (** Writing the buffered text and closing: [handle.__exit__]. *)
  write_and_close : Z → bytes → M W unit;
  (** Closing without having written. *)
  close_fd : Z → M W unit;
  read_file : pystr → M W bytes;
  unlink : pystr → M W unit;
  (** [secrets.token_urlsafe(32)] *)
  new_token : M W pystr
}.

(** * The operations *)

Section Token.
Context {W : Type} `{TokenFs W}.

(** [os.lstat] with [FileNotFoundError] caught. *)
Definition lstat_if_any (path : pystr) : M W (option file_kind) :=
  mcatch (k ← lstat path; mret (Some k))
    (λ e, match e with
          | OSError n => if n =? ENOENT then mret None else mraise e
          | _ => mraise e
          end).

Definition token_flags : Z :=
  let flags := Z.lor (Z.lor O_WRONLY O_CREAT) O_TRUNC in
  if has_o_nofollow (W := W) then Z.lor flags O_NOFOLLOW else flags.

Definition write_token_file (path token : pystr) : M W unit :=
  _ ← mkdir_parent path;
  kind ← lstat_if_any path;
  match kind with
  | Some Symlink =>
      mraise (RuntimeError (s! "refusing to write token file through symlink: " ++ path))
  | _ =>
      fd ← os_open path token_flags owner_only;
      (** [with os.fdopen(fd, ...)]: the text is buffered until the end *)
      data ← mcatch (_ ← fchmod fd owner_only; mlift (ascii_encode (token ++ [10])))
               (λ e, _ ← close_fd fd; mraise e);
      write_and_close fd data
  end.

Definition prepare_write_token (token_file : option pystr) : M W (pystr * option pystr) :=
  token ← new_token;
  match token_file with
  | None => mret (token, None)
  | Some path => _ ← write_token_file path token; mret (token, Some path)
  end.

(** [path.read_text(encoding="ascii")], with any line end as a newline. *)
Definition read_ascii (path : pystr) : M W pystr :=
  raw ← read_file path;
  if forallb (λ b, b <? 128) raw
  then mret (replace [13] [10] (replace [13; 10] [10] raw)) else mraise UnicodeDecodeError.

Definition remove_write_token_file (token_file token : option pystr) : M W unit :=
  match token_file, token with
  | Some path, Some token =>
      mcatch
        (kind ← lstat path;
         match kind with
         | Regular _ =>
             text ← read_ascii path;
             if negb (zl_eqb text (token ++ [10])) then mret tt else unlink path
         | _ => mret tt
         end)
        (λ e, if is_os_error e || match e with UnicodeDecodeError => true | _ => false end
              then mret tt else mraise e)
  | _, _ => mret tt
  end.
End Token.

(** * What the file system promises *)

Class TokenFsLaws (W : Type) `{TokenFs W} := {
  (** The entry at a path, and the file of an inode. *)
  kind_at : W → pystr → option file_kind;
  file_at : W → Z → option file;
  mkdir_law path w : file_at (mkdir_parent path w).2 = file_at w;
  lstat_law path w : file_at (lstat path w).2 = file_at w;
  lstat_kind path w k : (lstat path w).1 = Ok k → kind_at w path = Some k;
  lstat_absent path w : (lstat path w).1 = Err (OSError ENOENT) → kind_at w path = None;
  (** The kind of an entry is that of its file. *)
  kind_special path w : match kind_at w path with
    | Some (Regular i) => ∃ f, file_at w i = Some f ∧ f_special f = false
    | Some (OtherKind i) => ∃ f, file_at w i = Some f ∧ f_special f = true
    | _ => True
    end;
  open_fails path flags mode w e : (os_open path flags mode w).1 = Err e →
    file_at (os_open path flags mode w).2 = file_at w;
  (** [O_NOFOLLOW]: a link is not opened. *)
  open_link path flags mode w : has_flag flags O_NOFOLLOW = true →
    kind_at w path = Some Symlink → is_ok (os_open path flags mode w).1 = false;
  (** What is opened when there is no link: the file of the entry, or with
      [O_CREAT] a new one, whose mode has no permission that was not asked for. *)
  open_entry path flags mode w i : (os_open path flags mode w).1 = Ok i →
    match kind_at w path with
    | Some (Regular j) | Some (OtherKind j) => i = j
    | Some Symlink => True
    | None => has_flag flags O_CREAT = true ∧ file_at w i = None
    end;
  open_new path flags mode w i : (os_open path flags mode w).1 = Ok i → file_at w i = None →
    ∃ m, Z.land m mode = m ∧
      file_at (os_open path flags mode w).2 i
      = Some {| f_special := false; f_mode := m; f_content := [] |};
  (** [O_TRUNC] empties a regular file. *)
  open_old path flags mode w i f : (os_open path flags mode w).1 = Ok i → file_at w i = Some f →
    file_at (os_open path flags mode w).2 i
    = Some {| f_special := f_special f; f_mode := f_mode f;
              f_content := if has_flag flags O_TRUNC && negb (f_special f) then [] else f_content f |};
  open_others path flags mode w i : (os_open path flags mode w).1 = Ok i →
    ∀ j, j ≠ i → file_at (os_open path flags mode w).2 j = file_at w j;
  fchmod_fails i m w e : (fchmod i m w).1 = Err e → file_at (fchmod i m w).2 = file_at w;
  fchmod_law i m w f : (fchmod i m w).1 = Ok tt → file_at w i = Some f →
    file_at (fchmod i m w).2 i
    = Some {| f_special := f_special f; f_mode := m; f_content := f_content f |} ∧
    ∀ j, j ≠ i → file_at (fchmod i m w).2 j = file_at w j;
  (** The first write of a descriptor: from the start of a regular file, over
      what is there; one that fails may have written a part. *)
  write_law i data w f : file_at w i = Some f →
    (∃ written, prefix written data ∧
       ((write_and_close i data w).1 = Ok tt → written = data) ∧
       file_at (write_and_close i data w).2 i
       = Some {| f_special := f_special f; f_mode := f_mode f;
                 f_content := if f_special f then f_content f ++ written
                              else written ++ drop (length written) (f_content f) |}) ∧
    ∀ j, j ≠ i → file_at (write_and_close i data w).2 j = file_at w j;
  close_law i w : file_at (close_fd i w).2 = file_at w
}.

Section Private.
Context {W : Type} `{TokenFsLaws W}.

Lemma lstat_if_any_files path w : file_at (lstat_if_any path w).2 = file_at w.
Proof.
  unfold lstat_if_any, mcatch, mbind, M_bind, mret, M_ret, mraise.
  pose proof (lstat_law path w) as Hl. destruct (lstat path w) as [[k|e] w']; [done|].
  destruct e; try done. by destruct (_ =? _).
Qed.

Lemma lstat_if_any_kind path w k :
  (lstat_if_any path w).1 = Ok k → k = kind_at w path.
Proof.
  unfold lstat_if_any, mcatch, mbind, M_bind, mret, M_ret, mraise.
  pose proof (lstat_kind path w) as Hk. pose proof (lstat_absent path w) as Ha.
  destruct (lstat path w) as [[k'|e] w']; cbn [fst] in *; [intros [= <-]; symmetry; auto|].
  destruct e; try done.
  match goal with |- context [?n =? ENOENT] => rename n into errno end.
  destruct (errno =? ENOENT) eqn:E; [|done]. zbool. subst errno. intros [= <-]. symmetry. auto.
Qed.

(** What the steps after the open leave: after what the file [i] held when it
    was opened ([base]) comes a beginning of the line; by then the file is
    readable by its owner only. *)
Record privately_written (i : Z) (base data : bytes) (r : result unit)
    (before after : Z → option file) : Prop := {
  pw_file : ∃ f t, after i = Some f ∧ f_content f = base ++ t ∧ prefix t data ∧
    (t ≠ [] → f_mode f = owner_only) ∧ (r = Ok tt → t = data ∧ f_mode f = owner_only);
  pw_others : ∀ j, j ≠ i → after j = before j
}.

Lemma fill_private i token w f :
  file_at w i = Some f → (f_special f = false → f_content f = []) →
  let '(r, w') := (data ← mcatch (_ ← fchmod i owner_only; mlift (ascii_encode (token ++ [10])))
                            (λ e, _ ← close_fd i; mraise e);
                   write_and_close i data) w in
  privately_written i (f_content f) (token ++ [10]) r (file_at w) (file_at w').
Proof.
  intros Hi Hempty. unfold mcatch, mbind, M_bind, mlift, mraise.
  assert (∀ f' w1 e, file_at w1 i = Some f' → f_content f' = f_content f →
    (∀ j, j ≠ i → file_at w1 j = file_at w j) →
    let '(r, w') := match close_fd i w1 with (Ok _, w2) => (Err e, w2) | (Err e', w2) => (Err e', w2) end in
    privately_written i (f_content f) (token ++ [10]) r (file_at w) (file_at w')) as Hclose.
  { intros f' w1 e H1 Hf' Hj. pose proof (close_law i w1) as Hc.
    destruct (close_fd i w1) as [[?|?] w2]; cbn [snd] in Hc;
      (constructor; rewrite Hc; [|done]); exists f', []; rewrite app_nil_r;
      split_and!; try done; by exists (token ++ [10]). }
  destruct (fchmod i owner_only w) as [[[]|e] w1] eqn:Ef.
  2: { pose proof (fchmod_fails i owner_only w e) as Hf. rewrite Ef in Hf. specialize (Hf eq_refl).
       cbn [snd] in Hf. specialize (Hclose f w1 e). rewrite Hf in Hclose.
       specialize (Hclose Hi eq_refl ltac:(done)). by destruct (close_fd i w1) as [[?|?] w2]. }
  pose proof (fchmod_law i owner_only w) as Hf. rewrite Ef in Hf. specialize (Hf _ eq_refl Hi).
  cbn [snd] in Hf. destruct Hf as [H1 Hj].
  destruct (ascii_encode (token ++ [10])) as [data|e] eqn:Ea.
  2: { specialize (Hclose _ w1 e H1 eq_refl Hj). by destruct (close_fd i w1) as [[?|?] w2]. }
  assert (data = token ++ [10]) as -> by (revert Ea; unfold ascii_encode; case_if; congruence).
  destruct (write_law i (token ++ [10]) w1 _ H1) as [(t & Hp & Hr & Hw) Hjw].
  destruct (write_and_close i (token ++ [10]) w1) as [r w2]. cbn [fst snd f_mode f_content f_special] in *.
  constructor.
  - eexists _, t. split; [exact Hw|]. cbn [f_mode f_content]. split_and!; auto.
    destruct (f_special f); [done|]. rewrite Hempty by done. by rewrite drop_nil, app_nil_r.
  - intros j Hne. rewrite Hjw by done. auto.
Qed.

(** What is opened for the token, when links are not followed. *)
Inductive token_target (path : pystr) (w : W) : Z → bytes → Prop :=
  | target_regular i : kind_at w path = Some (Regular i) → token_target path w i []
  | target_new i : kind_at w path = None → file_at w i = None → token_target path w i []
  | target_special i f : kind_at w path = Some (OtherKind i) → file_at w i = Some f →
      token_target path w i (f_content f).

Lemma open_target path w i :
  has_o_nofollow (W := W) = true → (os_open path token_flags owner_only w).1 = Ok i →
  let w' := (os_open path token_flags owner_only w).2 in
  (∃ f, token_target path w i (f_content f) ∧ file_at w' i = Some f ∧
        (f_special f = false → f_content f = [])) ∧
  ∀ j, j ≠ i → file_at w' j = file_at w j.
Proof.
  intros Hn Ei w'. subst w'. split; [|by apply open_others].
  assert (token_flags (W := W) = 0x20241) as Hflags by (unfold token_flags; by rewrite Hn).
  pose proof (open_entry _ _ _ _ _ Ei) as He. pose proof (kind_special path w) as Hk.
  destruct (kind_at w path) as [[j| |j]|] eqn:Ek.
  - subst j. destruct Hk as (f & Ef & Hs). pose proof (open_old _ _ _ _ _ _ Ei Ef) as Eo.
    eexists. split; [|split; [exact Eo|]]; rewrite Hflags, Hs; cbn; [|done].
    by constructor.
  - pose proof (open_link path token_flags owner_only w) as Hl. rewrite Ei, Hflags in Hl.
    by specialize (Hl eq_refl Ek).
  - subst j. destruct Hk as (f & Ef & Hs). pose proof (open_old _ _ _ _ _ _ Ei Ef) as Eo.
    eexists. split; [|split; [exact Eo|]]; rewrite Hflags, Hs; cbn; [|done].
    by apply target_special.
  - destruct He as [_ Ef]. destruct (open_new _ _ _ _ _ Ei Ef) as (m & _ & Eo).
    eexists. split; [|split; [exact Eo|]]; cbn; [|done]. by apply target_new.
Qed.

(** C19. The token gets into no file but a private one: on a system with
    [O_NOFOLLOW], whatever the calls answer and whoever replaces directory entries
    meanwhile, writing the token file either fails with every file as it was, or
    changes one file: the regular file that was at the path when it was opened,
    emptied, or a new one, or a FIFO or device at the path, and never one behind a
    link.  Into that file goes a beginning of the token's line, on success all of
    it, and before its first character the file has become readable by its owner
    only.  With a link at the path when it is looked at, nothing is written. *)
Theorem token_file_private path token w :
  has_o_nofollow (W := W) = true →
  let '(r, w') := write_token_file path token w in
  let looked := (mkdir_parent path w).2 in
  let opened := (lstat_if_any path looked).2 in
  (file_at w' = file_at w ∧ is_ok r = false ∨
   ∃ i base, token_target path opened i base ∧
        privately_written i base (token ++ [10]) r (file_at w) (file_at w')) ∧
  (kind_at looked path = Some Symlink → file_at w' = file_at w ∧ is_ok r = false).
Proof.
  intros Hn. unfold write_token_file, mbind at 1, M_bind at 1.
  pose proof (mkdir_law path w) as Hm. destruct (mkdir_parent path w) as [[[]|e] w1];
    cbn [snd] in *; [|by auto].
  unfold mbind at 1, M_bind at 1.
  pose proof (lstat_if_any_files path w1) as Hl. pose proof (lstat_if_any_kind path w1) as Hk.
  destruct (lstat_if_any path w1) as [[k|e] w2]; cbn [fst snd] in *;
    [|rewrite Hl; by auto].
  specialize (Hk _ eq_refl). destruct (decide (k = Some Symlink)) as [->|Hns].
  { cbn. rewrite Hl. by auto. }
  match goal with |- let '(_, _) := ?m w2 in _ => assert (m = (fd ← os_open path token_flags owner_only;
      data ← mcatch (_ ← fchmod fd owner_only; mlift (ascii_encode (token ++ [10])))
               (λ e, _ ← close_fd fd; mraise e);
      write_and_close fd data)) as -> by (by destruct k as [[]|]) end.
  unfold mbind at 1, M_bind at 1. pose proof (open_target path w2) as Hopen.
  pose proof (open_fails path token_flags owner_only w2) as Hfail.
  destruct (os_open path token_flags owner_only w2) as [[i|e] w3]; cbn [fst snd] in *.
  - destruct (Hopen i Hn eq_refl) as [(f & Ht & Hi & Hempty) Hj].
    pose proof (fill_private i token w3 f Hi Hempty) as Hf.
    match goal with |- let '(_, _) := ?m w3 in _ => destruct (m w3) as [r w4] end.
    split; [|congruence]. right. exists i, (f_content f). split; [done|]. destruct Hf as [Hf Hfj].
    constructor; [done|]. intros j Hne. rewrite Hfj, Hj by done. congruence.
  - specialize (Hfail e eq_refl). split; [left|congruence]. split; [congruence|done].
Qed.

(** Only a file that holds this very token is removed: removing the token
    file never raises an error of the system, and it unlinks the path only after
    [lstat] reported a regular file there and its text was the token's line. *)
Theorem remove_only_own_token path token w :
  (∀ p w, match (lstat p w).1 with Err e => is_os_error e = true | _ => True end) →
  (∀ p w, match (read_file p w).1 with Err e => is_os_error e = true | _ => True end) →
  (∀ p w, match (unlink p w).1 with Err e => is_os_error e = true | _ => True end) →
  let '(r, w') := remove_write_token_file (Some path) (Some token) w in
  r = Ok tt ∧
  (w' = (read_ascii path (lstat path w).2).2 ∨ w' = (lstat path w).2 ∨
   (∃ i, (lstat path w).1 = Ok (Regular i)) ∧
   (read_ascii path (lstat path w).2).1 = Ok (token ++ [10]) ∧
   w' = (unlink path (read_ascii path (lstat path w).2).2).2).
Proof.
  intros Hl Hr Hu. unfold remove_write_token_file, mcatch, mbind at 1, M_bind at 1.
  specialize (Hl path w). destruct (lstat path w) as [[k|e] w1]; cbn [fst snd] in *.
  2: { rewrite Hl. cbn. auto. }
  destruct k as [i| |i]; [|cbn; auto|cbn; auto]. unfold mbind at 1, M_bind at 1.
  assert (match (read_ascii path w1).1 with
          | Err e => is_os_error e = true ∨ e = UnicodeDecodeError | _ => True end) as Hra.
  { unfold read_ascii, mbind, M_bind. specialize (Hr path w1).
    destruct (read_file path w1) as [[raw|e] w2]; [|by left]. by case_if; cbn; [|right]. }
  destruct (read_ascii path w1) as [[text|e] w2]; cbn [fst snd] in *.
  2: { destruct Hra as [-> | ->]; cbn; auto. }
  destruct (zl_eqb text (token ++ [10])) eqn:Et; cbn [negb]; [|cbn; auto].
  apply zl_eqb_eq in Et as ->. specialize (Hu path w2).
  destruct (unlink path w2) as [[[]|e] w3]; cbn [fst snd] in *; [|rewrite Hu; cbn];
    split; eauto 10.
Qed.
End Private.

(** * A file system *)

(** Entries and files, with nobody else around. *)
Inductive entry :=
  | ASymlink
  | Linked (inode : Z).

Record disk := {
  d_entries : gmap pystr entry;
  d_files : gmap Z file
}.
Definition with_files (f : gmap Z file → gmap Z file) (d : disk) : disk :=
  {| d_entries := d_entries d; d_files := f (d_files d) |}.

Definition disk_file (d : disk) (i : Z) : option file := d_files d !! i.
Definition disk_kind (d : disk) (path : pystr) : option file_kind :=
  match d_entries d !! path with
  | Some ASymlink => Some Symlink
  | Some (Linked i) => match d_files d !! i with
                       | Some f => Some (if f_special f then OtherKind i else Regular i)
                       | None => None
                       end
  | None => None
  end.

Definition opened_as (flags : Z) (f : file) : file :=
  {| f_special := f_special f; f_mode := f_mode f;
     f_content := if has_flag flags O_TRUNC && negb (f_special f) then [] else f_content f |}.
Definition chmod_file (m : Z) (f : file) : file :=
  {| f_special := f_special f; f_mode := m; f_content := f_content f |}.
Definition write_file (data : bytes) (f : file) : file :=
  {| f_special := f_special f; f_mode := f_mode f;
     f_content := if f_special f then f_content f ++ data
                  else data ++ drop (length data) (f_content f) |}.

(** Directories and links without [O_NOFOLLOW] are not opened here. *)
Definition disk_open (path : pystr) (flags mode : Z) (d : disk) : result Z * disk :=
  match disk_kind d path with
  | Some Symlink => (Err (OSError ELOOP), d)
  | Some (Regular i) | Some (OtherKind i) => (Ok i, with_files (alter (opened_as flags) i) d)
  | None =>
      if has_flag flags O_CREAT then
        let i := fresh (dom (d_files d)) in
        (Ok i, {| d_entries := <[path := Linked i]> (d_entries d);
                  d_files := <[i := {| f_special := false; f_mode := mode; f_content := [] |}]> (d_files d) |})
      else (Err (OSError ENOENT), d)
  end.

#[export] Instance disk_fs : TokenFs disk := {|
  mkdir_parent := λ _, mret tt;
  lstat := λ path d, (match disk_kind d path with Some k => Ok k | None => Err (OSError ENOENT) end, d);
  has_o_nofollow := true;
  os_open := disk_open;
  fchmod := λ i m d, (Ok tt, with_files (alter (chmod_file m) i) d);
  write_and_close := λ i data d, (Ok tt, with_files (alter (write_file data) i) d);
  close_fd := λ _, mret tt;
  read_file := λ path d,
    (match disk_kind d path with
     | Some (Regular i) => match d_files d !! i with
                           | Some f => Ok (f_content f)
                           | None => Err (OSError ENOENT)
                           end
     | _ => Err (OSError ENOENT)
     end, d);
  unlink := λ path d, (Ok tt, {| d_entries := delete path (d_entries d); d_files := d_files d |});
  new_token := mret (s! "token")
|}.

Lemma disk_kind_file d path :
  match disk_kind d path with
  | Some (Regular i) => ∃ f, disk_file d i = Some f ∧ f_special f = false
  | Some (OtherKind i) => ∃ f, disk_file d i = Some f ∧ f_special f = true
  | _ => True
  end.
Proof.
  unfold disk_kind, disk_file. destruct (d_entries d !! path) as [[|i]|]; [done| |done].
  destruct (d_files d !! i) as [f|] eqn:E; [|done]. destruct (f_special f) eqn:Es; eauto.
Qed.

#[export] Instance disk_laws : TokenFsLaws disk.
Proof.
  refine {| kind_at := disk_kind; file_at := disk_file |}; try done.
  - intros path d k. cbn. destruct (disk_kind d path); congruence.
  - intros path d. cbn. by destruct (disk_kind d path).
  - intros path d. apply disk_kind_file.
  - intros path flags mode d e. cbn. unfold disk_open. destruct (disk_kind d path) as [[]|]; try done.
    by case_match.
  - intros path flags mode d _ E. cbn. unfold disk_open. by rewrite E.
  - intros path flags mode d i. cbn. unfold disk_open.
    destruct (disk_kind d path) as [[]|]; cbn; try congruence.
    destruct (has_flag flags O_CREAT); [|done]. intros [= <-]. split; [done|].
    apply not_elem_of_dom, is_fresh.
  - intros path flags mode d i. cbn. unfold disk_open. pose proof (disk_kind_file d path) as Hk.
    destruct (disk_kind d path) as [[j| |j]|]; cbn; try done.
    1, 2: destruct Hk as (f & Hf & _); congruence.
    destruct (has_flag flags O_CREAT); [|done]. intros [= <-] _. exists mode.
    split; [apply Z.land_diag|]. unfold disk_file. cbn. by rewrite lookup_insert_eq.
  - intros path flags mode d i f. cbn. unfold disk_open, disk_file.
    destruct (disk_kind d path) as [[j| |j]|]; cbn; try done.
    1, 2: intros [= ->] Hf; by rewrite lookup_alter_eq, Hf.
    destruct (has_flag flags O_CREAT); [|done]. intros [= <-] Hf. cbn in Hf.
    apply elem_of_dom_2 in Hf. by apply is_fresh in Hf.
  - intros path flags mode d i. cbn. unfold disk_open, disk_file.
    destruct (disk_kind d path) as [[j| |j]|]; cbn; try done.
    1, 2: intros [= ->] k Hk; by rewrite lookup_alter_ne.
    destruct (has_flag flags O_CREAT); [|done]. intros [= <-] k Hk. cbn. by rewrite lookup_insert_ne.
  - intros i m d f _ Hf. cbn. unfold disk_file in *. cbn. rewrite lookup_alter_eq, Hf. split; [done|].
    intros j Hj. by rewrite lookup_alter_ne.
  - intros i data d f Hf. cbn. unfold disk_file in *. cbn. split.
    + exists data. split_and!; [done|done|]. by rewrite lookup_alter_eq, Hf.
    + intros j Hj. by rewrite lookup_alter_ne.
Defined.

(** A file others may read, a link, and a FIFO. *)
Definition demo_disk : disk :=
  {| d_entries := {[ s! "/run/t" := Linked 5; s! "/run/l" := ASymlink; s! "/run/f" := Linked 6 ]};
     d_files := {[ 5 := {| f_special := false; f_mode := 0x1A4; f_content := s! "old content" |};
                   6 := {| f_special := true; f_mode := 0x1A4; f_content := [] |} ]} |}.

(** The token written over the file, and refused at the link. *)
Lemma token_file_private_witness :
  (write_token_file (s! "/run/t") (s! "abc") demo_disk).1 = Ok tt ∧
  disk_file (write_token_file (s! "/run/t") (s! "abc") demo_disk).2 5
    = Some {| f_special := false; f_mode := owner_only; f_content := s! "abc" ++ [10] |} ∧
  disk_file (write_token_file (s! "/run/l") (s! "abc") demo_disk).2 5 = disk_file demo_disk 5.
Proof.
  pose proof (token_file_private (s! "/run/t") (s! "abc") demo_disk eq_refl) as [Hp _].
  pose proof (token_file_private (s! "/run/l") (s! "abc") demo_disk eq_refl) as [_ Hl].
  split_and!; [vm_compute; reflexivity|vm_compute; reflexivity|].
  destruct (Hl ltac:(vm_compute; reflexivity)) as [E _]. exact (f_equal (λ f, f 5) E).
Defined.

(** A FIFO at the path is not refused: whoever holds its other end gets the token. *)
Example fifo_gets_token :
  (write_token_file (s! "/run/f") (s! "abc") demo_disk).1 = Ok tt ∧
  disk_file (write_token_file (s! "/run/f") (s! "abc") demo_disk).2 6
    = Some {| f_special := true; f_mode := owner_only; f_content := s! "abc" ++ [10] |}.
Proof. vm_compute. split; reflexivity. Qed.

Lemma remove_only_own_token_witness :
  let '(r, d) := remove_write_token_file (Some (s! "/run/t")) (Some (s! "abc"))
                   (write_token_file (s! "/run/t") (s! "abc") demo_disk).2 in
  r = Ok tt ∧ d_entries d !! (s! "/run/t") = None.
Proof.
  pose proof (remove_only_own_token (s! "/run/t") (s! "abc")
    (write_token_file (s! "/run/t") (s! "abc") demo_disk).2) as Hr.
  specialize (Hr ltac:(intros p d; cbn; by destruct (disk_kind d p))).
  specialize (Hr ltac:(intros p d; cbn; destruct (disk_kind d p) as [[i| |i]|]; try reflexivity;
                       by destruct (d_files d !! i))).
  specialize (Hr ltac:(intros p d; exact I)).
  destruct (remove_write_token_file _ _ _) as [r d] eqn:E.
  split; [exact (proj1 Hr)|]. revert E. vm_compute. by intros [= <- <-].
Defined.
