(* ===== verification/Cli.v ===== *)
(** The commands (motu_proxy/cli.py) and [serve] (motu_proxy/http_server.py).

    A command runs over a world [W] through two interfaces: [CliEnv] is a session
    with the device (opening, closing, reads and writes; the USB client of
    Usbfs.v behind [open_datastore]), the clock and the two output streams;
    [ServeEnv] adds the parts [serve] puts together: the coordinator, the session
    manager and the HTTP server.  Every call may raise.  [KeyboardInterrupt] is
    only modelled where it is caught.

    Shown: a write from the command line reaches the device only after the same
    checks as over HTTP; a smoke test succeeds exactly when every path could be
    read, and reads on after a failure exactly when told to; a server that can be
    written to over the network was started so on purpose, gets the token that
    was prepared for it, and however it ends the coordinator and the manager are
    closed and the token file is cleaned up; and its banner does not reveal a
    token kept in a file. *)
From S2P Require Import Prelude PyText Protocol Parser Usb Paths Device Json Schema JsonText IpAddr Http.
From S2P Require Import Report Urb Usbfs CliArgs Token.

(** * Sessions and output *)

Class CliEnv (W : Type) := {
  (** [open_datastore(config)]: entering and leaving. *)
  session_enter : DatastoreConfig → M W unit;
  session_exit : M W unit;
  (** [datastore.get(path, etag=..., query_fields=...)]; [None] is the default. *)
  cli_get : pystr → option pystr → list (pystr * pystr) → M W bytes;
  cli_post : pystr → bytes → M W bytes;
  last_stats : W → option ResponseStats;
  (** [started = time.monotonic()], and the milliseconds since, with one decimal. *)
  start_clock : M W unit;
  elapsed_text : M W pystr;
  print_out : pystr → M W unit;
  print_err : pystr → M W unit;
  write_raw : bytes → M W unit
}.

(** What the commands share of their arguments. *)
Record output_args := {
  o_raw : bool;
  o_compact : bool
}.

Definition DEFAULT_SMOKE_PATHS : list pystr :=
  [s! "/datastore/uid"; s! "/datastore/ext/maxUSBToHost"; s! "/datastore/host/mode"].

(** [f"{elapsed_ms:.1f} ms bytes=..."] *)
Definition format_response_stats (elapsed : pystr) (stats : option ResponseStats) : pystr :=
  match stats with
  | None => elapsed ++ s! " ms"
  | Some st =>
      elapsed ++ s! " ms bytes=" ++ str_of_int (rs_response_bytes st) ++
      s! " frames=" ++ str_of_int (rs_accepted_frames st) ++
      s! " reads=" ++ str_of_int (rs_reads st) ++
      s! " ignored=" ++ str_of_int (rs_ignored_packets st) ++
      s! " ack=" ++ str_of_int (rs_ack_packets st)
  end.

Section Commands.
Context `{HttpLib} {W : Type} `{CliEnv W}.

(** [with open_datastore(config_from_args(args)) as datastore: body] *)
Definition with_datastore {A} (a : usb_args) (body : M W A) : M W A :=
  config ← mlift (config_from_args a);
  _ ← session_enter config;
  mfinally body session_exit.

(** The response as it was, or its text. *)
Definition show_response (o : output_args) (response : bytes) : M W Z :=
  if o_raw o then (_ ← write_raw response; mret 0)
  else text ← mlift (response_to_text response (negb (o_compact o)));
       _ ← print_out text; mret 0.

Definition command_info (a : usb_args) (as_json : bool) : M W Z :=
  info ← with_datastore a (read_device_capability_info (λ path, cli_get path None []));
  if as_json then (_ ← print_out (json_dumps (Indent 2) true (info_as_dict info)); mret 0)
  else match print_capability_info info with
       | Some lines => _ ← mapW print_out lines; mret 0
       | None => mraise ValueError (* a KeyError: the report has every section *)
       end.

Definition command_get (a : usb_args) (o : output_args) (path etag : pystr) : M W Z :=
  path ← mlift (normalize_path path);
  response ← with_datastore a (cli_get path (Some etag) []);
  show_response o response.

Definition command_meters (a : usb_args) (o : output_args) (group etag : pystr) : M W Z :=
  response ← with_datastore a (cli_get (s! "/meters") (Some etag) [(s! "meters", group)]);
  show_response o response.

(** What [command_post] checks before it opens the device. *)
Definition check_post (path json_body : pystr) (no_validate allow_unknown : bool)
    : result (pystr * bytes) :=
  path ← normalize_path path;
  write_object ← load_json_object json_depth json_body;
  write_body ← utf8_encode json_body;
  _ ← (if negb no_validate then validate_datastore_write_object path write_object allow_unknown
       else Ok []);
  Ok (path, write_body).

Definition command_post (a : usb_args) (o : output_args) (path json_body : pystr)
    (no_validate allow_unknown : bool) : M W Z :=
  '(path, write_body) ← mlift (check_post path json_body no_validate allow_unknown);
  response ← with_datastore a (cli_post path write_body);
  show_response o response.

Definition heading (path : pystr) : pystr := [10] ++ s! "# " ++ path.

Fixpoint probe_loop (compact : bool) (paths : list pystr) : M W unit :=
  match paths with
  | [] => mret tt
  | path :: paths =>
      _ ← mcatch (response ← cli_get path None [];
                  _ ← print_out (heading path);
                  text ← mlift (response_to_text response (negb compact));
                  print_out text)
            (λ exc, print_err (heading path ++ [10] ++ s! "ERROR: " ++ exn_text exc));
      probe_loop compact paths
  end.

Definition command_probe (a : usb_args) (compact : bool) : M W Z :=
  _ ← with_datastore a (probe_loop compact DEFAULT_SMOKE_PATHS); mret 0.

Definition stats_line : M W pystr :=
  elapsed ← elapsed_text; w ← mget; mret (format_response_stats elapsed (last_stats w)).

(** The reading of one path: [None], or what went wrong. *)
Definition smoke_read (compact no_body : bool) (path : pystr) : M W (option exn) :=
  mcatch (response ← cli_get path None [];
          line ← stats_line;
          _ ← print_out (s! "OK " ++ line);
          _ ← (if no_body then mret tt
               else text ← mlift (response_to_text response (negb compact)); print_out text);
          mret None)
    (λ exc, mret (Some exc)).

Fixpoint smoke_loop (compact no_body continue_on_error : bool) (paths : list pystr) (failures : Z)
    : M W Z :=
  match paths with
  | [] => mret (if failures =? 0 then 0 else 1)
  | path :: paths =>
      _ ← start_clock;
      _ ← print_out (heading path);
      failed ← smoke_read compact no_body path;
      match failed with
      | None => smoke_loop compact no_body continue_on_error paths failures
      | Some exc =>
          line ← stats_line;
          _ ← print_out (s! "FAIL " ++ line);
          _ ← print_err (s! "ERROR: " ++ exn_text exc);
          if negb continue_on_error then mret 1
          else smoke_loop compact no_body continue_on_error paths (failures + 1)
      end
  end.

(** [args.paths or DEFAULT_SMOKE_PATHS] *)
Definition smoke_paths (given : list pystr) : list pystr :=
  match given with [] => DEFAULT_SMOKE_PATHS | _ => given end.

Definition command_smoke (a : usb_args) (compact no_body continue_on_error : bool)
    (given : list pystr) : M W Z :=
  paths ← mlift (mapR normalize_path (smoke_paths given));
  with_datastore a (smoke_loop compact no_body continue_on_error paths 0).

(** [main] around a command: the exit code, or what escapes it. *)
Definition EPIPE : Z := 32.
Definition main (command : M W Z) : M W Z :=
  mcatch command
    (λ exc, match exc with
            | OSError n => if n =? EPIPE then mret 1
                           else _ ← print_err (s! "error: " ++ exn_text exc); mret 1
            | _ =>
                if is_os_error exc || is_runtime_error exc
                   || match exc with AssertionError => true | _ => false end
                then _ ← print_err (s! "error: " ++ exn_text exc); mret 1
                else mraise exc
            end).
End Commands.

(** * Serving *)

Section Safety.
Context `{Interpreter}.

Definition _is_loopback_listen_address (address : pystr) : bool :=
  zl_eqb address (s! "localhost") || ip_is_loopback mapped_loopback address.

Definition validate_serve_write_safety (listen : pystr) (allow_writes unsafe_allow_remote_writes : bool)
    : result unit :=
  if allow_writes && negb unsafe_allow_remote_writes && negb (_is_loopback_listen_address listen)
  then Err (RuntimeError (s! "--allow-writes requires a loopback --listen address unless --unsafe-allow-remote-writes is set"))
  else Ok tt.
End Safety.

Record serve_args := {
  v_usb : usb_args;
  v_listen : pystr;
  v_port : Z;
  v_allow_writes : bool;
  v_require_write_token : bool;
  v_write_token_file : option pystr;
  v_unsafe_allow_remote_writes : bool;
  v_max_write_body_bytes : Z;
  v_no_validate : bool;
  v_allow_unknown_writes : bool
}.
Definition v_debug (a : serve_args) : bool := a_debug (v_usb a).

Definition DEFAULT_WRITE_TOKEN_FILE : pystr := s! "/run/motu-proxy/write-token".
Definition DEFAULT_MAX_WRITE_BODY_BYTES : Z := 60 * 1024.

(** The texts given for the options of [serve]; the token file is the last of
    [--write-token-file] and [--no-write-token-file] ([Some None]). *)
Record serve_texts := {
  x_usb : usb_texts;
  x_listen : option pystr;
  x_port : option pystr;
  x_allow_writes : bool;
  x_require_write_token : bool;
  x_write_token_file : option (option pystr);
  x_unsafe_allow_remote_writes : bool;
  x_max_write_body_bytes : option pystr;
  x_no_validate : bool;
  x_allow_unknown_writes : bool
}.

(** What [build_parser] makes of them. *)
Definition parse_serve_args (t : serve_texts) : option serve_args :=
  usb ← add_usb_args (x_usb t);
  port ← option_or _port_arg 1280 (x_port t);
  max ← option_or _max_write_body_bytes_arg DEFAULT_MAX_WRITE_BODY_BYTES (x_max_write_body_bytes t);
  Some {| v_usb := usb; v_listen := default (s! "127.0.0.1") (x_listen t); v_port := port;
          v_allow_writes := x_allow_writes t; v_require_write_token := x_require_write_token t;
          v_write_token_file := default (Some DEFAULT_WRITE_TOKEN_FILE) (x_write_token_file t);
          v_unsafe_allow_remote_writes := x_unsafe_allow_remote_writes t;
          v_max_write_body_bytes := max; v_no_validate := x_no_validate t;
          v_allow_unknown_writes := x_allow_unknown_writes t |}.

(** [MotuProxyServer]: the dispatcher and what else its constructor keeps. *)
Record server := {
  sv_listen : pystr;
  sv_port : Z;
  sv_dispatcher : dispatcher;
  sv_debug : bool;
  sv_write_token_file : option pystr;
  sv_max_write_body_bytes : Z
}.

(** The server [command_serve] makes. *)
Definition MotuProxyServer (a : serve_args) (token file : option pystr) : server :=
  {| sv_listen := v_listen a; sv_port := v_port a;
     sv_dispatcher :=
       {| allow_writes := v_allow_writes a; write_token := token;
          allow_remote_writes := v_unsafe_allow_remote_writes a;
          validate_writes := negb (v_no_validate a);
          allow_unknown_writes := v_allow_unknown_writes a |};
     sv_debug := v_debug a; sv_write_token_file := file;
     sv_max_write_body_bytes := v_max_write_body_bytes a |}.

(** What [serve] prints before it serves; [address] is the bound one. *)
Definition serve_banner (address : pystr) (s : server) : list pystr :=
  let d := sv_dispatcher s in
  let has_file := match sv_write_token_file s with Some (_ :: _) => true | _ => false end in
  [s! "listening on http://" ++ address ++ s! " writes=" ++
   (if allow_writes d then s! "on" else s! "off")] ++
  (if allow_writes d then
     match write_token d with
     | None => [s! "write token: disabled (use --require-write-token to require one)"]
     | Some token =>
         [if sv_debug s || negb has_file then s! "write token: " ++ token
          else s! "write token: stored in token file (use --debug to print)"] ++
         [s! "write token header: X-Motu-Proxy-Token or Authorization: Bearer"] ++
         (if has_file then [s! "write token file: " ++ header_text (sv_write_token_file s)] else [])
     end ++
     (if allow_remote_writes d then
        [match write_token d with
         | None => s! "WARNING: remote HTTP writes are enabled without token protection"
         | Some _ => s! "WARNING: remote HTTP writes are enabled; keep the token secret"
         end]
      else []) ++
     (if negb (validate_writes d) then [s! "WARNING: datastore write validation is disabled"]
      else if allow_unknown_writes d then [s! "WARNING: unknown datastore write paths are allowed"]
      else [])
   else []).

Class ServeEnv (W : Type) := {
  serve_cli :: CliEnv W;
  serve_fs :: TokenFs W;
  coordinator_start : M W unit;
  coordinator_close : M W unit;
  manager_close : M W unit;
  (** [MotuProxyServer(...)]: binding the address, which it returns. *)
  bind_server : server → M W pystr;
  (** [server.serve_forever()]: it may end, be interrupted ([true]) or raise. *)
  serve_forever : M W bool;
  server_close : M W unit
}.

Section Serve.
Context `{Interpreter} {W : Type} `{ServeEnv W}.

Definition serve (address : pystr) (s : server) (before_close : M W unit) : M W Z :=
  _ ← mapW print_err (serve_banner address s);
  _ ← mfinally
        (interrupted ← serve_forever;
         if interrupted : bool then print_err ([10] ++ s! "shutting down") else mret tt)
        (_ ← before_close; server_close);
  mret 0.

(** The body of the [try] of [command_serve]: the outcome, and the token and the
    file that were prepared by then. *)
Definition serve_body (a : serve_args) (w : W) : (result Z * (option pystr * option pystr)) * W :=
  match (if v_allow_writes a && v_require_write_token a
         then '(token, file) ← prepare_write_token (v_write_token_file a); mret (Some token, file)
         else mret (None, None)) w with
  | (Err e, w1) => ((Err e, (None, None)), w1)
  | (Ok (token, file), w1) =>
      let s := MotuProxyServer a token file in
      let '(r, w2) := (address ← bind_server s; serve address s coordinator_close) w1 in
      ((r, (token, file)), w2)
  end.

(** The [try] with its [finally]. *)
Definition serve_and_clean_up (a : serve_args) : M W Z := λ w,
  let '((r, (token, file)), w1) := serve_body a w in
  mfinally (mlift r)
    (_ ← coordinator_close; _ ← manager_close; remove_write_token_file file token) w1.

Definition command_serve (a : serve_args) : M W Z :=
  _ ← mlift (config_from_args (v_usb a));
  _ ← mlift (validate_serve_write_safety (v_listen a) (v_allow_writes a)
               (v_unsafe_allow_remote_writes a));
  _ ← coordinator_start;
  serve_and_clean_up a.
End Serve.

(** * Properties *)

(** ** Writes *)

Section Writes.
Context `{HttpLib} {W : Type} `{CliEnv W}.

(** What holds of a write from the command line. *)
Record post_allowed (path json_body : pystr) (sent : bytes) (no_validate allow_unknown : bool) : Prop := {
  pa_path : device_path path;
  pa_sent : utf8_encode json_body = Ok sent;
  pa_json : ∃ fields, json_loads false json_depth json_body = Ok (JObj fields) ∧
    (no_validate = false → ∃ ws, validate_datastore_write_object path fields allow_unknown = Ok ws)
}.

Lemma check_post_ok path json_body nv au p sent :
  check_post path json_body nv au = Ok (p, sent) → post_allowed p json_body sent nv au.
Proof.
  unfold check_post. intros E. apply result_bind_ok in E as (q & Hq & E).
  apply result_bind_ok in E as (fields & Hf & E). apply result_bind_ok in E as (b & Hb & E).
  apply result_bind_ok in E as (ws & Hw & [= <- <-]). constructor.
  - by eapply normalize_device.
  - done.
  - exists fields. split; [by apply load_json_object_ok|]. intros ->. by exists ws.
Qed.

(** A write from the command line is checked before the device is touched:
    either the command fails with nothing opened, printed or sent, or the path is
    one of the datastore, the body is a JSON object that the schema admits unless
    validation was turned off, exactly its bytes are posted, once, in a session
    with the configuration of the arguments, and the session is closed before
    anything is shown. *)
Theorem command_post_guarded a o path json_body nv au (w : W) :
  let '(r, w') := command_post a o path json_body nv au w in
  (is_ok r = false ∧ w' = w) ∨
  ∃ p sent config, post_allowed p json_body sent nv au ∧ config_from_args a = Ok config ∧
    (r, w') = (response ← (_ ← session_enter config; mfinally (cli_post p sent) session_exit);
               show_response o response) w.
Proof.
  unfold command_post, with_datastore, mbind at 1, M_bind at 1, mlift at 1.
  destruct (check_post path json_body nv au) as [[p sent]|e] eqn:Ec; [|by left].
  unfold mbind at 1, M_bind at 1. unfold mbind at 1, M_bind at 1, mlift at 1.
  destruct (config_from_args a) as [config|e] eqn:Ea; [|by left].
  match goal with |- let '(_, _) := ?x in _ => destruct x as [r w'] eqn:Er end.
  right. exists p, sent, config. split; [by eapply check_post_ok|]. split; [done|]. by rewrite <- Er.
Qed.
End Writes.

(** ** The smoke test *)

Inductive event :=
  | Entered (c : DatastoreConfig)
  | Exited
  | Asked (path : pystr)
  | Posted (path : pystr) (body : bytes)
  | Printed (text : pystr)
  | PrintedErr (text : pystr)
  | Wrote (raw : bytes).

(** A session with a device that answers by a table, all calls recorded. *)
Definition logging (dev : pystr → result bytes) : CliEnv (list event) := {|
  session_enter := λ c w, (Ok tt, w ++ [Entered c]);
  session_exit := λ w, (Ok tt, w ++ [Exited]);
  cli_get := λ path _ _ w, (dev path, w ++ [Asked path]);
  cli_post := λ path body w, (Ok [], w ++ [Posted path body]);
  last_stats := λ _, None;
  start_clock := mret tt;
  elapsed_text := mret (s! "1.0");
  print_out := λ t w, (Ok tt, w ++ [Printed t]);
  print_err := λ t w, (Ok tt, w ++ [PrintedErr t]);
  write_raw := λ b w, (Ok tt, w ++ [Wrote b])
|}.

Definition asked (log : list event) : list pystr :=
  omap (λ e, match e with Asked p => Some p | _ => None end) log.
Definition quiet (log : list event) : Prop :=
  Forall (λ e, match e with Entered _ | Exited | Posted _ _ => False | _ => True end) log.

Section Smoke.
Context `{HttpLib} (dev : pystr → result bytes) (compact no_body continue_on_error : bool).

(** A path the smoke test is content with. *)
Definition readable (path : pystr) : bool :=
  match dev path with
  | Ok r => no_body || is_ok (response_to_text r (negb compact))
  | Err _ => false
  end.

(** The paths up to the first that is not readable. *)
Fixpoint up_to_failure (paths : list pystr) : list pystr :=
  match paths with
  | [] => []
  | p :: paths => if readable p then p :: up_to_failure paths else [p]
  end.

Lemma smoke_read_logged path (w : list event) :
  ∃ r log, smoke_read (H0 := logging dev) compact no_body path w = (Ok r, w ++ Asked path :: log) ∧
    bool_decide (r = None) = readable path ∧ asked log = [] ∧ quiet log.
Proof.
  unfold smoke_read, stats_line, readable, mcatch, mbind, M_bind, mlift, mget, mret, M_ret, mraise. cbn.
  destruct (dev path) as [r|e].
  2: { exists (Some e), []. by repeat constructor. }
  destruct no_body; cbn.
  { eexists None, [_]. rewrite <- app_assoc. by repeat constructor. }
  destruct (response_to_text r (negb compact)) as [t|e]; cbn.
  - eexists None, [_; _]. rewrite <- !app_assoc. by repeat constructor.
  - eexists (Some e), [_]. rewrite <- app_assoc. by repeat constructor.
Qed.
Lemma smoke_loop_logged paths failures (w : list event) :
  0 <= failures →
  ∃ log, smoke_loop (H0 := logging dev) compact no_body continue_on_error paths failures w
         = (Ok (if (failures =? 0) && forallb readable paths then 0 else 1), w ++ log) ∧
    asked log = (if continue_on_error then paths else up_to_failure paths) ∧ quiet log.
Proof.
  revert failures w. induction paths as [|path paths IH]; intros failures w Hf; cbn [smoke_loop].
  { exists []. rewrite app_nil_r, andb_true_r. split_and!; [done|by destruct continue_on_error|constructor]. }
  unfold mbind at 1, M_bind at 1. cbn [start_clock logging]. unfold mret at 1, M_ret at 1.
  unfold mbind at 1, M_bind at 1. cbn [print_out logging]. unfold mbind at 1, M_bind at 1.
  destruct (smoke_read_logged path (w ++ [Printed (heading path)])) as (r & log & -> & Hr & Ha & Hq).
  cbn [forallb up_to_failure]. destruct r as [exc|]; cbn in Hr; rewrite <- Hr.
  - unfold stats_line, mbind at 1 2 3 4 5, M_bind at 1 2 3 4 5, mget, mret, M_ret.
    cbn [elapsed_text logging print_out print_err last_stats]. unfold mret, M_ret.
    destruct continue_on_error; cbn [negb].
    + destruct (IH (failures + 1)
        ((((w ++ [Printed (heading path)]) ++ Asked path :: log) ++
          [Printed (s! "FAIL " ++ format_response_stats (s! "1.0") None)]) ++
         [PrintedErr (s! "ERROR: " ++ exn_text exc)])) as (log' & -> & Ha' & Hq'); [lia|].
      exists (Printed (heading path) :: Asked path :: log ++
              Printed (s! "FAIL " ++ format_response_stats (s! "1.0") None) ::
              PrintedErr (s! "ERROR: " ++ exn_text exc) :: log').
      split_and!.
      * rewrite <- !app_assoc. cbn [andb]. rewrite andb_false_r, (proj2 (Z.eqb_neq (failures + 1) 0)) by lia.
        done.
      * unfold asked in *. cbn. rewrite omap_app. cbn. by rewrite Ha, Ha'.
      * repeat constructor. apply Forall_app. split; [done|]. by repeat constructor.
    + eexists (Printed (heading path) :: Asked path :: log ++ [_; _]). split_and!.
      * rewrite <- !app_assoc. cbn [andb app]. by rewrite andb_false_r.
      * unfold asked in *. cbn. rewrite omap_app. cbn. by rewrite Ha.
      * repeat constructor. apply Forall_app. split; [done|]. by repeat constructor.
  - destruct (IH failures ((w ++ [Printed (heading path)]) ++ Asked path :: log))
      as (log' & -> & Ha' & Hq'); [done|].
    exists (Printed (heading path) :: Asked path :: log ++ log'). split_and!.
    + by rewrite <- !app_assoc.
    + unfold asked in *. cbn. rewrite omap_app. cbn. rewrite Ha, Ha'. by destruct continue_on_error.
    + repeat constructor. by apply Forall_app.
Qed.

(** The smoke test's exit code is right: with any device, on accepted
    arguments, it opens one session, closes it at the end, writes nothing, and
    exits 0 exactly when every path could be read and shown, else 1; it asks for
    every path in order when told to continue, and else for those up to and
    including the first failure. *)
Theorem command_smoke_exit a config given paths (w : list event) :
  config_from_args a = Ok config → mapR normalize_path (smoke_paths given) = Ok paths →
  ∃ log, command_smoke (H0 := logging dev) a compact no_body continue_on_error given w
         = (Ok (if forallb readable paths then 0 else 1), w ++ Entered config :: log ++ [Exited]) ∧
    asked log = (if continue_on_error then paths else up_to_failure paths) ∧ quiet log.
Proof.
  intros Ea Ep. unfold command_smoke, with_datastore, mbind at 1, M_bind at 1, mlift at 1. rewrite Ep.
  unfold mbind at 1, M_bind at 1, mlift at 1. rewrite Ea.
  unfold mbind at 1, M_bind at 1. cbn [session_enter session_exit logging].
  destruct (smoke_loop_logged paths 0 (w ++ [Entered config])) as (log & E & Ha & Hq); [lia|].
  exists log. unfold mfinally. rewrite E. cbn [Z.eqb andb]. split; [|done].
  by rewrite <- !app_assoc.
Qed.
End Smoke.

(** ** The server *)

Section Serving.
Context `{Interpreter} {W : Type} `{ServeEnv W}.

(** The address is one others may reach, and writes are allowed without saying so. *)
Definition exposed (a : serve_args) : Prop :=
  v_allow_writes a = true ∧ v_unsafe_allow_remote_writes a = false ∧
  v_listen a ≠ s! "localhost" ∧ ip_is_loopback mapped_loopback (v_listen a) = false.

(** The server for these arguments, with this token and token file. *)
Record server_for (a : serve_args) (token file : option pystr) (s : server) : Prop := {
  sf_listen : sv_listen s = v_listen a;
  sf_port : sv_port s = v_port a;
  sf_writes : allow_writes (sv_dispatcher s) = v_allow_writes a;
  sf_token : write_token (sv_dispatcher s) = token;
  sf_remote : allow_remote_writes (sv_dispatcher s) = v_unsafe_allow_remote_writes a;
  sf_validate : validate_writes (sv_dispatcher s) = negb (v_no_validate a);
  sf_unknown : allow_unknown_writes (sv_dispatcher s) = v_allow_unknown_writes a;
  sf_debug : sv_debug s = v_debug a;
  sf_file : sv_write_token_file s = file;
  sf_max : sv_max_write_body_bytes s = v_max_write_body_bytes a
}.

(** How serving goes once the coordinator runs, from [w] on: with a token when
    writes are allowed and a token is required, that is the one just prepared, and
    it may be that none could be prepared; and else without one. *)
Inductive served (a : serve_args) (w : W) : result Z → option pystr → option pystr → W → Prop :=
  | served_unprepared e w1 :
      v_allow_writes a = true → v_require_write_token a = true →
      prepare_write_token (v_write_token_file a) w = (Err e, w1) →
      served a w (Err e) None None w1
  | served_token token file w1 s r w2 :
      v_allow_writes a = true → v_require_write_token a = true →
      prepare_write_token (v_write_token_file a) w = (Ok (token, file), w1) →
      server_for a (Some token) file s →
      (address ← bind_server s; serve address s coordinator_close) w1 = (r, w2) →
      served a w r (Some token) file w2
  | served_open s r w1 :
      v_allow_writes a = false ∨ v_require_write_token a = false →
      server_for a None None s →
      (address ← bind_server s; serve address s coordinator_close) w = (r, w1) →
      served a w r None None w1.

Lemma serve_body_served a w r token file w' :
  serve_body a w = ((r, (token, file)), w') → served a w r token file w'.
Proof.
  unfold serve_body. destruct (v_allow_writes a && v_require_write_token a) eqn:Et.
  - apply andb_true_iff in Et as [Ha Hr]. unfold mbind at 1, M_bind at 1.
    destruct (prepare_write_token _ w) as [[[tok f]|e] w1] eqn:Ep.
    + unfold mret at 1, M_ret at 1.
      match goal with |- context [let '(_, _) := ?x in _] => destruct x as [r2 w2] eqn:Es end.
      intros [= <- <- <- <-]. by eapply served_token; [..|exact Es].
    + intros [= <- <- <- <-]. by apply served_unprepared.
  - apply andb_false_iff in Et. unfold mret at 1, M_ret at 1.
    match goal with |- context [let '(_, _) := ?x in _] => destruct x as [r2 w2] eqn:Es end.
    intros [= <- <- <- <-]. by eapply served_open; [..|exact Es].
Qed.

Lemma validate_safety_exposed a :
  validate_serve_write_safety (v_listen a) (v_allow_writes a) (v_unsafe_allow_remote_writes a) = Ok tt
  ↔ ¬ exposed a.
Proof.
  unfold validate_serve_write_safety, _is_loopback_listen_address, exposed.
  destruct (zl_eqb (v_listen a) (s! "localhost")) eqn:El; [apply zl_eqb_eq in El|apply zl_eqb_neq in El];
    destruct (v_allow_writes a), (v_unsafe_allow_remote_writes a),
      (ip_is_loopback mapped_loopback (v_listen a)); cbn; naive_solver.
Qed.

(** C20. Serving starts safely and ends clean.  When the configuration is refused,
    or writes are allowed on an address others may reach without
    [--unsafe-allow-remote-writes], the command fails and nothing at all happens.
    Else the coordinator is started first, and a failure of that ends the command;
    then, when writes are allowed and a token is required, a token is prepared, and
    the server has the flags and limits of the arguments and exactly that token and
    its file, and no token in the other cases; and however serving ends, also when
    no token could be prepared or the address not bound, the coordinator and the
    manager are closed and then the file of that token is removed. *)
Theorem command_serve_guarded a w :
  let '(r, w') := command_serve a w in
  (∀ e, config_from_args (v_usb a) = Err e → r = Err e ∧ w' = w) ∧
  (exposed a → is_ok r = false ∧ w' = w) ∧
  (∀ c, config_from_args (v_usb a) = Ok c → ¬ exposed a →
     (∀ e w1, coordinator_start w = (Err e, w1) → r = Err e ∧ w' = w1) ∧
     (∀ w1, coordinator_start w = (Ok tt, w1) →
        ∃ r1 token file w2, served a w1 r1 token file w2 ∧
          (r, w') = mfinally (mlift r1) (_ ← coordinator_close; _ ← manager_close;
                                         remove_write_token_file file token) w2)).
Proof.
  unfold command_serve, mbind at 1, M_bind at 1, mlift at 1.
  destruct (config_from_args (v_usb a)) as [c|e]; [|naive_solver].
  unfold mbind at 1, M_bind at 1, mlift at 1. pose proof (validate_safety_exposed a) as Hv.
  destruct (validate_serve_write_safety _ _ _) as [[]|e].
  2: { assert (¬ ¬ exposed a) by (by intros ?%Hv). split; [done|]. split; [done|]. done. }
  assert (¬ exposed a) as Hne by (by apply Hv).
  unfold mbind at 1, M_bind at 1. destruct (coordinator_start w) as [[[]|e] w1].
  2: { split; [done|]. split; [done|]. intros _ _ _. split; [by intros ? ? [= -> ->]|done]. }
  unfold serve_and_clean_up. destruct (serve_body a w1) as [[r1 [token file]] w2] eqn:Eb.
  apply serve_body_served in Eb.
  match goal with |- let '(_, _) := ?x in _ => destruct x as [r w'] eqn:Er end.
  split; [done|]. split; [done|]. intros _ _ _. split; [done|].
  intros ? [= <-]. exists r1, token, file, w2. by split.
Qed.
End Serving.

(** Accepted options of [serve] are in range, and without [--listen] writes may be
    allowed without exposing them to the network. *)
Lemma serve_options_ok `{Interpreter} t a :
  parse_serve_args t = Some a →
  1 <= v_port a <= 65535 ∧
  1 <= v_max_write_body_bytes a <= MAX_CONFIGURABLE_WRITE_BODY_BYTES ∧
  (x_listen t = None →
   validate_serve_write_safety (v_listen a) (v_allow_writes a) (v_unsafe_allow_remote_writes a) = Ok tt).
Proof.
  unfold parse_serve_args. intros Ha. apply bind_Some in Ha as (usb & _ & Ha).
  apply bind_Some in Ha as (port & Hport & Ha). apply bind_Some in Ha as (max & Hmax & [= <-]).
  cbn [v_port v_max_write_body_bytes v_listen v_allow_writes v_unsafe_allow_remote_writes].
  split; [|split].
  - revert Hport. apply (option_or_ind (λ n, 1 <= n <= 65535)); [lia|].
    intros ? ?. apply bounded_int_arg_range.
  - revert Hmax. apply (option_or_ind (λ n, 1 <= n <= MAX_CONFIGURABLE_WRITE_BODY_BYTES)); [by vm_compute|].
    intros x v E. apply bind_Some in E as (n & Hn & E). apply positive_int_arg_range in Hn.
    case_if_in E; [done|]. zbool. by injection E as <-.
  - intros ->. unfold validate_serve_write_safety.
    assert (_is_loopback_listen_address (default (s! "127.0.0.1") None) = true) as E.
    { unfold _is_loopback_listen_address. by destruct mapped_loopback; vm_compute. }
    by rewrite E, andb_false_r.
Qed.

(** The banner does not reveal a token kept in a file: unless debugging, what
    the server prints is the same whatever the token is. *)
Theorem banner_hides_token address a t1 t2 c file :
  v_debug a = false →
  serve_banner address (MotuProxyServer a (Some t1) (Some (c :: file)))
  = serve_banner address (MotuProxyServer a (Some t2) (Some (c :: file))).
Proof. intros Hd. unfold serve_banner, MotuProxyServer. cbn. by rewrite Hd. Qed.

(** ** Examples *)

Definition default_usb_args : usb_args :=
  {| a_vid := MOTU_VID; a_pid := MOTU_AVB_PID; a_serial := None;
     a_overrides := {| o_interface := None; o_ep_out := None; o_ep_in := None |};
     a_timeout_ms := DEFAULT_TIMEOUT_MS; a_seq_start := DEFAULT_SEQ_START;
     a_message_seq := DEFAULT_MESSAGE_SEQ; a_no_init := false; a_debug := false;
     a_sysfs_root := DEFAULT_SYSFS_ROOT; a_devfs_root := DEFAULT_DEVFS_ROOT |}.

(** A device that knows one of the paths. *)
Definition demo_dev (path : pystr) : result bytes :=
  if zl_eqb path (s! "/datastore/uid") then Ok (s! "1") else Err (DatastoreNoResponse (NoneAfter 1200)).

Lemma command_smoke_exit_witness :
  ∃ log config,
    command_smoke (H := demo_lib) (H0 := logging demo_dev) default_usb_args true false false [] []
    = (Ok 1, Entered config :: log ++ [Exited]) ∧
    asked log = [s! "/datastore/uid"; s! "/datastore/ext/maxUSBToHost"].
Proof.
  destruct (config_from_args default_usb_args) as [config|] eqn:Ec; [|vm_compute in Ec; discriminate Ec].
  destruct (command_smoke_exit (H := demo_lib) demo_dev true false false default_usb_args config []
    DEFAULT_SMOKE_PATHS [] Ec ltac:(vm_compute; reflexivity)) as (log & E & Ha & _).
  exists log, config. split; [exact E|]. exact Ha.
Defined.

Lemma banner_hides_token_witness :
  let a := {| v_usb := default_usb_args; v_listen := s! "127.0.0.1"; v_port := 1280;
              v_allow_writes := true; v_require_write_token := true;
              v_write_token_file := Some (s! "/run/t"); v_unsafe_allow_remote_writes := false;
              v_max_write_body_bytes := 61440; v_no_validate := false;
              v_allow_unknown_writes := false |} in
  serve_banner (s! "127.0.0.1:1280") (MotuProxyServer a (Some (s! "aaaa")) (Some (s! "/run/t")))
  = serve_banner (s! "127.0.0.1:1280") (MotuProxyServer a (Some (s! "bbbb")) (Some (s! "/run/t"))).
Proof. intros a. apply (banner_hides_token _ a). reflexivity. Defined.
