(* ===== verification/Argv.v ===== *)
(** The program as it is started (motu_proxy/cli.py): the argument parser of
    [build_parser], and [main] from the argument vector to the exit code.

    [argparse] is modelled as far as the parsers of the program use it, after its
    documentation and the oldest interpreter the project admits: options that
    take one value or none, unambiguous abbreviations, [--name=value], the [--]
    that ends the options, arguments that look like negative numbers, and
    positional arguments that are filled in order.  Whatever it refuses, and
    [--help], ends the program before a command is chosen; that is [None], and
    the usage texts are left out.  A value that is the text [--] is dropped by this
    [argparse], which leaves an empty list where the commands expect a text or an
    integer; that is [CmdDropped], and what such a run does is a parameter.

    Shown: whatever the arguments, a run other than that of a server writes to the
    device only by the command [post], at most once and after its checks; and a
    server accepts writes, without validation or from other machines, only when an
    argument says so.  ArgvText.v shows that every command can be said. *)
From S2P Require Import Prelude PyText Protocol Parser Usb Paths Device Json Schema JsonText IpAddr Http.
From S2P Require Import Walk Report Urb Usbfs CliArgs Token Cli.

(** * Options *)

(** [action="store"] (or [append]) with its type, [store_true] (or [store_const])
    and [help]. *)
Inductive opt_action :=
  | Valued (accepts : pystr → bool)
  | Flag
  | Help.

Definition opt : Type := pystr * opt_action.

(** Every parser has the option of help. *)
Definition help_options : list opt := [(s! "-h", Help); (s! "--help", Help)].

Definition find_option (opts : list opt) (name : pystr) : option opt :=
  List.find (λ o, zl_eqb o.1 name) opts.

(** An option that an argument names, with the text after its [=]. *)
Definition named : Type := opt * option pystr.

(** [_get_option_tuples]: the options an abbreviation may stand for. *)
Definition _get_option_tuples (opts : list opt) (arg : pystr) : list named :=
  if starts_with (s! "--") arg then
    let '(prefix, found, explicit) := partition_on 61 arg in
    (λ o, (o, if found : bool then Some explicit else None)) <$>
      List.filter (λ o : opt, starts_with prefix o.1) opts
  else
    omap (λ o : opt, if zl_eqb o.1 (take 2 arg) then Some (o, Some (drop 2 arg))
                     else if starts_with arg o.1 then Some (o, None) else None) opts.

(** ['^-\d+$|^-\d*\.\d+$'] *)
Definition looks_negative (arg : pystr) : bool :=
  match arg with
  | 45 :: number =>
      let number := match reverse number with 10 :: r => reverse r | _ => number end in
      let '(whole, dot, fraction) := partition_on 46 number in
      if dot : bool then forallb is_decimal_char whole && isdecimal fraction else isdecimal whole
  | _ => false
  end.

(** [_parse_optional]: [None] ends the program (an ambiguous abbreviation, or an
    option there is not); [Some None] is a positional argument. *)
Definition _parse_optional (opts : list opt) (arg : pystr) : option (option named) :=
  if negb (starts_with [45] arg) then Some None else
  match find_option opts arg with
  | Some o => Some (Some (o, None))
  | None =>
      if zl_eqb arg [45] then Some None else
      let '(name, found, explicit) := partition_on 61 arg in
      match (if found : bool then find_option opts name else None) with
      | Some o => Some (Some (o, Some explicit))
      | None =>
          match _get_option_tuples opts arg with
          | [m] => Some (Some m)
          | _ :: _ :: _ => None
          | [] => if looks_negative arg || contains [32] arg then Some None else None
          end
      end
  end.

(** What was given: the options in order, each with its value, the positional
    arguments, and whether one of these was dropped. *)
Record given_args := {
  g_options : list (pystr * option pystr);
  g_positionals : list pystr;
  g_dropped : bool
}.

(** [_get_values]: the first [--] of the strings of an argument is removed. *)
Definition is_dropped (value : pystr) : bool := zl_eqb value (s! "--").

Definition add_option (name : pystr) (value : option pystr) (g : given_args) : given_args :=
  {| g_options := (name, value) :: g_options g; g_positionals := g_positionals g;
     g_dropped := g_dropped g |}.
Definition add_positional (arg : pystr) (g : given_args) : given_args :=
  {| g_options := g_options g; g_positionals := arg :: g_positionals g; g_dropped := g_dropped g |}.

(** The positional arguments after the separating [--].  The separator is one of the
    strings of the argument before it, when that is a positional one directly before
    it ([after]), and else of the first argument after it, which it saves. *)
Definition after_separator (after : bool) (rest : list pystr) : given_args :=
  {| g_options := []; g_positionals := rest;
     g_dropped := existsb is_dropped (if after then rest else tail rest) |}.

(** [_parse_known_args]; [after] says that the argument before was a positional
    one, [unfilled] that the parser has an optional positional without a value
    yet: a [--] at the end belongs to one of these. *)
Fixpoint parse_known_args (opts : list opt) (after unfilled : bool) (args : list pystr)
    : option given_args :=
  match args with
  | [] => Some (after_separator after [])
  | arg :: rest =>
      if zl_eqb arg (s! "--") then
        match rest with
        | [] => if after || unfilled then Some (after_separator after []) else None
        | _ => Some (after_separator after rest)
        end
      else
        parsed ← _parse_optional opts arg;
        match parsed with
        | None => g ← parse_known_args opts true false rest; Some (add_positional arg g)
        | Some (name, Help, _) => None
        | Some (name, Flag, Some _) => None
        | Some (name, Flag, None) =>
            g ← parse_known_args opts false unfilled rest; Some (add_option name None g)
        | Some (name, Valued accepts, Some value) =>
            if is_dropped value || accepts value
            then g ← parse_known_args opts false unfilled rest; Some (add_option name (Some value) g)
            else None
        | Some (name, Valued accepts, None) =>
            match rest with
            | value :: rest =>
                if zl_eqb value (s! "--") then None else
                as_value ← _parse_optional opts value;
                match as_value with
                | Some _ => None
                | None =>
                    if accepts value
                    then g ← parse_known_args opts false unfilled rest;
                         Some (add_option name (Some value) g)
                    else None
                end
            | [] => None
            end
        end
  end.

(** A later value of an option takes the place of an earlier one; [append] keeps
    them all. *)
Definition values_of (name : pystr) (g : given_args) : list pystr :=
  omap (λ o : pystr * option pystr, if zl_eqb o.1 name then o.2 else None) (g_options g).
Definition value_of (name : pystr) (g : given_args) : option pystr := list.last (values_of name g).
Definition flag_of (name : pystr) (g : given_args) : bool :=
  existsb (λ o : pystr * option pystr, zl_eqb o.1 name) (g_options g).

(** The value of an option was dropped. *)
Definition option_dropped (g : given_args) (name : pystr) : bool :=
  match value_of name g with Some v => is_dropped v | None => false end.

(** * The parsers *)

Definition typed {A} (type : pystr → option A) : opt_action :=
  Valued (λ v, match type v with Some _ => true | None => false end).
Definition text_option : opt_action := Valued (λ _, true).

Definition usb_options : list opt :=
  [(s! "--vid", typed _u16_arg); (s! "--pid", typed _u16_arg); (s! "--serial", text_option);
   (s! "--interface", typed _interface_arg); (s! "--ep-out", typed _ep_out_arg);
   (s! "--ep-in", typed _ep_in_arg); (s! "--timeout-ms", typed _positive_int_arg);
   (s! "--seq-start", typed _host_seq_arg); (s! "--message-seq", typed _message_seq_arg);
   (s! "--no-init", Flag); (s! "--debug", Flag);
   (s! "--sysfs-root", text_option); (s! "--devfs-root", text_option)].

Definition usb_given (g : given_args) : usb_texts :=
  {| t_vid := value_of (s! "--vid") g; t_pid := value_of (s! "--pid") g;
     t_serial := value_of (s! "--serial") g; t_interface := value_of (s! "--interface") g;
     t_ep_out := value_of (s! "--ep-out") g; t_ep_in := value_of (s! "--ep-in") g;
     t_timeout_ms := value_of (s! "--timeout-ms") g; t_seq_start := value_of (s! "--seq-start") g;
     t_message_seq := value_of (s! "--message-seq") g; t_no_init := flag_of (s! "--no-init") g;
     t_debug := flag_of (s! "--debug") g; t_sysfs_root := value_of (s! "--sysfs-root") g;
     t_devfs_root := value_of (s! "--devfs-root") g |}.

(** A parser: its own options after those of help and of the device, and whether
    its last positional argument may be left out. *)
Definition sub_parse (usb : bool) (own : list opt) (optional : bool) (args : list pystr)
    : option given_args :=
  parse_known_args (help_options ++ (if usb then usb_options else []) ++ own) false optional args.

Definition output_options : list opt := [(s! "--raw", Flag); (s! "--compact", Flag)].
Definition output_given (g : given_args) : output_args :=
  {| o_raw := flag_of (s! "--raw") g; o_compact := flag_of (s! "--compact") g |}.
Definition etag_given (g : given_args) : pystr := default (s! "0") (value_of (s! "--etag") g).

(** [args] with its [func]. *)
Inductive command :=
  | CmdGet (u : usb_args) (o : output_args) (path etag : pystr)
  | CmdMeters (u : usb_args) (o : output_args) (group etag : pystr)
  | CmdInfo (u : usb_args) (as_json : bool)
  | CmdPost (u : usb_args) (o : output_args) (path json_body : pystr) (no_validate allow_unknown : bool)
  | CmdProbe (u : usb_args) (compact : bool)
  | CmdSmoke (u : usb_args) (compact no_body continue_on_error : bool) (paths : list pystr)
  | CmdServe (a : serve_args)
  | CmdSelftest
  | CmdDropped.

(** The options with one value; [--path] and the two of the token file are apart. *)
Definition single_valued : list pystr :=
  [s! "--vid"; s! "--pid"; s! "--serial"; s! "--interface"; s! "--ep-out"; s! "--ep-in"; s! "--timeout-ms";
   s! "--seq-start"; s! "--message-seq"; s! "--sysfs-root"; s! "--devfs-root"; s! "--etag"; s! "--listen";
   s! "--port"; s! "--max-write-body-bytes"].

(** The values given, which are texts unless one was dropped; [own] says that of the
    options apart. *)
Definition with_values (own : bool) (g : given_args) (c : option command) : option command :=
  if own || g_dropped g || existsb (option_dropped g) single_valued then Some CmdDropped else c.

Definition get_options : list opt := (s! "--etag", text_option) :: output_options.

Definition parse_get (args : list pystr) : option command :=
  g ← sub_parse true get_options true args;
  path ← match g_positionals g with
         | [] => Some (s! "/datastore/uid")
         | [path] => Some path
         | _ => None
         end;
  with_values false g
    (u ← add_usb_args (usb_given g);
     Some (CmdGet u (output_given g) path (etag_given g))).

Definition parse_meters (args : list pystr) : option command :=
  g ← sub_parse true get_options false args;
  group ← match g_positionals g with [group] => Some group | _ => None end;
  with_values false g
    (u ← add_usb_args (usb_given g);
     Some (CmdMeters u (output_given g) group (etag_given g))).

(** No positional argument at all. *)
Definition no_positionals (g : given_args) : option unit :=
  match g_positionals g with [] => Some tt | _ => None end.

Definition parse_info (args : list pystr) : option command :=
  g ← sub_parse true [(s! "--json", Flag)] false args;
  _ ← no_positionals g;
  with_values false g
    (u ← add_usb_args (usb_given g);
     Some (CmdInfo u (flag_of (s! "--json") g))).

Definition post_options : list opt :=
  output_options ++ [(s! "--no-validate", Flag); (s! "--allow-unknown-writes", Flag)].

Definition parse_post (args : list pystr) : option command :=
  g ← sub_parse true post_options false args;
  path_body ← match g_positionals g with
              | [path; json_body] => Some (path, json_body)
              | _ => None
              end;
  with_values false g
    (u ← add_usb_args (usb_given g);
     Some (CmdPost u (output_given g) path_body.1 path_body.2 (flag_of (s! "--no-validate") g)
             (flag_of (s! "--allow-unknown-writes") g))).

Definition parse_probe (args : list pystr) : option command :=
  g ← sub_parse true [(s! "--compact", Flag)] false args;
  _ ← no_positionals g;
  with_values false g
    (u ← add_usb_args (usb_given g);
     Some (CmdProbe u (flag_of (s! "--compact") g))).

Definition smoke_options : list opt :=
  [(s! "--path", text_option); (s! "--compact", Flag); (s! "--no-body", Flag);
   (s! "--continue-on-error", Flag)].

Definition parse_smoke (args : list pystr) : option command :=
  g ← sub_parse true smoke_options false args;
  _ ← no_positionals g;
  with_values (existsb is_dropped (values_of (s! "--path") g)) g
    (u ← add_usb_args (usb_given g);
     Some (CmdSmoke u (flag_of (s! "--compact") g) (flag_of (s! "--no-body") g)
             (flag_of (s! "--continue-on-error") g) (values_of (s! "--path") g))).

Definition serve_options : list opt :=
  [(s! "--listen", text_option); (s! "--port", typed _port_arg); (s! "--allow-writes", Flag);
   (s! "--require-write-token", Flag); (s! "--write-token-file", text_option);
   (s! "--no-write-token-file", Flag); (s! "--unsafe-allow-remote-writes", Flag);
   (s! "--max-write-body-bytes", typed _max_write_body_bytes_arg); (s! "--no-validate", Flag);
   (s! "--allow-unknown-writes", Flag)].

(** [--write-token-file] and [--no-write-token-file] have one destination. *)
Definition token_file_given (g : given_args) : option (option pystr) :=
  list.last (omap (λ o : pystr * option pystr,
          if zl_eqb o.1 (s! "--write-token-file") || zl_eqb o.1 (s! "--no-write-token-file")
          then Some o.2 else None) (g_options g)).

Definition serve_given (g : given_args) : serve_texts :=
  {| x_usb := usb_given g; x_listen := value_of (s! "--listen") g; x_port := value_of (s! "--port") g;
     x_allow_writes := flag_of (s! "--allow-writes") g;
     x_require_write_token := flag_of (s! "--require-write-token") g;
     x_write_token_file := token_file_given g;
     x_unsafe_allow_remote_writes := flag_of (s! "--unsafe-allow-remote-writes") g;
     x_max_write_body_bytes := value_of (s! "--max-write-body-bytes") g;
     x_no_validate := flag_of (s! "--no-validate") g;
     x_allow_unknown_writes := flag_of (s! "--allow-unknown-writes") g |}.

Definition parse_serve (args : list pystr) : option command :=
  g ← sub_parse true serve_options false args;
  _ ← no_positionals g;
  with_values (match token_file_given g with Some (Some v) => is_dropped v | _ => false end) g
    (a ← parse_serve_args (serve_given g); Some (CmdServe a)).

Definition parse_selftest (args : list pystr) : option command :=
  g ← sub_parse false [] false args;
  _ ← no_positionals g;
  Some CmdSelftest.

(** [build_parser().parse_args(argv)]: the first argument is the command; an
    option before it is none of the program's, or that of help. *)
Definition sub_parsers : list (pystr * (list pystr → option command)) :=
  [(s! "get", parse_get); (s! "meters", parse_meters); (s! "info", parse_info);
   (s! "post", parse_post); (s! "probe", parse_probe); (s! "smoke", parse_smoke);
   (s! "serve", parse_serve); (s! "selftest", parse_selftest)].

Definition parse_args (argv : list pystr) : option command :=
  match argv with
  | [] => None
  | name :: args =>
      sub ← List.find (λ p : pystr * _, zl_eqb p.1 name) sub_parsers;
      sub.2 args
  end.

(** * The parsers of the live validators *)

(** The options of the device as the tools have them: integers of any size, not
    the argument types of the program. *)
Definition tool_usb_options : list opt :=
  [(s! "--vid", typed int_base0); (s! "--pid", typed int_base0); (s! "--serial", text_option);
   (s! "--interface", typed int_base0); (s! "--ep-out", typed int_base0); (s! "--ep-in", typed int_base0);
   (s! "--timeout-ms", typed int10); (s! "--seq-start", typed int_base0); (s! "--message-seq", typed int10);
   (s! "--sysfs-root", text_option); (s! "--devfs-root", text_option);
   (s! "--no-init", Flag); (s! "--debug", Flag)].

(** [build_parser().parse_args(argv)] of a tool: options alone.  A dropped value is
    [None] here too: what a tool does with an empty list is not modelled. *)
Definition tool_parse (own : list opt) (argv : list pystr) : option given_args :=
  g ← parse_known_args (help_options ++ tool_usb_options ++ own) false false argv;
  _ ← no_positionals g;
  if g_dropped g || existsb (option_dropped g) (g_options g).*1 then None else Some g.

(** * The program *)

Section Program.
Context `{HttpLib} {W : Type} `{ServeEnv W}.
(** A command whose arguments have an empty list for a dropped value. *)
Variable dropped_run : M W Z.

(** [args.func(args)] *)
Definition run_command (c : command) : M W Z :=
  match c with
  | CmdGet u o path etag => command_get u o path etag
  | CmdMeters u o group etag => command_meters u o group etag
  | CmdInfo u as_json => command_info u as_json
  | CmdPost u o path json_body nv au => command_post u o path json_body nv au
  | CmdProbe u compact => command_probe u compact
  | CmdSmoke u compact nb coe paths => command_smoke u compact nb coe paths
  | CmdServe a => command_serve a
  | CmdSelftest => code ← mlift command_selftest; _ ← print_out (s! "selftest ok"); mret code
  | CmdDropped => dropped_run
  end.

(** [main(argv)]; [None] is [argparse] ending the program. *)
Definition program (argv : list pystr) : M W (option Z) :=
  match parse_args argv with
  | None => mret None
  | Some c => code ← main (run_command c); mret (Some code)
  end.
End Program.

(** What the parser makes of some arguments. *)
Example parse_samples :
  let path c := match c with Some (CmdGet _ o p e) => Some (o_raw o, p, e) | _ => None end in
  let token c := match c with Some (CmdServe a) => Some (v_allow_writes a, v_write_token_file a) | _ => None end in
  path (parse_args [s! "get"]) = Some (false, s! "/datastore/uid", s! "0") ∧
  path (parse_args [s! "get"; s! "/x"; s! "--etag"; s! "-5"; s! "--ra"]) = Some (true, s! "/x", s! "-5") ∧
  path (parse_args [s! "get"; s! "--etag="; s! "--"; s! "--raw"]) = Some (false, s! "--raw", []) ∧
  path (parse_args [s! "get"; s! "--"; s! "--"]) = Some (false, s! "--", s! "0") ∧
  parse_args [s! "post"; s! "--"; s! "a"; s! "--"] = Some CmdDropped ∧
  parse_args [s! "serve"; s! "--port=--"] = Some CmdDropped ∧
  path (parse_args [s! "get"; s! "--etag=--"; s! "--etag=1"]) = Some (false, s! "/datastore/uid", s! "1") ∧
  parse_args [s! "get"; s! "--etag"; s! "--raw"] = None ∧
  parse_args [s! "get"; s! "--raw=1"] = None ∧
  parse_args [s! "get"; s! "--p=0x10000"] = None ∧
  parse_args [s! "get"; s! "/x"; s! "--help"] = None ∧
  parse_args [s! "info"; s! "x"] = None ∧
  parse_args [s! "--raw"; s! "get"] = None ∧
  parse_args [s! "serve"; s! "--allow-"] = None ∧
  token (parse_args [s! "serve"; s! "--allow-w"; s! "--write=t"; s! "--no-w"]) = Some (true, None) ∧
  token (parse_args [s! "serve"; s! "--no-w"; s! "--write"; s! "t"]) = Some (false, Some (s! "t")).
Proof. vm_compute. repeat split. Qed.

(** * What was given was said *)

Lemma partition_on_prefix c s a f b : partition_on c s = (a, f, b) → ∃ k, s = a ++ k.
Proof.
  revert a f b. induction s as [|x s IH]; cbn [partition_on]; intros a f b.
  { intros [= <- <- <-]. by exists []. }
  destruct (x =? c). { intros [= <- <- <-]. by exists (x :: s). }
  destruct (partition_on c s) as [[a' f'] b']. intros [= <- <- <-].
  destruct (IH _ _ _ eq_refl) as [k ->]. by exists k.
Qed.

Lemma find_option_spec opts name o : find_option opts name = Some o → o ∈ opts ∧ o.1 = name.
Proof. intros [Hin E]%List.find_some. split; [by apply list_elem_of_In|by apply zl_eqb_eq]. Qed.

(** The text by which an argument names an option: a prefix of both, of which it
    is the whole name or the only option that begins so. *)
Definition names (opts : list opt) (o : opt) (p arg : pystr) : Prop :=
  o ∈ opts ∧ starts_with p arg = true ∧ starts_with p o.1 = true ∧
  (p = o.1 ∨ List.filter (λ o : opt, starts_with p o.1) opts = [o]).

Lemma parse_optional_names opts arg o e :
  Forall (λ o : opt, starts_with (s! "--") o.1 = true ∨ o.2 = Help) opts →
  _parse_optional opts arg = Some (Some (o, e)) → o.2 ≠ Help → ∃ p, names opts o p arg.
Proof.
  intros Hlong. unfold _parse_optional. destruct (starts_with [45] arg) eqn:Es; [cbn [negb]|done].
  destruct (find_option opts arg) as [o'|] eqn:Ef.
  { intros [= -> <-] _. apply find_option_spec in Ef as [Ho <-]. exists o.1. rewrite <- (app_nil_r o.1) at 2.
    unfold names. rewrite starts_with_app. split_and!; auto. rewrite <- (app_nil_r o.1) at 2. apply starts_with_app. }
  destruct (zl_eqb arg [45]) eqn:E1; [done|].
  destruct (partition_on 61 arg) as [[name found] explicit] eqn:Ep.
  pose proof (partition_on_prefix _ _ _ _ _ Ep) as [k Ek].
  destruct (if found then find_option opts name else None) as [o'|] eqn:En.
  { intros [= -> <-] _. destruct found; [|done]. apply find_option_spec in En as [Ho <-].
    exists o.1. unfold names. rewrite Ek, starts_with_app. split_and!; auto.
    rewrite <- (app_nil_r o.1) at 2. apply starts_with_app. }
  destruct (_get_option_tuples opts arg) as [|m [|? ?]] eqn:Et; [by destruct (_ || _)| |done].
  intros [= ->] Hh. unfold _get_option_tuples in Et.
  destruct (starts_with (s! "--") arg) eqn:E2.
  - rewrite Ep in Et. destruct (List.filter _ opts) as [|o' [|? ?]] eqn:Ef2; try done.
    injection Et as -> _. exists name.
    assert (o ∈ List.filter (λ o : opt, starts_with name o.1) opts) as Ho
      by (rewrite Ef2; apply list_elem_of_here).
    apply list_elem_of_In, filter_In in Ho as [Ho1 Ho2]. unfold names. rewrite Ek, starts_with_app.
    split_and!; auto. by apply list_elem_of_In.
  - match type of Et with ?l = _ => assert ((o, e) ∈ l) as Ho by (rewrite Et; apply list_elem_of_here) end.
    clear Et.
    apply list_elem_of_omap in Ho as (o' & Ho & E).
    pose proof (proj1 (list.Forall_forall _ _) Hlong _ Ho) as Hl. cbn beta in Hl.
    apply starts_with_spec in Es as [rest ->]. exfalso. change (s! "--") with [45; 45] in *.
    destruct (zl_eqb o'.1 _) eqn:E3.
    + injection E as <- _. apply zl_eqb_eq in E3. destruct Hl as [Hl|]; [|done].
      rewrite E3 in Hl. destruct rest as [|d rest]; [done|]. cbn [take app starts_with] in *. congruence.
    + destruct (starts_with ([45] ++ rest) o'.1) eqn:E4; [|done]. injection E as <- _.
      destruct Hl as [Hl|]; [|done]. apply starts_with_spec in E4 as [r Er]. rewrite Er in Hl.
      destruct rest as [|d rest]; [done|]. cbn [app starts_with] in *. congruence.
Qed.

(** The options of a parser are long ones, and those of help. *)
Definition long_options (opts : list opt) : Prop :=
  Forall (λ o : opt, starts_with (s! "--") o.1 = true ∨ o.2 = Help) opts.

Lemma parse_known_names opts after unfilled args g n v :
  long_options opts → parse_known_args opts after unfilled args = Some g → (n, v) ∈ g_options g →
  ∃ arg act p, arg ∈ args ∧ names opts (n, act) p arg.
Proof.
  intros Hl. revert after unfilled g.
  induction args as [args IH] using (induction_ltof1 _ (@length pystr)). intros after unfilled g.
  destruct args as [|arg rest]; [by intros [= <-] ?%not_elem_of_nil|]. cbn [parse_known_args].
  assert (∀ rest' a u g', (length rest' < length (arg :: rest))%nat → (∀ x, x ∈ rest' → x ∈ arg :: rest) →
    parse_known_args opts a u rest' = Some g' → (n, v) ∈ g_options g' →
    ∃ arg' act p, arg' ∈ arg :: rest ∧ names opts (n, act) p arg') as Hrec.
  { intros rest' a u g' Hlen Hsub E Hin. destruct (IH rest' Hlen a u g' E Hin) as (arg' & act & p & ? & ?).
    exists arg', act, p. auto. }
  clear IH. destruct (zl_eqb arg _).
  { destruct rest; [destruct (_ || _)|]; intros [= <-] ?%not_elem_of_nil || intros [=]; done. }
  assert (∀ name act w rest' u g', _parse_optional opts arg = Some (Some (name, act, w)) → act ≠ Help →
    (length rest' < length (arg :: rest))%nat → (∀ x, x ∈ rest' → x ∈ arg :: rest) → ∀ val,
    (g0 ← parse_known_args opts false u rest'; Some (add_option name val g0)) = Some g' →
    (n, v) ∈ g_options g' → ∃ arg' act p, arg' ∈ arg :: rest ∧ names opts (n, act) p arg') as Hopt.
  { intros name act w rest' u g' Ep Ha Hlen Hsub val (g0 & E & [= <-])%bind_Some
      [[= -> ->]|Hin]%elem_of_cons; [|by eapply Hrec].
    destruct (parse_optional_names _ _ _ _ Hl Ep Ha) as [p Hp]. exists arg, act, p.
    split; [apply list_elem_of_here|done]. }
  destruct (_parse_optional opts arg) as [[[[name [acc| |]] w]|]|] eqn:Ep; cbn [mbind option_bind]; [|..|done].
  - destruct w as [w|].
    + destruct (is_dropped w || acc w); [|done]. eapply (Hopt name (Valued acc)); [done..|cbn; lia|].
      intros x Hx. by apply list_elem_of_further.
    + destruct rest as [|value rest]; [done|]. destruct (zl_eqb value _); [done|].
      destruct (_parse_optional opts value) as [[?|]|]; cbn [mbind option_bind]; try done.
      destruct (acc value); [|done]. eapply (Hopt name (Valued acc)); [done..|cbn; lia|].
      intros x Hx. by do 2 apply list_elem_of_further.
  - destruct w; [done|]. eapply (Hopt name Flag); [done..|cbn; lia|].
    intros x Hx. by apply list_elem_of_further.
  - done.
  - intros (g0 & E & [= <-])%bind_Some Hin. eapply Hrec; [|..|exact E|exact Hin]; [cbn; lia|].
    intros x Hx. by apply list_elem_of_further.
Qed.

(** Every text that names the option begins with [stem]. *)
Definition stem_of (opts : list opt) (n stem : pystr) : bool :=
  starts_with stem n &&
  forallb (λ k, let p := take k n in
             match List.filter (λ o : opt, starts_with p o.1) opts with
             | [_] => starts_with stem p
             | _ => true
             end) (seq 0 (S (length n))).

Lemma starts_with_trans p q l : starts_with p q = true → starts_with q l = true → starts_with p l = true.
Proof.
  intros [k ->]%starts_with_spec [k' ->]%starts_with_spec. rewrite <- app_assoc. apply starts_with_app.
Qed.

Lemma names_stem opts n act p arg stem :
  stem_of opts n stem = true → names opts (n, act) p arg → starts_with stem arg = true.
Proof.
  intros [H1 H2]%andb_true_iff (_ & Ha & Hn & H). eapply starts_with_trans; [|exact Ha].
  destruct H as [->|Hf]; [done|]. apply starts_with_spec in Hn as [k Ek]. cbn in Ek.
  rewrite forallb_forall in H2. specialize (H2 (length p)). cbn beta zeta in H2. rewrite Ek, take_app_length, Hf in H2.
  apply H2, in_seq. rewrite length_app. lia.
Qed.

(** A flag that is set was said, by an argument that begins so. *)
Lemma flag_said usb own optional args g n stem :
  long_options (help_options ++ (if usb : bool then usb_options else []) ++ own) →
  sub_parse usb own optional args = Some g → flag_of n g = true →
  stem_of (help_options ++ (if usb then usb_options else []) ++ own) n stem = true →
  ∃ arg, arg ∈ args ∧ starts_with stem arg = true.
Proof.
  intros Hl Hp Hf Hs. unfold flag_of in Hf. apply existsb_exists in Hf as ([m v] & Hin & Em).
  apply zl_eqb_eq in Em. cbn in Em. subst m. apply list_elem_of_In in Hin.
  destruct (parse_known_names _ _ _ _ _ _ _ Hl Hp Hin) as (arg & act & p & Harg & Hn).
  exists arg. split; [done|]. by eapply names_stem.
Qed.

(** The command of the first argument. *)
Lemma parse_args_inv argv c :
  parse_args argv = Some c →
  ∃ name args, argv = name :: args ∧
    match c with
    | CmdGet _ _ _ _ => name = s! "get" ∧ parse_get args = Some c
    | CmdMeters _ _ _ _ => name = s! "meters" ∧ parse_meters args = Some c
    | CmdInfo _ _ => name = s! "info" ∧ parse_info args = Some c
    | CmdPost _ _ _ _ _ _ => name = s! "post" ∧ parse_post args = Some c
    | CmdProbe _ _ => name = s! "probe" ∧ parse_probe args = Some c
    | CmdSmoke _ _ _ _ _ => name = s! "smoke" ∧ parse_smoke args = Some c
    | CmdServe _ => name = s! "serve" ∧ parse_serve args = Some c
    | CmdSelftest => name = s! "selftest" ∧ parse_selftest args = Some c
    | CmdDropped => True
    end.
Proof.
  destruct argv as [|name args]; [done|]. cbn [parse_args].
  intros ([n sub] & Hf & E)%bind_Some. exists name, args. split; [done|].
  apply List.find_some in Hf as [Hin Hn]. cbn in Hn. apply zl_eqb_eq in Hn as ->. cbn [snd] in E.
  unfold sub_parsers in Hin. cbn [In] in Hin.
  repeat (destruct Hin as [[= <- <-]|Hin]); try done;
    pose proof E as E'; revert E'; cbv beta delta [parse_get parse_meters parse_info parse_post parse_probe parse_smoke parse_serve parse_selftest];
    intros (g & _ & E')%bind_Some; apply bind_Some in E' as (x & _ & E'); unfold with_values in E';
    try (match type of E' with (if ?b then _ else _) = _ => destruct b; [by injection E' as <-|] end);
    try (apply bind_Some in E' as (u & _ & E')); by injection E' as <-.
Qed.

Definition said (stem : pystr) (argv : list pystr) : Prop :=
  ∃ arg, arg ∈ argv ∧ starts_with stem arg = true.

Lemma long_options_check opts :
  forallb (λ o : opt, starts_with (s! "--") o.1 || match o.2 with Help => true | _ => false end) opts = true →
  long_options opts.
Proof.
  intros H. apply list.Forall_forall. intros [n act] Ho%list_elem_of_In.
  apply (proj1 (forallb_forall _ _) H), orb_true_iff in Ho as [Ho|Ho]; [by left|right]. cbn in *.
  by destruct act.
Qed.

(** A flag of the parser's own that is set was said among the arguments. *)
Lemma own_flag_said own optional name args g n stem :
  sub_parse true own optional args = Some g →
  forallb (λ o : opt, starts_with (s! "--") o.1 || match o.2 with Help => true | _ => false end)
    (help_options ++ usb_options ++ own) = true →
  stem_of (help_options ++ usb_options ++ own) n stem = true →
  flag_of n g = true → said stem (name :: args).
Proof.
  intros Hp Hl%long_options_check Hs Hf.
  destruct (flag_said true own _ _ _ _ _ Hl Hp Hf Hs) as (arg & ? & ?). exists arg.
  split; [by apply list_elem_of_further|done].
Qed.

(** The values that a parser made of its arguments, when none was dropped. *)
Lemma with_values_inv own g c d : with_values own g c = Some d → d ≠ CmdDropped → c = Some d.
Proof. unfold with_values. destruct (_ || _); [by intros [= <-]|done]. Qed.

Lemma parse_post_inv args u o path body nv au :
  parse_post args = Some (CmdPost u o path body nv au) →
  ∃ g, sub_parse true post_options false args = Some g ∧ g_positionals g = [path; body] ∧
    nv = flag_of (s! "--no-validate") g ∧ au = flag_of (s! "--allow-unknown-writes") g.
Proof.
  intros (g & Hg & Hc)%bind_Some. apply bind_Some in Hc as ([p b] & Hp & Hc).
  apply with_values_inv in Hc; [|done]. apply bind_Some in Hc as (u' & _ & [= _ _ <- <- <- <-]).
  exists g. split; [done|]. split; [|done].
  destruct (g_positionals g) as [|x [|y [|z l]]]; try done. by injection Hp as -> ->.
Qed.

(** C32. A server is as open as it was told to be: it accepts writes only when an
    argument begins with [--allow-w], writes from other machines only with one
    that begins with [--u], writes that are not validated only with [--no-v] and
    writes of unknown paths only with [--allow-u]; and its port and the size of
    its write bodies are in range. *)
Theorem serve_open_as_said argv a :
  parse_args argv = Some (CmdServe a) →
  (v_allow_writes a = true → said (s! "--allow-w") argv) ∧
  (v_unsafe_allow_remote_writes a = true → said (s! "--u") argv) ∧
  (v_no_validate a = true → said (s! "--no-v") argv) ∧
  (v_allow_unknown_writes a = true → said (s! "--allow-u") argv) ∧
  1 <= v_port a <= 65535 ∧
  1 <= v_max_write_body_bytes a <= MAX_CONFIGURABLE_WRITE_BODY_BYTES.
Proof.
  intros (name & args & -> & _ & Hc)%parse_args_inv.
  apply bind_Some in Hc as (g & Hg & Hc). apply bind_Some in Hc as ([] & _ & Hc).
  apply with_values_inv in Hc; [|done]. apply bind_Some in Hc as (a' & Ha & [= ->]).
  pose proof (serve_options_ok (H := demo_python) _ _ Ha) as (Hport & Hmax & _).
  apply bind_Some in Ha as (? & _ & Ha). apply bind_Some in Ha as (? & _ & Ha).
  apply bind_Some in Ha as (? & _ & [= <-]). cbn in *.
  split_and!; try lia; by eapply own_flag_said; [exact Hg|vm_compute..].
Qed.

(** * Writing to the device *)

(** The positional arguments are among the arguments. *)
Lemma parse_known_positionals opts after unfilled args g x :
  parse_known_args opts after unfilled args = Some g → x ∈ g_positionals g → x ∈ args.
Proof.
  revert after unfilled g.
  induction args as [args IH] using (induction_ltof1 _ (@length pystr)). intros after unfilled g.
  destruct args as [|arg rest]; [by intros [= <-] ?%not_elem_of_nil|]. cbn [parse_known_args].
  assert (∀ rest' a u g', (length rest' < length (arg :: rest))%nat → (∀ y, y ∈ rest' → y ∈ arg :: rest) →
    parse_known_args opts a u rest' = Some g' → x ∈ g_positionals g' → x ∈ arg :: rest) as Hrec.
  { intros rest' a u g' Hlen Hsub E Hin. by apply Hsub, (IH rest' Hlen a u g'). }
  clear IH. destruct (zl_eqb arg _).
  { destruct rest as [|y rest]; [destruct (_ || _)|]; intros [= <-]; cbn; [by intros ?%not_elem_of_nil|].
    intros Hin. by apply list_elem_of_further. }
  assert (∀ rest' u g' name val, (length rest' < length (arg :: rest))%nat →
    (∀ y, y ∈ rest' → y ∈ arg :: rest) →
    (g0 ← parse_known_args opts false u rest'; Some (add_option name val g0)) = Some g' →
    x ∈ g_positionals g' → x ∈ arg :: rest) as Hopt.
  { intros rest' u g' name val Hlen Hsub (g0 & E & [= <-])%bind_Some Hin. by eapply Hrec. }
  destruct (_parse_optional opts arg) as [[[[name [acc| |]] w]|]|]; cbn [mbind option_bind]; [|..|done].
  - destruct w as [w|].
    + destruct (is_dropped w || acc w); [|done]. apply Hopt; [cbn; lia|].
      intros y Hy. by apply list_elem_of_further.
    + destruct rest as [|value rest]; [done|]. destruct (zl_eqb value _); [done|].
      destruct (_parse_optional opts value) as [[?|]|]; cbn [mbind option_bind]; try done.
      destruct (acc value); [|done]. apply Hopt; [cbn; lia|].
      intros y Hy. by do 2 apply list_elem_of_further.
  - destruct w; [done|]. apply Hopt; [cbn; lia|]. intros y Hy. by apply list_elem_of_further.
  - done.
  - intros (g0 & E & [= <-])%bind_Some [->|Hin]%elem_of_cons; [apply list_elem_of_here|].
    eapply Hrec; [|..|exact E|exact Hin]; [cbn; lia|]. intros y Hy. by apply list_elem_of_further.
Qed.

(** What is said by the arguments of [post]. *)
Record post_said (argv : list pystr) (path body : pystr) (nv au : bool) : Prop := {
  ps_command : head argv = Some (s! "post");
  ps_path : path ∈ tail argv;
  ps_body : body ∈ tail argv;
  ps_no_validate : nv = true → said (s! "--no-v") argv;
  ps_unknown : au = true → said (s! "--a") argv
}.

Lemma post_was_said argv u o path body nv au :
  parse_args argv = Some (CmdPost u o path body nv au) → post_said argv path body nv au.
Proof.
  intros (name & args & -> & -> & Hc)%parse_args_inv.
  apply parse_post_inv in Hc as (g & Hg & Hp & -> & ->).
  assert (∀ x, x ∈ g_positionals g → x ∈ args) as Hin by (intros x; by apply (parse_known_positionals _ _ _ _ _ _ Hg)).
  rewrite Hp in Hin. split; cbn [head tail]; [done| | | |].
  - apply Hin. by left.
  - apply Hin. by right; left.
  - by eapply own_flag_said; [exact Hg|vm_compute..].
  - by eapply own_flag_said; [exact Hg|vm_compute..].
Qed.

(** A log of what was posted in sessions of the command line, which only [cli_post]
    adds to. *)
Class WriteLog (W : Type) `{CliEnv W} := {
  written : W → list (pystr * bytes);
  written_post path body w : written (cli_post path body w).2 = written w ++ [(path, body)];
  written_enter c w : written (session_enter c w).2 = written w;
  written_exit w : written (session_exit w).2 = written w;
  written_get path etag fields w : written (cli_get path etag fields w).2 = written w;
  written_clock w : written (start_clock w).2 = written w;
  written_elapsed w : written (elapsed_text w).2 = written w;
  written_out l w : written (print_out l w).2 = written w;
  written_err l w : written (print_err l w).2 = written w;
  written_raw b w : written (write_raw b w).2 = written w
}.

Section Writes.
Context `{HttpLib} {W : Type} `{ServeEnv W} `{!WriteLog W}.
Variable dropped_run : M W Z.

Definition nothing_written (w w' : W) : Prop := written w' = written w.
#[local] Instance nothing_written_preorder : PreOrder nothing_written.
Proof. unfold nothing_written. split; [by intros w|]. intros a b c. congruence. Qed.
#[local] Abbreviation no_write := (follows nothing_written).

Lemma written_by {A} (m : M W A) w : no_write m → written (m w).2 = written w.
Proof. intros Hm. apply Hm. Qed.
#[local] Hint Extern 1 (follows nothing_written (session_enter _)) => intros ?; apply written_enter : walk.
#[local] Hint Extern 1 (follows nothing_written session_exit) => intros ?; apply written_exit : walk.
#[local] Hint Extern 1 (follows nothing_written (cli_get _ _ _)) => intros ?; apply written_get : walk.
#[local] Hint Extern 1 (follows nothing_written start_clock) => intros ?; apply written_clock : walk.
#[local] Hint Extern 1 (follows nothing_written elapsed_text) => intros ?; apply written_elapsed : walk.
#[local] Hint Extern 1 (follows nothing_written (print_out _)) => intros ?; apply written_out : walk.
#[local] Hint Extern 1 (follows nothing_written (print_err _)) => intros ?; apply written_err : walk.
#[local] Hint Extern 1 (follows nothing_written (write_raw _)) => intros ?; apply written_raw : walk.

Lemma no_write_mapW {A B} (f : A → M W B) l : (∀ x, no_write (f x)) → no_write (mapW f l).
Proof. intros Hf. induction l as [|x l IH]; cbn [mapW]; walk. Qed.
Lemma no_write_with {A} a (body : M W A) : no_write body → no_write (with_datastore a body).
Proof. intros Hb. unfold with_datastore. walk. Qed.
Lemma no_write_show o r : no_write (show_response o r).
Proof. unfold show_response. walk. Qed.
Lemma no_write_stats : no_write stats_line.
Proof. unfold stats_line. walk. Qed.
#[local] Hint Resolve no_write_with no_write_show no_write_stats : walk.

Lemma no_write_report : no_write (read_device_capability_info (λ path, cli_get path None [])).
Proof.
  unfold read_device_capability_info, _read_required_datastore_value.
  apply follows_bind; [exact _|walk|intros api].
  assert (∀ p, no_write (_read_optional_datastore_value (λ path, cli_get path None []) p)) as Ho.
  { intros p. unfold _read_optional_datastore_value. walk. }
  apply follows_bind; [exact _|apply no_write_mapW; intros ?; walk|intros caps].
  apply follows_bind; [exact _|apply no_write_mapW; intros ?; walk|intros ids]. walk.
Qed.
Lemma no_write_probe compact paths : no_write (probe_loop compact paths).
Proof. induction paths as [|p paths IH]; cbn [probe_loop]; walk. Qed.
Lemma no_write_smoke_read c nb p : no_write (smoke_read c nb p).
Proof. unfold smoke_read. walk. Qed.
#[local] Hint Resolve no_write_report no_write_probe no_write_smoke_read : walk.
Lemma no_write_smoke c nb coe paths n : no_write (smoke_loop c nb coe paths n).
Proof. revert n. induction paths as [|p paths IH]; intros n; cbn [smoke_loop]; walk. Qed.
#[local] Hint Resolve no_write_smoke : walk.
Lemma no_write_print_lines l : no_write (mapW print_out l).
Proof. apply no_write_mapW. intros x. walk. Qed.
#[local] Hint Resolve no_write_print_lines : walk.

Lemma no_write_main m : no_write m → no_write (main m).
Proof. intros Hm. unfold main. walk. Qed.

(** What one write adds, in a session that could be opened. *)
Lemma post_written u o path body nv au (w : W) :
  written (run_command dropped_run (CmdPost u o path body nv au) w).2
  = written w ++ match check_post path body nv au, config_from_args u with
                 | Ok (p, sent), Ok config =>
                     if is_ok (session_enter config w).1 then [(p, sent)] else []
                 | _, _ => []
                 end.
Proof.
  cbn [run_command]. unfold command_post, with_datastore.
  destruct (check_post path body nv au) as [[p sent]|e]; [|by rewrite app_nil_r].
  unfold mbind at 1, M_bind at 1, mlift at 1. cbn beta iota.
  destruct (config_from_args u) as [config|e]; [|by rewrite app_nil_r].
  unfold mbind at 1, M_bind at 1. unfold mbind at 1, M_bind at 1, mlift at 1.
  unfold mbind at 1, M_bind at 1. pose proof (written_enter config w) as He.
  destruct (session_enter config w) as [[u'|e] w1]; cbn [fst snd is_ok] in *; [|by rewrite app_nil_r].
  unfold mfinally. pose proof (written_post p sent w1) as Hp.
  destruct (cli_post p sent w1) as [r w2]. cbn [snd] in Hp. pose proof (written_exit w2) as Hx.
  destruct (session_exit w2) as [[[]|e] w3]; cbn [snd] in Hx; [|cbn; congruence].
  destruct r as [response|e]; [|cbn; congruence].
  rewrite (no_write_show o response w3). congruence.
Qed.

Lemma main_written (m : M W Z) w : written (main m w).2 = written (m w).2.
Proof.
  unfold main, mcatch. destruct (m w) as [[a|e] w1]; [done|]. cbn [snd].
  apply written_by. walk.
Qed.

Lemma program_written argv c (w : W) :
  parse_args argv = Some c →
  written (program dropped_run argv w).2 = written (run_command dropped_run c w).2.
Proof.
  intros E. unfold program. rewrite E. rewrite <- main_written. unfold mbind, M_bind.
  by destruct (main _ w) as [[]].
Qed.

(** C31. What the program writes to the device without serving.  A run for which
    [argparse] ends the program, and every run of [get], [meters], [info], [probe],
    [smoke] and [selftest], whatever its arguments, posts nothing.  A run of [post]
    was said to be one, with its path and body among the arguments, validation left
    out or unknown paths allowed only when an argument says so; it posts nothing, or
    exactly once: to the normalized path that was given, which is one of the
    datastore, the bytes of the body that was given, a JSON object that the schema
    admits unless validation was left out; and it does post that when the path and
    the body pass these checks, the options make a configuration and the session can
    be opened.  (The writes of [serve] are those of its HTTP requests.) *)
Theorem program_writes argv (w : W) :
  let w' := (program dropped_run argv w).2 in
  match parse_args argv with
  | Some (CmdServe _) | Some CmdDropped => True
  | Some (CmdPost u o path body nv au) =>
      post_said argv path body nv au ∧
      (written w' = written w ∨
       ∃ p sent, normalize_path path = Ok p ∧ post_allowed p body sent nv au ∧
         written w' = written w ++ [(p, sent)]) ∧
      (∀ p sent config, normalize_path path = Ok p → post_allowed p body sent nv au →
         config_from_args u = Ok config → is_ok (session_enter config w).1 = true →
         written w' = written w ++ [(p, sent)])
  | _ => written w' = written w
  end.
Proof.
  intros w'. subst w'. destruct (parse_args argv) as [c|] eqn:E; [|unfold program; by rewrite E].
  destruct c as [u o path etag|u o group etag|u as_json|u o path body nv au|u compact
                |u compact nb coe paths|a| |]; try done;
    rewrite (program_written argv _ w E).
  4: { rewrite post_written. pose proof (post_was_said _ _ _ _ _ _ _ E) as Hs.
       destruct (check_post path body nv au) as [[p sent]|e] eqn:Ec.
       - pose proof (check_post_ok _ _ _ _ _ _ Ec) as Hc. apply result_bind_ok in Ec as (p' & Hn & Ec).
         assert (p' = p) as ->.
         { apply result_bind_ok in Ec as (? & _ & Ec). apply result_bind_ok in Ec as (? & _ & Ec).
           by apply result_bind_ok in Ec as (? & _ & [= -> _]). }
         split; [done|]. split.
         + destruct (config_from_args u) as [config|]; [|left; by rewrite app_nil_r].
           destruct (is_ok _); [right; eauto|left; by rewrite app_nil_r].
         + intros p' sent' config Hn' Hc' Hconf Ho. rewrite Hconf, Ho. rewrite Hn in Hn'. injection Hn' as <-.
           do 3 f_equal. pose proof (pa_sent _ _ _ _ _ Hc). pose proof (pa_sent _ _ _ _ _ Hc'). congruence.
       - split; [done|]. split; [left; by rewrite app_nil_r|].
         intros p sent config Hn [_ Hsent (fields & Hj & Hv)] _ _. exfalso. revert Ec. unfold check_post.
         rewrite Hn. cbn [mbind result_bind]. unfold load_json_object. rewrite Hj. cbn [mbind result_bind].
         rewrite Hsent. cbn [mbind result_bind]. destruct nv; [done|]. destruct (Hv eq_refl) as [ws Hw].
         cbn [negb]. by rewrite Hw. }
  all: apply written_by; cbn [run_command]; unfold command_get, command_meters, command_info, command_probe, command_smoke; walk.
Qed.
End Writes.

(** The recorded sessions of the command line, as a world of the whole program. *)
#[local] Instance logging_fs : TokenFs (list event) := {|
  mkdir_parent := λ _, mraise (OSError 13); lstat := λ _, mraise (OSError 13); has_o_nofollow := true;
  os_open := λ _ _ _, mraise (OSError 13); fchmod := λ _ _, mret tt; write_and_close := λ _ _, mret tt;
  close_fd := λ _, mret tt; read_file := λ _, mraise (OSError 13); unlink := λ _, mret tt;
  new_token := mret (s! "token")
|}.
Definition logging_serve (dev : pystr → result bytes) : ServeEnv (list event) := {|
  serve_cli := logging dev; serve_fs := logging_fs; coordinator_start := mret tt;
  coordinator_close := mret tt; manager_close := mret tt; bind_server := λ _, mraise (OSError 98);
  serve_forever := mret true; server_close := mret tt
|}.

Definition logged_posts (log : list event) : list (pystr * bytes) :=
  omap (λ e, match e with Posted p b => Some (p, b) | _ => None end) log.
Definition logging_writes (dev : pystr → result bytes) : WriteLog (H := logging dev) (list event).
Proof.
  refine {| written := logged_posts |}; intros; cbn; unfold logged_posts; rewrite ?omap_app; cbn;
    by rewrite ?app_nil_r.
Defined.

(** A write by [post], with an abbreviated option and a URL for a path. *)
Lemma program_writes_witness :
  let body := json_dumps Compact false (JObj [(s! "value", JStr (s! "win"))]) in
  let argv := [s! "post"; s! "--com"; s! "http://h/datastore/host/os"; body] in
  logged_posts (program (H := demo_lib) (H0 := logging_serve demo_dev) (mret 0) argv []).2
  = [(s! "/datastore/host/os", body)].
Proof.
  intros body argv.
  pose proof (program_writes (H := demo_lib) (H0 := logging_serve demo_dev)
                (WriteLog0 := logging_writes demo_dev) (mret 0) argv []) as Hp.
  assert (parse_args argv = Some (CmdPost default_usb_args {| o_raw := false; o_compact := true |}
            (s! "http://h/datastore/host/os") body false false)) as Ec by (vm_compute; reflexivity).
  rewrite Ec in Hp. destruct Hp as (_ & _ & Hw).
  destruct (config_from_args default_usb_args) as [config|] eqn:Ea; [|vm_compute in Ea; discriminate Ea].
  assert (check_post (H := demo_lib) (s! "http://h/datastore/host/os") body false false
          = Ok (s! "/datastore/host/os", body)) as Ek by (vm_compute; reflexivity).
  apply (Hw _ _ config); [vm_compute; reflexivity|exact (check_post_ok (H := demo_lib) _ _ _ _ _ _ Ek)
                         |done|reflexivity].
Defined.

Lemma serve_open_as_said_witness :
  let argv := [s! "serve"; s! "--allow-w"; s! "--port"; s! "8080"; s! "--no-v"] in
  said (s! "--allow-w") argv ∧ said (s! "--no-v") argv.
Proof.
  intros argv. destruct (parse_args argv) as [c|] eqn:E; [|vm_compute in E; discriminate E].
  destruct c as [| | | | | |a| |]; try (vm_compute in E; discriminate E).
  destruct (serve_open_as_said argv a E) as (Hw & _ & Hv & _).
  assert ((λ a, v_allow_writes a && v_no_validate a) <$>
          match parse_args argv with Some (CmdServe a) => Some a | _ => None end = Some true) as Ea
    by (vm_compute; reflexivity).
  rewrite E in Ea. cbn in Ea. injection Ea as Ea. apply andb_true_iff in Ea as [E1 E2].
  split; [exact (Hw E1)|exact (Hv E2)].
Defined.
