(* ===== verification/ArgvText.v ===== *)
(** Commands as argument vectors: the inverse of the argument parser of Argv.v.

    A command is written with every option as [--name=value] and the positional
    arguments after [--]; a [piece] is one option of it.  [argparse] reads each
    piece as it is meant because no name of an option has an [=], the names of a
    parser are apart, and the types of the options read back what is printed for
    an integer.  Shown: the arguments written for a command whose texts are not the
    [--] that this [argparse] drops are parsed to exactly that command. *)
From S2P Require Import Prelude PyText Protocol Parser Usb Paths Device Json Schema JsonText IpAddr Http.
From S2P Require Import Walk Report Urb Usbfs CliArgs Token Cli Argv.

(** * Commands as arguments *)

(** How an option is written: with its value, if it is set, or once for each of
    several values. *)
Inductive content :=
  | One (v : option pystr)
  | Set_ (b : bool)
  | Many (vs : list pystr).

Abbreviation piece := (pystr * content)%type.

Definition occurrences (p : piece) : list (pystr * option pystr) :=
  match p.2 with
  | One v => match v with Some v => [(p.1, Some v)] | None => [] end
  | Set_ b => if b then [(p.1, None)] else []
  | Many vs => (λ v, (p.1, Some v)) <$> vs
  end.

Definition show_option (o : pystr * option pystr) : pystr :=
  match o.2 with Some v => o.1 ++ [61] ++ v | None => o.1 end.

Definition show_positionals (l : list pystr) : list pystr :=
  match l with [] => [] | _ => s! "--" :: l end.

Definition show_args (ps : list piece) (positionals : list pystr) : list pystr :=
  (show_option <$> concat (occurrences <$> ps)) ++ show_positionals positionals.

(** ** Writing and reading options *)

(** A name that [argparse] takes for an option of the parser as it is. *)
Definition plain_name (n : pystr) : bool :=
  starts_with (s! "--") n && negb (zl_eqb n (s! "--")) && forallb (λ c, negb (c =? 61)) n.

Definition fits (opts : list opt) (o : pystr * option pystr) : Prop :=
  plain_name o.1 = true ∧
  match o.2 with
  | None => find_option opts o.1 = Some (o.1, Flag)
  | Some v => ∃ accepts, find_option opts o.1 = Some (o.1, Valued accepts) ∧ accepts v = true
  end.

Lemma partition_on_app c a b :
  forallb (λ x, negb (x =? c)) a = true → partition_on c (a ++ c :: b) = (a, true, b).
Proof.
  induction a as [|x a IH]; cbn [app partition_on forallb]; [by rewrite Z.eqb_refl|].
  intros [Hx%negb_true_iff Ha]%andb_true_iff. by rewrite Hx, IH.
Qed.

Lemma find_option_none opts n :
  (∀ o, o ∈ opts → o.1 ≠ n) → find_option opts n = None.
Proof.
  intros Hn. destruct (find_option opts n) as [o|] eqn:E; [|done].
  apply find_option_spec in E as [Ho E]. by destruct (Hn o Ho).
Qed.

Definition no_equals (opts : list opt) : Prop :=
  ∀ o, o ∈ opts → forallb (λ c, negb (c =? 61)) o.1 = true.

Lemma plain_name_dash n r : plain_name n = true → starts_with [45] (n ++ r) = true.
Proof.
  intros [[[k ->]%starts_with_spec _]%andb_true_iff _]%andb_true_iff. done.
Qed.

Lemma parse_optional_shown opts o act :
  no_equals opts → plain_name o.1 = true → find_option opts o.1 = Some (o.1, act) →
  _parse_optional opts (show_option o) = Some (Some ((o.1, act), o.2)) ∧ show_option o ≠ s! "--".
Proof.
  intros Hne Hp Hf. pose proof Hp as [[Hs Hd]%andb_true_iff Hq]%andb_true_iff.
  destruct o as [n [v|]]; cbn [fst snd show_option] in *; unfold _parse_optional.
  - rewrite plain_name_dash by done. cbn [negb]. rewrite find_option_none.
    2: { intros o Ho E. apply Hne in Ho. rewrite E, !forallb_app in Ho. cbn in Ho.
         by rewrite andb_false_r in Ho. }
    assert (zl_eqb (n ++ [61] ++ v) [45] = false) as ->.
    { apply zl_eqb_neq. intros E. apply starts_with_spec in Hs as [k ->]. done. }
    change ([61] ++ v) with (61 :: v). rewrite (partition_on_app 61 n v Hq), Hf. split; [done|].
    intros E. apply starts_with_spec in Hs as [k ->]. injection E as E.
    by apply app_eq_nil in E as [_ E].
  - rewrite <- (app_nil_r n) at 1. rewrite plain_name_dash by done. cbn [negb]. rewrite Hf.
    split; [done|]. apply negb_true_iff, zl_eqb_neq in Hd. done.
Qed.

(** The texts after the first are not dropped, which the separator saves. *)
Definition kept (positionals : list pystr) : bool := forallb (λ p, negb (is_dropped p)) (tail positionals).

Lemma parse_known_shown opts given positionals unfilled :
  no_equals opts → Forall (fits opts) given → kept positionals = true →
  parse_known_args opts false unfilled ((show_option <$> given) ++ show_positionals positionals)
  = Some {| g_options := given; g_positionals := positionals; g_dropped := false |}.
Proof.
  intros Hne Hg Hk. induction Hg as [|o given [Hp Ho] _ IH].
  { cbn [fmap list_fmap app]. destruct positionals as [|p ps]; [done|]. cbn [show_positionals].
    cbn [parse_known_args]. change (zl_eqb (s! "--") (s! "--")) with true. cbn iota.
    unfold after_separator. do 2 f_equal. unfold kept in Hk. cbn [tail] in *.
    induction ps as [|q ps IH]; [done|]. cbn [forallb existsb] in *.
    apply andb_true_iff in Hk as [Hq%negb_true_iff Hps]. rewrite Hq. by apply IH. }
  cbn [fmap list_fmap app parse_known_args]. destruct o as [n v]. cbn [fst snd] in *.
  assert (∃ act, find_option opts n = Some (n, act) ∧
    match v with None => act = Flag | Some v => ∃ acc, act = Valued acc ∧ acc v = true end)
    as (act & Hf & Hact).
  { destruct v; [destruct Ho as (acc & ? & ?); exists (Valued acc); eauto|by exists Flag]. }
  destruct (parse_optional_shown opts (n, v) act Hne Hp Hf) as [-> Hd].
  rewrite (proj2 (zl_eqb_neq _ _) Hd). cbn [mbind option_bind fst snd].
  destruct v as [v|]; [destruct Hact as (acc & -> & ->)|subst act]; [rewrite orb_true_r|]; by rewrite IH.
Qed.

(** ** Reading what was written *)

Definition given_of (ps : list piece) (positionals : list pystr) : given_args :=
  {| g_options := concat (occurrences <$> ps); g_positionals := positionals; g_dropped := false |}.

Definition content_values (c : content) : list pystr :=
  match c with One v => option_list v | Set_ _ => [] | Many vs => vs end.
Definition content_set (c : content) : bool :=
  match c with One v => match v with Some _ => true | None => false end | Set_ b => b
             | Many vs => match vs with [] => false | _ => true end end.

Definition find_piece (n : pystr) (ps : list piece) : option piece :=
  List.find (λ p, zl_eqb p.1 n) ps.

(** A name that one piece has is looked up there. *)
Lemma occurrences_split n ps p :
  NoDup (ps.*1) → find_piece n ps = Some p →
  ∃ l1 l2, ps = l1 ++ p :: l2 ∧ p.1 = n ∧ n ∉ (l1.*1) ∧ n ∉ (l2.*1).
Proof.
  unfold find_piece. induction ps as [|q ps IH]; [done|]. cbn [List.find fmap list_fmap].
  intros [Hq Hn]%list.NoDup_cons. destruct (zl_eqb q.1 n) eqn:E.
  - apply zl_eqb_eq in E. intros [= <-]. exists [], ps. rewrite <- E. split_and!; try done. apply not_elem_of_nil.
  - intros (l1 & l2 & -> & Hp & H1 & H2)%IH; [|done]. exists (q :: l1), l2. split_and!; try done.
    apply zl_eqb_neq in E. cbn. by apply not_elem_of_cons.
Qed.

Lemma values_of_absent n ps pos : n ∉ (ps.*1) → values_of n (given_of ps pos) = [] ∧ flag_of n (given_of ps pos) = false.
Proof.
  unfold values_of, flag_of, given_of. cbn [g_options].
  induction ps as [|[m c] ps IH]; [done|]. cbn [fmap list_fmap concat fst].
  intros [Hm Hn]%not_elem_of_cons. destruct (IH Hn) as [IH1 IH2]. rewrite omap_app, existsb_app, IH1, IH2.
  assert (zl_eqb m n = false) as E by (apply zl_eqb_neq; congruence).
  destruct c as [[v|]|[]|vs]; cbn; rewrite ?E; try done. split.
  - rewrite app_nil_r. induction vs as [|v vs IHv]; [done|]. cbn. by rewrite E.
  - rewrite orb_false_r. induction vs as [|v vs IHv]; [done|]. cbn. by rewrite E.
Qed.

Lemma values_of_app n l1 l2 pos :
  values_of n (given_of (l1 ++ l2) pos) = values_of n (given_of l1 pos) ++ values_of n (given_of l2 pos) ∧
  flag_of n (given_of (l1 ++ l2) pos) = flag_of n (given_of l1 pos) || flag_of n (given_of l2 pos).
Proof.
  unfold values_of, flag_of, given_of. cbn [g_options].
  by rewrite fmap_app, concat_app, omap_app, existsb_app.
Qed.

Lemma values_of_pieces n c ps pos :
  NoDup (ps.*1) → find_piece n ps = Some (n, c) →
  values_of n (given_of ps pos) = content_values c ∧ flag_of n (given_of ps pos) = content_set c.
Proof.
  intros Hnd (l1 & l2 & -> & _ & H1 & H2)%occurrences_split; [|done].
  destruct (values_of_app n l1 ((n, c) :: l2) pos) as [-> ->].
  destruct (values_of_app n [(n, c)] l2 pos) as [E1 E2]. cbn [app] in E1, E2. rewrite E1, E2.
  destruct (values_of_absent n l1 pos H1) as [-> ->]. destruct (values_of_absent n l2 pos H2) as [-> ->].
  rewrite app_nil_r, orb_false_r. cbn [app orb].
  assert (zl_eqb n n = true) as E by by apply zl_eqb_eq.
  clear E1 E2. unfold values_of, flag_of, given_of. cbn [g_options fmap list_fmap concat]. rewrite app_nil_r.
  destruct c as [[v|]|[]|vs]; cbn; rewrite ?E; try done. split.
  - clear Hnd. induction vs as [|v vs IH]; [done|]. cbn. by rewrite E, IH.
  - destruct vs; cbn; by rewrite ?E.
Qed.

Lemma value_of_pieces n v ps pos :
  NoDup (ps.*1) → find_piece n ps = Some (n, One v) → value_of n (given_of ps pos) = v.
Proof.
  intros Hnd Hf. unfold value_of. rewrite (proj1 (values_of_pieces n _ ps pos Hnd Hf)). by destruct v.
Qed.

Lemma flag_of_pieces n b ps pos :
  NoDup (ps.*1) → find_piece n ps = Some (n, Set_ b) → flag_of n (given_of ps pos) = b.
Proof. intros Hnd Hf. apply (values_of_pieces n _ ps pos Hnd Hf). Qed.

(** ** Integers *)

Lemma digits_number_lower acc l : forallb is_digit l = true → acc * 10 ^ zlen l <= digits_number acc l.
Proof.
  unfold digits_number. revert acc. induction l as [|c l IH]; intros acc; cbn [forallb foldl].
  { rewrite zlen_nil. lia. }
  intros [Hc Hl]%andb_true_iff. specialize (IH (10 * acc + (c - 48)) Hl). unfold is_digit in Hc. zbool.
  rewrite zlen_cons, Z.pow_add_r by (pose proof (zlen_nonneg l); lia).
  pose proof (zlen_nonneg l). assert (0 <= 10 ^ zlen l) by (apply Z.pow_nonneg; lia). nia.
Qed.

Lemma word_printable n : 0 <= n < 2 ^ 32 → zlen (str_of_int n) <= max_str_digits.
Proof.
  intros Hn. destruct (str_of_int_digits n) as (c & l & -> & Hd & Hv & H0).
  rewrite (proj2 (Z.ltb_ge n 0)) by lia. cbn [app]. destruct (Z.le_gt_cases (zlen (c :: l)) max_str_digits) as [|Hgt]; [done|].
  exfalso. unfold max_str_digits in Hgt. rewrite zlen_cons in Hgt.
  assert (c ≠ 48) as Hc by (intros ->; rewrite H0 in Hgt by done; by vm_compute in Hgt).
  cbn [forallb] in Hd. apply andb_true_iff in Hd as [Hcd Hd]. unfold is_digit in Hcd. zbool.
  pose proof (digits_number_lower (c - 48) l Hd) as Hlow.
  change (digits_number 0 (c :: l)) with (digits_number (c - 48) l) in Hv.
  assert (10 ^ 10 <= 10 ^ zlen l) as Hpow by (apply Z.pow_le_mono_r; lia).
  change (10 ^ 10) with 10000000000 in Hpow. change (2 ^ 32) with 4294967296 in Hn.
  generalize dependent (10 ^ zlen l). intros X Hlow Hpow. rewrite Z.abs_eq in Hv by lia. nia.
Qed.

(** ** The arguments of a command *)

Definition number (n : Z) : content := One (Some (str_of_int n)).
Definition number_if (n : option Z) : content := One (str_of_int <$> n).

Definition usb_pieces (u : usb_args) : list piece :=
  [(s! "--vid", number (a_vid u)); (s! "--pid", number (a_pid u)); (s! "--serial", One (a_serial u));
   (s! "--interface", number_if (o_interface (a_overrides u)));
   (s! "--ep-out", number_if (o_ep_out (a_overrides u)));
   (s! "--ep-in", number_if (o_ep_in (a_overrides u)));
   (s! "--timeout-ms", number (a_timeout_ms u)); (s! "--seq-start", number (a_seq_start u));
   (s! "--message-seq", number (a_message_seq u)); (s! "--no-init", Set_ (a_no_init u));
   (s! "--debug", Set_ (a_debug u)); (s! "--sysfs-root", One (Some (a_sysfs_root u)));
   (s! "--devfs-root", One (Some (a_devfs_root u)))].

Definition output_pieces (o : output_args) : list piece :=
  [(s! "--raw", Set_ (o_raw o)); (s! "--compact", Set_ (o_compact o))].
Definition etag_piece (etag : pystr) : piece := (s! "--etag", One (Some etag)).

Definition serve_pieces (a : serve_args) : list piece :=
  [(s! "--listen", One (Some (v_listen a))); (s! "--port", number (v_port a));
   (s! "--allow-writes", Set_ (v_allow_writes a));
   (s! "--require-write-token", Set_ (v_require_write_token a));
   (s! "--unsafe-allow-remote-writes", Set_ (v_unsafe_allow_remote_writes a));
   (s! "--max-write-body-bytes", number (v_max_write_body_bytes a));
   (s! "--no-validate", Set_ (v_no_validate a));
   (s! "--allow-unknown-writes", Set_ (v_allow_unknown_writes a))].
Definition token_pieces (file : option pystr) : list piece :=
  [(s! "--write-token-file", One file);
   (s! "--no-write-token-file", Set_ (match file with None => true | Some _ => false end))].

Definition argv_of (c : command) : list pystr :=
  match c with
  | CmdGet u o path etag =>
      s! "get" :: show_args (usb_pieces u ++ etag_piece etag :: output_pieces o) [path]
  | CmdMeters u o group etag =>
      s! "meters" :: show_args (usb_pieces u ++ etag_piece etag :: output_pieces o) [group]
  | CmdInfo u as_json => s! "info" :: show_args (usb_pieces u ++ [(s! "--json", Set_ as_json)]) []
  | CmdPost u o path json_body nv au =>
      s! "post" :: show_args (usb_pieces u ++ output_pieces o ++
                     [(s! "--no-validate", Set_ nv); (s! "--allow-unknown-writes", Set_ au)]) [path; json_body]
  | CmdProbe u compact => s! "probe" :: show_args (usb_pieces u ++ [(s! "--compact", Set_ compact)]) []
  | CmdSmoke u compact nb coe paths =>
      s! "smoke" :: show_args (usb_pieces u ++
                      [(s! "--path", Many paths); (s! "--compact", Set_ compact); (s! "--no-body", Set_ nb);
                       (s! "--continue-on-error", Set_ coe)]) []
  | CmdServe a =>
      s! "serve" :: show_args (usb_pieces (v_usb a) ++ serve_pieces a ++ token_pieces (v_write_token_file a)) []
  | CmdSelftest => [s! "selftest"]
  | CmdDropped => []
  end.

(** The options of the device that a command line can say. *)
Definition usb_ok (u : usb_args) : Prop :=
  args_ok u ∧ zlen (str_of_int (a_timeout_ms u)) <= max_str_digits.

(** The texts of its options, and of its body, that would be dropped. *)
Definition usb_texts_kept (u : usb_args) : bool :=
  negb (existsb is_dropped (option_list (a_serial u) ++ [a_sysfs_root u; a_devfs_root u])).

Definition command_ok (c : command) : Prop :=
  match c with
  | CmdGet u _ _ etag | CmdMeters u _ _ etag => usb_ok u ∧ usb_texts_kept u = true ∧ is_dropped etag = false
  | CmdInfo u _ | CmdProbe u _ => usb_ok u ∧ usb_texts_kept u = true
  | CmdPost u _ _ body _ _ => usb_ok u ∧ usb_texts_kept u = true ∧ is_dropped body = false
  | CmdSmoke u _ _ _ paths => usb_ok u ∧ usb_texts_kept u = true ∧ existsb is_dropped paths = false
  | CmdServe a => usb_ok (v_usb a) ∧ usb_texts_kept (v_usb a) = true ∧ is_dropped (v_listen a) = false ∧
      existsb is_dropped (option_list (v_write_token_file a)) = false ∧ 1 <= v_port a <= 65535 ∧
      1 <= v_max_write_body_bytes a <= MAX_CONFIGURABLE_WRITE_BODY_BYTES
  | CmdSelftest => True
  | CmdDropped => False
  end.

Lemma bounded_shown n a b :
  a <= n <= b → 0 <= n < 2 ^ 32 → _bounded_int_arg (str_of_int n) a b = Some n.
Proof.
  intros Hn Hw. unfold _bounded_int_arg. rewrite int_arg_roundtrip by by apply word_printable.
  cbn [mbind option_bind]. case_if; [|done]. zbool. lia.
Qed.

Lemma positive_shown n :
  1 <= n → zlen (str_of_int n) <= max_str_digits → _positive_int_arg (str_of_int n) = Some n.
Proof.
  intros Hn Hp. unfold _positive_int_arg. rewrite int_arg_roundtrip by done. cbn [mbind option_bind].
  case_if; [|done]. zbool. lia.
Qed.

Lemma host_seq_shown n : validate_host_seq n = Ok n → _host_seq_arg (str_of_int n) = Some n.
Proof.
  intros Hv. unfold _host_seq_arg. rewrite int_arg_roundtrip.
  - cbn [mbind option_bind]. by rewrite Hv.
  - apply word_printable. revert Hv. unfold validate_host_seq. case_if; [done|]. zbool.
    unfold HOST_SEQ_MAX_EXCLUSIVE, HOST_SEQ_COUNT, HOST_SEQ_MIN in *. lia.
Qed.

Lemma max_body_shown n :
  1 <= n <= MAX_CONFIGURABLE_WRITE_BODY_BYTES → _max_write_body_bytes_arg (str_of_int n) = Some n.
Proof.
  intros Hn. assert (MAX_CONFIGURABLE_WRITE_BODY_BYTES < 2 ^ 32) as Hm by (vm_compute; reflexivity).
  unfold _max_write_body_bytes_arg. rewrite positive_shown by (try apply word_printable; lia).
  cbn [mbind option_bind]. case_if; [|done]. zbool. lia.
Qed.

(** A piece that the parser takes as it is meant. *)
Definition piece_fits (opts : list opt) (p : piece) : Prop :=
  plain_name p.1 = true ∧
  match p.2 with
  | Set_ _ => find_option opts p.1 = Some (p.1, Flag)
  | c => ∃ accepts, find_option opts p.1 = Some (p.1, Valued accepts) ∧
                    Forall (λ v, accepts v = true) (content_values c)
  end.

Lemma pieces_fit opts ps :
  Forall (piece_fits opts) ps → Forall (fits opts) (concat (occurrences <$> ps)).
Proof.
  induction 1 as [|[n c] ps [Hp Hf] _ IH]; [constructor|]. cbn [fmap list_fmap concat].
  apply list.Forall_app. split; [|done]. cbn [fst snd] in *.
  destruct c as [v|b|vs]; cbn [occurrences fst snd].
  - destruct Hf as (acc & Hf & Hv). destruct v as [v|]; constructor; [|constructor].
    split; [done|]. cbn. inversion Hv. eauto.
  - destruct b; constructor; [done|constructor].
  - destruct Hf as (acc & Hf & Hv). apply Forall_fmap. revert Hv. apply Forall_impl.
    intros v Hv. split; [done|]. cbn. eauto.
Qed.

Lemma typed_fits {A} (type : pystr → option A) opts n v :
  plain_name n = true → find_option opts n = Some (n, typed type) →
  (∀ x, v = Some x → is_Some (type x)) → piece_fits opts (n, One v).
Proof.
  intros Hp Hf Hv. split; [done|]. eexists. split; [exact Hf|]. destruct v as [x|]; repeat constructor.
  by destruct (Hv x eq_refl) as [a ->].
Qed.

Lemma text_fits opts n v :
  plain_name n = true → find_option opts n = Some (n, text_option) → piece_fits opts (n, One v).
Proof. intros Hp Hf. split; [done|]. eexists. split; [exact Hf|]. destruct v; by repeat constructor. Qed.

Lemma flag_fits opts n b :
  plain_name n = true → find_option opts n = Some (n, Flag) → piece_fits opts (n, Set_ b).
Proof. by split. Qed.

Lemma many_fits opts n vs :
  plain_name n = true → find_option opts n = Some (n, text_option) → piece_fits opts (n, Many vs).
Proof.
  intros Hp Hf. split; [done|]. eexists. split; [exact Hf|]. by apply list.Forall_true.
Qed.

(** One piece of a parser's table after the other. *)
Ltac fit :=
  match goal with
  | |- Forall ?P ?l =>
      let l := eval hnf in l in change (Forall P l);
      match l with [] => constructor | _ :: _ => constructor; [|fit] end
  end.
Ltac fits_it := first
  [ by apply text_fits | by apply flag_fits | by apply many_fits
  | eapply typed_fits; [reflexivity|reflexivity|] ].

Lemma usb_pieces_fit u own :
  usb_ok u → Forall (piece_fits (help_options ++ usb_options ++ own)) (usb_pieces u).
Proof.
  intros [[Hv Hp Hi Hout Hinn Htm Hsq Hmq] Ht]. unfold MAX_MESSAGE_SEQ in Hmq. unfold usb_pieces.
  fit; try fits_it.
  - intros x [= <-]. eexists. apply bounded_shown; lia.
  - intros x [= <-]. eexists. apply bounded_shown; lia.
  - destruct (o_interface _) as [n|]; [intros x [= <-]; eexists; apply bounded_shown; specialize (Hi n eq_refl); lia|done].
  - destruct (o_ep_out _) as [n|]; [intros x [= <-]; eexists; apply bounded_shown; specialize (Hout n eq_refl); lia|done].
  - destruct (o_ep_in _) as [n|]; [intros x [= <-]; eexists; apply bounded_shown; specialize (Hinn n eq_refl); lia|done].
  - intros x [= <-]. eexists. by apply positive_shown.
  - intros x [= <-]. eexists. by apply host_seq_shown.
  - intros x [= <-]. eexists. apply bounded_shown; unfold MAX_MESSAGE_SEQ; lia.
Qed.

Definition usb_texts_of (u : usb_args) : usb_texts :=
  {| t_vid := Some (str_of_int (a_vid u)); t_pid := Some (str_of_int (a_pid u)); t_serial := a_serial u;
     t_interface := str_of_int <$> o_interface (a_overrides u);
     t_ep_out := str_of_int <$> o_ep_out (a_overrides u);
     t_ep_in := str_of_int <$> o_ep_in (a_overrides u);
     t_timeout_ms := Some (str_of_int (a_timeout_ms u)); t_seq_start := Some (str_of_int (a_seq_start u));
     t_message_seq := Some (str_of_int (a_message_seq u)); t_no_init := a_no_init u; t_debug := a_debug u;
     t_sysfs_root := Some (a_sysfs_root u); t_devfs_root := Some (a_devfs_root u) |}.

Lemma usb_given_pieces u own pos :
  NoDup ((usb_pieces u ++ own).*1) → usb_given (given_of (usb_pieces u ++ own) pos) = usb_texts_of u.
Proof.
  intros Hnd. unfold usb_given, usb_texts_of.
  f_equal; first [by apply value_of_pieces | by apply flag_of_pieces].
Qed.

Lemma option_maybe_shown type o :
  (∀ n, o = Some n → type (str_of_int n) = Some n) → option_maybe type (str_of_int <$> o) = Some o.
Proof. intros Ho. destruct o as [n|]; [|done]. cbn. by rewrite (Ho n eq_refl). Qed.

Lemma add_usb_args_shown u : usb_ok u → add_usb_args (usb_texts_of u) = Some u.
Proof.
  intros [[Hv Hp Hi Hout Hinn Htm Hsq Hmq] Ht]. unfold MAX_MESSAGE_SEQ in Hmq.
  unfold add_usb_args, usb_texts_of.
  cbn [t_vid t_pid t_serial t_interface t_ep_out t_ep_in t_timeout_ms t_seq_start t_message_seq t_no_init
       t_debug t_sysfs_root t_devfs_root option_or default].
  unfold _u16_arg, _message_seq_arg. rewrite !bounded_shown by (unfold MAX_MESSAGE_SEQ; lia).
  rewrite positive_shown, host_seq_shown by done. cbn [mbind option_bind].
  rewrite (option_maybe_shown _interface_arg) by (intros n Hn; apply Hi in Hn; apply bounded_shown; lia).
  cbn [mbind option_bind].
  rewrite (option_maybe_shown _ep_out_arg) by (intros n Hn; apply Hout in Hn; apply bounded_shown; lia).
  cbn [mbind option_bind].
  rewrite (option_maybe_shown _ep_in_arg) by (intros n Hn; apply Hinn in Hn; apply bounded_shown; lia).
  cbn [mbind option_bind]. destruct u as [? ? ? [? ? ?] ? ? ? ? ? ? ?]. done.
Qed.

(** None of the values of the pieces is dropped. *)
Definition pieces_kept (ps : list piece) : bool :=
  forallb (λ p, negb (existsb is_dropped (content_values p.2))) ps.

Lemma values_kept ps pos n :
  pieces_kept ps = true → existsb is_dropped (values_of n (given_of ps pos)) = false.
Proof.
  induction ps as [|[m c] ps IH]; [done|]. unfold pieces_kept. cbn [forallb snd].
  intros [Hc%negb_true_iff Hps]%andb_true_iff.
  destruct (values_of_app n [(m, c)] ps pos) as [E _]. cbn [app] in E. rewrite E, existsb_app, (IH Hps).
  rewrite orb_false_r. unfold values_of, given_of. cbn [g_options fmap list_fmap concat].
  rewrite app_nil_r. clear IH E. destruct c as [[v|]|[]|vs]; cbn in *; try done.
  - destruct (zl_eqb m n); [|done]. cbn. exact Hc.
  - by destruct (zl_eqb m n).
  - destruct (zl_eqb m n) eqn:E.
    + induction vs as [|v vs IH]; [done|]. cbn in *. rewrite E. cbn. apply orb_false_iff in Hc as [-> Hc]. by apply IH.
    + induction vs as [|v vs IH]; [done|]. cbn in *. rewrite E. apply orb_false_iff in Hc as [_ Hc]. by apply IH.
Qed.

Lemma option_kept ps pos n : pieces_kept ps = true → option_dropped (given_of ps pos) n = false.
Proof.
  intros Hk. unfold option_dropped. destruct (value_of n _) as [v|] eqn:Ev; [|done].
  pose proof (values_kept ps pos n Hk) as Hv. unfold value_of in Ev.
  destruct (is_dropped v) eqn:Ed; [|done]. rewrite <- Hv. symmetry. apply existsb_exists. exists v.
  split; [|done]. apply list_elem_of_In. by apply last_Some_elem_of.
Qed.

Lemma with_values_kept own ps pos c :
  pieces_kept ps = true → own = false → with_values own (given_of ps pos) c = c.
Proof.
  intros Hk ->. unfold with_values. cbn [orb g_dropped given_of].
  assert (existsb (option_dropped (given_of ps pos)) single_valued = false) as E.
  { apply not_true_is_false. intros (n & _ & Hn)%existsb_exists. by rewrite option_kept in Hn. }
  unfold given_of in E |- *. by rewrite E.
Qed.

Lemma number_kept n : is_dropped (str_of_int n) = false.
Proof.
  apply zl_eqb_neq. destruct (str_of_int_digits n) as (c & l & -> & Hd & _).
  cbn [forallb] in Hd. apply andb_true_iff in Hd as [Hc _].
  destruct (n <? 0); intros [=]; by subst c.
Qed.

Lemma usb_pieces_kept u : usb_texts_kept u = true → pieces_kept (usb_pieces u) = true.
Proof.
  unfold usb_texts_kept. intros Hk%negb_true_iff. rewrite existsb_app in Hk.
  apply orb_false_iff in Hk as [Hs Hr]. cbn [existsb] in Hr.
  apply orb_false_iff in Hr as [Hr1 [Hr2 _]%orb_false_iff].
  unfold pieces_kept, usb_pieces, number, number_if. cbn -[is_dropped str_of_int].
  rewrite !number_kept, Hr1, Hr2. cbn -[is_dropped str_of_int].
  destruct (a_serial u); cbn -[is_dropped] in Hs |- *; rewrite ?Hs;
  destruct (o_interface _), (o_ep_out _), (o_ep_in _); cbn -[is_dropped str_of_int]; by rewrite ?number_kept.
Qed.

Lemma pieces_kept_app a b : pieces_kept (a ++ b) = pieces_kept a && pieces_kept b.
Proof. apply forallb_app. Qed.

(** What the parser of a command makes of its pieces. *)
Lemma sub_parse_shown own optional u ps pos :
  usb_ok u →
  forallb (λ o : opt, forallb (λ c, negb (c =? 61)) o.1) (help_options ++ usb_options ++ own) = true →
  Forall (piece_fits (help_options ++ usb_options ++ own)) ps → kept pos = true →
  sub_parse true own optional (show_args (usb_pieces u ++ ps) pos) = Some (given_of (usb_pieces u ++ ps) pos).
Proof.
  intros Hu Hne Hps Hk. apply parse_known_shown; [| |done].
  - intros o Ho%list_elem_of_In. by apply (proj1 (forallb_forall _ _) Hne).
  - apply pieces_fit, list.Forall_app. split; [by apply usb_pieces_fit|done].
Qed.

(** The names are the closed part of the pieces. *)
Lemma names_apart (ps : list piece) (ns : list pystr) :
  ps.*1 = ns → bool_decide (NoDup ns) = true → NoDup (ps.*1).
Proof. intros -> H. by apply bool_decide_eq_true in H. Qed.

Ltac apart := eapply names_apart; [reflexivity|vm_compute; reflexivity].
Ltac read_back :=
  first [erewrite flag_of_pieces; [|apart|reflexivity] | erewrite value_of_pieces; [|apart|reflexivity]
        | erewrite (λ n c ps pos H E, proj1 (values_of_pieces n c ps pos H E)); [|apart|reflexivity]].
(** Which parser the first argument chooses. *)
Ltac parsed_by parse :=
  match goal with |- context [show_args ?ps ?pos] => transitivity (parse (show_args ps pos)); [done|] end;
  unfold parse.
(** No value of a command's pieces is dropped. *)
Ltac all_kept :=
  first [ done
        | rewrite pieces_kept_app, usb_pieces_kept by done; unfold pieces_kept;
          cbn -[is_dropped];
          repeat match goal with H : is_dropped _ = false |- _ => rewrite H end; done
        | unfold kept; cbn [tail forallb];
          repeat match goal with H : is_dropped _ = false |- _ => rewrite H end; done ].
(** The parser of a command on its own pieces, and what it reads of them. *)
Ltac read_command u :=
  rewrite (sub_parse_shown _ _ u) by (done || (fit; fits_it) || all_kept); cbn [mbind option_bind];
  cbn [g_positionals given_of no_positionals mbind option_bind];
  rewrite with_values_kept by all_kept;
  rewrite usb_given_pieces by apart; rewrite add_usb_args_shown by done;
  cbn [mbind option_bind fst snd]; unfold output_given, etag_given;
  repeat read_back.

(** Options of other names do not count. *)
Lemma omap_nil_pieces {B} (f : pystr * option pystr → option B) (ok : pystr → bool) ps :
  (∀ n v, ok n = false → f (n, v) = None) → forallb (λ n, negb (ok n)) (ps.*1) = true →
  omap f (concat (occurrences <$> ps)) = [].
Proof.
  intros Hf. induction ps as [|[n c] ps IH]; [done|]. cbn [fmap list_fmap forallb concat fst].
  intros [Hn%negb_true_iff Hps]%andb_true_iff. rewrite omap_app, (IH Hps), app_nil_r.
  destruct c as [[v|]|[]|vs]; cbn; rewrite ?Hf by done; try done.
  induction vs as [|v vs IHv]; [done|]. cbn. by rewrite Hf.
Qed.

Lemma token_file_shown u a pos :
  token_file_given (given_of (usb_pieces u ++ serve_pieces a ++ token_pieces (v_write_token_file a)) pos)
  = Some (v_write_token_file a).
Proof.
  unfold token_file_given, given_of. cbn [g_options]. rewrite app_assoc, fmap_app, concat_app, omap_app.
  rewrite (omap_nil_pieces _ (λ n, zl_eqb n (s! "--write-token-file") || zl_eqb n (s! "--no-write-token-file"))
             (usb_pieces u ++ serve_pieces a)); [|intros n v Hn; cbn [fst]; by rewrite Hn|reflexivity].
  by destruct (v_write_token_file a).
Qed.

(** C33. Every command can be said: the arguments written for a command whose
    numbers are in range, with any texts but [--] for the other options and the body
    (the path may be even that), are parsed to exactly that command.  Beside that
    text, which [argparse] drops, only an integer beyond the interpreter's limit on
    digits cannot be said. *)
Theorem parse_args_of_command c : command_ok c → parse_args (argv_of c) = Some c.
Proof.
  destruct c as [u o path etag|u o group etag|u as_json|u o path body nv au|u compact|u compact nb coe paths|a| |];
    cbn [command_ok argv_of parse_args]; intros Hc; [..|reflexivity|done].
  - destruct Hc as (Hu & Hk & He). parsed_by parse_get. read_command u. by destruct o.
  - destruct Hc as (Hu & Hk & He). parsed_by parse_meters. read_command u. by destruct o.
  - destruct Hc as (Hu & Hk). parsed_by parse_info. by read_command u.
  - destruct Hc as (Hu & Hk & Hb). parsed_by parse_post. read_command u. by destruct o.
  - destruct Hc as (Hu & Hk). parsed_by parse_probe. by read_command u.
  - destruct Hc as (Hu & Hk & Hp). parsed_by parse_smoke.
    rewrite (sub_parse_shown _ _ u) by (done || (fit; fits_it)).
    cbn [g_positionals given_of no_positionals mbind option_bind].
    assert (pieces_kept (usb_pieces u ++ [(s! "--path", Many paths); (s! "--compact", Set_ compact);
              (s! "--no-body", Set_ nb); (s! "--continue-on-error", Set_ coe)]) = true) as Hps.
    { rewrite pieces_kept_app, usb_pieces_kept by done. unfold pieces_kept. cbn. by rewrite Hp. }
    rewrite with_values_kept by (done || by apply values_kept).
    rewrite usb_given_pieces by apart. rewrite add_usb_args_shown by done.
    cbn [mbind option_bind]. by repeat read_back.
  - destruct Hc as (Hu & Hk & Hlisten & Hfile & Hport & Hmax). parsed_by parse_serve.
    rewrite (sub_parse_shown _ _ (v_usb a)); [|done|reflexivity| |done].
    2: { fit; try fits_it; intros x [= <-]; eexists; [apply bounded_shown; lia|by apply max_body_shown]. }
    cbn [g_positionals given_of no_positionals mbind option_bind]. rewrite token_file_shown.
    rewrite with_values_kept.
    2: { rewrite !pieces_kept_app, usb_pieces_kept by done. unfold pieces_kept, serve_pieces, token_pieces, number.
         cbn -[is_dropped str_of_int]. rewrite Hlisten, !number_kept.
         destruct (v_write_token_file a); cbn -[is_dropped] in Hfile |- *; by rewrite ?Hfile. }
    2: { destruct (v_write_token_file a) as [f|]; [|done]. cbn in Hfile. by rewrite orb_false_r in Hfile. }
    unfold parse_serve_args, serve_given.
    cbn [x_usb x_listen x_port x_allow_writes x_require_write_token x_write_token_file
         x_unsafe_allow_remote_writes x_max_write_body_bytes x_no_validate x_allow_unknown_writes].
    rewrite usb_given_pieces by apart. rewrite add_usb_args_shown by done. rewrite token_file_shown.
    cbn [mbind option_bind]. repeat read_back. cbn [option_or]. unfold _port_arg.
    rewrite bounded_shown, max_body_shown by lia. cbn. by destruct a.
Qed.

(** ** Examples *)

Definition demo_serve : serve_args :=
  {| v_usb := default_usb_args; v_listen := s! "::1"; v_port := 8080; v_allow_writes := true;
     v_require_write_token := true; v_write_token_file := None; v_unsafe_allow_remote_writes := false;
     v_max_write_body_bytes := 1000; v_no_validate := false; v_allow_unknown_writes := true |}.

Lemma default_usb_ok : usb_ok default_usb_args.
Proof. split; [constructor; try done; vm_compute; split; congruence|vm_compute; congruence]. Qed.

Lemma parse_args_of_command_witness :
  parse_args (argv_of (CmdServe demo_serve)) = Some (CmdServe demo_serve).
Proof.
  apply (parse_args_of_command (CmdServe demo_serve)). split; [exact default_usb_ok|].
  split_and!; vm_compute; congruence.
Defined.
