(* ===== verification/Live.v ===== *)
(** The validator of live response frames
    (tools/live_validate_response_frames.py): its own decoding of a packet, the
    check of a sequence of frames, and the capture of a response with the USB
    client.

    The tool reads packets with code of its own and collects every complaint
    where the proxy's parser stops at the first.  Shown: the two agree.  A packet
    is without complaint exactly when the parser accepts it, field by field, and
    a capture passes exactly when the proxy would have joined its packets, into
    the same bytes. *)
From S2P Require Import Prelude PyText Protocol Parser Usb Paths.

(** * Complaints *)

Inductive complaint :=
  | PacketTooShort (len : Z)
  | BadWrapperType (t : Z)
  | BadWrapperLength (n : Z)
  | WrapperBeyondPacket (n len : Z)
  | NonAsciiHeader (h : bytes)
  | BodyTooShort (len : Z)
  | PayloadBeyondBody (n available : Z)
  | BadHeader (h : pystr)
  | BadCrc (stored computed : Z)
  | BadMessageSeq (got expected : Z)
  | BadFinal (f : Z)
  | BadPayloadLength (n actual : Z)
  | BadTrailerLength (n : Z)
  | BadTrailer (trailer wrapper : bytes)
  | BadSegment (got expected : Z)
  | EarlyFinalFlag (i : Z)
  | NoFinalFlag.

Record FrameCheck := {
  fc_path : pystr;
  fc_index : Z;
  fc_packet_len : Z;
  fc_wrapper_seq : Z;
  fc_wrapper_type : Z;
  fc_wrapper_len : Z;
  fc_trailing_padding : Z;
  fc_header : pystr;
  fc_stored_crc : Z;
  fc_computed_crc : Z;
  fc_message_seq : Z;
  fc_expected_message_seq : Z;
  fc_final_field : Z;
  fc_segment_index : Z;
  fc_payload_len : Z;
  fc_actual_payload_len : Z;
  fc_trailer : bytes;
  fc_errors : list complaint
}.

(** [FrameCheck.ok] *)
Definition check_ok (c : FrameCheck) : bool :=
  match fc_errors c with [] => true | _ => false end.

Definition add_errors (es : list complaint) (c : FrameCheck) : FrameCheck :=
  {| fc_path := fc_path c; fc_index := fc_index c; fc_packet_len := fc_packet_len c;
     fc_wrapper_seq := fc_wrapper_seq c; fc_wrapper_type := fc_wrapper_type c;
     fc_wrapper_len := fc_wrapper_len c; fc_trailing_padding := fc_trailing_padding c;
     fc_header := fc_header c; fc_stored_crc := fc_stored_crc c;
     fc_computed_crc := fc_computed_crc c; fc_message_seq := fc_message_seq c;
     fc_expected_message_seq := fc_expected_message_seq c; fc_final_field := fc_final_field c;
     fc_segment_index := fc_segment_index c; fc_payload_len := fc_payload_len c;
     fc_actual_payload_len := fc_actual_payload_len c; fc_trailer := fc_trailer c;
     fc_errors := fc_errors c ++ es |}.

(** [if b: errors.append(e)] *)
Definition complain (b : bool) (e : complaint) : list complaint := if b then [e] else [].

(** * One packet *)

(** [b.hex()] *)
Definition hex_nibble (n : Z) : Z := if n <? 10 then 48 + n else 87 + n.
Definition bytes_hex (b : bytes) : pystr :=
  concat ((λ c, [hex_nibble (c / 16); hex_nibble (c mod 16)]) <$> b).

(** The check of a packet that ends before the MOTU fields. *)
Definition short_check (path : pystr) (index : Z) (packet : bytes) (expected : Z)
    (seq ty len padding : Z) (header : pystr) (errors : list complaint) : FrameCheck :=
  {| fc_path := path; fc_index := index; fc_packet_len := zlen packet; fc_wrapper_seq := seq;
     fc_wrapper_type := ty; fc_wrapper_len := len; fc_trailing_padding := padding;
     fc_header := header; fc_stored_crc := 0; fc_computed_crc := 0; fc_message_seq := -1;
     fc_expected_message_seq := expected; fc_final_field := 0; fc_segment_index := 0;
     fc_payload_len := 0; fc_actual_payload_len := 0; fc_trailer := []; fc_errors := errors |}.

Definition validate_response_packet (path : pystr) (index : Z) (packet : bytes)
    (expected_message_seq : Z) : result FrameCheck :=
  if zlen packet <? 24 then
    len ← _u16 (packet ++ [0; 0; 0; 0]) 2;
    Ok (short_check path index packet expected_message_seq
          (if 0 <? zlen packet then byte_at packet 0 else -1)
          (if 1 <? zlen packet then byte_at packet 1 else -1) len 0 []
          [PacketTooShort (zlen packet)])
  else
  let wrapper_seq := byte_at packet 0 in
  let wrapper_type := byte_at packet 1 in
  wrapper_len ← _u16 packet 2;
  let beyond := zlen packet <? wrapper_len in
  let logical_packet := if beyond then packet else ztake wrapper_len packet in
  let trailing_padding := if beyond then 0 else zlen packet - wrapper_len in
  let wrapper_header := ztake 4 logical_packet in
  let body := zdrop 4 logical_packet in
  let header_bytes := ztake 4 body in
  let ascii := forallb (λ c, c <? 128) header_bytes in
  let header := if ascii then header_bytes else bytes_hex header_bytes in
  let errors :=
    complain (negb (wrapper_type =? 0)) (BadWrapperType wrapper_type) ++
    complain (wrapper_len <? 28) (BadWrapperLength wrapper_len) ++
    complain beyond (WrapperBeyondPacket wrapper_len (zlen packet)) ++
    complain (negb ascii) (NonAsciiHeader header_bytes) in
  if zlen body <? 20 then
    Ok (short_check path index packet expected_message_seq wrapper_seq wrapper_type wrapper_len
          trailing_padding header (errors ++ [BodyTooShort (zlen body)]))
  else
  stored_crc ← _u32 body 4;
  message_seq ← _u32 body 8;
  final_field ← _u32 body 12;
  segment_index ← _u16 body 16;
  payload_len ← _u16 body 18;
  let payload_end := 20 + payload_len in
  let fits := payload_end <=? zlen body in
  let payload := if fits then zslice 20 payload_end body else zdrop 20 body in
  let trailer := if fits then zdrop payload_end body else [] in
  let computed_crc := crc32 payload in
  let errors := errors ++
    complain (negb fits) (PayloadBeyondBody payload_len (zlen payload)) ++
    complain (negb (is_response_header header)) (BadHeader header) ++
    complain (negb (stored_crc =? computed_crc)) (BadCrc stored_crc computed_crc) ++
    complain (negb (message_seq =? expected_message_seq))
      (BadMessageSeq message_seq expected_message_seq) ++
    complain (negb ((final_field =? 0) || (final_field =? 1))) (BadFinal final_field) ++
    complain (negb (payload_len =? zlen payload)) (BadPayloadLength payload_len (zlen payload)) ++
    (if negb (zlen trailer =? 4) then [BadTrailerLength (zlen trailer)]
     else complain (negb (zl_eqb trailer wrapper_header)) (BadTrailer trailer wrapper_header)) in
  Ok {| fc_path := path; fc_index := index; fc_packet_len := zlen packet;
        fc_wrapper_seq := wrapper_seq; fc_wrapper_type := wrapper_type;
        fc_wrapper_len := wrapper_len; fc_trailing_padding := trailing_padding;
        fc_header := header; fc_stored_crc := stored_crc; fc_computed_crc := computed_crc;
        fc_message_seq := message_seq; fc_expected_message_seq := expected_message_seq;
        fc_final_field := final_field; fc_segment_index := segment_index;
        fc_payload_len := payload_len; fc_actual_payload_len := zlen payload;
        fc_trailer := trailer; fc_errors := errors |}.

(** * A sequence of packets *)

(** The complaints of [validate_response_sequence] about one check. *)
Definition sequence_errors (n expected_index : Z) (check : FrameCheck) : list complaint :=
  let is_last := expected_index =? n - 1 in
  complain (negb (fc_segment_index check =? expected_index))
    (BadSegment (fc_segment_index check) expected_index) ++
  (if negb ((fc_final_field check =? 0) || (fc_final_field check =? 1)) then []
   else complain ((fc_final_field check =? 1) && negb is_last) (EarlyFinalFlag expected_index) ++
        complain ((fc_final_field check =? 0) && is_last) NoFinalFlag).

Fixpoint validate_sequence_from (n expected_index : Z) (checks : list FrameCheck)
    : list FrameCheck :=
  match checks with
  | [] => []
  | check :: rest => add_errors (sequence_errors n expected_index check) check
                     :: validate_sequence_from n (expected_index + 1) rest
  end.
Definition validate_response_sequence (checks : list FrameCheck) : list FrameCheck :=
  validate_sequence_from (zlen checks) 0 checks.

Definition response_payload (packet : bytes) : result bytes :=
  if zlen packet <? 24 then Ok [] else
  wrapper_len ← _u16 packet 2;
  let wrapper_len := if zlen packet <? wrapper_len then zlen packet else wrapper_len in
  let body := zdrop 4 (ztake wrapper_len packet) in
  if zlen body <? 20 then Ok [] else
  payload_len ← _u16 body 18;
  Ok (zslice 20 (20 + payload_len) body).

Definition response_frame_is_final (packet : bytes) : result bool :=
  if zlen packet <? 20 then Ok false else
  wrapper_len ← _u16 packet 2;
  if zlen packet <? wrapper_len then Ok false else
  let body := zdrop 4 (ztake wrapper_len packet) in
  if zlen body <? 16 then Ok false else
  f ← _u32 body 12; Ok (f =? 1).

(** * Agreement with the parser *)

Lemma complain_nil b e : complain b e = [] ↔ b = false.
Proof. by destruct b. Qed.

Lemma u16_total data i : i + 2 <= zlen data → ∃ v, _u16 data i = Ok v.
Proof. intros Hi. unfold _u16. rewrite (proj2 (Z.ltb_ge (zlen data) (i + 2))) by lia. eauto. Qed.

Lemma u16_nonneg data i v : bytes_ok data → _u16 data i = Ok v → 0 <= v.
Proof.
  intros Hok Hv. apply u16_value in Hv as ->.
  pose proof (byte_at_ok data i Hok). pose proof (byte_at_ok data (i + 1) Hok).
  unfold is_byte in *. lia.
Qed.

Lemma response_header_ascii h :
  is_response_header h = true → forallb (λ c, c <? 128) h = true.
Proof. unfold is_response_header. intros [E|E]%orb_true_iff; apply zl_eqb_eq in E as ->; reflexivity. Qed.

(** The fields of a check that are the parser's. *)
Record agrees (f : ResponseFrame) (c : FrameCheck) : Prop := {
  ag_errors : fc_errors c = [];
  ag_header : fc_header c = header f;
  ag_seq : fc_wrapper_seq c = wrapper_seq f;
  ag_type : fc_wrapper_type c = wrapper_type f;
  ag_len : fc_wrapper_len c = wrapper_len f;
  ag_message : fc_message_seq c = message_seq f;
  ag_final : fc_final_field c = if final f then 1 else 0;
  ag_segment : fc_segment_index c = segment_index f
}.

(** Splits the absence of complaints into the conditions behind it. *)
Ltac uncomplaining H :=
  repeat match type of H with
  | _ ++ _ = [] => let H' := fresh "Hc" in apply app_eq_nil in H as [H' H]; try rewrite complain_nil in H'
  end; try rewrite complain_nil in H.

(** The five fields of a long enough body. *)
Lemma fields_total body : 20 <= zlen body →
  ∃ crc mseq fin seg plen, _u32 body 4 = Ok crc ∧ _u32 body 8 = Ok mseq ∧ _u32 body 12 = Ok fin ∧
    _u16 body 16 = Ok seg ∧ _u16 body 18 = Ok plen.
Proof.
  intros Hb. destruct (u32_total body 4 ltac:(lia)) as [a Ha]. destruct (u32_total body 8 ltac:(lia)) as [b Hb'].
  destruct (u32_total body 12 ltac:(lia)) as [c Hc]. destruct (u16_total body 16 ltac:(lia)) as [d Hd].
  destruct (u16_total body 18 ltac:(lia)) as [e He]. by exists a, b, c, d, e.
Qed.

(** A wrapper the parser refuses is complained about. *)
Lemma bad_wrapper path i packet s wl :
  24 <= zlen packet → _u16 packet 2 = Ok wl →
  byte_at packet 1 ≠ 0 ∨ wl < 28 ∨ zlen packet < wl →
  ∃ c, validate_response_packet path i packet s = Ok c ∧ fc_errors c ≠ [].
Proof.
  intros Hl Hwl Hbad. unfold validate_response_packet.
  rewrite (proj2 (Z.ltb_ge (zlen packet) 24)) by lia. rewrite Hwl. cbn [mbind result_bind].
  set (body := zdrop 4 (if zlen packet <? wl then packet else ztake wl packet)).
  set (e3 := complain (negb (forallb _ (ztake 4 body))) _).
  assert (∀ rest, (complain (negb (byte_at packet 1 =? 0)) (BadWrapperType (byte_at packet 1)) ++
    complain (wl <? 28) (BadWrapperLength wl) ++
    complain (zlen packet <? wl) (WrapperBeyondPacket wl (zlen packet)) ++ e3) ++ rest ≠ []) as Hne.
  { intros rest [E _]%app_eq_nil. uncomplaining E. zbool. lia. }
  destruct (zlen body <? 20) eqn:Eb; [eexists; split; [reflexivity|apply Hne]|]. zbool.
  destruct (fields_total body Eb) as (crc & mseq & fin & seg & plen & -> & -> & -> & -> & ->).
  eexists. split; [reflexivity|apply Hne].
Qed.

(** The complaints about the body of a good wrapper. *)
Lemma complaints_iff body wrapper plen crc mseq s fin :
  0 <= plen → 24 <= zlen body →
  let ascii := forallb (λ c, c <? 128) (ztake 4 body) in
  let text := if ascii then ztake 4 body else bytes_hex (ztake 4 body) in
  let fits := 20 + plen <=? zlen body in
  let pay := if fits then zslice 20 (20 + plen) body else zdrop 20 body in
  let trailer := if fits then zdrop (20 + plen) body else [] in
  complain (negb ascii) (NonAsciiHeader (ztake 4 body)) ++
  complain (negb fits) (PayloadBeyondBody plen (zlen pay)) ++
  complain (negb (is_response_header text)) (BadHeader text) ++
  complain (negb (crc =? crc32 pay)) (BadCrc crc (crc32 pay)) ++
  complain (negb (mseq =? s)) (BadMessageSeq mseq s) ++
  complain (negb ((fin =? 0) || (fin =? 1))) (BadFinal fin) ++
  complain (negb (plen =? zlen pay)) (BadPayloadLength plen (zlen pay)) ++
  (if negb (zlen trailer =? 4) then [BadTrailerLength (zlen trailer)]
   else complain (negb (zl_eqb trailer wrapper)) (BadTrailer trailer wrapper)) = [] ↔
  is_response_header (ztake 4 body) = true ∧ mseq = s ∧ (fin = 0 ∨ fin = 1) ∧
  20 + plen + 4 = zlen body ∧ crc = crc32 (zslice 20 (20 + plen) body) ∧
  zslice (20 + plen) (20 + plen + 4) body = wrapper.
Proof.
  intros Hp Hb ascii text fits pay trailer.
  assert (20 + plen + 4 = zlen body → fits = true ∧ pay = zslice 20 (20 + plen) body ∧
    trailer = zdrop (20 + plen) body ∧ zlen pay = plen ∧ zlen trailer = 4 ∧
    zslice (20 + plen) (20 + plen + 4) body = trailer) as Hfit.
  { intros Hl. assert (fits = true) as E by (subst fits; apply Z.leb_le; lia).
    subst pay trailer. rewrite E. split_and!; try done.
    - rewrite zlen_zslice; lia.
    - rewrite zlen_zdrop; lia.
    - unfold zslice, ztake. apply take_ge. pose proof (zlen_zdrop body (20 + plen) ltac:(lia)).
      unfold zlen in *. lia. }
  split.
  - intros E. uncomplaining E.
    destruct (zlen trailer =? 4) eqn:E4; [|discriminate E]. cbn [negb] in E. rewrite complain_nil in E.
    apply negb_false_iff in Hc, Hc0, Hc1, Hc2, Hc3, Hc4, Hc5, E. zbool.
    assert (20 + plen + 4 = zlen body) as Hl.
    { subst trailer fits. rewrite Hc0 in E4. apply Z.leb_le in Hc0. rewrite zlen_zdrop in E4; lia. }
    destruct (Hfit Hl) as (Ef & Epay & Etr & _ & _ & Esl). subst text. rewrite Hc in Hc1.
    split_and!; try done.
    + apply orb_true_iff in Hc4 as [?|?]; zbool; auto.
    + by rewrite <- Epay.
    + apply zl_eqb_eq in E. congruence.
  - intros (Hh & -> & Hf & Hl & -> & <-). destruct (Hfit Hl) as (Ef & Epay & Etr & Elen & E4 & Esl).
    assert (ascii = true) as Ha by (by apply response_header_ascii). subst text.
    rewrite Ha, Ef, Hh, Esl, Elen, E4, <- Epay, !Z.eqb_refl.
    rewrite (proj2 (zl_eqb_eq trailer trailer)) by done. by destruct Hf as [-> | ->].
Qed.

Lemma good_wrapper path i packet s wl :
  bytes_ok packet → _u16 packet 2 = Ok wl → byte_at packet 1 = 0 → 28 <= wl <= zlen packet →
  ∃ c, validate_response_packet path i packet s = Ok c ∧
    match parse_response_frame packet s with
    | Ok f => agrees f c ∧ response_payload packet = Ok (payload f)
    | Err _ => fc_errors c ≠ []
    end.
Proof.
  intros Hok Hwl Hty Hlen.
  unfold validate_response_packet, parse_response_frame, response_payload.
  rewrite (proj2 (Z.ltb_ge (zlen packet) 24)), (proj2 (Z.ltb_ge (zlen packet) 28)) by lia.
  rewrite Hwl. cbn [mbind result_bind]. rewrite Hty, (proj2 (Z.ltb_ge wl 28)), (proj2 (Z.ltb_ge (zlen packet) wl)) by lia.
  change (0 =? 0) with true. cbn [negb complain app].
  set (wrapper := ztake 4 (ztake wl packet)). set (body := zdrop 4 (ztake wl packet)).
  assert (zlen body = wl - 4) as Hbody by (subst body; rewrite zlen_zdrop; rewrite zlen_ztake; lia).
  assert (bytes_ok body) as Hbok by (subst body; by apply Forall_drop, Forall_take).
  rewrite (proj2 (Z.ltb_ge (zlen body) 20)) by lia.
  destruct (fields_total body ltac:(lia)) as (crc & mseq & fin & seg & plen & -> & -> & -> & -> & Hplen).
  rewrite Hplen. cbn [mbind result_bind]. pose proof (u16_nonneg body 18 plen Hbok Hplen) as Hplen0.
  set (ascii := forallb _ (ztake 4 body)). clearbody body wrapper.
  eexists. split; [reflexivity|]. cbn [fc_errors].
  match goal with |- match _ with Ok _ => agrees _ ?x ∧ _ | Err _ => _ end => set (check := x) end.
  assert (fc_errors check = [] ↔ is_response_header (ztake 4 body) = true ∧ mseq = s ∧
    (fin = 0 ∨ fin = 1) ∧ 20 + plen + 4 = zlen body ∧ crc = crc32 (zslice 20 (20 + plen) body) ∧
    zslice (20 + plen) (20 + plen + 4) body = wrapper) as Hconds.
  { subst check. cbn [fc_errors]. apply complaints_iff; lia. }
  repeat match goal with
  | |- match (if ?b then _ else _) with Ok _ => _ | Err _ => _ end => destruct b eqn:?
  end; cbn [frame_err].
  1-7: intros Hn; apply Hconds in Hn as (Hh & Hm & Hf & Hl & Hc & Ht); zbool.
  - congruence.
  - congruence.
  - lia.
  - lia.
  - lia.
  - congruence.
  - by apply zl_eqb_neq in Heqb5.
  - assert (fc_errors check = []) as He.
    { apply Hconds. zbool. split_and!; try done.
      + destruct (Z.eqb_spec fin 0), (Z.eqb_spec fin 1); auto; discriminate.
      + by apply zl_eqb_eq in Heqb5. }
    split; [|done]. destruct (proj1 Hconds He) as (Hh & _ & Hf & _). apply response_header_ascii in Hh.
    constructor; try done.
    + subst check ascii. cbn. by rewrite Hh.
    + by destruct Hf as [-> | ->].
Qed.

Lemma packet_agrees path i packet s :
  bytes_ok packet →
  ∃ c, validate_response_packet path i packet s = Ok c ∧
    match parse_response_frame packet s with
    | Ok f => agrees f c ∧ response_payload packet = Ok (payload f)
    | Err _ => fc_errors c ≠ []
    end.
Proof.
  intros Hok. destruct (zlen packet <? 24) eqn:E24; zbool.
  { unfold validate_response_packet. rewrite (proj2 (Z.ltb_lt (zlen packet) 24)) by lia.
    destruct (u16_total (packet ++ [0; 0; 0; 0]) 2) as [len ->].
    { rewrite zlen_app. change (zlen [0; 0; 0; 0]) with 4. unfold zlen. lia. }
    eexists. split; [reflexivity|]. unfold parse_response_frame.
    by rewrite (proj2 (Z.ltb_lt (zlen packet) 28)) by lia. }
  destruct (u16_total packet 2 ltac:(lia)) as [wl Hwl].
  pose proof (u16_nonneg packet 2 wl Hok Hwl) as Hwl0.
  destruct (decide (byte_at packet 1 ≠ 0 ∨ wl < 28 ∨ zlen packet < wl)) as [Hbad|Hgood].
  { destruct (bad_wrapper path i packet s wl E24 Hwl Hbad) as (c & Ec & Hc). exists c. split; [done|].
    assert (∃ e, parse_response_frame packet s = Err e) as [e ->]; [|done].
    unfold parse_response_frame. case_if; [by eexists|]. rewrite Hwl. cbn [mbind result_bind].
    case_if; [by eexists|]. case_if; [by eexists|]. case_if; [by eexists|]. zbool. lia. }
  apply (good_wrapper path i packet s wl); [done|done|lia|lia].
Qed.

(** * The capture *)

Record CaptureResult := {
  cr_path : pystr;
  cr_request_seq : Z;
  cr_message_seq : Z;
  cr_device_acks : list bytes;
  cr_response_packets : list bytes;
  cr_host_acks : list bytes;
  cr_unexpected_packets : list bytes;
  cr_frame_checks : list FrameCheck;
  cr_joined_response : bytes
}.

(** [CaptureResult.ok] *)
Definition capture_ok (r : CaptureResult) : bool :=
  match cr_response_packets r with [] => false | _ => true end
  && match cr_unexpected_packets r with [] => true | _ => false end
  && forallb check_ok (cr_frame_checks r).

(** [enumerate(result.response_packets, start=index)] *)
Fixpoint check_packets (path : pystr) (index : Z) (message_seq : Z) (packets : list bytes)
    : result (list FrameCheck) :=
  match packets with
  | [] => Ok []
  | packet :: rest =>
      c ← validate_response_packet path index packet message_seq;
      cs ← check_packets path (index + 1) message_seq rest;
      Ok (c :: cs)
  end.

(** The local variables of the loop of [capture_get]. *)
Record capturing := {
  k_device_acks : list bytes;
  k_packets : list bytes;
  k_host_acks : list bytes;
  k_unexpected : list bytes;
  k_total : Z;
  k_quiet : Z;
  k_reads : Z
}.
Definition capturing0 : capturing :=
  {| k_device_acks := []; k_packets := []; k_host_acks := []; k_unexpected := []; k_total := 0;
     k_quiet := 0; k_reads := 0 |}.

(** What is checked once the packets are there. *)
Definition assess (path : pystr) (request_seq message_seq : Z) (k : capturing) : result CaptureResult :=
  checks ← check_packets path 1 message_seq (k_packets k);
  joined ← mapR response_payload (k_packets k);
  Ok {| cr_path := path; cr_request_seq := request_seq; cr_message_seq := message_seq;
        cr_device_acks := k_device_acks k; cr_response_packets := k_packets k;
        cr_host_acks := k_host_acks k; cr_unexpected_packets := k_unexpected k;
        cr_frame_checks := validate_response_sequence checks;
        cr_joined_response := concat joined |}.

Record capture_cfg := {
  v_max_bytes : Z;
  v_response_timeout_ms : Z;
  v_max_reads : Z;
  v_max_ignored_packets : Z;
  v_max_response_frames : Z
}.

Section Capture.
Context {W : Type} `{UsbEnv W} `{UrlLib}.

(** A packet that was read, [quiet] being reset; [true] ends the loop. *)
Definition capture_packet (g : capture_cfg) (path : pystr) (packet : bytes) (k : capturing)
    : M (St (W := W)) (capturing * bool) :=
  if is_device_ack packet then
    mret ({| k_device_acks := k_device_acks k ++ [packet]; k_packets := k_packets k;
             k_host_acks := k_host_acks k; k_unexpected := k_unexpected k; k_total := k_total k;
             k_quiet := 0; k_reads := k_reads k |}, false) else
  let body := if 4 <=? zlen packet then zdrop 4 packet else [] in
  if starts_with (s! "NREK") body || starts_with (s! "PTTH") body then
    q ← _next_host_seq;
    let ack := build_ack q in
    _ ← _write_frame ack;
    let k := {| k_device_acks := k_device_acks k; k_packets := k_packets k ++ [packet];
                k_host_acks := k_host_acks k ++ [ack]; k_unexpected := k_unexpected k;
                k_total := k_total k + zlen packet; k_quiet := 0; k_reads := k_reads k |} in
    if v_max_response_frames g <? zlen (k_packets k)
    then mraise (RuntimeError (s! "response exceeded " ++ str_of_int (v_max_response_frames g) ++
                               s! " frames for " ++ path)) else
    if v_max_bytes g <? k_total k
    then mraise (RuntimeError (s! "response exceeded " ++ str_of_int (v_max_bytes g) ++ s! " bytes"))
    else is_final ← mlift (response_frame_is_final packet); mret (k, is_final)
  else
    let k := {| k_device_acks := k_device_acks k; k_packets := k_packets k;
                k_host_acks := k_host_acks k; k_unexpected := k_unexpected k ++ [packet];
                k_total := k_total k; k_quiet := 0; k_reads := k_reads k |} in
    if v_max_ignored_packets g <? zlen (k_unexpected k)
    then mraise (RuntimeError (s! "ignored packet limit exceeded after " ++
                               str_of_int (v_max_ignored_packets g) ++ s! " packets for " ++ path))
    else mret (k, false).

Definition read_limit (g : capture_cfg) (path : pystr) : exn :=
  RuntimeError (s! "response read limit exceeded after " ++ str_of_int (v_max_reads g) ++
                s! " reads for " ++ path).

(** [while quiet_reads < 2]: at most [max_reads] packets are read, so that many
    rounds and one are enough (see [capture_loop_fuel]). *)
Fixpoint capture_loop (fuel : nat) (g : capture_cfg) (path : pystr) (deadline : Z) (k : capturing)
    : M (St (W := W)) capturing :=
  if negb (k_quiet k <? 2) then mret k else
  match fuel with
  | O => mret k
  | S fuel =>
      if v_max_reads g <=? k_reads k then mraise (read_limit g path) else
      now ← env monotonic;
      if deadline <=? now
      then mraise (RuntimeError (s! "response timed out after " ++
                                 str_of_int (v_response_timeout_ms g) ++ s! " ms for " ++ path)) else
      packet ← _read_logical_frame (Z.max 1 ((deadline - now) / 1000)) no_callbacks;
      let read := {| k_device_acks := k_device_acks k; k_packets := k_packets k;
                     k_host_acks := k_host_acks k; k_unexpected := k_unexpected k;
                     k_total := k_total k; k_quiet := k_quiet k; k_reads := k_reads k + 1 |} in
      if zl_eqb packet [] then
        capture_loop fuel g path deadline
          {| k_device_acks := k_device_acks k; k_packets := k_packets k;
             k_host_acks := k_host_acks k; k_unexpected := k_unexpected k;
             k_total := k_total k; k_quiet := k_quiet k + 1; k_reads := k_reads k + 1 |}
      else
        '(k', stop) ← capture_packet g path packet read;
        if stop : bool then mret k' else capture_loop fuel g path deadline k'
  end.

Definition capture_get (g : capture_cfg) (path etag : pystr) : M (St (W := W)) CaptureResult :=
  path ← mlift (normalize_path path);
  request_seq ← _next_host_seq;
  message_seq ← this msg_seq;
  frame ← mlift (build_get_frame request_seq message_seq path etag (s! "NREK") None None);
  _ ← _write_frame frame;
  _ ← obj (λ d, set_msg_seq (msg_seq d + 1) d);
  started ← env monotonic;
  k ← capture_loop (S (Z.to_nat (v_max_reads g))) g path
        (started + v_response_timeout_ms g * 1000) capturing0;
  mlift (assess path request_seq message_seq k).
End Capture.

Section CaptureFuel.
Context {W : Type} `{UsbEnv W}.

Lemma capture_packet_reads g path packet k s k' stop s' :
  capture_packet (W := W) g path packet k s = (Ok (k', stop), s') → k_reads k' = k_reads k.
Proof.
  unfold capture_packet. destruct (is_device_ack packet); [by intros [= <- _ _]|].
  destruct (starts_with _ _ || _).
  - intros E. apply M_bind_ok in E as (q & s1 & _ & E). apply M_bind_ok in E as ([] & s2 & _ & E).
    repeat case_if_in E; try done. apply M_bind_ok in E as (f & s3 & _ & E). by injection E as <- _ _.
  - case_if; [done|]. by intros [= <- _ _].
Qed.

(** The bound on the rounds is never what ends the loop. *)
Lemma capture_loop_fuel g path deadline f1 f2 k s :
  v_max_reads g - k_reads k < Z.of_nat f1 → v_max_reads g - k_reads k < Z.of_nat f2 →
  (0 < f1)%nat → (0 < f2)%nat →
  capture_loop (W := W) f1 g path deadline k s = capture_loop f2 g path deadline k s.
Proof.
  revert f2 k s. induction f1 as [|f1 IH]; intros [|f2] k s H1 H2 Hp1 Hp2; try lia.
  cbn [capture_loop]. destruct (negb (k_quiet k <? 2)); [done|].
  destruct (v_max_reads g <=? k_reads k) eqn:Er; [done|]. zbool.
  unfold mbind, M_bind. destruct (env monotonic s) as [[now|e] s1]; [|done].
  destruct (deadline <=? now); [done|].
  destruct (_read_logical_frame _ _ s1) as [[packet|e] s2]; [|done].
  destruct (zl_eqb packet []).
  - apply IH; simpl; lia.
  - match goal with |- context [capture_packet g path packet ?r s2] =>
      pose proof (capture_packet_reads g path packet r s2) as Hr;
      destruct (capture_packet g path packet r s2) as [[[k' stop]|e] s3] end; [|done].
    destruct stop; [done|]. specialize (Hr _ _ _ eq_refl). simpl in Hr. apply IH; lia.
Qed.
End CaptureFuel.

(** * Agreement on a response *)

Lemma add_errors_ok es c : check_ok (add_errors es c) = check_ok c && bool_decide (es = []).
Proof.
  unfold check_ok, add_errors. cbn. destruct (fc_errors c), es; cbn; try done.
Qed.

Lemma sequence_errors_nil n i f c :
  agrees f c →
  bool_decide (sequence_errors n i c = []) =
  (segment_index f =? i) && Bool.eqb (final f) (i =? n - 1).
Proof.
  intros []. unfold sequence_errors. rewrite ag_segment0, ag_final0.
  destruct (final f), (segment_index f =? i), (i =? n - 1); reflexivity.
Qed.

(** Segments of parsed packets: the checks pass exactly when they join. *)
Lemma sequence_agrees n frames checks i :
  Forall2 agrees frames checks →
  match join_from n i frames with
  | Ok b => forallb check_ok (validate_sequence_from n i checks) = true ∧ b = concat (payload <$> frames)
  | Err _ => forallb check_ok (validate_sequence_from n i checks) = false
  end.
Proof.
  intros Ha. revert i. induction Ha as [|f c frames checks Hf Ha IH]; intros i; [done|].
  cbn [join_from validate_sequence_from forallb]. rewrite add_errors_ok, (sequence_errors_nil n i f c Hf).
  assert (check_ok c = true) as -> by (unfold check_ok; by rewrite (ag_errors f c Hf)).
  destruct (segment_index f =? i), (final f), (i =? n - 1); cbn; try done;
    specialize (IH (i + 1)); destruct (join_from n (i + 1) frames); cbn; try done;
    destruct IH as [-> ->]; done.
Qed.

(** Packet by packet. *)
Lemma check_packets_agree path i s packets :
  Forall bytes_ok packets →
  ∃ checks, check_packets path i s packets = Ok checks ∧ length checks = length packets ∧
    match mapR (λ p, parse_response_frame p s) packets with
    | Ok frames => Forall2 agrees frames checks ∧ mapR response_payload packets = Ok (payload <$> frames)
    | Err _ => ∀ n k, forallb check_ok (validate_sequence_from n k checks) = false
    end.
Proof.
  intros Hok. revert i. induction Hok as [|p packets Hp Hok IH]; intros i.
  { exists []. by split_and!. }
  destruct (packet_agrees path i p s Hp) as (c & Ec & Hc). destruct (IH (i + 1)) as (cs & Ecs & El & Hcs).
  exists (c :: cs). cbn [check_packets mapR]. rewrite Ec, Ecs. cbn.
  split; [done|]. split; [lia|].
  destruct (parse_response_frame p s) as [f|e]; cbn.
  - destruct Hc as [Hc Hpay]. destruct (mapR _ packets) as [frames|e]; cbn.
    + destruct Hcs as [Hcs Hpays]. split; [by constructor|]. by rewrite Hpay, Hpays.
    + intros n k. by rewrite Hcs, andb_false_r.
  - intros n k. rewrite add_errors_ok.
    by assert (check_ok c = false) as -> by (unfold check_ok; by destruct (fc_errors c)).
Qed.

Lemma response_payload_total packet : ∃ b, response_payload packet = Ok b.
Proof.
  unfold response_payload. case_if; [by eexists|]. zbool.
  destruct (u16_total packet 2 ltac:(lia)) as [wl ->]. cbn [mbind result_bind].
  set (body := zdrop 4 _). clearbody body. case_if; [by eexists|]. zbool.
  destruct (u16_total body 18 ltac:(lia)) as [plen ->]. by eexists.
Qed.

Lemma response_payloads_total packets : ∃ bs, mapR response_payload packets = Ok bs.
Proof.
  induction packets as [|p packets [bs IH]]; [by exists []|]. cbn [mapR].
  destruct (response_payload_total p) as [b ->]. cbn. rewrite IH. by eexists.
Qed.

Lemma assess_agrees path q s k :
  Forall bytes_ok (k_packets k) →
  ∃ r, assess path q s k = Ok r ∧
    (capture_ok r = true ↔
     k_packets k ≠ [] ∧ k_unexpected k = [] ∧ ∃ b, join_response_frames (k_packets k) s = Ok b) ∧
    (∀ b, join_response_frames (k_packets k) s = Ok b → cr_joined_response r = b).
Proof.
  intros Hok. destruct (check_packets_agree path 1 s (k_packets k) Hok) as (checks & Ec & El & Ha).
  destruct (response_payloads_total (k_packets k)) as [bs Eb].
  unfold assess. rewrite Ec, Eb. cbn [mbind result_bind]. eexists. split; [done|].
  unfold capture_ok. cbn [cr_response_packets cr_unexpected_packets cr_frame_checks cr_joined_response].
  unfold validate_response_sequence, join_response_frames, join_parsed_response_frames.
  destruct (mapR (λ p, parse_response_frame p s) (k_packets k)) as [frames|e] eqn:Ef; cbn [mbind result_bind].
  - destruct Ha as [Ha Hp]. assert (bs = payload <$> frames) as -> by congruence.
    assert (match frames with [] => Ok [] | _ :: _ => join_from (zlen frames) 0 frames end
            = join_from (zlen frames) 0 frames) as -> by (by destruct frames).
    assert (zlen checks = zlen frames) as -> by (unfold zlen; by rewrite (Forall2_length Ha)).
    pose proof (sequence_agrees (zlen frames) frames checks 0 Ha) as Hs.
    destruct (join_from (zlen frames) 0 frames) as [b|e].
    + destruct Hs as [-> ->]. split; [|by intros b [= <-]].
      rewrite andb_true_r. destruct (k_packets k), (k_unexpected k); cbn; split; try done;
        try (by intros (? & ? & _)). intros _. split_and!; eauto.
    + rewrite Hs, andb_false_r. split; [|done]. split; [done|]. by intros (_ & _ & ? & ?).
  - rewrite Ha, andb_false_r. split; [|done]. split; [done|]. by intros (_ & _ & ? & ?).
Qed.

(** C11. The live validator and the proxy agree: for any packets captured, the
    assessment never raises, and it passes exactly when there is a packet, no
    unexpected one, and the proxy's own parser accepts and joins them; the bytes
    it then shows are the response the proxy would have returned. *)
Theorem live_validation_agrees path q s k :
  Forall bytes_ok (k_packets k) →
  ∃ r, assess path q s k = Ok r ∧
    (capture_ok r = true ↔
     k_packets k ≠ [] ∧ k_unexpected k = [] ∧ ∃ b, join_response_frames (k_packets k) s = Ok b) ∧
    (∀ b, join_response_frames (k_packets k) s = Ok b → cr_joined_response r = b).
Proof. apply assess_agrees. Qed.

(** Two segments, and the same without the second. *)
Definition demo_capture (packets : list bytes) : capturing :=
  {| k_device_acks := []; k_packets := packets; k_host_acks := []; k_unexpected := []; k_total := 0;
     k_quiet := 0; k_reads := 0 |}.
Definition demo_packets : list bytes :=
  encode_response_frame <$> segment (s! "NREK") 2 0 [s! "ab"; s! "c"].

Lemma live_validation_agrees_witness :
  (∃ r, assess [] 0 2 (demo_capture demo_packets) = Ok r ∧ capture_ok r = true ∧
        cr_joined_response r = s! "abc") ∧
  (∃ r, assess [] 0 2 (demo_capture (take 1 demo_packets)) = Ok r ∧ capture_ok r = false).
Proof.
  assert (∀ n, Forall bytes_ok (take n demo_packets)) as Hok.
  { intros n. apply Forall_take. refine (bool_decide_unpack _ _). vm_compute. exact I. }
  split.
  - destruct (live_validation_agrees [] 0 2 (demo_capture demo_packets) (Hok 2%nat)) as (r & E & Hok' & Hb).
    exists r. split; [exact E|]. split; [|apply Hb; vm_compute; reflexivity].
    apply Hok'. split; [discriminate|]. split; [reflexivity|]. eexists. vm_compute. reflexivity.
  - destruct (live_validation_agrees [] 0 2 (demo_capture (take 1 demo_packets)) (Hok 1%nat))
      as (r & E & Hok' & _).
    exists r. split; [exact E|]. destruct (capture_ok r); [|reflexivity].
    destruct (proj1 Hok' eq_refl) as (_ & _ & b & Eb). vm_compute in Eb. discriminate Eb.
Defined.
