(* ===== verification/LiveTool.v ===== *)
(** The command of the validator of live response frames
    (tools/live_validate_response_frames.py): its options, the capture of every path
    in one session, the lines it prints, and its exit code.

    The captures are those of Live.v, over the USB client.  Discovery, the transport
    and the output are parameters.  Shown: the verdict is right.  Exit code 0 means
    that the proxy itself would have accepted and joined every response, into the
    bytes that are shown; a code of 1 that some response would have been refused or
    came with packets nobody asked for. *)
From S2P Require Import Prelude PyText Protocol Parser Usb Managed Coordinator Walk.
From S2P Require Import Paths Device Json Schema JsonText IpAddr Http Report Urb Usbfs CliArgs Token Cli Argv Live.

(** * Printing *)

(** [format(n, "0{width}x")] *)
Fixpoint hex_loop (fuel : nat) (n : Z) (acc : pystr) : pystr :=
  match fuel with
  | O => acc
  | S fuel => if n <? 16 then hex_digit n :: acc
              else hex_loop fuel (n / 16) (hex_digit (n mod 16) :: acc)
  end.
Definition hex_text (n : Z) : pystr := hex_loop (S (Z.to_nat (Z.log2 n))) n [].
Definition format_hex (width n : Z) : pystr :=
  let sign := if n <? 0 then [45] else [] in
  let digits := hex_text (Z.abs n) in
  sign ++ replicate (Z.to_nat (width - zlen sign - zlen digits)) 48 ++ digits.

Section Texts.
Context `{Interpreter}.

(** The text of a complaint. *)
Definition complaint_text (e : complaint) : pystr :=
  match e with
  | PacketTooShort n => s! "packet too short for wrapper plus MOTU header: " ++ str_of_int n ++ s! " bytes"
  | BadWrapperType t => s! "unexpected response wrapper type 0x" ++ format_hex 2 t
  | BadWrapperLength n => s! "invalid response wrapper length " ++ str_of_int n
  | WrapperBeyondPacket n len =>
      s! "wrapper length " ++ str_of_int n ++ s! " > packet length " ++ str_of_int len
  | NonAsciiHeader h => s! "non-ascii MOTU header " ++ bytes_hex h
  | BodyTooShort n => s! "response body too short for MOTU fields: " ++ str_of_int n ++ s! " bytes"
  | PayloadBeyondBody n available =>
      s! "payload length " ++ str_of_int n ++ s! " exceeds available " ++ str_of_int available
        ++ s! " bytes"
  | BadHeader h => s! "unexpected MOTU header " ++ str_repr h
  | BadCrc stored computed =>
      s! "crc mismatch stored=0x" ++ format_hex 8 stored ++ s! " computed=0x" ++ format_hex 8 computed
  | BadMessageSeq got expected =>
      s! "message sequence " ++ str_of_int got ++ s! " != expected " ++ str_of_int expected
  | BadFinal f => s! "unexpected final field " ++ str_of_int f
  | BadPayloadLength n actual =>
      s! "payload length " ++ str_of_int n ++ s! " != actual " ++ str_of_int actual
  | BadTrailerLength n => s! "response trailer length " ++ str_of_int n ++ s! " != 4"
  | BadTrailer trailer wrapper =>
      s! "response trailer " ++ bytes_hex trailer ++ s! " != wrapper " ++ bytes_hex wrapper
  | BadSegment got expected =>
      s! "segment index " ++ str_of_int got ++ s! " != expected " ++ str_of_int expected
  | EarlyFinalFlag i => s! "final flag set before last segment " ++ str_of_int i
  | NoFinalFlag => s! "missing final segment flag"
  end.

(** [_preview] with its default limit. *)
Definition _preview (b : bytes) : pystr :=
  let text := utf8_decode_replace b in
  let collapsed := intersperse [32] (split_ws (length text) text) in
  if zlen collapsed <=? 96 then collapsed else ztake 96 collapsed ++ s! "...".

(** The line of a frame and those of its complaints. *)
Definition frame_lines (c : FrameCheck) : list pystr :=
  (s! "  frame " ++ str_of_int (fc_index c) ++ s! ": " ++
   (if check_ok c then s! "ok" else s! "bad") ++ s! " wrapper=0x" ++
   format_hex 2 (fc_wrapper_seq c) ++ s! "/0x" ++ format_hex 2 (fc_wrapper_type c) ++
   s! " len=" ++ str_of_int (fc_wrapper_len c) ++ s! " header=" ++ fc_header c ++
   s! " crc=0x" ++ format_hex 8 (fc_stored_crc c) ++ s! " msg=" ++ str_of_int (fc_message_seq c) ++
   s! " final=" ++ str_of_int (fc_final_field c) ++
   s! " segment=" ++ str_of_int (fc_segment_index c) ++
   s! " payload=" ++ str_of_int (fc_payload_len c) ++ s! " trailer=" ++ bytes_hex (fc_trailer c) ++
   s! " padding=" ++ str_of_int (fc_trailing_padding c))
  :: ((λ e, s! "    ERROR " ++ complaint_text e) <$> fc_errors c).

Fixpoint unexpected_lines (index : Z) (packets : list bytes) : list pystr :=
  match packets with
  | [] => []
  | p :: ps =>
      (s! "  unexpected " ++ str_of_int index ++ s! ": len=" ++ str_of_int (zlen p) ++ s! " head=" ++
       intersperse [32] ((λ c, bytes_hex [c]) <$> ztake 32 p))
      :: unexpected_lines (index + 1) ps
  end.

Definition print_result (r : CaptureResult) : list pystr :=
  [(if capture_ok r then s! "PASS " else s! "FAIL ") ++ cr_path r ++ s! ": request_seq=0x" ++
   format_hex 2 (cr_request_seq r) ++ s! " message_seq=" ++ str_of_int (cr_message_seq r) ++
   s! " response_frames=" ++ str_of_int (zlen (cr_response_packets r)) ++
   s! " device_acks=" ++ str_of_int (zlen (cr_device_acks r)) ++
   s! " host_acks=" ++ str_of_int (zlen (cr_host_acks r)) ++
   s! " joined_bytes=" ++ str_of_int (zlen (cr_joined_response r))] ++
  concat (frame_lines <$> cr_frame_checks r) ++
  unexpected_lines 1 (cr_unexpected_packets r) ++
  (if zl_eqb (cr_joined_response r) [] then []
   else [s! "  response preview: " ++ _preview (cr_joined_response r)]).

(** The last line. *)
Definition verdict_line (results : list CaptureResult) : pystr :=
  s! "live response-frame validation " ++
  (if forallb capture_ok results then s! "PASS" else s! "FAIL") ++ s! ": paths=" ++
  str_of_int (zlen results) ++ s! " frames=" ++
  str_of_int (sum ((λ r, zlen (cr_response_packets r)) <$> results)).
End Texts.

(** * Options *)

Definition DEFAULT_PATHS : list pystr := [s! "/datastore/uid"; s! "/datastore/host/mode"].
Definition DEFAULT_RESPONSE_TIMEOUT_MS : Z := 10000.
Definition DEFAULT_MAX_RESPONSE_READS : Z := 512.
Definition DEFAULT_MAX_IGNORED_PACKETS : Z := 32.
Definition DEFAULT_MAX_RESPONSE_FRAMES : Z := 256.

Record live_texts := {
  l_usb : usb_texts;
  l_etag : option pystr;
  l_max_bytes : option pystr;
  l_response_timeout : option pystr;
  l_max_reads : option pystr;
  l_max_ignored : option pystr;
  l_max_frames : option pystr;
  l_paths : list pystr;
  l_full : bool
}.

Record live_args := {
  la_config : DatastoreConfig;
  la_etag : pystr;
  la_capture : capture_cfg;
  la_paths : list pystr;
  la_full : bool
}.

(** What the types of the options make of the texts; [None] is an option that is
    refused. *)
Definition parse_live_args (t : live_texts) : option live_args :=
  let u := l_usb t in
  vid ← option_or int_base0 MOTU_VID (t_vid u);
  pid ← option_or int_base0 MOTU_AVB_PID (t_pid u);
  interface ← option_maybe int_base0 (t_interface u);
  ep_out ← option_maybe int_base0 (t_ep_out u);
  ep_in ← option_maybe int_base0 (t_ep_in u);
  timeout_ms ← option_or int10 DEFAULT_TIMEOUT_MS (t_timeout_ms u);
  seq_start ← option_or int_base0 DEFAULT_SEQ_START (t_seq_start u);
  message_seq ← option_or int10 DEFAULT_MESSAGE_SEQ (t_message_seq u);
  max_bytes ← option_or int10 (1024 * 1024) (l_max_bytes t);
  response_timeout ← option_or int10 DEFAULT_RESPONSE_TIMEOUT_MS (l_response_timeout t);
  max_reads ← option_or int10 DEFAULT_MAX_RESPONSE_READS (l_max_reads t);
  max_ignored ← option_or int10 DEFAULT_MAX_IGNORED_PACKETS (l_max_ignored t);
  max_frames ← option_or int10 DEFAULT_MAX_RESPONSE_FRAMES (l_max_frames t);
  Some {| la_config :=
            {| vid := vid; pid := pid; cfg_serial := t_serial u;
               cfg_overrides := {| o_interface := interface; o_ep_out := ep_out; o_ep_in := ep_in |};
               cfg_timeout_ms := timeout_ms; seq_start := seq_start; message_seq := message_seq;
               no_init := t_no_init u; cfg_debug := t_debug u;
               cfg_sysfs_root := default DEFAULT_SYSFS_ROOT (t_sysfs_root u);
               cfg_devfs_root := default DEFAULT_DEVFS_ROOT (t_devfs_root u) |};
          la_etag := match l_etag t with Some e => e | None => s! "0" end;
          la_capture := {| v_max_bytes := max_bytes; v_response_timeout_ms := response_timeout;
                           v_max_reads := max_reads; v_max_ignored_packets := max_ignored;
                           v_max_response_frames := max_frames |};
          la_paths := l_paths t; la_full := l_full t |}.

Definition live_options : list opt :=
  [(s! "--etag", text_option); (s! "--max-bytes", typed int10); (s! "--response-timeout-ms", typed int10);
   (s! "--max-reads", typed int10); (s! "--max-ignored-packets", typed int10);
   (s! "--max-response-frames", typed int10); (s! "--path", text_option);
   (s! "--include-full-datastore", Flag)].

Definition live_given (g : given_args) : live_texts :=
  {| l_usb := usb_given g; l_etag := value_of (s! "--etag") g;
     l_max_bytes := value_of (s! "--max-bytes") g;
     l_response_timeout := value_of (s! "--response-timeout-ms") g;
     l_max_reads := value_of (s! "--max-reads") g;
     l_max_ignored := value_of (s! "--max-ignored-packets") g;
     l_max_frames := value_of (s! "--max-response-frames") g;
     l_paths := values_of (s! "--path") g; l_full := flag_of (s! "--include-full-datastore") g |}.

(** [build_parser().parse_args()] *)
Definition parse_live_argv (argv : list pystr) : option live_args :=
  g ← tool_parse live_options argv; parse_live_args (live_given g).

(** [list(args.paths or DEFAULT_PATHS)], and the whole datastore once. *)
Definition validated_paths (a : live_args) : list pystr :=
  let paths := match la_paths a with [] => DEFAULT_PATHS | ps => ps end in
  if la_full a && negb (bool_decide (s! "/datastore" ∈ paths)) then paths ++ [s! "/datastore"]
  else paths.

(** * The command *)

Section Command.
Context `{Interpreter} `{UrlLib} {W : Type} `{UsbEnv W}.
Variable find_device : DatastoreConfig → M W unit.
Variable transport_enter : M W unit.
Variable transport_exit : M W unit.
Variable print_line : pystr → M W unit.

Fixpoint print_lines (lines : list pystr) : M W unit :=
  match lines with
  | [] => mret tt
  | l :: ls => _ ← print_line l; print_lines ls
  end.

(** The world's part of a computation with the client object. *)
Definition outside {A} (m : M W A) : M (St (W := W)) A := λ s,
  let '(r, w) := m s.2 in (r, (s.1, w)).

Fixpoint capture_all (a : live_args) (paths : list pystr) : M (St (W := W)) (list CaptureResult) :=
  match paths with
  | [] => mret []
  | path :: rest =>
      result ← capture_get (la_capture a) path (la_etag a);
      _ ← outside (print_lines (print_result result));
      results ← capture_all a rest;
      mret (result :: results)
  end.

(** The body of the [with] statement. *)
Definition validate_paths (a : live_args) : M W (list CaptureResult) := λ w,
  match MotuUsbDatastore_init (seq_start (la_config a)) (message_seq (la_config a)) with
  | Err e => (Err e, w)
  | Ok d =>
      let '(r, (_, w')) :=
        (_ ← (if no_init (la_config a) then mret tt else init);
         capture_all a (validated_paths a)) (d, w) in
      (r, w')
  end.

Definition main (a : live_args) : M W Z :=
  _ ← find_device (la_config a);
  _ ← transport_enter;
  results ← mfinally (validate_paths a) transport_exit;
  _ ← print_line (verdict_line results);
  mret (if forallb capture_ok results then 0 else 1).

(** The script; [None] is [argparse] ending it. *)
Definition live_program (argv : list pystr) : M W (option Z) :=
  match parse_live_argv argv with
  | None => mret None
  | Some a => code ← main a; mret (Some code)
  end.
End Command.

(** * The verdict *)

Section Verdict.
Context `{Interpreter} `{UrlLib} {W : Type} `{UsbEnv W}.
(** A transport delivers bytes. *)
Hypothesis reads_bytes : ∀ n t w b w', bulk_read n t w = (Ok b, w') → bytes_ok b.

Lemma bulk_read_bytes n t (s s' : St (W := W)) b :
  _bulk_read n t no_callbacks s = (Ok b, s') → bytes_ok b.
Proof.
  unfold _bulk_read, envR. cbn. destruct (bulk_read n t s.2) as [r w] eqn:E.
  intros [= -> _]. eauto.
Qed.

Lemma read_chunks_bytes fuel t e g (s s' : St (W := W)) acc n b :
  bytes_ok acc → read_chunks fuel t no_callbacks e g acc s = (Ok (n, b), s') → bytes_ok b.
Proof.
  revert g s acc. induction fuel as [|fuel IH]; intros g s acc Ha E; cbn [read_chunks] in E.
  { destruct (negb _); by injection E as _ <- _. }
  destruct (negb _); [by injection E as _ <- _|].
  apply M_bind_ok in E as (chunk & s1 & Ec & E). apply bulk_read_bytes in Ec.
  destruct (zl_eqb chunk []); [by injection E as _ <- _|].
  eapply IH; [|exact E]. by apply bytes_ok_app.
Qed.

Lemma logical_frame_bytes t (s s' : St (W := W)) b :
  _read_logical_frame t no_callbacks s = (Ok b, s') → bytes_ok b.
Proof.
  unfold _read_logical_frame. intros E. apply M_bind_ok in E as (first & s1 & Ef & E).
  apply bulk_read_bytes in Ef. destruct (zl_eqb first []); [injection E as <- _; constructor|].
  destruct (zlen first <? 4); [done|]. apply M_bind_ok in E as (expected & s2 & _ & E).
  destruct (expected <? 4); [done|]. apply M_bind_ok in E as ([got chunks] & s3 & Ec & E).
  destruct (got <? expected); [done|]. injection E as <- _. by eapply read_chunks_bytes.
Qed.

Lemma capture_packet_bytes g path packet k (s s' : St (W := W)) k' stop :
  bytes_ok packet → Forall bytes_ok (k_packets k) →
  capture_packet g path packet k s = (Ok (k', stop), s') → Forall bytes_ok (k_packets k').
Proof.
  intros Hp Hk E. unfold capture_packet in E. destruct (is_device_ack packet); [by injection E as <- _ _|].
  destruct (starts_with _ _ || _).
  - apply M_bind_ok in E as (q & s1 & _ & E). apply M_bind_ok in E as ([] & s2 & _ & E).
    do 2 (case_if_in E; [done|]). apply M_bind_ok in E as (f & s3 & _ & [= <- _ _]). cbn.
    apply Forall_app. split; [done|]. by constructor.
  - case_if_in E; [done|]. by injection E as <- _ _.
Qed.

Lemma capture_loop_bytes fuel g path deadline k (s s' : St (W := W)) k' :
  Forall bytes_ok (k_packets k) →
  capture_loop fuel g path deadline k s = (Ok k', s') → Forall bytes_ok (k_packets k').
Proof.
  revert k s. induction fuel as [|fuel IH]; intros k s Hk E; cbn [capture_loop] in E.
  { destruct (negb _); by injection E as <- _. }
  destruct (negb _); [by injection E as <- _|]. case_if_in E; [done|].
  apply M_bind_ok in E as (t & s1 & _ & E). case_if_in E; [done|].
  apply M_bind_ok in E as (packet & s2 & Ep & E). apply logical_frame_bytes in Ep.
  destruct (zl_eqb packet []); [by eapply IH; [|exact E]|].
  apply M_bind_ok in E as ([k1 stop] & s3 & Ek & E).
  apply capture_packet_bytes in Ek; [|done|done].
  destruct stop; [by injection E as <- _|]. by eapply IH; [|exact E].
Qed.

(** The verdict on a path: it passes exactly when the proxy's own parser accepts and
    joins what was captured, and shows the bytes the proxy would have returned. *)
Record judged (path : pystr) (r : CaptureResult) : Prop := {
  j_path : normalize_path path = Ok (cr_path r);
  j_ok : capture_ok r = true ↔
    cr_response_packets r ≠ [] ∧ cr_unexpected_packets r = [] ∧
    ∃ b, join_response_frames (cr_response_packets r) (cr_message_seq r) = Ok b;
  j_shown b : join_response_frames (cr_response_packets r) (cr_message_seq r) = Ok b →
    cr_joined_response r = b
}.

Lemma capture_get_judged g path tag (s s' : St (W := W)) r :
  capture_get g path tag s = (Ok r, s') → judged path r.
Proof.
  unfold capture_get. intros E. apply M_bind_ok in E as (p & s1 & [= Hp <-] & E).
  apply M_bind_ok in E as (q & s2 & _ & E). apply M_bind_ok in E as (mseq & s3 & _ & E).
  apply M_bind_ok in E as (frame & s4 & _ & E). apply M_bind_ok in E as ([] & s5 & _ & E).
  apply M_bind_ok in E as ([] & s6 & _ & E). apply M_bind_ok in E as (t & s7 & _ & E).
  apply M_bind_ok in E as (k & s8 & Ek & E). injection E as E _.
  apply capture_loop_bytes in Ek; [|constructor].
  destruct (assess_agrees p q mseq k Ek) as (r' & Er & Hok & Hj).
  rewrite Er in E. injection E as <-.
  unfold assess in Er. apply result_bind_ok in Er as (cs & _ & Er).
  apply result_bind_ok in Er as (bs & _ & [= <-]).
  constructor; [exact Hp | exact Hok | exact Hj].
Qed.

Lemma capture_all_judged print_line a paths (s s' : St (W := W)) rs :
  capture_all print_line a paths s = (Ok rs, s') → Forall2 judged paths rs.
Proof.
  revert s rs. induction paths as [|p ps IH]; intros s rs E; cbn [capture_all] in E.
  { injection E as <- _. constructor. }
  apply M_bind_ok in E as (r & s1 & Er & E). apply M_bind_ok in E as ([] & s2 & _ & E).
  apply M_bind_ok in E as (rs' & s3 & Ers & [= <- ->]). constructor; [|by eapply IH].
  by eapply capture_get_judged.
Qed.

(** The verdict of the live validator, for any device, transport and output: when it
    ends regularly there is a result for every path, in order; each passes exactly
    when the proxy's own parser accepts and joins the captured packets, and shows
    the bytes the proxy would have returned; the exit code is 0 exactly when all
    pass, else 1. *)
Theorem live_tool_verdict find_device enter exit print_line a (w w' : W) code :
  main find_device enter exit print_line a w = (Ok code, w') →
  ∃ rs, Forall2 judged (validated_paths a) rs ∧
        (code = 0 ∧ Forall (λ r, capture_ok r = true) rs ∨
         code = 1 ∧ Exists (λ r, capture_ok r = false) rs).
Proof.
  unfold main. intros E. apply M_bind_ok in E as ([] & w1 & _ & E).
  apply M_bind_ok in E as ([] & w2 & _ & E). apply M_bind_ok in E as (rs & w3 & Er & E).
  apply M_bind_ok in E as ([] & w4 & _ & [= <- _]). exists rs. split.
  - unfold mfinally in Er. destruct (validate_paths print_line a w2) as [r w5] eqn:Ev.
    destruct (exit w5) as [[u|e] w6]; [|done]. injection Er as -> <-.
    unfold validate_paths in Ev. destruct (MotuUsbDatastore_init _ _) as [d|e]; [|done].
    match type of Ev with context [let '(_, _) := ?m in _] => destruct m as [r' [d' w7]] eqn:Ec end.
    injection Ev as -> <-.
    apply M_bind_ok in Ec as ([] & s1 & _ & Ec). by eapply capture_all_judged.
  - destruct (forallb capture_ok rs) eqn:Ef; [left|right]; (split; [done|]).
    + apply List.Forall_forall. intros r Hr. by apply (proj1 (forallb_forall _ _) Ef).
    + clear Er. induction rs as [|r rs IH]; [done|]. cbn in Ef.
      destruct (capture_ok r) eqn:Er; [apply Exists_cons; right; auto | by constructor].
Qed.
End Verdict.

(** What the parser makes of arguments: repeated paths, an abbreviation, and a
    refused integer. *)
Example live_argv_samples :
  (λ a, (validated_paths a, la_etag a, v_max_reads (la_capture a))) <$>
    parse_live_argv [s! "--path"; s! "/a"; s! "--path=/b"; s! "--include"; s! "--max-re"; s! "7"; s! "--et=-1"]
  = None ∧
  (λ a, (validated_paths a, la_etag a, v_max_reads (la_capture a))) <$>
    parse_live_argv [s! "--path"; s! "/a"; s! "--path=/b"; s! "--include"; s! "--max-rea"; s! "7"; s! "--et=-1"]
  = Some ([s! "/a"; s! "/b"; s! "/datastore"], s! "-1", 7) ∧
  parse_live_argv [s! "--max-bytes"; s! "0x10"] = None.
Proof. vm_compute. repeat split. Qed.

(** ** An example *)

(** One path, a response of two segments, and one with a broken checksum. *)
Definition demo_live : live_args :=
  {| la_config := {| vid := MOTU_VID; pid := MOTU_AVB_PID; cfg_serial := None;
                     cfg_overrides := {| o_interface := None; o_ep_out := None; o_ep_in := None |};
                     cfg_timeout_ms := 600; seq_start := DEFAULT_SEQ_START;
                     message_seq := DEFAULT_MESSAGE_SEQ; no_init := true; cfg_debug := false;
                     cfg_sysfs_root := DEFAULT_SYSFS_ROOT; cfg_devfs_root := DEFAULT_DEVFS_ROOT |};
     la_etag := s! "0";
     la_capture := {| v_max_bytes := 1024; v_response_timeout_ms := 1000; v_max_reads := 8;
                      v_max_ignored_packets := 2; v_max_response_frames := 4 |};
     la_paths := [s! "/datastore/uid"]; la_full := false |}.

Definition demo_device (packets : list bytes) : script :=
  {| sc_clock := 0; sc_in := packets; sc_out := [] |}.
Definition break_packet (p : bytes) : bytes := <[8%nat := 7]> p.

(** The scripted device, delivering bytes whatever is in the script. *)
Definition byte_read (w : script) : result bytes * script :=
  match script_read w with
  | (Ok b, w') => (Ok (List.map (λ x, x mod 256) b), w')
  | (Err e, w') => (Err e, w')
  end.
Definition byte_env : UsbEnv script := {|
  monotonic := λ w, (sc_clock w, w);
  bulk_write := script_write;
  bulk_read := λ _ _, byte_read;
  supports_cancellable_bulk_reads := true;
  begin_cancellable_bulk_read := λ _ _ w, (Ok tt, w);
  cancellable_read := byte_read;
  max_packet_size := 512
|}.

Lemma byte_env_reads n t w b w' : bulk_read (UsbEnv := byte_env) n t w = (Ok b, w') → bytes_ok b.
Proof.
  cbn. unfold byte_read. destruct (script_read w) as [[x|e] w1]; cbn; [|done].
  intros [= <- _]. apply List.Forall_map, Forall_true. intros y. unfold is_byte.
  apply Z.mod_pos_bound. lia.
Qed.

Definition demo_main (w : script) : result Z * script :=
  main (H := demo_python) (H0 := any_netloc) (H1 := byte_env) (λ _ w, (Ok tt, w)) (λ w, (Ok tt, w))
    (λ w, (Ok tt, w)) (λ _ w, (Ok tt, w)) demo_live w.

Lemma live_tool_verdict_witness :
  (demo_main (demo_device (break_packet <$> demo_packets))).1 = Ok 1 ∧
  ∃ w', demo_main (demo_device demo_packets) = (Ok 0, w') ∧
    ∃ r, judged (H0 := any_netloc) (s! "/datastore/uid") r ∧ capture_ok r = true.
Proof.
  split; [vm_compute; reflexivity|].
  assert (∃ w', demo_main (demo_device demo_packets) = (Ok 0, w')) as [w' E]
    by (eexists; vm_compute; reflexivity).
  exists w'. split; [exact E|].
  destruct (live_tool_verdict (H := demo_python) (H0 := any_netloc) (H1 := byte_env) byte_env_reads
              _ _ _ _ demo_live _ _ _ E) as (rs & Hj & Hc).
  change (validated_paths demo_live) with [s! "/datastore/uid"] in Hj.
  inversion Hj as [|p r ps rs' Hr Hn]; subst. inversion Hn; subst. exists r. split; [exact Hr|].
  destruct Hc as [[_ Hc] | [Hc _]]; [|discriminate Hc]. inversion Hc; subst. assumption.
Defined.
