(* ===== verification/Recorder.v ===== *)
(** The recording transport of tools/live_validate_foreground_preemption.py (class
    [RecordingTransport]): a wrapper around any transport that notes every frame
    given to [bulk_write] with its time.

    The wrapper is itself a transport ([recording] is a [UsbEnv]) with a log
    ([recorder_log] is a [UsbLog], WireLog.v), so everything proved of the proxy over
    a logged transport holds with it around any other.  [recorder_transparent]: the
    USB client cannot tell it from the transport it wraps, and it notes exactly the
    frames that were written, in order. *)
From S2P Require Import Prelude PyText Protocol Parser Usb Managed Coordinator Walk WireLog.

Record WriteEvent := {
  timestamp : Z;
  data : bytes
}.

Record RecordingTransport (W : Type) := {
  wrapped : W;
  _writes : list WriteEvent
}.
Arguments wrapped {_} _.
Arguments _writes {_} _.

Section Recorder.
Context {W : Type} `{UsbEnv W}.

(** [RecordingTransport.__init__] *)
Definition RecordingTransport_init (w : W) : RecordingTransport W :=
  {| wrapped := w; _writes := [] |}.

Definition rec_bulk_write (frame : bytes) (r : RecordingTransport W)
    : result Z * RecordingTransport W :=
  match bulk_write frame (wrapped r) with
  | (Ok written, w) =>
      let '(now, w) := monotonic w in
      (Ok written, {| wrapped := w; _writes := _writes r ++ [{| timestamp := now; data := frame |}] |})
  | (Err e, w) => (Err e, {| wrapped := w; _writes := _writes r |})
  end.

(** The other operations go to the wrapped transport. *)
Definition through {A} (f : W → A * W) (r : RecordingTransport W) : A * RecordingTransport W :=
  let '(a, w) := f (wrapped r) in (a, {| wrapped := w; _writes := _writes r |}).

(** The wrapper always has a [begin_cancellable_bulk_read]. *)
#[export] Instance recording : UsbEnv (RecordingTransport W) := {
  monotonic := through monotonic;
  bulk_write := rec_bulk_write;
  bulk_read := λ n t, through (bulk_read n t);
  supports_cancellable_bulk_reads := true;
  begin_cancellable_bulk_read := λ n t, through (begin_cancellable_bulk_read n t);
  cancellable_read := through cancellable_read;
  max_packet_size := max_packet_size
}.

Lemma through_writes {A} (f : W → A * W) r : _writes (through f r).2 = _writes r.
Proof. unfold through. by destruct (f (wrapped r)). Qed.

(** The frames it noted. *)
#[export] Instance recorder_log : UsbLog (RecordingTransport W).
Proof.
  refine {| sent := λ r, data <$> _writes r |}; cbn; intros; rewrite ?through_writes; try done.
  unfold rec_bulk_write. destruct (bulk_write f (wrapped w)) as [[n|e] w1]; [left|by right].
  destruct (monotonic w1). cbn. by rewrite fmap_app.
Defined.
End Recorder.

(** * Two transports, one behaviour *)

(** Runs of the client over two transports whose worlds correspond: the same
    outcome and object, and worlds that correspond again. *)
Section Simulation.
Context {W1 W2 : Type} `{UsbEnv W1} `{UsbEnv W2} (R : W1 → W2 → Prop).

(** Two results with their worlds. *)
Definition matched {A} (x : A * W1) (y : A * W2) : Prop := x.1 = y.1 ∧ R x.2 y.2.

Record usb_simulates : Prop := {
  us_monotonic w v : R w v → matched (monotonic w) (monotonic v);
  us_write f w v : R w v → matched (bulk_write f w) (bulk_write f v);
  us_read n t w v : R w v → matched (bulk_read n t w) (bulk_read n t v);
  us_begin n t w v : R w v →
    matched (begin_cancellable_bulk_read n t w) (begin_cancellable_bulk_read n t v);
  us_cancellable w v : R w v → matched (cancellable_read w) (cancellable_read v);
  us_chunk : max_packet_size (UsbEnv := H) = max_packet_size (UsbEnv := H0)
}.
Hypothesis HS : usb_simulates.

(** Callbacks that act alike on corresponding worlds.  Cancellable reads are only
    asked for where the two transports agree on having them. *)
Record same_callbacks (cb1 : callbacks (W := W1)) (cb2 : callbacks (W := W2)) : Prop := {
  sc_cancel : match should_cancel cb1, should_cancel cb2 with
              | Some f, Some g => ∀ w v, R w v → matched (f w) (g v)
              | None, None => True
              | _, _ => False
              end;
  sc_slice : read_timeout_slice_ms cb1 = read_timeout_slice_ms cb2;
  sc_use : use_cancellable_read cb1 = use_cancellable_read cb2;
  sc_started : match read_started cb1, read_started cb2 with
               | Some f, Some g => ∀ b w v, R w v → R (f b w) (g b v)
               | None, None => True
               | _, _ => False
               end;
  sc_supported : use_cancellable_read cb2 = true →
    supports_cancellable_bulk_reads (UsbEnv := H) = supports_cancellable_bulk_reads (UsbEnv := H0)
}.

Lemma same_no_callbacks : same_callbacks no_callbacks no_callbacks.
Proof. by constructor. Qed.

Definition sim {A} (m : M (St (W := W1)) A) (n : M (St (W := W2)) A) : Prop :=
  ∀ d w v, R w v →
  (m (d, w)).1 = (n (d, v)).1 ∧ (m (d, w)).2.1 = (n (d, v)).2.1 ∧ R (m (d, w)).2.2 (n (d, v)).2.2.

Lemma sim_ret {A} (a : A) : sim (mret a) (mret a).
Proof. by intros d w v Hr. Qed.
Lemma sim_raise {A} e : sim (A := A) (mraise e) (mraise e).
Proof. by intros d w v Hr. Qed.
Lemma sim_lift {A} (r : result A) : sim (mlift r) (mlift r).
Proof. by intros d w v Hr. Qed.
Lemma sim_obj f : sim (obj f) (obj f).
Proof. by intros d w v Hr. Qed.
Lemma sim_this {A} (f : datastore → A) : sim (this f) (this f).
Proof. by intros d w v Hr. Qed.
Lemma sim_seq : sim _next_host_seq _next_host_seq.
Proof. by intros d w v Hr. Qed.
Lemma sim_clock : sim (env monotonic) (env monotonic).
Proof.
  intros d w v Hr. destruct (us_monotonic HS w v Hr) as [E1 E2]. unfold env. cbn.
  destruct (monotonic w), (monotonic v). cbn in *. by rewrite E1.
Qed.
Lemma sim_envR {A} (f : W1 → result A * W1) (g : W2 → result A * W2) :
  (∀ w v, R w v → matched (f w) (g v)) → sim (envR f) (envR g).
Proof.
  intros Hf d w v Hr. destruct (Hf w v Hr) as [E1 E2]. unfold envR. cbn.
  by destruct (f w), (g v).
Qed.
Lemma sim_bind {A B} (m : M (St (W := W1)) A) n (f : A → M (St (W := W1)) B) g :
  sim m n → (∀ a, sim (f a) (g a)) → sim (m ≫= f) (n ≫= g).
Proof.
  intros Hm Hf d w v Hr. unfold mbind, M_bind. destruct (Hm d w v Hr) as (E1 & E2 & E3).
  destruct (m (d, w)) as [r1 [d1 w1]], (n (d, v)) as [r2 [d2 v1]]. cbn in *. subst.
  destruct r2 as [a|e]; [|done]. by apply Hf.
Qed.
Lemma sim_catch {A} (m : M (St (W := W1)) A) n h k :
  sim m n → (∀ e, sim (h e) (k e)) → sim (mcatch m h) (mcatch n k).
Proof.
  intros Hm Hh d w v Hr. unfold mcatch. destruct (Hm d w v Hr) as (E1 & E2 & E3).
  destruct (m (d, w)) as [r1 [d1 w1]], (n (d, v)) as [r2 [d2 v1]]. cbn in *. subst.
  destruct r2 as [a|e]; [done|]. by apply Hh.
Qed.

Lemma sim_finally {A} (m : M (St (W := W1)) A) n f g :
  sim m n → sim f g → sim (mfinally m f) (mfinally n g).
Proof.
  intros Hm Hf d w v Hr. unfold mfinally. destruct (Hm d w v Hr) as (E1 & E2 & E3).
  destruct (m (d, w)) as [r1 [d1 w1]], (n (d, v)) as [r2 [d2 v1]]. cbn in *. subst.
  destruct (Hf d2 w1 v1 E3) as (E1 & E2 & E4).
  destruct (f (d2, w1)) as [r3 [d3 w3]], (g (d2, v1)) as [r4 [d4 v4]]. cbn in *. subst.
  by destruct r4.
Qed.
Lemma sim_env {A} (f : W1 → A * W1) (g : W2 → A * W2) :
  (∀ w v, R w v → matched (f w) (g v)) → sim (env f) (env g).
Proof.
  intros Hf d w v Hr. destruct (Hf w v Hr) as [E1 E2]. unfold env. cbn.
  destruct (f w), (g v). cbn in *. by rewrite E1.
Qed.

#[local] Hint Resolve sim_ret sim_raise sim_lift sim_obj sim_this sim_seq sim_clock us_read us_write
  : walk.

#[local] Ltac both :=
  repeat first
    [ solve [eauto with walk]
    | apply sim_bind; [|intros ?]
    | apply sim_catch; [|intros ?]
    | match goal with
      | |- sim (if ?b then _ else _) _ => destruct b
      | |- sim (match ?x with _ => _ end) _ => destruct x
      end ].

Lemma sim_write f : sim (_write_frame f) (_write_frame f).
Proof. unfold _write_frame. apply sim_bind; [apply sim_envR, (us_write HS)|intros n]. both. Qed.
Lemma sim_max_chunk : max_chunk (W := W1) = max_chunk (W := W2).
Proof. unfold max_chunk. by rewrite (us_chunk HS). Qed.
Lemma sim_stats k c : sim (_record_response_stats k c) (_record_response_stats k c).
Proof. unfold _record_response_stats. both. Qed.
#[local] Hint Resolve sim_write sim_stats : walk.
Lemma sim_fail {A} k c e : sim (fail (A := A) k c e) (fail k c e).
Proof. unfold fail. both. Qed.
Lemma sim_ack : sim ack ack.
Proof. unfold ack. both. Qed.
#[local] Hint Resolve sim_fail sim_ack : walk.
Lemma sim_handle k c p : sim (handle_packet k c p) (handle_packet k c p).
Proof. unfold handle_packet, stale_packet, current_packet, check_ignored. cbv zeta. both. Qed.
#[local] Hint Resolve sim_handle : walk.
Lemma sim_finish k c : sim (finish k c) (finish k c).
Proof. unfold finish. both. Qed.
#[local] Hint Resolve sim_finish : walk.

Section Called.
Context cb1 cb2 (Hcb : same_callbacks cb1 cb2).

Lemma sim_notify b : sim (notify cb1 b) (notify cb2 b).
Proof.
  unfold notify. pose proof (sc_started _ _ Hcb) as Hs.
  destruct (read_started cb1) as [f|], (read_started cb2) as [g|]; try done.
  apply sim_env. intros w v Hr. split; [done|]. by apply Hs.
Qed.
Lemma sim_bulk_read n t : sim (_bulk_read n t cb1) (_bulk_read n t cb2).
Proof.
  unfold _bulk_read. rewrite (sc_use _ _ Hcb). pose proof (sc_supported _ _ Hcb) as Hsup.
  destruct (use_cancellable_read cb2); cbn [negb]; [|apply sim_envR, (us_read HS)].
  rewrite (Hsup eq_refl).
  destruct (supports_cancellable_bulk_reads (W := W2)); cbn [negb]; [|apply sim_raise].
  apply sim_bind; [apply sim_envR, (us_begin HS)|intros _].
  apply sim_bind; [apply sim_notify|intros _]. apply sim_finally; [|apply sim_notify].
  apply sim_catch; [apply sim_envR, (us_cancellable HS)|]. intros e. both.
Qed.
#[local] Hint Resolve sim_bulk_read : walk.
Lemma sim_chunks fuel t e g b : sim (read_chunks fuel t cb1 e g b) (read_chunks fuel t cb2 e g b).
Proof.
  revert g b. induction fuel as [|fuel IH]; intros g b; simpl; rewrite ?sim_max_chunk; both.
Qed.
#[local] Hint Resolve sim_chunks : walk.
Lemma sim_frame t : sim (_read_logical_frame t cb1) (_read_logical_frame t cb2).
Proof. unfold _read_logical_frame. rewrite sim_max_chunk. both. Qed.
#[local] Hint Resolve sim_frame : walk.
Lemma sim_cancelled :
  sim (match should_cancel cb1 with Some f => env f | None => mret false end)
      (match should_cancel cb2 with Some f => env f | None => mret false end).
Proof.
  pose proof (sc_cancel _ _ Hcb) as Hs.
  destruct (should_cancel cb1), (should_cancel cb2); try done; by apply sim_env.
Qed.
Lemma sim_round k c : sim (collect_round k cb1 c) (collect_round k cb2 c).
Proof.
  unfold collect_round. rewrite (sc_slice _ _ Hcb). cbv zeta.
  apply sim_bind; [apply sim_cancelled|intros b]. both.
Qed.
#[local] Hint Resolve sim_round : walk.
Lemma sim_loop fuel k c : sim (collect_loop fuel k cb1 c) (collect_loop fuel k cb2 c).
Proof. revert c. induction fuel as [|fuel IH]; intros c; simpl; both. Qed.
#[local] Hint Resolve sim_loop : walk.
Lemma sim_collect m t : sim (_collect_response m t cb1) (_collect_response m t cb2).
Proof. unfold _collect_response, _collect_response_with. cbv zeta. both. Qed.
#[local] Hint Resolve sim_collect : walk.
Lemma sim_get p e c t f : sim (Usb.get p e c t cb1 f) (Usb.get p e c t cb2 f).
Proof. unfold Usb.get, _advance_message_seq. both. Qed.
End Called.

#[local] Hint Resolve sim_frame sim_collect same_no_callbacks : walk.
Lemma sim_drain fuel n t m q r ps : sim (drain_loop fuel n t m q r ps) (drain_loop fuel n t m q r ps).
Proof. revert q r ps. induction fuel as [|fuel IH]; intros q r ps; simpl; both. Qed.
#[local] Hint Resolve sim_drain : walk.
Lemma sim_init : sim init init.
Proof. unfold init, _drain_quiet. both. Qed.
Lemma sim_post p j c t : sim (Usb.post p j c t) (Usb.post p j c t).
Proof. unfold Usb.post, _advance_message_seq. both. Qed.
End Simulation.

(** * The wrapper changes nothing *)

Section Transparent.
Context {W : Type} `{UsbLog W}.
(** Reading the clock has no effect, and the transport's own log has the frames
    that were written and no other. *)
Hypothesis clock_pure : ∀ w, (monotonic w).2 = w.
Hypothesis log_written : ∀ f w,
  sent (bulk_write f w).2 = if is_ok (bulk_write f w).1 then sent w ++ [f] else sent w.

(** The wrapper around a transport whose log began with [before]. *)
Definition records (before : list bytes) (r : RecordingTransport W) (w : W) : Prop :=
  wrapped r = w ∧ sent w = before ++ (data <$> _writes r).

Lemma through_matched before {A} (f : W → A * W) r w :
  records before r w → (∀ w, sent (f w).2 = sent w) →
  matched (records before) (through f r) (f w).
Proof.
  intros [<- Hs] Hf. unfold through, matched, records. specialize (Hf (wrapped r)).
  destruct (f (wrapped r)) as [a w]. cbn in *. by rewrite Hf.
Qed.

Lemma recorder_simulates before : usb_simulates (records before).
Proof.
  split; cbn.
  - intros r w Hr. apply through_matched; [done|apply sent_monotonic].
  - intros f r w [<- Hs]. unfold rec_bulk_write, matched, records. pose proof (log_written f (wrapped r)) as Hl.
    destruct (bulk_write f (wrapped r)) as [[n|e] w1]; cbn in *; [|by rewrite Hl].
    pose proof (clock_pure w1) as Hc. destruct (monotonic w1) as [now w2]. cbn in *. subst w2.
    rewrite fmap_app. cbn. by rewrite Hl, Hs, app_assoc.
  - intros n t r w Hr. apply through_matched; [done|apply sent_read].
  - intros n t r w Hr. apply through_matched; [done|apply sent_begin].
  - intros r w Hr. apply through_matched; [done|apply sent_cancellable].
  - done.
Qed.

(** C37. The recorder is transparent: over it, opening, reading and writing give the
    same results, leave the same client object and the wrapped transport in the
    same state as without it, and what it noted is exactly the frames that the
    transport wrote meanwhile, in order.  A read may have any callbacks that act
    alike with and without the recorder, and may use cancellable reads, the way
    the poller does, when the wrapped transport has them. *)
Theorem recorder_transparent before :
  sim (records before) init init ∧
  (∀ path etag client t fields cb cb',
     same_callbacks (records before) cb cb' →
     sim (records before) (Usb.get path etag client t cb fields)
                          (Usb.get path etag client t cb' fields)) ∧
  (∀ path json client t,
     sim (records before) (Usb.post path json client t) (Usb.post path json client t)).
Proof.
  pose proof (recorder_simulates before) as HS.
  split; [by apply sim_init|]. split; intros; [by apply sim_get|by apply sim_post].
Qed.

(** Callbacks of the wrapped transport's world, run through the recorder. *)
Definition through_callbacks (cb : callbacks (W := W)) : callbacks (W := RecordingTransport W) :=
  {| should_cancel := through <$> should_cancel cb;
     read_timeout_slice_ms := read_timeout_slice_ms cb;
     use_cancellable_read := use_cancellable_read cb;
     read_started := (λ f b r, {| wrapped := f b (wrapped r); _writes := _writes r |})
                       <$> read_started cb |}.

(** They act alike when they leave the log alone. *)
Lemma through_callbacks_same before cb :
  (∀ f w, should_cancel cb = Some f → sent (f w).2 = sent w) →
  (∀ f b w, read_started cb = Some f → sent (f b w) = sent w) →
  (use_cancellable_read cb = true → supports_cancellable_bulk_reads (W := W) = true) →
  same_callbacks (records before) (through_callbacks cb) cb.
Proof.
  intros Hc Hs Hu. split; try done; cbn.
  - destruct (should_cancel cb) as [f|]; cbn; [|done]. intros r w Hr.
    apply through_matched; [done|]. intros. by apply Hc.
  - destruct (read_started cb) as [f|]; cbn; [|done]. intros b r w [<- E]. split; [done|].
    cbn. by rewrite Hs.
  - intros Hb. symmetry. by apply Hu.
Qed.
End Transparent.

(** The poller's callbacks at the scripted device: cancellable reads in slices. *)
Definition script_callbacks : callbacks (W := script) :=
  {| should_cancel := Some (λ w, (false, w)); read_timeout_slice_ms := Some 100;
     use_cancellable_read := true; read_started := Some (λ _ w, w) |}.

(** The recorder around the scripted device: its GET with cancellable reads,
    acknowledgements included. *)
Lemma recorder_transparent_witness :
  let run := Usb.get (s! "/datastore") (s! "0") None 1200 (through_callbacks script_callbacks) None
               (d0, RecordingTransport_init sample_script) in
  is_ok run.1 = true ∧ length (_writes run.2.2) = 3%nat ∧
  sc_out (wrapped run.2.2) = data <$> _writes run.2.2.
Proof.
  intros run. split; [vm_compute; reflexivity|]. split; [vm_compute; reflexivity|].
  destruct (recorder_transparent (H0 := script_log) (λ _, eq_refl) (λ _ _, eq_refl) [])
    as (_ & Hg & _).
  assert (same_callbacks (records (H0 := script_log) [])
            (through_callbacks script_callbacks) script_callbacks) as Hc.
  { apply through_callbacks_same; [by intros f w [= <-]|by intros f b w [= <-]|done]. }
  destruct (Hg (s! "/datastore") (s! "0") None 1200 None _ _ Hc d0
              (RecordingTransport_init sample_script)
              sample_script (conj eq_refl eq_refl)) as (_ & _ & Hw & Hs).
  fold run in Hw, Hs. rewrite Hw. exact Hs.
Defined.
