(* ===== verification/Preempt.v ===== *)
(** The live validator of foreground preemption
    (tools/live_validate_foreground_preemption.py): while the poller of the
    coordinator holds a native long poll, a foreground read, or a write of the value
    that is there, must get to the wire and be answered.

    The threads, the two condition variables and the coordinator are the environment
    [PreemptEnv]: other threads run whenever the tool waits, reads the clock or
    joins.  [PreemptLaws] says what any of its operations may do to the world: time
    goes on, frames that were noted stay noted, each with a time the clock has shown,
    and only the tool prints, opens and closes the transport and starts and closes
    the coordinator.  Times are integer
    microseconds, so [dispatch_ms] is counted in them. *)
From S2P Require Import Prelude PyText Protocol Parser Usb Managed Coordinator Walk WireLog Recorder.
From S2P Require Import Paths Device Json Schema JsonText IpAddr Http Report Urb Usbfs CliArgs Token Cli Argv.

(** * Environment *)

Class PreemptEnv (W : Type) := {
  (** [time.monotonic()] *)
  tool_time : W → Z * W;
  (** The recorder's list of writes, and waiting on its condition. *)
  noted : W → list WriteEvent;
  noted_wait : Z → W → W;
  (** [coordinator._active_poll_read is not None], and waiting on the condition. *)
  poll_held : W → bool;
  held_wait : Z → W → W;
  (** [coordinator.read(path)] in the tool's own thread. *)
  tool_read : pystr → M W DatastorePayload;
  (** A thread that reads or writes, its two lists, and joining it with a timeout:
      whether it is still alive. *)
  spawn_read : pystr → W → W;
  spawn_post : pystr → bytes → W → W;
  join_thread : Z → W → bool * W;
  thread_results : W → list DatastorePayload;
  thread_errors : W → list exn;
  (** Discovery, the transport's context, [datastore.init] and the coordinator. *)
  tool_find : DatastoreConfig → M W unit;
  tool_enter : M W unit;
  tool_exit : M W unit;
  tool_init : M W unit;
  tool_available : W → bool;
  tool_start : M W unit;
  tool_close : Z → M W unit;
  tool_print : pystr → M W unit
}.

(** * Operations *)

Section Tool.
Context `{Interpreter} {W : Type} `{PreemptEnv W}.
(** Milliseconds with one decimal. *)
Variable ms_text : Z → pystr.

Definition now : M W Z := λ w, let '(t, w') := tool_time w in (Ok t, w').

(** The loop of [wait_for_write]; [None] is running out of fuel. *)
Fixpoint write_loop (fuel : nat) (predicate : WriteEvent → bool) (deadline : Z)
    : M W (option (option WriteEvent)) :=
  match fuel with
  | O => mret None
  | S fuel =>
      w ← mget;
      match List.find predicate (noted w) with
      | Some event => mret (Some (Some event))
      | None =>
          t ← now;
          let remaining := deadline - t in
          if remaining <=? 0 then mret (Some None) else
          _ ← mputs (noted_wait remaining);
          write_loop fuel predicate deadline
      end
  end.

(** At most one pass for each microsecond of the timeout, and one more. *)
Definition passes_within (timeout : Z) : nat := S (S (Z.to_nat timeout)).

Definition wait_for_write (predicate : WriteEvent → bool) (timeout : Z)
    : M W (option WriteEvent) :=
  t ← now;
  o ← write_loop (passes_within timeout) predicate (t + timeout);
  match o with Some r => mret r | None => mraise AssertionError end.

Fixpoint active_loop (fuel : nat) (deadline : Z) : M W (option bool) :=
  match fuel with
  | O => mret None
  | S fuel =>
      w ← mget;
      if poll_held w then mret (Some true) else
      t ← now;
      let remaining := deadline - t in
      if remaining <=? 0 then mret (Some false) else
      _ ← mputs (held_wait remaining);
      active_loop fuel deadline
  end.

Definition wait_for_active_poll (timeout : Z) : M W bool :=
  t ← now;
  o ← active_loop (passes_within timeout) (t + timeout);
  match o with Some r => mret r | None => mraise AssertionError end.

Definition payload_value (payload : DatastorePayload) : result json :=
  let body := bytes_strip (body payload) in
  if zl_eqb body [] then Ok JNull else
  text ← utf8_decode body;
  decoded ← json_loads true json_depth text;
  Ok (unwrap_value decoded).

Definition UID_PATH : pystr := s! "/datastore/uid".
Definition HOST_OS_PATH : pystr := s! "/datastore/host/os".

Definition tool_error {A} (what text : pystr) : M W A :=
  mraise (RuntimeError (what ++ s! ": " ++ text)).

(** [if not wait_for_active_poll(coordinator, timeout_s=5): raise RuntimeError(...)] *)
Definition expect_poll (what text : pystr) : M W unit :=
  held ← wait_for_active_poll 5000000;
  if negb held then tool_error what text else mret tt.

(** [lambda item: item.timestamp >= started and path in item.data] *)
Definition dispatched (started : Z) (path : pystr) (item : WriteEvent) : bool :=
  (started <=? timestamp item) && contains path (data item).

(** From the start of the thread to its end: when the frame was dispatched, after
    how long, and that the thread ended without an exception. *)
Definition dispatch_and_join (what : pystr) (kind path : pystr) (budget_ms join_timeout : Z)
    (spawn : W → W) : M W Z :=
  started ← now;
  _ ← mputs spawn;
  event ← wait_for_write (dispatched started path) (Z.max 1000000 (budget_ms * 1000));
  match event with
  | None => tool_error what (s! "foreground " ++ kind ++ s! " was not dispatched within "
                               ++ str_of_int budget_ms ++ s! " ms")
  | Some event =>
      let dispatch := timestamp event - started in
      alive ← (λ w, let '(b, w') := join_thread join_timeout w in (Ok b, w'));
      if (alive : bool) then tool_error what (s! "foreground " ++ kind ++ s! " did not complete") else
      w ← mget;
      match thread_errors w with
      | e :: _ => tool_error what (s! "foreground " ++ kind ++ s! " failed: " ++ exn_text e)
      | [] => mret dispatch
      end
  end.

Definition validate_foreground_read (serial : option pystr) (budget_ms cycle : Z) : M W Z :=
  let what := s! "cycle " ++ str_of_int cycle in
  _ ← expect_poll what (s! "background poller did not enter an active native hold");
  dispatch ← dispatch_and_join what (s! "read") UID_PATH budget_ms 5000000 (spawn_read UID_PATH);
  w ← mget;
  match thread_results w with
  | [] => mraise AssertionError (** [results[0]]: a thread without an error has one. *)
  | result :: _ =>
      value ← mlift (payload_value result);
      _ ← match serial with
          | Some wanted =>
              match value with
              | JStr got => if zl_eqb got wanted then mret tt else
                  tool_error what (UID_PATH ++ s! " returned " ++ py_repr value
                                   ++ s! ", expected " ++ py_repr (JStr wanted))
              | _ => tool_error what (UID_PATH ++ s! " returned " ++ py_repr value
                                   ++ s! ", expected " ++ py_repr (JStr wanted))
              end
          | None => mret tt
          end;
      _ ← expect_poll what (s! "background poller did not resume after foreground read");
      mret dispatch
  end.

(** [json.dumps] of the object with this value, with the separators without spaces.
    The text is ASCII, so it is also its encoding. *)
Definition value_body (value : json) : pystr :=
  json_dumps Compact false (JObj [(s! "value", value)]).

Definition validate_idempotent_write (budget_ms : Z) : M W (pystr * Z) :=
  let what := s! "write" in
  current ← tool_read HOST_OS_PATH;
  value ← mlift (payload_value current);
  let body := value_body value in
  _ ← expect_poll what (s! "background poller did not enter an active native hold");
  dispatch ← dispatch_and_join what (s! "write") HOST_OS_PATH budget_ms 10000000
               (spawn_post HOST_OS_PATH body);
  w ← mget;
  match thread_results w with
  | [] => tool_error what (s! "no response captured")
  | _ :: _ =>
      _ ← expect_poll what (s! "background poller did not resume after foreground write");
      mret (body, dispatch)
  end.

(** * The command *)

Record tool_args := {
  p_config : DatastoreConfig;
  p_cycles : Z;
  p_budget_ms : Z;
  p_include_write : bool
}.

Definition DEFAULT_FOREGROUND_PREEMPTION_BUDGET_MS : Z := 500.

(** The texts of the options of [build_parser] beyond those of the transport. *)
Record tool_texts := {
  t_usb : usb_texts;
  t_cycles : option pystr;
  t_budget : option pystr;
  t_include_write : bool
}.

(** What the types of the options make of the texts, and the [DatastoreConfig] of
    [main]; [None] is an option that is refused. *)
Definition parse_tool_args (t : tool_texts) : option tool_args :=
  let u := t_usb t in
  vid ← option_or int_base0 MOTU_VID (t_vid u);
  pid ← option_or int_base0 MOTU_AVB_PID (t_pid u);
  interface ← option_maybe int_base0 (t_interface u);
  ep_out ← option_maybe int_base0 (t_ep_out u);
  ep_in ← option_maybe int_base0 (t_ep_in u);
  timeout_ms ← option_or int10 600 (t_timeout_ms u);
  seq_start ← option_or int_base0 DEFAULT_SEQ_START (t_seq_start u);
  message_seq ← option_or int10 DEFAULT_MESSAGE_SEQ (t_message_seq u);
  cycles ← option_or int10 3 (t_cycles t);
  budget ← option_or int10 DEFAULT_FOREGROUND_PREEMPTION_BUDGET_MS (t_budget t);
  Some {| p_config :=
            {| vid := vid; pid := pid; cfg_serial := t_serial u;
               cfg_overrides := {| o_interface := interface; o_ep_out := ep_out; o_ep_in := ep_in |};
               cfg_timeout_ms := timeout_ms; seq_start := seq_start; message_seq := message_seq;
               no_init := t_no_init u; cfg_debug := t_debug u;
               cfg_sysfs_root := default DEFAULT_SYSFS_ROOT (t_sysfs_root u);
               cfg_devfs_root := default DEFAULT_DEVFS_ROOT (t_devfs_root u) |};
          p_cycles := cycles; p_budget_ms := budget; p_include_write := t_include_write t |}.

Definition preempt_options : list opt :=
  [(s! "--cycles", typed int10); (s! "--preemption-budget-ms", typed int10);
   (s! "--include-idempotent-write", Flag)].

(** [build_parser().parse_args(argv)] *)
Definition parse_tool_argv (argv : list pystr) : option tool_args :=
  g ← tool_parse preempt_options argv;
  parse_tool_args {| t_usb := usb_given g; t_cycles := value_of (s! "--cycles") g;
                     t_budget := value_of (s! "--preemption-budget-ms") g;
                     t_include_write := flag_of (s! "--include-idempotent-write") g |}.

(** [for cycle in range(first, ...)], [n] times. *)
Fixpoint read_cycles (serial : option pystr) (budget_ms : Z) (n : nat) (first : Z) : M W (list Z) :=
  match n with
  | O => mret []
  | S n =>
      t ← validate_foreground_read serial budget_ms first;
      ts ← read_cycles serial budget_ms n (first + 1);
      mret (t :: ts)
  end.

Definition option_text (o : option pystr) : pystr :=
  match o with Some s => s | None => s! "None" end.

Definition read_pass_line (a : tool_args) (longest : Z) : pystr :=
  s! "PASS: read_cycles=" ++ str_of_int (p_cycles a) ++ s! " max_read_dispatch_ms="
    ++ ms_text longest ++ s! " budget_ms=" ++ str_of_int (p_budget_ms a).
Definition write_pass_line (a : tool_args) (body : pystr) (dispatch : Z) : pystr :=
  s! "PASS: idempotent_write_path=/datastore/host/os body=" ++ body ++ s! " write_dispatch_ms="
    ++ ms_text dispatch ++ s! " budget_ms=" ++ str_of_int (p_budget_ms a).

(** The body of the inner [try]; [max] of an empty list raises. *)
Definition run_validations (a : tool_args) : M W unit :=
  dispatches ← read_cycles (cfg_serial (p_config a)) (p_budget_ms a) (Z.to_nat (p_cycles a)) 1;
  written ← (if p_include_write a
             then r ← validate_idempotent_write (p_budget_ms a); mret (Some r)
             else mret None);
  _ ← match dispatches with
      | [] => mraise ValueError
      | d :: ds => tool_print (read_pass_line a (foldl Z.max d ds))
      end;
  match written with
  | Some (body, dispatch) => tool_print (write_pass_line a body dispatch)
  | None => mret tt
  end.

Definition with_transport (a : tool_args) : M W Z :=
  let config := p_config a in
  _ ← mlift (MotuUsbDatastore_init (seq_start config) (message_seq config));
  _ ← (if no_init config then mret tt else tool_init);
  w ← mget;
  if negb (tool_available w)
  then mraise (RuntimeError (s! "transport reports foreground-preemptive native long-poll as unavailable"))
  else
  initial ← tool_read (s! "/datastore");
  _ ← tool_print (s! "initial_etag=" ++ option_text (etag initial));
  _ ← tool_start;
  _ ← mfinally (run_validations a) (tool_close 2000000);
  mret 0.

Definition main (a : tool_args) : M W Z :=
  _ ← tool_find (p_config a);
  _ ← tool_enter;
  mfinally (with_transport a) tool_exit.

(** [main(argv)] with the parsing of its arguments; [None] is [argparse] ending it. *)
Definition preempt_program (argv : list pystr) : M W (option Z) :=
  match parse_tool_argv argv with
  | None => mret None
  | Some a => code ← main a; mret (Some code)
  end.
End Tool.

(** * The write is idempotent *)

Lemma ascii_decode_id s : ascii s → utf8_decode s = Ok s.
Proof.
  intros Hs. assert (utf8_decode_replace s = s) as Hr.
  { induction Hs as [|c s Hc Hs IH]; [done|]. cbn [utf8_decode_replace].
    by rewrite (proj2 (Z.ltb_lt c 0x80)), IH by lia. }
  unfold utf8_decode. rewrite Hr, (ascii_encode_id s Hs). by rewrite (proj2 (zl_eqb_eq s s)).
Qed.

Section Idempotent.
Context `{Interpreter}.

Lemma value_body_ok d v : json_ok d v → json_ok (S d) (JObj [(s! "value", v)]).
Proof. intros Hv. split; [apply NoDup_singleton|]. by repeat constructor. Qed.

Lemma value_body_frame v : ∃ t, value_body v = 123 :: t ++ [125].
Proof.
  eexists. unfold value_body, json_dumps. cbn [print map container newline app]. reflexivity.
Qed.

(** What the tool writes is what is there: the body made of the value that was read
    is a JSON object the proxy accepts, with that value and nothing else; and a
    device that answers with this body is read as that value again.  For values
    without floats, nested less deeply than the interpreter allows. *)
Theorem idempotent_write_body d v tag st ct :
  json_depth = S d → json_ok d v →
  load_json_object json_depth (value_body v) = Ok [(s! "value", v)] ∧
  utf8_encode (value_body v) = Ok (value_body v) ∧
  payload_value {| body := value_body v; etag := tag; status := st; content_type := ct |} = Ok v.
Proof.
  intros Hd Hv. pose proof (value_body_ok d v Hv) as Ho.
  pose proof (print_ascii Compact (S d) 0 _ Ho) as Ha. change (ascii (value_body v)) in Ha.
  pose proof (loads_dumps false (S d) Compact false _ Ho) as Hl.
  pose proof (loads_dumps true (S d) Compact false _ Ho) as Hl'. cbn iota in Hl, Hl'.
  split; [|split; [by apply ascii_encode_id|]].
  - unfold load_json_object, value_body. by rewrite Hd, Hl.
  - unfold payload_value. cbn [body]. destruct (value_body_frame v) as [t Ht].
    assert (bytes_strip (value_body v) = value_body v) as ->.
    { rewrite Ht. unfold bytes_strip, strip_by. rewrite lstrip_by_head by done.
      change (123 :: t ++ [125]) with ((123 :: t) ++ [125]). by apply rstrip_by_last. }
    destruct (zl_eqb (value_body v) []) eqn:E; [apply zl_eqb_eq in E; by rewrite Ht in E|].
    rewrite (ascii_decode_id _ Ha). cbn [mbind result_bind]. unfold value_body. by rewrite Hd, Hl'.
Qed.
End Idempotent.

(** * Laws of the environment *)

(** What can be seen of a world: its time, whether the transport is open,
    whether the coordinator was started and not closed, and the lines printed. *)
Class PreemptView (W : Type) := {
  tool_now : W → Z;
  usb_opened : W → bool;
  coord_running : W → bool;
  tool_output : W → list pystr
}.

Section Laws.
Context {W : Type} `{PreemptEnv W} `{PreemptView W}.

(** Time passes and frames are noted, by any thread, with a time that the clock
    has shown by then. *)
Definition passes_on (w w' : W) : Prop :=
  tool_now w <= tool_now w' ∧
  ∃ new, noted w' = noted w ++ new ∧ Forall (λ ev, timestamp ev <= tool_now w') new.
#[export] Instance passes_on_preorder : PreOrder passes_on.
Proof.
  unfold passes_on. split.
  - intros w. split; [lia|]. exists []. by rewrite app_nil_r.
  - intros a b c (? & n1 & E1 & F1) (? & n2 & E2 & F2). split; [lia|].
    exists (n1 ++ n2). rewrite E2, E1, app_assoc. split; [done|].
    apply Forall_app. split; [|done]. eapply Forall_impl; [|exact F1]. simpl. lia.
Qed.

(** And nothing is opened or closed. *)
Definition prints_on (w w' : W) : Prop :=
  passes_on w w' ∧ usb_opened w' = usb_opened w ∧ coord_running w' = coord_running w.
#[export] Instance prints_on_preorder : PreOrder prints_on.
Proof.
  unfold prints_on. split; [intros w; by split|].
  intros a b c (? & ? & ?) (? & ? & ?). split; [by etrans|]. split; congruence.
Qed.

(** And nothing is printed. *)
Definition goes_on (w w' : W) : Prop := prints_on w w' ∧ tool_output w' = tool_output w.
#[export] Instance goes_on_preorder : PreOrder goes_on.
Proof.
  unfold goes_on. split; [intros w; by split|].
  intros a b c (? & ?) (? & ?). split; [by etrans|congruence].
Qed.

Lemma goes_on_passes (w w' : W) : goes_on w w' → passes_on w w'.
Proof. by intros [[? _] _]. Qed.
Lemma goes_on_output (w w' : W) : goes_on w w' → tool_output w' = tool_output w.
Proof. by intros [_ ?]. Qed.

Class PreemptLaws : Prop := {
  time_reads w : (tool_time w).1 = tool_now w;
  time_goes_on w : goes_on w (tool_time w).2;
  noted_wait_goes_on t w : goes_on w (noted_wait t w) ∧ tool_now w < tool_now (noted_wait t w);
  held_wait_goes_on t w : goes_on w (held_wait t w) ∧ tool_now w < tool_now (held_wait t w);
  read_goes_on p w : goes_on w (tool_read p w).2;
  spawn_read_goes_on p w : goes_on w (spawn_read p w);
  spawn_post_goes_on p b w : goes_on w (spawn_post p b w);
  join_goes_on t w : goes_on w (join_thread t w).2;
  find_goes_on c w : goes_on w (tool_find c w).2;
  init_goes_on w : goes_on w (tool_init w).2;
  print_prints_on l w : prints_on w (tool_print l w).2;
  print_prints l w : is_ok (tool_print l w).1 = true →
    tool_output (tool_print l w).2 = tool_output w ++ [l];
  enter_opens w : passes_on w (tool_enter w).2 ∧
    usb_opened (tool_enter w).2 = is_ok (tool_enter w).1 ∧
    coord_running (tool_enter w).2 = coord_running w ∧ tool_output (tool_enter w).2 = tool_output w;
  exit_closes w : passes_on w (tool_exit w).2 ∧ usb_opened (tool_exit w).2 = false ∧
    coord_running (tool_exit w).2 = coord_running w ∧ tool_output (tool_exit w).2 = tool_output w;
  start_opens w : passes_on w (tool_start w).2 ∧
    usb_opened (tool_start w).2 = usb_opened w ∧
    coord_running (tool_start w).2 = is_ok (tool_start w).1 ∧
    tool_output (tool_start w).2 = tool_output w;
  close_closes t w : passes_on w (tool_close t w).2 ∧
    usb_opened (tool_close t w).2 = usb_opened w ∧
    coord_running (tool_close t w).2 = false ∧ tool_output (tool_close t w).2 = tool_output w
}.
End Laws.
Arguments PreemptLaws W {_ _}.

(** * Waiting *)

Section Waiting.
Context `{Interpreter} {W : Type} `{PreemptEnv W} `{PreemptView W} `{!PreemptLaws W}.
Variable ms_text : Z → pystr.

Lemma now_spec (w : W) : ∃ w', now w = (Ok (tool_now w), w') ∧ goes_on w w'.
Proof.
  unfold now. pose proof (time_reads w). pose proof (time_goes_on w).
  destruct (tool_time w) as [t w']. cbn in *. subst. eauto.
Qed.

Lemma find_none_prefix {A} (f : A → bool) (l l' : list A) :
  l `prefix_of` l' → List.find f l' = None → List.find f l = None.
Proof.
  intros [k ->]. induction l as [|x l IH]; [done|]. simpl. by destruct (f x).
Qed.

(** The wait for a write always ends, with the first noted frame that matches, or
    with none after its time, when none that matches had been noted before. *)
Lemma write_loop_spec fuel f deadline (w : W) :
  Z.max 0 (deadline - tool_now w) < Z.of_nat fuel →
  ∃ r w', write_loop fuel f deadline w = (Ok (Some r), w') ∧ goes_on w w' ∧
    match r with
    | Some ev => f ev = true ∧ ev ∈ noted w'
    | None => List.find f (noted w) = None ∧ deadline <= tool_now w'
    end.
Proof.
  revert w. induction fuel as [|fuel IH]; intros w Hf; [lia|]. cbn [write_loop].
  erewrite (M_bind_eq mget) by done.
  destruct (List.find f (noted w)) as [ev|] eqn:Ef.
  { apply List.find_some in Ef as [Hin Hev]. exists (Some ev), w. split; [done|].
    split; [done|]. split; [done|]. by apply list_elem_of_In. }
  destruct (now_spec w) as (w1 & En & Hw1). rewrite (M_bind_eq _ _ _ _ _ En). cbv zeta.
  destruct (deadline - tool_now w <=? 0) eqn:Ed; zbool.
  { exists None, w1. split; [done|]. split; [done|]. split; [done|]. apply goes_on_passes in Hw1 as [? _]. lia. }
  erewrite (M_bind_eq (mputs _)) by done. set (w2 := noted_wait _ w1).
  destruct (noted_wait_goes_on (deadline - tool_now w) w1) as [Hw2 Ht]. fold w2 in Hw2, Ht.
  destruct (IH w2) as (r & w' & E & Hg & Hr). { apply goes_on_passes in Hw1 as [? _]. lia. }
  exists r, w'. split; [done|]. split; [do 2 (etrans; [eassumption|]); done|].
  destruct r as [ev|]; [done|]. by destruct Hr.
Qed.

Lemma wait_for_write_spec f timeout (w : W) :
  ∃ r w', wait_for_write f timeout w = (Ok r, w') ∧ goes_on w w' ∧
    match r with
    | Some ev => f ev = true ∧ ev ∈ noted w'
    | None => List.find f (noted w) = None ∧ tool_now w + timeout <= tool_now w'
    end.
Proof.
  unfold wait_for_write. destruct (now_spec w) as (w1 & En & Hw1).
  rewrite (M_bind_eq _ _ _ _ _ En).
  destruct (write_loop_spec (passes_within timeout) f (tool_now w + timeout) w1)
    as (r & w' & E & Hg & Hr). { unfold passes_within. apply goes_on_passes in Hw1 as [? _]. lia. }
  rewrite (M_bind_eq _ _ _ _ _ E). exists r, w'. split; [done|]. split; [by etrans|].
  destruct r as [ev|]; [done|]. destruct Hr as [Hn Hd]. split; [|done].
  eapply find_none_prefix; [|done]. apply goes_on_passes in Hw1 as (_ & new & -> & _).
  by apply prefix_app_r.
Qed.

(** The wait for a held poll always ends: while one is held, or after its time. *)
Lemma active_loop_spec fuel deadline (w : W) :
  Z.max 0 (deadline - tool_now w) < Z.of_nat fuel →
  ∃ b w', active_loop fuel deadline w = (Ok (Some b), w') ∧ goes_on w w' ∧
    if b then poll_held w' = true else poll_held w = false ∧ deadline <= tool_now w'.
Proof.
  revert w. induction fuel as [|fuel IH]; intros w Hf; [lia|]. cbn [active_loop].
  erewrite (M_bind_eq mget) by done.
  destruct (poll_held w) eqn:Ep; [by exists true, w|].
  destruct (now_spec w) as (w1 & En & Hw1). rewrite (M_bind_eq _ _ _ _ _ En). cbv zeta.
  destruct (deadline - tool_now w <=? 0) eqn:Ed; zbool.
  { exists false, w1. split; [done|]. split; [done|]. split; [done|]. apply goes_on_passes in Hw1 as [? _]. lia. }
  erewrite (M_bind_eq (mputs _)) by done. set (w2 := held_wait _ w1).
  destruct (held_wait_goes_on (deadline - tool_now w) w1) as [Hw2 Ht]. fold w2 in Hw2, Ht.
  destruct (IH w2) as (b & w' & E & Hg & Hb). { apply goes_on_passes in Hw1 as [? _]. lia. }
  exists b, w'. split; [done|]. split; [do 2 (etrans; [eassumption|]); done|].
  destruct b; [done|]. by destruct Hb.
Qed.

Lemma wait_for_active_poll_spec timeout (w : W) :
  ∃ b w', wait_for_active_poll timeout w = (Ok b, w') ∧ goes_on w w' ∧
    if b then poll_held w' = true else tool_now w + timeout <= tool_now w'.
Proof.
  unfold wait_for_active_poll. destruct (now_spec w) as (w1 & En & Hw1).
  rewrite (M_bind_eq _ _ _ _ _ En).
  destruct (active_loop_spec (passes_within timeout) (tool_now w + timeout) w1)
    as (b & w' & E & Hg & Hb). { unfold passes_within. apply goes_on_passes in Hw1 as [? _]. lia. }
  rewrite (M_bind_eq _ _ _ _ _ E). exists b, w'. split; [done|]. split; [by etrans|].
  destruct b; [done|]. by destruct Hb.
Qed.
End Waiting.

(** * What a passed validation says *)

Section Passed.
Context `{Interpreter} {W : Type} `{PreemptEnv W} `{PreemptView W} `{!PreemptLaws W}.
Variable ms_text : Z → pystr.

#[local] Instance goes_on_pre : PreOrder (goes_on (W := W)) := goes_on_preorder.
#[local] Instance passes_on_pre : PreOrder (passes_on (W := W)) := passes_on_preorder.

(** The frames noted so far have times that the clock has shown. *)
Definition noted_past (w : W) : Prop := Forall (λ ev, timestamp ev <= tool_now w) (noted w).

Lemma noted_past_on (w w' : W) : passes_on w w' → noted_past w → noted_past w'.
Proof.
  unfold noted_past. intros (Ht & new & -> & Hn) Hw. apply Forall_app. split; [|done].
  eapply Forall_impl; [|exact Hw]. simpl. lia.
Qed.

(** A foreground request was validated between the worlds [w] and [w']: in
    [held], when its thread was started, a native long poll was held; when the
    thread had ended, in [joined], the frame [ev] with the path had been noted,
    with a time from the start on and up to that end, [d] microseconds after
    the start; the thread had no exception and an accepted first result; and a
    long poll is held again. *)
Record validated_at (path : pystr) (accepted : DatastorePayload → Prop) (w held : W)
    (ev : WriteEvent) (joined : W) (d : Z) (w' : W) : Prop := {
  v_before : passes_on w held;
  v_held : poll_held held = true;
  v_during : passes_on held joined;
  v_noted : ev ∈ noted joined;
  v_path : contains path (data ev) = true;
  v_start : tool_now held <= timestamp ev;
  v_end : timestamp ev <= tool_now joined;
  v_duration : d = timestamp ev - tool_now held;
  v_no_error : thread_errors joined = [];
  v_result : ∃ result rest, thread_results joined = result :: rest ∧ accepted result;
  v_after : passes_on joined w';
  v_held_again : poll_held w' = true
}.
Definition validated (path : pystr) (accepted : DatastorePayload → Prop) (w : W) (d : Z) (w' : W)
    : Prop := ∃ held ev joined, validated_at path accepted w held ev joined d w'.

(** The answer of a read cycle: a value, and the serial when one is configured. *)
Definition uid_accepted (serial : option pystr) (result : DatastorePayload) : Prop :=
  ∃ value, payload_value result = Ok value ∧ ∀ wanted, serial = Some wanted → value = JStr wanted.

(** Read cycles one after the other: each starts when the one before it is over. *)
Fixpoint reads_validated (serial : option pystr) (w : W) (ds : list Z) (w' : W) : Prop :=
  match ds with
  | [] => passes_on w w'
  | d :: ds => ∃ w1, validated UID_PATH (uid_accepted serial) w d w1 ∧ reads_validated serial w1 ds w'
  end.

(** The write: of the value that had been read before. *)
Definition write_validated (w : W) (body : pystr) (d : Z) (w' : W) : Prop :=
  ∃ current w1 value, tool_read HOST_OS_PATH w = (Ok current, w1) ∧
    payload_value current = Ok value ∧ body = value_body value ∧
    validated HOST_OS_PATH (λ _, True) w1 d w'.

(** ** Every step goes on *)

Lemma walk_now : follows goes_on (now (W := W)).
Proof. intros w. destruct (now_spec w) as (w' & -> & Hw). exact Hw. Qed.
Lemma walk_wait_write f t : follows goes_on (wait_for_write (W := W) f t).
Proof. intros w. destruct (wait_for_write_spec f t w) as (r & w' & -> & Hw & _). exact Hw. Qed.
Lemma walk_wait_poll t : follows goes_on (wait_for_active_poll (W := W) t).
Proof. intros w. destruct (wait_for_active_poll_spec t w) as (r & w' & -> & Hw & _). exact Hw. Qed.
Lemma walk_puts (f : W → W) : (∀ w, goes_on w (f w)) → follows goes_on (mputs f).
Proof. intros Hf w. apply Hf. Qed.
Lemma walk_poller_error {A} what text : follows goes_on (tool_error (W := W) (A := A) what text).
Proof. apply (follows_raise goes_on). Qed.
Lemma walk_join t : follows goes_on (λ w : W, let '(b, w') := join_thread t w in (Ok b, w')).
Proof. intros w. pose proof (join_goes_on t w). by destruct (join_thread t w). Qed.
#[local] Hint Resolve walk_now walk_wait_write walk_wait_poll walk_puts walk_poller_error walk_join
  read_goes_on init_goes_on spawn_read_goes_on spawn_post_goes_on : walk.
Lemma walk_expect what text : follows goes_on (expect_poll (W := W) what text).
Proof. unfold expect_poll. walk. Qed.
#[local] Hint Resolve walk_expect : walk.
Lemma walk_dispatch what kind path b t (spawn : W → W) :
  (∀ w, goes_on w (spawn w)) → follows goes_on (dispatch_and_join what kind path b t spawn).
Proof. intros Hs. unfold dispatch_and_join. cbv zeta. walk. Qed.
#[local] Hint Resolve walk_dispatch : walk.
Lemma walk_validate_read serial b c : follows goes_on (validate_foreground_read (W := W) serial b c).
Proof.
  unfold validate_foreground_read. cbv zeta.
  apply follows_bind; [exact _|walk|intros _].
  apply follows_bind; [exact _|apply walk_dispatch, spawn_read_goes_on|intros d]. walk.
Qed.
Lemma walk_read_check p : follows goes_on (tool_read (W := W) p).
Proof. intros w. apply read_goes_on. Qed.
#[local] Hint Resolve walk_validate_read walk_read_check : walk.
Lemma walk_validate_write b : follows goes_on (validate_idempotent_write (W := W) b).
Proof.
  unfold validate_idempotent_write. cbv zeta.
  do 3 (apply follows_bind; [exact _|walk|intros ?]).
  apply follows_bind; [exact _|apply walk_dispatch, spawn_post_goes_on|intros d]. walk.
Qed.
#[local] Hint Resolve walk_validate_write : walk.
Lemma walk_cycles serial b n c : follows goes_on (read_cycles (W := W) serial b n c).
Proof. revert c. induction n as [|n IH]; intros c; cbn [read_cycles]; walk. Qed.
#[local] Hint Resolve walk_cycles : walk.

(** ** Success *)

(** A successful step of a walk. *)
Lemma step_on {A} (m : M W A) (w w' : W) r : follows goes_on m → m w = (r, w') → goes_on w w'.
Proof. intros Hm E. specialize (Hm w). by rewrite E in Hm. Qed.

Lemma expect_poll_ok what text (w w' : W) u :
  expect_poll what text w = (Ok u, w') → poll_held w' = true ∧ goes_on w w'.
Proof.
  intros E. split; [|by eapply step_on; [apply walk_expect|exact E]]. unfold expect_poll in E.
  destruct (wait_for_active_poll_spec 5000000 w) as (b & w1 & E1 & _ & Hb).
  rewrite (M_bind_eq _ _ _ _ _ E1) in E. destruct b; [|done]. by injection E as _ <-.
Qed.

(** The dispatch as measured: the start is the clock of the world it began in. *)
Lemma dispatch_and_join_ok what kind path b t (spawn : W → W) (w w' : W) d :
  (∀ w, goes_on w (spawn w)) → noted_past w →
  dispatch_and_join what kind path b t spawn w = (Ok d, w') →
  thread_errors w' = [] ∧ passes_on w w' ∧
  ∃ ev, ev ∈ noted w' ∧ contains path (data ev) = true ∧
    tool_now w <= timestamp ev ∧ timestamp ev <= tool_now w' ∧ d = timestamp ev - tool_now w.
Proof.
  intros Hs Hpast E. pose proof (step_on _ _ _ _ (walk_dispatch what kind path b t spawn Hs) E) as Hg.
  apply goes_on_passes in Hg. pose proof (noted_past_on _ _ Hg Hpast) as Hpast'.
  unfold dispatch_and_join in E. destruct (now_spec w) as (w1 & E1 & Hw1).
  rewrite (M_bind_eq _ _ _ _ _ E1) in E.
  apply M_bind_ok in E as ([] & w2 & E2 & E).
  destruct (wait_for_write_spec (dispatched (tool_now w) path) (Z.max 1000000 (b * 1000)) w2)
    as (r & w3 & E3 & _ & Hr). rewrite (M_bind_eq _ _ _ _ _ E3) in E.
  destruct r as [ev|]; [|done]. destruct Hr as [Hev Hin].
  apply M_bind_ok in E as (alive & w4 & E4 & E).
  apply (step_on _ _ _ _ (walk_join t)), goes_on_passes in E4 as (_ & new & E4 & _).
  destruct alive; [done|]. apply M_bind_ok in E as (w5 & w6 & [= <- <-] & E).
  destruct (thread_errors w4) eqn:Ee; [|done]. injection E as <- <-. split; [done|]. split; [done|].
  unfold dispatched in Hev. apply andb_true_iff in Hev as [Ht Hc]. zbool.
  assert (ev ∈ noted w4) as Hin4 by (rewrite E4; apply elem_of_app; by left).
  exists ev. do 3 (split; [done|]). split; [|done].
  unfold noted_past in Hpast'. rewrite List.Forall_forall in Hpast'. by apply Hpast', list_elem_of_In.
Qed.

Lemma validate_read_ok serial b c (w w' : W) d :
  noted_past w → validate_foreground_read serial b c w = (Ok d, w') →
  validated UID_PATH (uid_accepted serial) w d w'.
Proof.
  intros Hpast E. unfold validate_foreground_read in E. apply M_bind_ok in E as ([] & w1 & E1 & E).
  apply expect_poll_ok in E1 as [Hheld H1']. apply goes_on_passes in H1'.
  apply M_bind_ok in E as (d' & w2 & E2 & E).
  apply dispatch_and_join_ok in E2 as (He & H2 & ev & Hev);
    [|apply spawn_read_goes_on|exact (noted_past_on _ _ H1' Hpast)].
  apply M_bind_ok in E as (w3 & w4 & [= <- <-] & E).
  destruct (thread_results w2) as [|result rest] eqn:Er; [done|].
  apply M_bind_ok in E as (value & w5 & [= Hv <-] & E).
  apply M_bind_ok in E as ([] & w6 & E6 & E). apply M_bind_ok in E as ([] & w7 & E7 & [= <- <-]).
  assert (w6 = w2 ∧ ∀ wanted, serial = Some wanted → value = JStr wanted) as [-> Hs].
  { destruct serial as [wanted|]; [|by injection E6 as <-].
    destruct value as [| | |got| |]; try done. destruct (zl_eqb got wanted) eqn:Eg; [|done].
    apply zl_eqb_eq in Eg as ->. injection E6 as <-. split; [done|]. by intros ? [= ->]. }
  apply expect_poll_ok in E7 as [Hagain H7]. apply goes_on_passes in H7.
  destruct Hev as (? & ? & ? & ? & ?). exists w1, ev, w2. split; try done.
  exists result, rest. split; [done|]. by exists value.
Qed.

Lemma validated_passes path P (w w' : W) d : validated path P w d w' → passes_on w w'.
Proof. intros (held & ev & joined & Hv). etrans; [apply Hv|]. etrans; apply Hv. Qed.

Lemma validate_write_ok b (w w' : W) body d :
  noted_past w → validate_idempotent_write b w = (Ok (body, d), w') → write_validated w body d w'.
Proof.
  intros Hpast E. unfold validate_idempotent_write in E.
  apply M_bind_ok in E as (current & w1 & E1 & E).
  pose proof (goes_on_passes _ _ (step_on _ _ _ _ (walk_read_check HOST_OS_PATH) E1)) as Hs1.
  apply M_bind_ok in E as (value & w2 & [= Hv <-] & E). apply M_bind_ok in E as ([] & w3 & E3 & E).
  apply expect_poll_ok in E3 as [Hheld Hs3]. apply goes_on_passes in Hs3.
  apply M_bind_ok in E as (d' & w4 & E4 & E).
  apply dispatch_and_join_ok in E4 as (He & Hs4 & ev & Hev);
    [|apply spawn_post_goes_on|eapply noted_past_on; [|exact Hpast]; by etrans].
  apply M_bind_ok in E as (w5 & w6 & [= <- <-] & E).
  destruct (thread_results w4) as [|result rest] eqn:Er; [done|].
  apply M_bind_ok in E as ([] & w7 & E7 & [= <- <- <-]).
  apply expect_poll_ok in E7 as [Hagain H7]. apply goes_on_passes in H7.
  exists current, w1, value. do 3 (split; [done|]).
  destruct Hev as (? & ? & ? & ? & ?). exists w3, ev, w4. split; try done. eauto.
Qed.

Lemma read_cycles_ok serial b n c (w w' : W) ds :
  noted_past w → read_cycles serial b n c w = (Ok ds, w') →
  length ds = n ∧ reads_validated serial w ds w'.
Proof.
  revert c w ds. induction n as [|n IH]; intros c w ds Hpast E; cbn [read_cycles] in E.
  { injection E as <- <-. split; [done|]. simpl. reflexivity. }
  apply M_bind_ok in E as (d & w1 & E1 & E). apply M_bind_ok in E as (ds' & w2 & E2 & [= <- <-]).
  apply validate_read_ok in E1; [|done].
  apply IH in E2 as [Hl Hf]; [|by eapply noted_past_on; [eapply validated_passes|]].
  split; [by simpl; f_equal|]. by exists w1.
Qed.

Lemma foldl_max_spec d (ds : list Z) :
  foldl Z.max d ds ∈ d :: ds ∧ Forall (λ x, x <= foldl Z.max d ds) (d :: ds).
Proof.
  revert d. induction ds as [|x ds IH]; intros d; simpl.
  { split; [by left|]. by repeat constructor. }
  destruct (IH (Z.max d x)) as [Hin Hall]. pose proof (Forall_inv Hall) as Hm. apply Forall_inv_tail in Hall. simpl in Hm.
  split; [|constructor; [lia|constructor; [lia|done]]].
  apply elem_of_cons in Hin as [Hin|Hin]; [|by do 2 right].
  rewrite Hin. destruct (Z.max_dec d x) as [-> | ->]; [by left|by right; left].
Qed.

(** What was printed by a step that printed. *)
Lemma print_ok l (w w' : W) : tool_print l w = (Ok tt, w') →
  passes_on w w' ∧ tool_output w' = tool_output w ++ [l].
Proof.
  intros E. pose proof (print_prints_on l w) as [Hp _]. pose proof (print_prints l w) as Ho.
  rewrite E in Hp, Ho. split; [done|]. by apply Ho.
Qed.

Definition passed (a : tool_args) (w w' : W) : Prop :=
  ∃ ds longest w1, zlen ds = p_cycles a ∧ reads_validated (cfg_serial (p_config a)) w ds w1 ∧
    longest ∈ ds ∧ Forall (λ d, d <= longest) ds ∧
    if p_include_write a
    then ∃ body d w2, write_validated w1 body d w2 ∧ passes_on w2 w' ∧
           tool_output w' = tool_output w ++ [read_pass_line ms_text a longest;
                                              write_pass_line ms_text a body d]
    else passes_on w1 w' ∧ tool_output w' = tool_output w ++ [read_pass_line ms_text a longest].

Lemma reads_validated_passes serial ds (w w' : W) : reads_validated serial w ds w' → passes_on w w'.
Proof.
  revert w. induction ds as [|d ds IH]; intros w; [done|]. intros (w1 & Hs1 & Hs2).
  etrans; [by eapply validated_passes|by apply IH].
Qed.

Lemma run_validations_ok a (w w' : W) :
  noted_past w → run_validations ms_text a w = (Ok tt, w') → passed a w w'.
Proof.
  intros Hpast E. unfold run_validations in E. apply M_bind_ok in E as (ds & w1 & E1 & E).
  pose proof (goes_on_output _ _ (step_on _ _ _ _ (walk_cycles _ _ _ _) E1)) as Ho1.
  apply read_cycles_ok in E1 as [Hl Hf]; [|done].
  apply M_bind_ok in E as (written & w2 & E2 & E). apply M_bind_ok in E as ([] & w3 & E3 & E).
  destruct ds as [|d ds]; [done|]. apply print_ok in E3 as [Hp3 Ho3].
  destruct (foldl_max_spec d ds) as [Hin Hall].
  exists (d :: ds), (foldl Z.max d ds), w1. split; [unfold zlen; simpl in *; lia|].
  do 3 (split; [done|]). destruct (p_include_write a).
  - apply M_bind_ok in E2 as ([body x] & w4 & E4 & [= <- <-]).
    pose proof (goes_on_output _ _ (step_on _ _ _ _ (walk_validate_write _) E4)) as Ho4.
    apply validate_write_ok in E4;
      [|by eapply noted_past_on; [eapply reads_validated_passes|]].
    apply print_ok in E as [Hp Ho]. exists body, x, w4. split; [done|]. split; [by etrans|].
    rewrite Ho, Ho3, Ho4, Ho1, <-app_assoc. done.
  - injection E2 as <- <-. injection E as <-. split; [done|]. by rewrite Ho3, Ho1.
Qed.

Lemma finally_ok {A} (m : M W A) f (w w' : W) a :
  mfinally m f w = (Ok a, w') → ∃ w1 u, m w = (Ok a, w1) ∧ f w1 = (Ok u, w').
Proof.
  unfold mfinally. destruct (m w) as [r w1]. destruct (f w1) as [[u|e] w2] eqn:E; [|done].
  intros [= -> <-]. eauto.
Qed.

(** C39. A passed validation is one: when the tool, started with an empty record
    of writes, ends regularly, its exit code is 0 and it printed the initial
    ETag and the lines of a pass.  They report real measurements: there were as
    many read cycles as asked for, at least one, one after the other, each
    started while a native long poll was held and each with a recorded frame
    with the path of the read whose time lies between the start and the end of
    its cycle's thread, an answer with the configured serial, and a long poll
    held again; the reported time is the longest of the times from start to
    frame.  When a write was asked for, one of the value read before was
    validated in the same way after them, and its time reported. *)
Theorem preemption_pass a (w w' : W) code :
  noted w = [] → main ms_text a w = (Ok code, w') →
  code = 0 ∧ 1 <= p_cycles a ∧
  ∃ w1 w2 tag, passes_on w w1 ∧
    tool_output w1 = tool_output w ++ [s! "initial_etag=" ++ tag] ∧
    passed a w1 w2 ∧ passes_on w2 w' ∧ tool_output w' = tool_output w2.
Proof.
  intros Hempty E. unfold main in E. apply M_bind_ok in E as ([] & w1 & E1 & E).
  pose proof (find_goes_on (p_config a) w) as Hs1. rewrite E1 in Hs1. simpl in Hs1.
  apply M_bind_ok in E as ([] & w2 & E2 & E). apply finally_ok in E as (w3 & [] & E3 & Ex).
  destruct (enter_opens w1) as (Hp2 & _ & _ & Ho2). rewrite E2 in Hp2, Ho2. simpl in Hp2, Ho2.
  unfold with_transport in E3. cbv zeta in E3. apply M_bind_ok in E3 as (x & w4 & [= _ <-] & E3).
  apply M_bind_ok in E3 as ([] & w5 & E5 & E3). apply M_bind_ok in E3 as (w6 & w7 & [= <- <-] & E3).
  assert (goes_on w2 w5) as Hs5.
  { destruct (no_init (p_config a)); [by injection E5 as <-|].
    pose proof (init_goes_on w2) as Hi. by rewrite E5 in Hi. }
  destruct (negb (tool_available w5)); [done|].
  apply M_bind_ok in E3 as (initial & w6 & E6 & E3).
  apply (step_on _ _ _ _ (walk_read_check _)) in E6.
  apply M_bind_ok in E3 as ([] & w7 & E7 & E3). apply print_ok in E7 as [Hp7 Ho7].
  apply M_bind_ok in E3 as ([] & w8 & E8 & E3).
  destruct (start_opens w7) as (Hp8 & _ & _ & Ho8). rewrite E8 in Hp8, Ho8. simpl in Hp8, Ho8.
  apply M_bind_ok in E3 as ([] & w9 & E9 & [= <- <-]).
  apply finally_ok in E9 as (w10 & [] & E10 & Ec).
  destruct (close_closes 2000000 w10) as (Hp9 & _ & _ & Ho9). rewrite Ec in Hp9, Ho9. simpl in Hp9, Ho9.
  destruct (exit_closes w9) as (Hpx & _ & _ & Hox). rewrite Ex in Hpx, Hox. simpl in Hpx, Hox.
  assert (passes_on w w8) as Hp.
  { etrans; [by apply goes_on_passes|]. etrans; [exact Hp2|]. etrans; [by apply goes_on_passes|].
    etrans; [by apply goes_on_passes|]. by etrans. }
  apply run_validations_ok in E10; [|eapply noted_past_on; [exact Hp|]; unfold noted_past; by rewrite Hempty].
  split; [done|]. split.
  { destruct E10 as (ds & longest & wx & Hl & _ & Hin & _).
    destruct ds; [by apply not_elem_of_nil in Hin|]. unfold zlen in Hl. simpl in Hl. lia. }
  exists w8, w10, (option_text (etag initial)). split; [done|].
  split; [|split; [done|split; [by etrans|congruence]]].
  rewrite Ho8, Ho7, (goes_on_output _ _ E6), (goes_on_output _ _ Hs5), Ho2, (goes_on_output _ _ Hs1). done.
Qed.

(** ** Cleaning up *)

(** The coordinator stays closed. *)
Definition stays_closed (w w' : W) : Prop := coord_running w = false → coord_running w' = false.
#[local] Instance stays_closed_preorder : PreOrder stays_closed.
Proof. unfold stays_closed. split; [by intros w|]. intros a b c. auto. Qed.

Lemma stays_closed_walk {A} (m : M W A) : follows goes_on m → follows stays_closed m.
Proof. intros Hm w Hw. destruct (Hm w) as ((_ & _ & E) & _). congruence. Qed.
Lemma walk_print l : follows stays_closed (tool_print (W := W) l).
Proof. intros w Hw. destruct (print_prints_on l w) as (_ & _ & E). congruence. Qed.
Lemma walk_tool_init : follows goes_on (tool_init (W := W)).
Proof. intros w. apply init_goes_on. Qed.
#[local] Hint Resolve stays_closed_walk walk_tool_init walk_print : walk.

Lemma finally_state {A} (m : M W A) f (w : W) : (mfinally m f w).2 = (f (m w).2).2.
Proof. unfold mfinally. destruct (m w) as [r w1]. cbn. by destruct (f w1) as [[]]. Qed.

(** What is started is closed again. *)
Lemma started_closes a :
  follows stays_closed
    (_ ← tool_start; _ ← mfinally (run_validations ms_text a) (tool_close 2000000); mret 0).
Proof.
  intros w _. destruct (start_opens w) as (_ & _ & Hs & _).
  destruct (tool_start w) as [[[]|e] w1] eqn:Es; cbn [fst snd] in *.
  2: { by rewrite (M_bind_err _ _ _ _ _ Es). }
  rewrite (M_bind_eq _ _ _ _ _ Es). set (m := mfinally _ _).
  assert (coord_running (m w1).2 = false) as Hc by (subst m; rewrite finally_state; apply close_closes).
  unfold mbind, M_bind. by destruct (m w1) as [[] w2].
Qed.

Lemma with_transport_closes a : follows stays_closed (with_transport ms_text a).
Proof.
  pose proof (started_closes a) as Hs. unfold with_transport. cbv zeta. walk.
Qed.

(** However it ends, the tool leaves nothing open: on any failure of discovery, the
    transport, the first exchange, the validations or the output, the transport is
    closed when it was opened and the coordinator when it was started. *)
Theorem preempt_cleans_up a (w : W) :
  usb_opened w = false → coord_running w = false →
  let w' := (main ms_text a w).2 in
  usb_opened w' = false ∧ coord_running w' = false.
Proof.
  intros Ho Hc w'. subst w'. unfold main. destruct (find_goes_on (p_config a) w) as ((_ & Hf1 & Hf2) & _).
  destruct (tool_find (p_config a) w) as [[[]|e] w1] eqn:E1; cbn [fst snd] in *.
  2: { rewrite (M_bind_err _ _ _ _ _ E1). cbn. split; congruence. }
  rewrite (M_bind_eq _ _ _ _ _ E1). destruct (enter_opens w1) as (_ & He1 & He2 & _).
  destruct (tool_enter w1) as [[[]|e] w2] eqn:E2; cbn [fst snd] in *.
  2: { rewrite (M_bind_err _ _ _ _ _ E2). cbn [fst snd]. cbn in *. split; congruence. }
  rewrite (M_bind_eq _ _ _ _ _ E2), finally_state.
  destruct (exit_closes (with_transport ms_text a w2).2) as (_ & Hx1 & Hx2 & _).
  split; [done|]. rewrite Hx2. apply with_transport_closes. congruence.
Qed.
End Passed.

(** * A bench *)

(** A world for the examples: a thread's frame is written 0.9 s after it was started,
    and a long poll is always held. *)
Record bench := {
  b_clock : Z;
  b_noted : list WriteEvent;
  b_pending : pystr;
  b_open : bool;
  b_coordinator : bool;
  b_printed : list pystr
}.

Definition b_later (t : Z) (note : list WriteEvent) (w : bench) : bench :=
  {| b_clock := b_clock w + t; b_noted := b_noted w ++ note; b_pending := b_pending w;
     b_open := b_open w; b_coordinator := b_coordinator w; b_printed := b_printed w |}.
Definition b_start (path : pystr) (w : bench) : bench :=
  {| b_clock := b_clock w; b_noted := b_noted w; b_pending := path;
     b_open := b_open w; b_coordinator := b_coordinator w; b_printed := b_printed w |}.
Definition b_set (o c : bool) (w : bench) : bench :=
  {| b_clock := b_clock w; b_noted := b_noted w; b_pending := b_pending w;
     b_open := o; b_coordinator := c; b_printed := b_printed w |}.
Definition b_say (l : pystr) (w : bench) : bench :=
  {| b_clock := b_clock w; b_noted := b_noted w; b_pending := b_pending w;
     b_open := b_open w; b_coordinator := b_coordinator w; b_printed := b_printed w ++ [l] |}.

Definition bench_payload : DatastorePayload :=
  {| body := value_body (JStr (s! "abc")); etag := Some (s! "7"); status := None;
     content_type := None |}.

#[local] Instance bench_env : PreemptEnv bench := {|
  tool_time := λ w, (b_clock w, w);
  noted := b_noted;
  noted_wait := λ _ w,
    b_later 900001 [{| timestamp := b_clock w + 900000; data := b_pending w |}] w;
  poll_held := λ _, true;
  held_wait := λ _, b_later 1 [];
  tool_read := λ _ w, (Ok bench_payload, w);
  spawn_read := b_start;
  spawn_post := λ path _, b_start path;
  join_thread := λ _ w, (false, w);
  thread_results := λ _, [bench_payload];
  thread_errors := λ _, [];
  tool_find := λ _ w, (Ok tt, w);
  tool_enter := λ w, (Ok tt, b_set true (b_coordinator w) w);
  tool_exit := λ w, (Ok tt, b_set false (b_coordinator w) w);
  tool_init := λ w, (Ok tt, w);
  tool_available := λ _, true;
  tool_start := λ w, (Ok tt, b_set (b_open w) true w);
  tool_close := λ _ w, (Ok tt, b_set (b_open w) false w);
  tool_print := λ l w, (Ok tt, b_say l w)
|}.

#[local] Instance bench_view : PreemptView bench :=
  {| tool_now := b_clock; usb_opened := b_open; coord_running := b_coordinator;
     tool_output := b_printed |}.

#[local] Instance bench_laws : PreemptLaws bench.
Proof.
  assert (∀ w w', b_clock w' = b_clock w → b_noted w' = b_noted w → passes_on w w') as Hs.
  { intros w w' E1 E2. unfold passes_on. cbn. rewrite E1, E2. split; [lia|].
    exists []. by rewrite app_nil_r. }
  assert (∀ t l w, 0 <= t → Forall (λ ev, timestamp ev <= b_clock w + t) l →
            goes_on w (b_later t l w)) as Hl.
  { intros t l w Ht Hf. unfold goes_on, prints_on, passes_on. cbn.
    split; [|done]. split; [|done]. split; [lia|by exists l]. }
  constructor; intros; cbn; try done; auto.
  - split; [|lia]. apply Hl; [lia|]. repeat constructor. simpl. lia.
  - split; [|lia]. apply Hl; [lia|]. constructor.
  - unfold goes_on, prints_on; cbn; auto.
  - unfold goes_on, prints_on; cbn; auto.
  - unfold prints_on; cbn; auto.
Qed.

Definition bench_args : tool_args :=
  {| p_config := {| vid := MOTU_VID; pid := MOTU_AVB_PID; cfg_serial := Some (s! "abc");
                    cfg_overrides := {| o_interface := None; o_ep_out := None; o_ep_in := None |};
                    cfg_timeout_ms := 600; seq_start := DEFAULT_SEQ_START;
                    message_seq := DEFAULT_MESSAGE_SEQ; no_init := false; cfg_debug := false;
                    cfg_sysfs_root := DEFAULT_SYSFS_ROOT; cfg_devfs_root := DEFAULT_DEVFS_ROOT |};
     p_cycles := 2; p_budget_ms := 100; p_include_write := true |}.

Definition bench0 : bench :=
  {| b_clock := 0; b_noted := []; b_pending := []; b_open := false; b_coordinator := false;
     b_printed := [] |}.

(** A dispatch that takes nine times the budget passes. *)
Example slow_dispatch_passes :
  (validate_foreground_read (H := demo_python) (Some (s! "abc")) 100 1 bench0).1
  = Ok 900000.
Proof. vm_compute. reflexivity. Qed.

Lemma preemption_pass_witness :
  ∃ w', main (H := demo_python) (λ _, []) bench_args bench0 = (Ok 0, w') ∧
    ∃ w1 w2 tag, passes_on bench0 w1 ∧
      tool_output w1 = tool_output bench0 ++ [s! "initial_etag=" ++ tag] ∧
      passed (H := demo_python) (λ _, []) bench_args w1 w2 ∧ passes_on w2 w' ∧
      tool_output w' = tool_output w2.
Proof.
  assert (∃ w', main (H := demo_python) (λ _, []) bench_args bench0 = (Ok 0, w'))
    as [w' E] by (eexists; vm_compute; reflexivity).
  exists w'. split; [exact E|].
  apply (preemption_pass (H := demo_python) (λ _, []) bench_args bench0 w' 0); [reflexivity|exact E].
Defined.

Lemma preempt_cleans_up_witness :
  let w' := (main (H := demo_python) (λ _, []) bench_args bench0).2 in
  length (b_noted w') = 3%nat ∧ b_open w' = false ∧ b_coordinator w' = false.
Proof.
  intros w'. split; [vm_compute; reflexivity|].
  exact (preempt_cleans_up (H := demo_python) (λ _, []) bench_args bench0 eq_refl eq_refl).
Defined.

Lemma idempotent_write_body_witness :
  payload_value (H := demo_python)
    {| body := value_body (JStr (s! "win")); etag := None; status := None; content_type := None |}
  = Ok (JStr (s! "win")).
Proof.
  apply (idempotent_write_body (H := demo_python) 99 (JStr (s! "win"))); vm_compute; reflexivity.
Defined.
