(* ===== verification/Probes.v ===== *)
(** The measuring probes over USB (research/spike-metering/probes: meter_probe.py,
    meter_cadence_usb.py, meters_bench.py, meters_query_probe.py, meters_detail.py and
    raw_get_probe.py).  All of them say that they are read-only.

    They run on the USB client (Usb.v) over any transport.  Discovery, the context of
    the transport, the output, sleeping and the processor times are the environment
    [ProbeEnv]; the rounding of a printed figure is a parameter, the figure itself a
    quotient of integers (times are microseconds).  Five of them import
    [datastore_payload] from motu_proxy.parser, which has no such function; it is an
    argument here, about which nothing is assumed.

    Shown: whatever the device does, a probe puts nothing on the wire but
    initializations, acknowledgements and frames that a receiver decodes to a GET; the
    request builder they carry along is the proxy's; their timed loops end; and
    [listen] accounts for every packet it read. *)
From Stdlib Require Import SpecFloat.
From S2P Require Import Prelude PyText Protocol Parser Usb Managed Coordinator Walk WireLog.
From S2P Require Import Paths Device Json Schema JsonText IpAddr Http Report Urb Usbfs CliArgs Token Cli Argv Live LiveTool.

(** * Texts and figures *)

(** Characters that [str.isdigit] admits and [int] refuses. *)
Definition digit_signs : list (Z * Z) :=
  [(0xB2, 0xB3); (0xB9, 0xB9); (0x1369, 0x1371); (0x19DA, 0x19DA); (0x2070, 0x2070); (0x2074, 0x2079);
   (0x2080, 0x2089); (0x2460, 0x2468); (0x2474, 0x247C); (0x2488, 0x2490); (0x24EA, 0x24EA);
   (0x24F5, 0x24FD); (0x24FF, 0x24FF); (0x2776, 0x277E); (0x2780, 0x2788); (0x278A, 0x2792);
   (0x10A40, 0x10A43); (0x10E60, 0x10E68); (0x11052, 0x1105A); (0x1F100, 0x1F10A)].

Definition isdigit (s : pystr) : bool :=
  negb (zl_eqb s []) &&
  forallb (λ c, is_decimal_char c || existsb (λ '(lo, hi), (lo <=? c) && (c <=? hi)) digit_signs) s.

(** [int(et) if et and et.isdigit() else None] *)
Definition etag_number (et : option pystr) : result (option Z) :=
  match et with
  | Some e =>
      if isdigit e then match int10 e with Some n => Ok (Some n) | None => Err ValueError end
      else Ok None
  | None => Ok None
  end.

(** [b.hex(" ")] *)
Definition spaced_hex (b : bytes) : pystr := intersperse [32] ((λ c, bytes_hex [c]) <$> b).

(** [printable] of meters_detail.py *)
Definition printable_text (b : bytes) : pystr :=
  (λ c, if (32 <=? c) && (c <? 127) then c else 46) <$> b.

(** [x / y]: the quotient as it is, or [ZeroDivisionError]. *)
Definition quotient (x y : Z) : result (Z * Z) := if y =? 0 then Err ZeroDivisionError else Ok (x, y).

(** ** The largest meter value *)

Definition minus_one : spec_float := float_of true 1 0.

(** [float(x)] of a JSON value. *)
Definition to_float (x : json) : result spec_float :=
  match x with
  | JNum (NInt z) =>
      match float_of (z <? 0) (Z.abs z) 0 with
      | S754_infinity _ => Err OverflowError
      | f => Ok f
      end
  | JNum (NFloat f) => Ok f
  | JBool b => Ok (float_of false (if b then 1 else 0) 0)
  | JStr s => match py_float s with Some f => Ok f | None => Err ValueError end
  | JNull | JList _ | JObj _ => Err TypeError
  end.

(** [max(vals) if vals else 0.0] *)
Definition max_or_zero (vals : list spec_float) : spec_float :=
  match vals with
  | [] => S754_zero false
  | v :: vs => foldl (λ m x, if SFltb m x then x else m) v vs
  end.

Definition max_abs `{Interpreter} (body : bytes) : spec_float :=
  let computed :=
    text ← utf8_decode body;
    obj ← json_loads true json_depth text;
    match obj with
    | JObj fields =>
        vals ← mapR (λ '(_, v), match v with
                                | JList l => mapR (λ x, f ← to_float x; Ok (SFabs f)) l
                                | _ => Ok []
                                end) fields;
        Ok (max_or_zero (concat vals))
    | _ => Err TypeError
    end in
  match computed with Ok f => f | Err _ => minus_one end.

(** ** Counting *)

(** [d[k] = d.get(k, 0) + 1] *)
Fixpoint bump {K} `{EqDecision K} (k : K) (d : list (K * Z)) : list (K * Z) :=
  match d with
  | [] => [(k, 1)]
  | (k', n) :: d => if decide (k = k') then (k', n + 1) :: d else (k', n) :: bump k d
  end.

Definition counts_repr `{Interpreter} (d : list (pystr * Z)) : pystr :=
  s! "{" ++ intersperse (s! ", ") ((λ '(k, n), str_repr k ++ s! ": " ++ str_of_int n) <$> d) ++ s! "}".

(** [dict(sorted(d.items()))] of a dictionary with distinct integers for keys. *)
Definition sorted_repr (d : list (Z * Z)) : pystr :=
  s! "{" ++ intersperse (s! ", ")
    ((λ '(k, n), str_of_int k ++ s! ": " ++ str_of_int n) <$> sort_by (λ a b, a.1 <=? b.1) d) ++ s! "}".

(** * Environment *)

Class ProbeEnv (W : Type) := {
  (** [find_motu_device(MOTU_VID, MOTU_AVB_PID, serial=...)] *)
  find_device : pystr → M W UsbDeviceInfo;
  (** [UsbFsTransport(dev, timeout_ms=...)], entering and leaving it. *)
  probe_enter : UsbDeviceInfo → Z → M W unit;
  probe_exit : M W unit;
  probe_print : pystr → M W unit;
  (** [time.sleep], and user plus system time of [os.times()], in microseconds. *)
  probe_sleep : Z → M W unit;
  cpu_times : M W Z
}.

(** * Timed loops *)

(** [while going(time.monotonic()): a = body(a)] *)
Fixpoint while_time {S A} (clock : M S Z) (fuel : nat) (going : Z → bool) (body : A → M S A) (a : A)
    : M S A :=
  match fuel with
  | O => mraise AssertionError
  | S fuel =>
      t ← clock;
      if going t then a' ← body a; while_time clock fuel going body a' else mret a
  end.

Fixpoint times_do {S} (n : nat) (body : M S unit) : M S unit :=
  match n with O => mret tt | S n => _ ← body; times_do n body end.

Fixpoint each {S A} (body : A → M S unit) (l : list A) : M S unit :=
  match l with [] => mret tt | x :: l => _ ← body x; each body l end.

(** * The probes *)

Definition SERIAL : pystr := s! "0001f2fffe00c719".

(** ** The request builder of the probes *)

(** [build_query_get]: the fields in the order of the list. *)
Definition encode_queries (queries : list (pystr * pystr)) : result bytes :=
  count ← u32 (zlen queries);
  words ← mapR encode_field queries;
  Ok (count ++ concat words).

Definition build_query_get (seq message_seq : Z) (path : pystr) (queries : list (pystr * pystr))
    (etag header : pystr) : result bytes :=
  qf ← encode_queries queries;
  w ← sized_word (Str (s! "GET"));
  p ← sized_word (Str path);
  one ← u32 1;
  h ← sized_word (Str (s! "If-None-Match"));
  e ← sized_word (Str etag);
  motu_payload ← utom_prefix (w ++ p ++ one ++ h ++ e ++ qf);
  build_motu_frame seq header message_seq motu_payload.

(** The copies of meter_cadence_usb.py and meters_bench.py, which have no parameter
    for the header. *)
Definition cadence_build_query_get (seq msg : Z) (path : pystr) (queries : list (pystr * pystr))
    (etag : pystr) : result bytes :=
  build_query_get seq msg path queries etag (s! "NREK").
Definition bench_build_query_get (seq message_seq : Z) (path : pystr) (queries : list (pystr * pystr))
    (etag : pystr) : result bytes :=
  build_query_get seq message_seq path queries etag (s! "NREK").

(** ** meter_probe.py *)

Definition classify (pkt : bytes) : pystr :=
  if is_device_ack pkt then s! "ack" else
  let body := if 4 <=? zlen pkt then zdrop 4 pkt else pkt in
  if zl_eqb (ztake 4 body) (s! "NREK") || zl_eqb (ztake 4 body) (s! "PTTH") then s! "datastore"
  else s! "OTHER".

(** What [listen] collects. *)
Record listened := {
  total : Z;
  byte_total : Z;
  counts : list (pystr * Z);
  samples : list (Z * pystr);
  per_sec : list (Z * Z)
}.
Definition listened0 : listened :=
  {| total := 0; byte_total := 0; counts := []; samples := []; per_sec := [] |}.

(** The dictionaries and samples after a packet that came in second [bucket]. *)
Definition note (bucket : Z) (pkt : bytes) (a : listened) : listened :=
  let c := classify pkt in
  {| total := total a + 1; byte_total := byte_total a + zlen pkt; counts := bump c (counts a);
     samples := if zl_eqb c (s! "OTHER") && (zlen (samples a) <? 12)
                then samples a ++ [(zlen pkt, spaced_hex (ztake 64 pkt))] else samples a;
     per_sec := bump bucket (per_sec a) |}.

(** [us] microseconds are less than [secs] seconds. *)
Definition before_seconds (secs : spec_float) (us : Z) : bool :=
  match secs with
  | S754_zero _ => us <? 0
  | S754_infinity sign => negb sign
  | S754_nan => false
  | S754_finite sign m e =>
      let m := if sign then - Z.pos m else Z.pos m in
      us * 2 ^ Z.max 0 (- e) <? m * 2 ^ Z.max 0 e * 1000000
  end.

Section Probes.
Context `{Interpreter} {W : Type} `{UsbEnv W} `{ProbeEnv W}.
(** [exc.__class__.__name__], and figures with a format specification. *)
Variable class_name : exn → pystr.
Variable show_quotient : pystr → Z * Z → pystr.
Variable show_float : pystr → spec_float → pystr.
(** [datastore_payload], of a response or of [None]. *)
Variable datastore_payload : option bytes → result DatastorePayload.
(** The passes a timed loop may make. *)
Variable fuel : nat.

#[local] Abbreviation DS := (St (W := W)).

Definition world_time : M W Z := λ w, let '(t, w') := monotonic w in (Ok t, w').

(** The world's part of a computation with the client object. *)
Definition beside {A} (m : M W A) : M DS A := λ s, let '(r, w) := m s.2 in (r, (s.1, w)).
Definition say (line : pystr) : M DS unit := beside (probe_print line).
Definition ds_time : M DS Z := env monotonic.

(** [with UsbFsTransport(find_motu_device(...), timeout_ms=...) as t: body] *)
Definition with_transport (serial : pystr) (timeout_ms : Z) (body : UsbDeviceInfo → M W unit)
    (announce : UsbDeviceInfo → M W unit) : M W unit :=
  dev ← find_device serial;
  _ ← announce dev;
  _ ← probe_enter dev timeout_ms;
  mfinally (body dev) probe_exit.

(** [ds = MotuUsbDatastore(t); ds.init(); body] in it. *)
Definition with_datastore (serial : pystr) (timeout_ms : Z) (body : M DS unit) : M W unit :=
  with_transport serial timeout_ms
    (λ _ w, match MotuUsbDatastore_init DEFAULT_SEQ_START DEFAULT_MESSAGE_SEQ with
            | Err e => (Err e, w)
            | Ok d => let '(r, (_, w')) := (_ ← init; body) (d, w) in (r, w')
            end)
    (λ _, mret tt).

(** [while time.monotonic() < end: pkt = transport.bulk_read(512, timeout_ms=200) ...] *)
Definition listen_once (start : Z) (a : listened) : M W listened :=
  pkt ← bulk_read 512 200;
  if zl_eqb pkt [] then mret a else
  t ← world_time;
  mret (note (Z.quot (t - start) 1000000) pkt a).

Definition listen (seconds : spec_float) : M W listened :=
  began ← world_time;
  start ← world_time;
  while_time world_time fuel (λ t, before_seconds seconds (t - began)) (listen_once start) listened0.

(** The arguments: mode, seconds and path. *)
Definition probe_mode (argv : list pystr) : pystr := default (s! "noinit") (argv !! 0%nat).
Definition probe_seconds (argv : list pystr) : result spec_float :=
  match argv !! 1%nat with
  | None => Ok (float_of false 4 0)
  | Some s => match py_float s with Some f => Ok f | None => Err ValueError end
  end.
Definition probe_path (argv : list pystr) : pystr := default (s! "/datastore") (argv !! 2%nat).

Definition print_listened (l : listened) : M W unit :=
  _ ← probe_print (s! "RESULT frames=" ++ str_of_int (total l) ++ s! " bytes=" ++
                   str_of_int (byte_total l) ++ s! " counts=" ++ counts_repr (counts l));
  _ ← probe_print (s! "per_second=" ++ sorted_repr (per_sec l));
  each (λ '(ln, hx), probe_print (s! "  OTHER len=" ++ str_of_int ln ++ s! ": " ++ hx)) (samples l).

(** The frames it sends, by mode. *)
Definition probe_send (mode path : pystr) : M W unit :=
  seq ← mlift (HostSequencer_init DEFAULT_SEQ_START);
  let both := zl_eqb mode (s! "getthenlisten") in
  let '(first, seq') := take_seq seq in
  _ ← (if zl_eqb mode (s! "init") || both
       then _ ← bulk_write (build_init first); probe_print (s! "sent init") else mret tt);
  if both then
    let '(second, _) := take_seq seq' in
    frame ← mlift (build_get_frame second 2 path (s! "0") (s! "NREK") None None);
    _ ← bulk_write frame;
    probe_print (s! "sent GET " ++ path)
  else mret tt.

Definition meter_probe_main (argv : list pystr) : M W unit :=
  let mode := probe_mode argv in
  secs ← mlift (probe_seconds argv);
  let path := probe_path argv in
  with_transport SERIAL 600
    (λ _, _ ← probe_send mode path; l ← listen secs; print_listened l)
    (λ dev, probe_print
      (s! "device=" ++ product dev ++ s! " serial=" ++ serial dev ++ s! " iface=" ++
       str_of_int (interface dev) ++ s! " in=0x" ++ format_hex 2 (ep_in dev) ++ s! " out=0x" ++
       format_hex 2 (ep_out dev) ++ s! " mode=" ++ mode ++ s! " listen=" ++ float_repr secs ++ s! "s")).

(** ** Requests through the client *)

(** A request of the probes through the client's own parts: it counts the message
    sequence on without wrapping it. *)
Definition query_request (frame_of : Z → Z → result bytes) (timeout_ms : Z) : M DS bytes :=
  seq ← _next_host_seq;
  msg ← this msg_seq;
  frame ← mlift (frame_of seq msg);
  _ ← _write_frame frame;
  _ ← obj (λ d, set_msg_seq (msg_seq d + 1) d);
  _collect_response msg timeout_ms no_callbacks.

(** [poll] of meter_cadence_usb.py *)
Definition cadence_poll (group etag : pystr) : M DS (option Z * bytes) :=
  resp ← query_request (λ seq msg,
           cadence_build_query_get seq msg (s! "/meters") [(s! "meters", group)] etag) 2000;
  et ← mlift (extract_response_etag resp);
  p ← mlift (datastore_payload (Some resp));
  n ← mlift (etag_number et);
  mret (n, body p).

(** [poll] of meters_bench.py *)
Definition bench_poll (group : pystr) : M DS bytes :=
  query_request (λ seq msg,
    bench_build_query_get seq msg (s! "/meters") [(s! "meters", group)] (s! "0")) 2000.

Definition queries_repr (queries : list (pystr * pystr)) : pystr :=
  s! "[" ++ intersperse (s! ", ")
    ((λ '(n, v), s! "(" ++ str_repr n ++ s! ", " ++ str_repr v ++ s! ")") <$> queries) ++ s! "]".

(** [f"{x}"] of an optional text or number. *)
Definition show_opt {A} (f : A → pystr) (o : option A) : pystr :=
  match o with Some a => f a | None => s! "None" end.

(** [do] of meters_query_probe.py; its [try] is around the collection only. *)
Definition query_do (path : pystr) (queries : list (pystr * pystr)) (etag : pystr) (timeout_ms : Z)
    (label : pystr) : M DS (option pystr) :=
  let asked := s! "[" ++ label ++ s! "] path=" ++ str_repr path ++ s! " q=" ++ queries_repr queries ++
               s! " etag_in=" ++ etag ++ s! " -> " in
  seq ← _next_host_seq;
  msg ← this msg_seq;
  frame ← mlift (build_query_get seq msg path queries etag (s! "NREK"));
  _ ← _write_frame frame;
  _ ← obj (λ d, set_msg_seq (msg_seq d + 1) d);
  collected ← mcatch (resp ← _collect_response msg timeout_ms no_callbacks; mret (Some resp))
    (λ e, _ ← say (asked ++ s! "ERROR " ++ class_name e ++ s! ": " ++ exn_text e); mret None);
  match collected with
  | None => mret None
  | Some resp =>
      st ← mlift (response_status_code resp);
      et ← mlift (extract_response_etag resp);
      p ← mlift (datastore_payload (Some resp));
      let txt := match utf8_decode (body p) with
                 | Ok t => t
                 | Err _ => s! "(binary) " ++ spaced_hex (ztake 80 (body p))
                 end in
      _ ← say (asked ++ s! "status=" ++ show_opt str_of_int st ++ s! " etag_out=" ++
               show_opt id et ++ s! " body_len=" ++ str_of_int (zlen (body p)));
      _ ← say (s! "    body[:300]: " ++ ztake 300 txt);
      mret et
  end.

Definition query_main : M W unit :=
  let level := [(s! "meters", s! "mix/level")] in
  with_datastore SERIAL 2500
    (et ← query_do (s! "/meters") level (s! "0") 2000 (s! "qfield mix/level");
     _ ← query_do (s! "/meters?meters=mix/level") [] (s! "0") 2000 (s! "literal-path control");
     _ ← query_do (s! "/meters") [(s! "meters", s! "ext/input")] (s! "0") 2000 (s! "qfield ext/input");
     _ ← query_do (s! "/meters") [(s! "meters", s! "ext/output")] (s! "0") 2000 (s! "qfield ext/output");
     _ ← query_do (s! "/meters") [(s! "meters", s! "mix/level:ext/input")] (s! "0") 2000
           (s! "qfield multi-group");
     match or_text et None with
     | Some e => _ ← query_do (s! "/meters") level e 3000 (s! "repoll-with-etag"); mret tt
     | None => mret tt
     end).

(** ** meters_detail.py and raw_get_probe.py: paths as they are *)

Definition plain_get (path : pystr) : M DS bytes :=
  Usb.get path (s! "0") None Usb.DEFAULT_RESPONSE_TIMEOUT_MS no_callbacks None.

Definition dump (path : pystr) : M DS unit :=
  got ← mcatch (resp ← plain_get path; mret (Some resp))
    (λ e, _ ← say (s! "[GET " ++ path ++ s! "] ERROR " ++ class_name e ++ s! ": " ++ exn_text e);
          mret None);
  match got with
  | None => mret tt
  | Some resp =>
      st ← mlift (response_status_code resp);
      p ← mlift (datastore_payload (Some resp));
      _ ← say (s! "[GET " ++ path ++ s! "] resp_len=" ++ str_of_int (zlen resp) ++ s! " status=" ++
               show_opt str_of_int st ++ s! " body_len=" ++ str_of_int (zlen (body p)));
      say (s! "    ascii: " ++ printable_text resp)
  end.

Definition detail_main : M W unit :=
  with_datastore SERIAL 800
    (_ ← dump (s! "/meters");
     _ ← dump (s! "/meters");
     each dump [s! "/activityMeters"; s! "/meters?meterFormat=0"; s! "/meters?format=short";
                s! "/meters?meters=0"; s! "/meters/0"; s! "/meters?client=1"]).

Definition RAW_DEFAULT_PATHS : list pystr :=
  [s! "/apiversion"; s! "/datastore/ext/caps/meters"; s! "/datastore/ext/caps/activityMeters";
   s! "/meters"; s! "/datastore/meters"].

(** A pass of its loop: whatever goes wrong is shown. *)
Definition raw_get (p : pystr) : M DS unit :=
  mcatch
    (resp ← plain_get p;
     st ← mlift (response_status_code resp);
     et ← mlift (extract_response_etag resp);
     pl ← mlift (datastore_payload (Some resp));
     let b := body pl in
     let preview_txt := match utf8_decode (ztake 96 b) with
                        | Ok t => t
                        | Err _ => s! "(non-utf8 / binary)"
                        end in
     _ ← say (p ++ s! ": resp_len=" ++ str_of_int (zlen resp) ++ s! " status=" ++
              show_opt str_of_int st ++ s! " etag=" ++ show_opt id et ++ s! " body_len=" ++
              str_of_int (zlen b));
     _ ← say (s! "    body.hex[0:48]=" ++ spaced_hex (ztake 48 b));
     say (s! "    body.txt[0:96]=" ++ str_repr preview_txt))
    (λ e, say (p ++ s! ": ERROR " ++ class_name e ++ s! ": " ++ exn_text e)).

Definition raw_main (argv : list pystr) : M W unit :=
  with_datastore SERIAL 800 (each raw_get (match argv with [] => RAW_DEFAULT_PATHS | ps => ps end)).

(** ** meters_bench.py *)

(** [for _ in range(N): last = poll(ds, GROUP)] *)
Fixpoint bench_polls (n : nat) (group : pystr) (last : option bytes) : M DS (option bytes) :=
  match n with
  | O => mret last
  | S n => resp ← bench_poll group; bench_polls n group (Some resp)
  end.

Definition bench_main (group : pystr) (n : Z) : M W unit :=
  with_datastore SERIAL 2000
    (_ ← times_do 5 (_ ← bench_poll group; mret tt);
     c0 ← beside cpu_times;
     w0 ← ds_time;
     last ← bench_polls (Z.to_nat n) group None;
     w1 ← ds_time;
     c1 ← beside cpu_times;
     let dt := w1 - w0 in
     let cpu := c1 - c0 in
     p ← mlift (datastore_payload last);
     st ← this last_response_stats;
     code ← mlift (match last with Some r => response_status_code r | None => Err TypeError end);
     _ ← say (s! "group=" ++ group ++ s! " N=" ++ str_of_int n ++ s! " status=" ++
              show_opt str_of_int code ++ s! " resp_body_bytes=" ++ str_of_int (zlen (body p)));
     ms_poll ← mlift (quotient dt (n * 1000));
     rate ← mlift (quotient (n * 1000000) dt);
     _ ← say (s! "  wall=" ++ show_quotient (s! ".0f") (dt, 1000) ++ s! "ms  ms/poll=" ++
              show_quotient (s! ".2f") ms_poll ++ s! "  polls/sec=" ++ show_quotient (s! ".0f") rate);
     cpu_poll ← mlift (quotient cpu (n * 1000));
     util ← mlift (quotient (cpu * 100) dt);
     _ ← say (s! "  cpu(user+sys)=" ++ show_quotient (s! ".0f") (cpu, 1000) ++ s! "ms  cpu/poll=" ++
              show_quotient (s! ".3f") cpu_poll ++ s! "ms  cpu_util@maxrate=" ++
              show_quotient (s! ".1f") util ++ s! "%");
     match st with
     | None => mret tt
     | Some st =>
         say (s! "  per-poll: usb_reads=" ++ str_of_int (rs_reads st) ++ s! " frames=" ++
              str_of_int (rs_accepted_frames st) ++ s! " acks=" ++ str_of_int (rs_ack_packets st) ++
              s! " bytes=" ++ str_of_int (rs_response_bytes st))
     end).

(** ** meter_cadence_usb.py *)

Definition cadence_sample (group : pystr) (acc : list (Z * option Z)) : M DS (list (Z * option Z)) :=
  '(e, _) ← cadence_poll group (s! "0");
  t ← ds_time;
  mret (acc ++ [(t, e)]).

(** [max(ets) - min(ets) if ets else 0] *)
Definition etag_span (ets : list Z) : Z :=
  match ets with [] => 0 | e :: es => foldl Z.max e es - foldl Z.min e es end.

(** The line of the samples: [ts[-1]] and [ts[0]] raise when there are none. *)
Definition max_rate_line (found : list (Z * option Z)) : result pystr :=
  let ts := found.*1 in
  let ets := omap snd found in
  match head ts, list.last ts with
  | Some t0, Some t1 =>
      let dur := t1 - t0 in
      let polls := zlen found in
      let uniq := zlen (remove_dups ets) in
      rate ← quotient (polls * 1000000) dur;
      etag_rate ← quotient (etag_span ets * 1000000) dur;
      share ← quotient (uniq * 100) polls;
      Ok (s! "[A max-rate USB] polls=" ++ str_of_int polls ++ s! " dur=" ++
          show_quotient (s! ".2f") (dur, 1000000) ++ s! "s polls/s=" ++ show_quotient (s! ".0f") rate ++
          s! " etag_rate=" ++ show_quotient (s! ".0f") etag_rate ++ s! "/s unique=" ++
          str_of_int uniq ++ s! " (" ++ show_quotient (s! ".0f") share ++ s! "% new)")
  | _, _ => Err IndexError
  end.

(** First and last number of a sweep, and its polls. *)
Record sweep := { sw_first : option Z; sw_last : option Z; sw_n : Z }.

Definition sweep_note (e : option Z) (a : sweep) : sweep :=
  match e with
  | None => {| sw_first := sw_first a; sw_last := sw_last a; sw_n := sw_n a + 1 |}
  | Some n => {| sw_first := Some (default n (sw_first a)); sw_last := Some n; sw_n := sw_n a + 1 |}
  end.

Definition sweep_once (group : pystr) (sleep_ms : Z) (a : sweep) : M DS sweep :=
  '(e, _) ← cadence_poll group (s! "0");
  _ ← (if negb (sleep_ms =? 0) then beside (probe_sleep (sleep_ms * 1000)) else mret tt);
  mret (sweep_note e a).

(** [(last - first) / d if both else 0] *)
Definition sweep_rate (a : sweep) (d : Z) : result (Z * Z) :=
  match sw_first a, sw_last a with
  | Some first, Some last => quotient ((last - first) * 1000000) d
  | _, _ => Ok (0, 1)
  end.

Definition cadence_sweep (group : pystr) (sleep_ms : Z) : M DS unit :=
  _ ← cadence_poll group (s! "0");
  start ← ds_time;
  a ← while_time ds_time fuel (λ t, t <? start + 1000000) (sweep_once group sleep_ms)
        {| sw_first := None; sw_last := None; sw_n := 0 |};
  now ← ds_time;
  let d := now - start in
  rate ← mlift (sweep_rate a d);
  polls ← mlift (quotient (sw_n a * 1000000) d);
  say (s! "   sleep=" ++ show_quotient (s! "2d") (sleep_ms, 1) ++ s! "ms polls/s=" ++
       show_quotient (s! "4.0f") polls ++ s! " etag_rate=" ++ show_quotient (s! "4.0f") rate ++ s! "/s").

Definition cadence_main (serial group : pystr) : M W unit :=
  with_datastore serial 2000
    (_ ← times_do 3 (_ ← cadence_poll group (s! "0"); mret tt);
     '(_, sample) ← cadence_poll group (s! "0");
     _ ← say (s! "group=" ++ group ++ s! " sample_max_abs=" ++ show_float (s! ".4f") (max_abs sample) ++
              s! "  (0.0 = idle/silence; >0 = signal present)");
     began ← ds_time;
     found ← while_time ds_time fuel (λ t, t <? began + 2000000) (cadence_sample group) [];
     line ← mlift (max_rate_line found);
     _ ← say line;
     _ ← say (s! "[C sweep USB] sleep_ms -> polls/s, etag_rate/s");
     each (cadence_sweep group) [0; 5; 10; 20]).

(** All of them, with their arguments. *)
Inductive probe :=
  | MeterProbe (argv : list pystr)
  | MeterCadence (serial group : pystr)
  | MetersBench (group : pystr) (n : Z)
  | MetersQuery
  | MetersDetail
  | RawGet (argv : list pystr).

Definition run_probe (p : probe) : M W unit :=
  match p with
  | MeterProbe argv => meter_probe_main argv
  | MeterCadence serial group => cadence_main serial group
  | MetersBench group n => bench_main group n
  | MetersQuery => query_main
  | MetersDetail => detail_main
  | RawGet argv => raw_main argv
  end.
End Probes.

(** * The request builder is the proxy's *)

Lemma encode_queries_fields queries :
  encode_queries queries = encode_query_fields (FFields (prod_map id QStr <$> queries)) None.
Proof.
  unfold encode_queries, encode_query_fields, _normalize_query_fields.
  replace ((λ '(name, value), (name, qstr value)) <$> (prod_map id QStr <$> queries)) with queries; [done|].
  induction queries as [|[n v] qs IH]; [done|]. rewrite !fmap_cons, <- IH. done.
Qed.

(** It builds the frame that [build_get_frame] builds, and fails when that fails. *)
Lemma build_query_get_same q m path queries etag header f :
  build_query_get q m path queries etag header = Ok f ↔
  build_get_frame q m path etag header None (Some (prod_map id QStr <$> queries)) = Ok f.
Proof.
  unfold build_query_get, build_get_frame. rewrite encode_queries_fields.
  destruct (encode_query_fields _ _) as [qf|e]; [done|].
  split; [done|]. cbn [mbind result_bind].
  repeat (match goal with |- context [?x ≫= _] =>
    lazymatch x with _ ≫= _ => fail | Err _ => fail | _ => destruct x; cbn [mbind result_bind]; [|done] end end).
  done.
Qed.

(** * What a probe moves *)

Section Loops.
Context {S : Type} (R : S → S → Prop) `{!PreOrder R}.

Lemma follows_while {A} (clock : M S Z) fuel going (body : A → M S A) a :
  follows R clock → (∀ a, follows R (body a)) → follows R (while_time clock fuel going body a).
Proof. intros Hc Hb. revert a. induction fuel as [|fuel IH]; intros a; cbn [while_time]; walk. Qed.
Lemma follows_times n (body : M S unit) : follows R body → follows R (times_do n body).
Proof. intros Hb. induction n as [|n IH]; cbn [times_do]; walk. Qed.
Lemma follows_each {A} (body : A → M S unit) l :
  (∀ a, follows R (body a)) → follows R (each body l).
Proof. intros Hb. induction l as [|x l IH]; cbn [each]; walk. Qed.
End Loops.

Section Moves.
Context `{Interpreter} {W : Type} `{UsbEnv W} `{ProbeEnv W} (R : W → W → Prop) `{!PreOrder R}.
Variable plain : bytes → Prop.

(** Everything the probes use follows [R]. *)
Record probe_follows : Prop := {
  pf_usb : usb_follows R plain;
  pf_find serial w : R w (find_device serial w).2;
  pf_enter dev t w : R w (probe_enter dev t w).2;
  pf_exit w : R w (probe_exit w).2;
  pf_print l w : R w (probe_print l w).2;
  pf_sleep t w : R w (probe_sleep t w).2;
  pf_cpu w : R w (cpu_times w).2
}.
Hypothesis HR : probe_follows.

#[local] Abbreviation RS := (on_world (X := datastore) R).

Lemma walk_beside {A} (m : M W A) : follows R m → follows RS (beside m).
Proof. intros Hm s. unfold beside, on_world. specialize (Hm s.2). by destruct (m s.2). Qed.
Lemma walk_world_time : follows R world_time.
Proof. intros w. unfold world_time. pose proof (uf_monotonic R plain (pf_usb HR) w) as Ht. by destruct (monotonic w). Qed.
Lemma walk_ds_time : follows RS ds_time.
Proof. apply walk_env, (uf_monotonic R plain (pf_usb HR)). Qed.
Lemma walk_say l : follows RS (say l).
Proof. apply walk_beside. exact (pf_print HR l). Qed.
Lemma walk_probe_print l : follows R (probe_print l).
Proof. exact (pf_print HR l). Qed.
Lemma walk_cpu : follows RS (beside cpu_times).
Proof. apply walk_beside. exact (pf_cpu HR). Qed.
Lemma walk_sleep t : follows RS (beside (probe_sleep t)).
Proof. apply walk_beside. exact (pf_sleep HR t). Qed.
Lemma walk_raw_read n t : follows R (bulk_read n t).
Proof. exact (uf_read R plain (pf_usb HR) n t). Qed.
Lemma walk_set f : follows RS (obj f).
Proof. by apply walk_obj. Qed.
Lemma walk_host_seq : follows RS _next_host_seq.
Proof. by apply walk_seq. Qed.
Lemma walk_attribute {A} (f : datastore → A) : follows RS (this f).
Proof. by apply walk_this. Qed.
Lemma walk_collected m t : follows RS (_collect_response m t no_callbacks).
Proof. apply (walk_collect R plain (pf_usb HR)), no_callbacks_follow. Qed.
Lemma walk_plain_get path : follows RS (plain_get path).
Proof. apply (walk_usb_get R plain (pf_usb HR)), no_callbacks_follow. Qed.

#[local] Hint Resolve walk_world_time walk_ds_time walk_say walk_probe_print walk_cpu walk_sleep walk_raw_read walk_set
  walk_host_seq walk_attribute walk_collected walk_plain_get follows_while follows_times follows_each : walk.

(** A request with a frame that the proxy's builder makes. *)
Lemma walk_built q m path queries etag header {A} (k : bytes → M (St (W := W)) A) :
  (∀ f, plain f → follows RS (k f)) →
  follows RS (mlift (build_query_get q m path queries etag header) ≫= k).
Proof.
  intros Hk. apply follows_lifted; [exact _|]. intros f E. apply Hk.
  apply build_query_get_same in E. by apply (uf_get R plain (pf_usb HR)) in E.
Qed.

Lemma walk_request path queries etag header t :
  follows RS (query_request (λ q m, build_query_get q m path queries etag header) t).
Proof.
  unfold query_request. do 2 (apply follows_bind; [exact _|walk|intros ?]). apply walk_built. intros f Hf.
  pose proof (walk_write R plain (pf_usb HR) f Hf). walk.
Qed.
Lemma walk_cadence_poll payload group etag : follows RS (cadence_poll payload group etag).
Proof.
  unfold cadence_poll, cadence_build_query_get. apply follows_bind; [exact _|apply walk_request|intros ?]. walk.
Qed.
Lemma walk_bench_poll group : follows RS (bench_poll group).
Proof. apply walk_request. Qed.
#[local] Hint Resolve walk_cadence_poll walk_bench_poll : walk.

(** ** The bodies *)

Lemma walk_query_do class_name payload path queries etag t label :
  follows RS (query_do class_name payload path queries etag t label).
Proof.
  unfold query_do. cbv zeta. do 2 (apply follows_bind; [exact _|walk|intros ?]).
  apply walk_built. intros f Hf. pose proof (walk_write R plain (pf_usb HR) f Hf). walk.
Qed.
Lemma walk_dump class_name payload path : follows RS (dump class_name payload path).
Proof. unfold dump. walk. Qed.
Lemma walk_raw_get class_name payload path : follows RS (raw_get class_name payload path).
Proof. unfold raw_get. cbv zeta. walk. Qed.
Lemma walk_bench_polls n group last : follows RS (bench_polls n group last).
Proof. revert last. induction n as [|n IH]; intros last; cbn [bench_polls]; walk. Qed.
Lemma walk_sample payload group acc : follows RS (cadence_sample payload group acc).
Proof. unfold cadence_sample. walk. Qed.
Lemma walk_sweep_once payload group ms a : follows RS (sweep_once payload group ms a).
Proof. unfold sweep_once. walk. Qed.
#[local] Hint Resolve walk_query_do walk_dump walk_raw_get walk_bench_polls walk_sample walk_sweep_once : walk.
Lemma walk_sweep show payload fuel group ms : follows RS (cadence_sweep show payload fuel group ms).
Proof. unfold cadence_sweep. cbv zeta. walk. Qed.
#[local] Hint Resolve walk_sweep : walk.

Lemma walk_with_transport serial t body announce :
  (∀ dev, follows R (body dev)) → (∀ dev, follows R (announce dev)) →
  follows R (with_transport serial t body announce).
Proof.
  intros Hb Ha. unfold with_transport.
  apply follows_bind; [exact _|exact (pf_find HR serial)|intros dev].
  apply follows_bind; [exact _|apply Ha|intros ?].
  apply follows_bind; [exact _|exact (pf_enter HR dev t)|intros ?].
  apply follows_finally; [exact _|apply Hb|exact (pf_exit HR)].
Qed.

Lemma walk_with_datastore serial t body :
  follows RS body → follows R (with_datastore serial t body).
Proof.
  intros Hb. apply walk_with_transport; [|walk]. intros _ w.
  destruct (MotuUsbDatastore_init _ _) as [d|e]; [|done].
  assert (follows RS (_ ← init; body)) as Hi
    by (apply follows_bind; [exact _|apply (walk_init R plain (pf_usb HR))|done]).
  specialize (Hi (d, w)). unfold on_world in Hi.
  match goal with |- R w (match ?x with _ => _ end).2 =>
    assert (R w x.2.2) as Hx by exact Hi; destruct x as [r [d' w']] end.
  exact Hx.
Qed.

Lemma walk_listen fuel secs : follows R (listen fuel secs).
Proof. unfold listen. assert (∀ start a, follows R (listen_once start a)) by (intros; unfold listen_once; walk). walk. Qed.

Lemma walk_probe_send mode path : follows R (probe_send mode path).
Proof.
  assert (∀ f, plain f → follows R (bulk_write f)) as Hw by (intros f Hf w; by apply (uf_write R plain (pf_usb HR))).
  pose proof (uf_init R plain (pf_usb HR)) as Hi. unfold probe_send. cbv zeta.
  apply follows_bind; [exact _|walk|intros seq]. destruct (take_seq seq) as [q1 seq1].
  apply follows_bind; [exact _|walk|intros ?]. destruct (zl_eqb _ _); [|walk].
  destruct (take_seq seq1) as [q2 seq2]. apply follows_lifted; [exact _|]. intros f E.
  apply (uf_get R plain (pf_usb HR)) in E. walk.
Qed.

Lemma walk_print_listened l : follows R (print_listened l).
Proof. unfold print_listened. walk. apply follows_each; [exact _|]. intros [ln hx]. walk. Qed.

Lemma walk_probe class_name show_q show_f payload fuel p :
  follows R (run_probe class_name show_q show_f payload fuel p).
Proof.
  destruct p; cbn [run_probe].
  - unfold meter_probe_main. pose proof walk_listen. pose proof walk_probe_send.
    pose proof walk_print_listened.
    apply follows_bind; [exact _|walk|intros secs]. apply walk_with_transport; intros dev; walk.
  - apply walk_with_datastore. walk.
  - apply walk_with_datastore. cbv zeta. walk.
  - apply walk_with_datastore. walk.
  - apply walk_with_datastore. walk.
  - apply walk_with_datastore. walk.
Qed.
End Moves.

(** * The probes are read-only *)

(** A frame that asks: an acknowledgement, an initialization, or one that its
    receiver decodes to a GET. *)
Inductive asking_frame : bytes → Prop :=
  | asks_ack q : asking_frame (build_ack q)
  | asks_init q : asking_frame (build_init q)
  | asks_get f rq : Wire.decode f = Some rq → Wire.rq_method rq = s! "GET" → asking_frame f.

Section ReadOnly.
Context `{Interpreter} {W : Type} `{UsbLog W} `{ProbeEnv W}.

(** Only such frames are added to the log. *)
Definition only_asks (w w' : W) : Prop := ∃ new, sent w' = sent w ++ new ∧ Forall asking_frame new.

#[global] Instance only_asks_preorder : PreOrder only_asks.
Proof.
  split.
  - intros w. exists []. by rewrite app_nil_r.
  - intros w1 w2 w3 (n1 & E1 & Q1) (n2 & E2 & Q2). exists (n1 ++ n2).
    rewrite E2, E1, app_assoc. split; [done|]. by apply list.Forall_app.
Qed.

Lemma only_asks_same w w' : sent w' = sent w → only_asks w w'.
Proof. intros E. exists []. by rewrite E, app_nil_r. Qed.

Lemma only_asks_usb : usb_follows only_asks asking_frame.
Proof.
  split; try (intros; apply only_asks_same;
    solve [auto using sent_monotonic, sent_read, sent_begin, sent_cancellable]).
  - intros f w Hf. destruct (sent_write f w) as [E|[_ E]]; [exists [f]; auto | by apply only_asks_same].
  - constructor.
  - constructor.
  - intros q m path etag header client fields f E.
    apply get_frame_decodes in E as (hb & pb & eb & fs & _ & E). by eapply asks_get.
Qed.

(** What is not the transport sends nothing. *)
Record probe_silent : Prop := {
  ps_find serial w : sent (find_device serial w).2 = sent w;
  ps_enter dev t w : sent (probe_enter dev t w).2 = sent w;
  ps_exit w : sent (probe_exit w).2 = sent w;
  ps_print l w : sent (probe_print l w).2 = sent w;
  ps_sleep t w : sent (probe_sleep t w).2 = sent w;
  ps_cpu w : sent (cpu_times w).2 = sent w
}.

Lemma silent_follows : probe_silent → probe_follows only_asks asking_frame.
Proof. intros []. split; [apply only_asks_usb| | | | | |]; intros; by apply only_asks_same. Qed.

(** C38. The probes are read-only, as they say: whatever the device answers, whatever
    the arguments and however long they run, all that a probe puts on the wire is
    acknowledgements, initializations and frames that a receiver decodes to a GET. *)
Theorem probes_read_only class_name show_q show_f payload fuel p w :
  probe_silent →
  let '(_, w') := run_probe class_name show_q show_f payload fuel p w in
  ∃ new, sent w' = sent w ++ new ∧ Forall asking_frame new.
Proof.
  intros Hs. pose proof (walk_probe only_asks asking_frame (silent_follows Hs)
                           class_name show_q show_f payload fuel p w) as Hp.
  destruct (run_probe class_name show_q show_f payload fuel p w) as [r w']. exact Hp.
Qed.
End ReadOnly.

(** A device that is found at once and an output that is dropped. *)
Definition demo_device : UsbDeviceInfo :=
  {| sysfs_name := s! "1-1"; devfs_path := []; serial := SERIAL; product := s! "M4"; interface := 3;
     ep_out := 2; ep_in := 0x83; info_max_packet_size := 512 |}.
#[local] Instance script_probe : ProbeEnv script := {
  find_device := λ _, mret demo_device; probe_enter := λ _ _, mret tt; probe_exit := mret tt;
  probe_print := λ _, mret tt; probe_sleep := λ _, mret tt; cpu_times := mret 0
}.

(** A probe that asks for a path and hears nothing. *)
Definition script0 : script := {| sc_clock := 0; sc_in := []; sc_out := [] |}.

Lemma probes_read_only_witness :
  let '(_, w) := run_probe (H := demo_python) (λ _, []) (λ _ _, []) (λ _ _, []) (λ _, Err TypeError) 3
                   (MeterProbe [s! "getthenlisten"; s! "0"; s! "/meters"]) script0 in
  zlen (sc_out w) = 2 ∧ ∃ new, sc_out w = [] ++ new ∧ Forall asking_frame new.
Proof.
  assert (probe_silent (H1 := script_log)) as Hs by by split.
  pose proof (probes_read_only (H := demo_python) (H1 := script_log) (λ _, []) (λ _ _, []) (λ _ _, []) (λ _, Err TypeError) 3
    (MeterProbe [s! "getthenlisten"; s! "0"; s! "/meters"]) script0 Hs) as Ho.
  revert Ho. set (x := run_probe _ _ _ _ _ _ _).
  assert (zlen (sc_out x.2) = 2) as Hx by (vm_compute; reflexivity). destruct x as [r w]. cbn in *. auto.
Defined.

(** * The timed loops end *)

Section Ends.
Context {S A : Type} (time : S → Z) (clock : M S Z) (going : Z → bool) (stop : Z).
Hypothesis clock_reads : ∀ s, ∃ s', clock s = (Ok (time s), s') ∧ time s <= time s'.
Hypothesis going_stops : ∀ t, stop <= t → going t = false.

(** Enough fuel for a pass in each microsecond until [stop]: more changes nothing, so
    the loop ends as it would with any number of passes. *)
Lemma while_time_ends (body : A → M S A) :
  (∀ a s a' s', body a s = (Ok a', s') → time s < time s') →
  ∀ fuel a s more, (Z.to_nat (stop - time s) < fuel)%nat →
  while_time clock (fuel + more) going body a s = while_time clock fuel going body a s.
Proof.
  intros Hb fuel. induction fuel as [|fuel IH]; intros a s more Hf; [lia|].
  cbn [Nat.add while_time]. destruct (clock_reads s) as (s1 & Ec & Hs1).
  rewrite !(M_bind_eq _ _ _ _ _ Ec). destruct (going (time s)) eqn:Eg; [|done].
  assert (time s < stop) by (destruct (decide (stop <= time s)); [by rewrite going_stops in Eg|lia]).
  destruct (body a s1) as [[a'|e] s2] eqn:Eb; [|by rewrite !(M_bind_err _ _ _ _ _ Eb)].
  rewrite !(M_bind_eq _ _ _ _ _ Eb). apply IH. specialize (Hb _ _ _ _ Eb). lia.
Qed.
End Ends.

(** The time at which [listen] stops. *)
Definition listen_us (secs : spec_float) : Z :=
  match secs with S754_finite _ m e => Z.pos m * 2 ^ Z.max 0 e * 1000000 | _ => 0 end.

Lemma before_seconds_stops secs us :
  secs ≠ S754_infinity false → listen_us secs <= us → before_seconds secs us = false.
Proof.
  destruct secs as [s|[] | |s m e]; cbn; intros Hne Hus; [|done|done|done|]; apply Z.ltb_ge; [done|].
  pose proof (Z.pow_pos_nonneg 2 (Z.max 0 e)). pose proof (Z.pow_pos_nonneg 2 (Z.max 0 (- e))).
  destruct s; nia.
Qed.

Section ListenEnds.
Context {W : Type} `{UsbEnv W} (time : W → Z).
Hypothesis reads_clock : ∀ w, (monotonic w).1 = time w ∧ time w <= time (monotonic w).2.
(** A transfer, or its timeout, takes time. *)
Hypothesis read_takes_time : ∀ n t w, time w < time (bulk_read n t w).2.

Lemma world_time_reads w : ∃ w', world_time w = (Ok (time w), w') ∧ time w <= time w'.
Proof.
  unfold world_time. destruct (reads_clock w) as [E1 E2]. destruct (monotonic w) as [t w'].
  cbn in *. subst t. eauto.
Qed.

(** [listen] ends for every time but an infinite one: a pass for each microsecond is
    enough. *)
Theorem listen_ends secs w fuel more :
  secs ≠ S754_infinity false → (Z.to_nat (listen_us secs) < fuel)%nat →
  listen (fuel + more) secs w = listen fuel secs w.
Proof.
  intros Hne Hf. unfold listen. destruct (world_time_reads w) as (w1 & E1 & H1).
  rewrite !(M_bind_eq _ _ _ _ _ E1). destruct (world_time_reads w1) as (w2 & E2 & H2).
  rewrite !(M_bind_eq _ _ _ _ _ E2).
  apply (while_time_ends time _ _ (time w + listen_us secs)); [apply world_time_reads| | |lia].
  - intros t Ht. apply before_seconds_stops; [done|lia].
  - intros a s a' s' E. unfold listen_once in E. pose proof (read_takes_time 512 200 s) as Ht.
    apply M_bind_ok in E as (pkt & s1 & Er & E). rewrite Er in Ht. cbn in Ht.
    destruct (zl_eqb pkt []); [by injection E as _ <-|].
    destruct (world_time_reads s1) as (s2 & E3 & H3). rewrite (M_bind_eq _ _ _ _ _ E3) in E.
    injection E as _ <-. lia.
Qed.
End ListenEnds.

(** * [listen] accounts for what it read *)

(** What a dictionary holds for a key, 0 if nothing. *)
Fixpoint dict_get0 {K} `{EqDecision K} (k : K) (d : list (K * Z)) : Z :=
  match d with [] => 0 | (k', n) :: d => if decide (k = k') then n else dict_get0 k d end.

Lemma bump_get {K} `{EqDecision K} (k k' : K) d :
  dict_get0 k' (bump k d) = dict_get0 k' d + (if decide (k = k') then 1 else 0).
Proof.
  induction d as [|[k0 n] d IH]; cbn; [by repeat case_decide; simplify_eq|].
  destruct (decide (k = k0)) as [<-|Hn]; cbn; repeat case_decide; simplify_eq; lia.
Qed.

Definition is_other (p : Z * bytes) : Prop := classify p.2 = s! "OTHER".
#[global] Instance is_other_dec p : Decision (is_other p).
Proof. unfold is_other. apply _. Defined.

Definition described (p : Z * bytes) : Z * pystr := (zlen p.2, spaced_hex (ztake 64 p.2)).

(** The figures of some packets, each with the second it came in. *)
Record figures (pkts : list (Z * bytes)) (l : listened) : Prop := {
  fg_total : total l = zlen pkts;
  fg_bytes : byte_total l = sum ((λ p, zlen p.2) <$> pkts);
  fg_counts c : dict_get0 c (counts l) = zlen (filter (λ p, classify p.2 = c) pkts);
  fg_seconds b : dict_get0 b (per_sec l) = zlen (filter (λ p, p.1 = b) pkts);
  fg_samples : samples l = take 12 (described <$> filter is_other pkts)
}.

Lemma sum_snoc l x : sum (l ++ [x]) = sum l + x.
Proof. induction l as [|y l IH]; cbn in *; [lia|]. unfold sum in *. cbn. lia. Qed.

Lemma filter_snoc_len {A} (P : A → Prop) `{∀ x, Decision (P x)} l x :
  zlen (filter P (l ++ [x])) = zlen (filter P l) + (if decide (P x) then 1 else 0).
Proof.
  rewrite list.filter_app. unfold zlen. rewrite length_app, filter_cons, filter_nil.
  destruct (decide (P x)); cbn; lia.
Qed.

Lemma note_figures b pkt pkts l : figures pkts l → figures (pkts ++ [(b, pkt)]) (note b pkt l).
Proof.
  intros [Ht Hb Hc Hs Hx]. unfold note. split; cbn [total byte_total counts per_sec samples].
  - rewrite Ht. unfold zlen. rewrite length_app. cbn. lia.
  - rewrite Hb, fmap_app. symmetry. apply sum_snoc.
  - intros c. by rewrite bump_get, Hc, filter_snoc_len.
  - intros c. by rewrite bump_get, Hs, filter_snoc_len.
  - rewrite list.filter_app, filter_cons, filter_nil, fmap_app. cbn [fst snd].
    unfold is_other at 2. cbn [snd]. unfold zl_eqb.
    destruct (decide (classify pkt = s! "OTHER")) as [E|E].
    2: { rewrite bool_decide_eq_false_2 by done. cbn. by rewrite app_nil_r. }
    rewrite bool_decide_eq_true_2 by done. cbn [andb fmap list_fmap].
    rewrite Hx. generalize (described <$> filter is_other pkts). intros d. rewrite take_app. cbn [described snd].
    destruct (decide (length d < 12)%nat) as [Hl|Hl].
    + rewrite (take_ge d) by lia. assert ((zlen d <? 12) = true) as -> by (apply Z.ltb_lt; unfold zlen; lia).
      rewrite (take_ge [_]) by (cbn; lia). done.
    + assert ((zlen (take 12 d) <? 12) = false) as ->
        by (apply Z.ltb_ge; unfold zlen; rewrite length_take; lia).
      by replace (12 - length d)%nat with 0%nat by lia; rewrite app_nil_r.
Qed.

Section Accounts.
Context {W : Type} `{UsbEnv W}.
(** The transfers a transport has delivered, which only reading changes. *)
Variable delivered : W → list bytes.
Hypothesis read_delivers : ∀ n t w, delivered (bulk_read n t w).2 =
  delivered w ++ match (bulk_read n t w).1 with Ok b => [b] | Err _ => [] end.
Hypothesis clock_delivers_nothing : ∀ w, delivered (monotonic w).2 = delivered w.

Lemma world_time_delivers w : delivered (world_time w).2 = delivered w.
Proof.
  unfold world_time. pose proof (clock_delivers_nothing w) as Hw. destruct (monotonic w). exact Hw.
Qed.

(** The packets among some transfers: those that are not empty. *)
Definition packets (l : list bytes) : list bytes := filter (λ b, b ≠ []) l.

Lemma listen_once_figures start a w a' w' pkts :
  listen_once start a w = (Ok a', w') → figures pkts a →
  ∃ new pkts', delivered w' = delivered w ++ new ∧ packets new = pkts'.*2 ∧ figures (pkts ++ pkts') a'.
Proof.
  unfold listen_once. intros E Ha. apply M_bind_ok in E as (pkt & w1 & Er & E).
  pose proof (read_delivers 512 200 w) as Hd. rewrite Er in Hd. cbn [fst snd] in Hd.
  unfold zl_eqb in E. destruct (decide (pkt = [])) as [->|Hne].
  - injection E as <- <-. exists [[]], []. by rewrite app_nil_r.
  - rewrite bool_decide_eq_false_2 in E by done. apply M_bind_ok in E as (t & w2 & Et & [= <- <-]).
    pose proof (world_time_delivers w1) as Hw. rewrite Et in Hw. cbn [snd] in Hw.
    exists [pkt], [(Z.quot (t - start) 1000000, pkt)]. split_and!; [by rewrite Hw| |by apply note_figures].
    unfold packets. rewrite filter_cons, filter_nil. by destruct (decide _).
Qed.

Lemma listening_figures fuel going start a w a' w' pkts :
  while_time world_time fuel going (listen_once start) a w = (Ok a', w') → figures pkts a →
  ∃ new pkts', delivered w' = delivered w ++ new ∧ packets new = pkts'.*2 ∧ figures (pkts ++ pkts') a'.
Proof.
  revert a w pkts. induction fuel as [|fuel IH]; intros a w pkts E Ha; cbn [while_time] in E; [done|].
  apply M_bind_ok in E as (t & w1 & Et & E). pose proof (world_time_delivers w) as Hw. rewrite Et in Hw.
  cbn [snd] in Hw. destruct (going t).
  - apply M_bind_ok in E as (a1 & w2 & E1 & E).
    destruct (listen_once_figures _ _ _ _ _ _ E1 Ha) as (n1 & p1 & D1 & P1 & F1).
    destruct (IH _ _ _ E F1) as (n2 & p2 & D2 & P2 & F2). exists (n1 ++ n2), (p1 ++ p2).
    rewrite D2, D1, Hw, !app_assoc. rewrite <- app_assoc in F2. split_and!; [done| |by rewrite app_assoc in F2].
    unfold packets in *. by rewrite list.filter_app, P1, P2, fmap_app.
  - injection E as <- <-. exists [], []. by rewrite Hw, !app_nil_r.
Qed.

(** [listen] accounts for what it read: the packets are exactly the transfers that
    were delivered meanwhile and not empty; frames, bytes, the counts by class and by
    second are theirs, and the samples describe the first twelve unknown ones. *)
Theorem listen_accounts fuel secs w l w' :
  listen fuel secs w = (Ok l, w') →
  ∃ new pkts, delivered w' = delivered w ++ new ∧ packets new = pkts.*2 ∧ figures pkts l.
Proof.
  unfold listen. intros E. apply M_bind_ok in E as (t1 & w1 & E1 & E).
  apply M_bind_ok in E as (t2 & w2 & E2 & E).
  pose proof (world_time_delivers w) as H1. rewrite E1 in H1. cbn [snd] in H1.
  pose proof (world_time_delivers w1) as H2. rewrite E2 in H2. cbn [snd] in H2.
  destruct (listening_figures _ _ _ _ _ _ _ [] E) as (new & pkts & Hd & Hp & Hf); [by split|].
  exists new, pkts. by rewrite Hd, H2, H1.
Qed.
End Accounts.
