(* ===== verification/HttpProbes.v ===== *)
(** The measuring probes over HTTP (research/spike-metering/probes: meter_cadence.py,
    http_meters_bench.py and decouple_test.py), which time the device's own HTTP server.

    A probe is a tree of its operations ([prog]): connecting, requests, responses,
    clocks and output through [http.client], [time] and [os], each answered in any way
    or with an exception, and threads that are started and joined ([Par]).  None of the
    scripts catches an exception, so one ends its thread.  [runs] are the traces, with
    all interleavings of the threads; times are microseconds.

    Shown: in every run of a probe every request is a GET of the meters, of the
    datastore or of its uid; and the concurrent measurement counts what it did: its
    total is the number of responses that were waited for when no thread failed. *)
From S2P Require Import Prelude PyText Protocol Parser Usb Managed Coordinator Walk WireLog.
From S2P Require Import Paths Device Json Schema JsonText IpAddr Http Report Urb Usbfs CliArgs Token Cli Argv Live LiveTool Probes.

(** * Programs *)

Inductive op :=
  | Connect (timeout_s : Z)
  | Request (conn : Z) (method path : pystr) (headers : list (pystr * pystr))
  | GetResponse (conn : Z)      (** [getresponse()] and [read()] *)
  | CloseConn (conn : Z)
  | Time
  | CpuTimes
  | Sleep (us : Z)
  | Print (line : pystr).

(** A number (a connection, a status, a time), an ETag, the length of a body. *)
Record answer := { a_num : Z; a_etag : option pystr; a_len : Z }.

(** What a thread leaves behind. *)
Abbreviation outcome := (result (list Z)).

Inductive prog :=
  | Done (r : outcome)
  | Op (o : op) (k : result answer → prog)
  | Par (threads : list prog) (k : list outcome → prog).

(** A computation in a thread: an exception ends the thread. *)
Definition P (A : Type) : Type := (A → prog) → prog.
#[global] Instance P_ret : MRet P := λ A a k, k a.
#[global] Instance P_bind : MBind P := λ A B f m k, m (λ a, f a k).

Definition raise {A} (e : exn) : P A := λ _, Done (Err e).
Definition lift {A} (r : result A) : P A := λ k, match r with Ok a => k a | Err e => Done (Err e) end.
Definition call (o : op) : P answer := λ k, Op o (λ r, match r with Ok a => k a | Err e => Done (Err e) end).
(** A call whose failure changes nothing that is looked at later. *)
Definition call_last (o : op) : P unit := λ k, Op o (λ _, k tt).
Definition fork_join (threads : list (P (list Z))) : P (list outcome) := λ k,
  Par ((λ m : P (list Z), m (λ v, Done (Ok v))) <$> threads) k.
(** The program of a main thread. *)
Definition program_of (m : P unit) : prog := m (λ _, Done (Ok [])).

Definition time : P Z := a ← call Time; mret (a_num a).
Definition cpu : P Z := a ← call CpuTimes; mret (a_num a).
Definition puts (line : pystr) : P unit := _ ← call (Print line); mret tt.

Fixpoint ploop {A} (fuel : nat) (going : Z → bool) (body : A → P A) (a : A) : P A :=
  match fuel with
  | O => raise AssertionError
  | S fuel => t ← time; if going t then a' ← body a; ploop fuel going body a' else mret a
  end.
Fixpoint pfor {A} (n : nat) (body : A → P A) (a : A) : P A :=
  match n with O => mret a | S n => a' ← body a; pfor n body a' end.
Fixpoint peach {A} (body : A → P unit) (l : list A) : P unit :=
  match l with [] => mret tt | x :: l => _ ← body x; peach body l end.

(** * The probes *)

Section Probes.
Variable show_quotient : pystr → Z * Z → pystr.
Variable fuel : nat.

Definition meters_path (group : pystr) : pystr := s! "/meters?meters=" ++ group.

(** A request and its response. *)
Definition exchange (c : Z) (path : pystr) (headers : list (pystr * pystr)) : P answer :=
  _ ← call (Request c (s! "GET") path headers);
  call (GetResponse c).

(** ** meter_cadence.py *)

Definition conn : P Z := a ← call (Connect 20); mret (a_num a).

(** [get]: the time it took, the status, and the number of the ETag. *)
Definition cadence_get (group : pystr) (c : Z) (etag : option pystr) : P (Z * Z * option Z) :=
  let h := match or_text etag None with Some e => [(s! "If-None-Match", e)] | None => [] end in
  t0 ← time;
  r ← exchange c (meters_path group) h;
  t1 ← time;
  n ← lift (etag_number (a_etag r));
  mret (t1 - t0, a_num r, n).

Definition a_lines (found : list (Z * option Z)) : result (pystr * pystr) :=
  let ts := found.*1 in
  let ets := omap snd found in
  match head ts, list.last ts with
  | Some t0, Some t1 =>
      let dur := t1 - t0 in
      let polls := zlen found in
      let uniq := zlen (remove_dups ets) in
      let span := etag_span ets in
      rate ← quotient (polls * 1000000) dur;
      etag_rate ← quotient (span * 1000000) dur;
      share ← quotient (uniq * 100) polls;
      Ok (s! "[A max-rate] polls=" ++ str_of_int polls ++ s! " dur=" ++
          show_quotient (s! ".2f") (dur, 1000000) ++ s! "s polls/s=" ++ show_quotient (s! ".0f") rate,
          s! "   etag_span=" ++ str_of_int span ++ s! " -> etag_rate=" ++
          show_quotient (s! ".0f") etag_rate ++ s! "/s  unique_etags=" ++ str_of_int uniq ++ s! " (" ++
          show_quotient (s! ".0f") share ++ s! "% of polls new)")
  | _, _ => Err IndexError
  end.

(** A: as fast as possible for two seconds. *)
Definition part_a (group : pystr) : P unit :=
  c ← conn;
  _ ← pfor 3 (λ _, _ ← cadence_get group c None; mret tt) tt;
  t ← time;
  found ← ploop fuel (λ now, now <? t + 2000000)
    (λ acc, '(_, _, et) ← cadence_get group c None; now ← time; mret (acc ++ [(now, et)])) [];
  _ ← call (CloseConn c);
  '(first, second) ← lift (a_lines found);
  _ ← puts first;
  puts second.

(** A pass of B: the intervals, the differences and the last number. *)
Definition b_once (group : pystr) (c : Z) (a : list Z * list Z * option Z)
    : P (list Z * list Z * option Z) :=
  let '(intervals, deltas, last) := a in
  '(dt, _, et) ← cadence_get group c (Some (show_opt str_of_int last));
  match et, last with
  | None, _ => mret (intervals ++ [dt], deltas, last)
  | Some e, Some l => mret (intervals ++ [dt], deltas ++ [e - l], Some e)
  | Some _, None => raise TypeError
  end.

(** [statistics.mean], which refuses an empty list. *)
Definition mean (l : list Z) : result (Z * Z) := if zlen l =? 0 then Err ValueError else Ok (sum l, zlen l).

(** The figures of intervals that are sorted and not empty. *)
Definition interval_line (sorted : list Z) : result pystr :=
  let at_ n := default 0 (sorted !! n) in
  avg ← mean sorted;
  Ok (s! "[B INM long-poll] n=" ++ str_of_int (zlen sorted) ++ s! " interval_ms avg=" ++
      show_quotient (s! ".2f") (avg.1, avg.2 * 1000) ++ s! " p50=" ++
      show_quotient (s! ".2f") (at_ (length sorted / 2)%nat, 1000) ++ s! " min=" ++
      show_quotient (s! ".2f") (at_ 0%nat, 1000) ++ s! " max=" ++
      show_quotient (s! ".2f") (at_ (length sorted - 1)%nat, 1000)).

(** B: fifty long polls. *)
Definition part_b (group : pystr) : P unit :=
  c ← conn;
  '(_, _, first) ← cadence_get group c None;
  '(intervals, deltas, _) ← pfor 50 (b_once group c) ([], [], first);
  _ ← call (CloseConn c);
  line ← lift (interval_line (sort_by Z.leb intervals));
  _ ← puts line;
  avg ← lift (mean deltas);
  puts (s! "   etag_delta/response avg=" ++ show_quotient (s! ".2f") avg ++
        s! " (1.0 = we catch every frame)").

(** C: one line of the sweep. *)
Definition sweep_line (group : pystr) (sleep_ms : Z) : P unit :=
  c ← conn;
  _ ← cadence_get group c None;
  start ← time;
  a ← ploop fuel (λ now, now <? start + 1000000)
    (λ a, '(_, _, et) ← cadence_get group c None;
          _ ← (if negb (sleep_ms =? 0) then _ ← call (Sleep (sleep_ms * 1000)); mret tt else mret tt);
          mret (sweep_note et a))
    {| sw_first := None; sw_last := None; sw_n := 0 |};
  _ ← call (CloseConn c);
  now ← time;
  let d := now - start in
  rate ← lift (sweep_rate a d);
  polls ← lift (quotient (sw_n a * 1000000) d);
  puts (s! "   sleep=" ++ show_quotient (s! "2d") (sleep_ms, 1) ++ s! "ms  polls/s=" ++
        show_quotient (s! "4.0f") polls ++ s! "  etag_rate=" ++ show_quotient (s! "4.0f") rate ++ s! "/s").

Definition meter_cadence (group : pystr) : P unit :=
  _ ← part_a group;
  _ ← part_b group;
  _ ← puts (s! "[C sweep] sleep_ms -> polls/s, etag_rate/s");
  peach (sweep_line group) [0; 2; 5; 10; 20].

(** ** http_meters_bench.py *)

(** [http.client.HTTPConnection(HOST, PORT, timeout=5)] *)
Definition connect5 : P Z := a ← call (Connect 5); mret (a_num a).

Definition bench_keepalive (group : pystr) (n : Z) : P unit :=
  c ← connect5;
  let poll := exchange c (meters_path group) [] in
  _ ← pfor 5 (λ _, _ ← poll; mret tt) tt;
  c0 ← cpu;
  w0 ← time;
  last ← pfor (Z.to_nat n) (λ _, r ← poll; mret (Some r)) None;
  w1 ← time;
  c1 ← cpu;
  let dt := w1 - w0 in
  let used := c1 - c0 in
  _ ← puts (s! "[keep-alive] group=" ++ group ++ s! " N=" ++ str_of_int n ++ s! " status=" ++
            show_opt (λ r, str_of_int (a_num r)) last ++ s! " bytes=" ++
            show_opt (λ r, str_of_int (a_len r)) last ++ s! " etag=" ++ show_opt id (last ≫= a_etag));
  ms_poll ← lift (quotient dt (n * 1000));
  rate ← lift (quotient (n * 1000000) dt);
  cpu_poll ← lift (quotient used (n * 1000));
  util ← lift (quotient (used * 100) dt);
  _ ← puts (s! "  ms/poll=" ++ show_quotient (s! ".2f") ms_poll ++ s! "  polls/sec=" ++
            show_quotient (s! ".0f") rate ++ s! "  cpu/poll=" ++ show_quotient (s! ".3f") cpu_poll ++
            s! "ms  cpu_util@max=" ++ show_quotient (s! ".1f") util ++ s! "%");
  _ ← call (CloseConn c);
  mret tt.

Definition bench_newconn (group : pystr) (m : Z) : P unit :=
  w0 ← time;
  _ ← pfor (Z.to_nat m) (λ _, c ← connect5; _ ← exchange c (meters_path group) [];
                              _ ← call (CloseConn c); mret tt) tt;
  w1 ← time;
  let dt := w1 - w0 in
  ms_req ← lift (quotient dt (m * 1000));
  rate ← lift (quotient (m * 1000000) dt);
  puts (s! "[new-conn each] M=" ++ str_of_int m ++ s! "  ms/req=" ++ show_quotient (s! ".2f") ms_req ++
        s! "  req/sec=" ++ show_quotient (s! ".0f") rate).

(** What a worker appends to [results]. *)
Definition worker (group : pystr) (per : Z) : P (list Z) :=
  c ← connect5;
  _ ← pfor (Z.to_nat per) (λ _, _ ← exchange c (meters_path group) []; mret tt) tt;
  _ ← call (CloseConn c);
  mret [per].

(** [sum(results)]: a thread that failed has appended nothing. *)
Definition results_sum (rs : list outcome) : Z :=
  sum (concat ((λ r, match r with Ok v => v | Err _ => [] end) <$> rs)).

Definition bench_concurrent (group : pystr) (threads per : Z) : P unit :=
  w0 ← time;
  rs ← fork_join (replicate (Z.to_nat threads) (worker group per));
  w1 ← time;
  let dt := w1 - w0 in
  let total := results_sum rs in
  rate ← lift (quotient (total * 1000000) dt);
  ms_poll ← lift (quotient dt (per * 1000));
  puts (s! "[concurrent x" ++ str_of_int threads ++ s! "] total=" ++ str_of_int total ++
        s! "  agg_polls/sec=" ++ show_quotient (s! ".0f") rate ++ s! "  per-conn_ms/poll=" ++
        show_quotient (s! ".2f") ms_poll).

Definition http_meters_bench (group : pystr) (n : Z) : P unit :=
  _ ← bench_keepalive group n;
  _ ← bench_newconn group 100;
  bench_concurrent group 4 150.

(** ** decouple_test.py *)

Definition conn25 : P Z := a ← call (Connect 25); mret (a_num a).

(** The thread with the long poll; [http.client] refuses a header without a value.
    [hold] is filled before the connection is closed. *)
Definition held_longpoll (ds_etag : option pystr) : P (list Z) :=
  cc ← conn25;
  t0 ← time;
  e ← lift (match ds_etag with Some e => Ok e | None => Err TypeError end);
  r ← exchange cc (s! "/datastore") [(s! "If-None-Match", e)];
  t1 ← time;
  _ ← call_last (CloseConn cc);
  mret [t1 - t0; a_num r; a_len r].

(** What the main thread does meanwhile: the window and the latencies. *)
Definition meanwhile : P (list Z) :=
  _ ← call (Sleep 300000);
  mc ← conn25;
  t_start ← time;
  lat ← pfor 30 (λ acc, t0 ← time; _ ← exchange mc (s! "/meters?meters=ext/input") [];
                        t1 ← time; mret (acc ++ [t1 - t0])) [];
  t_end ← time;
  _ ← call (CloseConn mc);
  mret ((t_end - t_start) :: lat).

(** The two lines; [hold] is empty when the thread failed. *)
Definition decouple_lines (held : outcome) (window : Z) (lat : list Z) : result (pystr * pystr) :=
  let '(dt, st) := match held with Ok [dt; st; _] => (dt, Some st) | _ => (0, None) end in
  let lat := sort_by Z.leb lat in
  avg ← quotient (sum lat) (zlen lat * 1000);
  Ok (s! "datastore long-poll: held=" ++ show_quotient (s! ".2f") (dt, 1000000) ++ s! "s status=" ++
      show_opt str_of_int st ++ s! " (~15s=held, <1s=no-hold)",
      s! "meters during hold: n=" ++ str_of_int (zlen lat) ++ s! " total_window=" ++
      show_quotient (s! ".2f") (window, 1000000) ++ s! "s avg=" ++ show_quotient (s! ".2f") avg ++
      s! "ms p50=" ++ show_quotient (s! ".2f") (default 0 (lat !! (length lat / 2)%nat), 1000) ++
      s! "ms max=" ++ show_quotient (s! ".2f") (default 0 (list.last lat), 1000) ++ s! "ms").

Definition decouple_test : P unit :=
  c ← conn25;
  r ← exchange c (s! "/datastore/uid") [];
  _ ← call (CloseConn c);
  _ ← puts (s! "datastore etag=" ++ show_opt id (a_etag r));
  rs ← fork_join [held_longpoll (a_etag r); meanwhile];
  match rs with
  | [held; Ok (window :: lat)] =>
      '(first, second) ← lift (decouple_lines held window lat);
      _ ← puts first;
      puts second
  | [_; Err e] => raise e
  | _ => raise AssertionError
  end.
End Probes.

(** * Runs *)

(** The traces of a program and what it leaves, whatever the answers; the threads of a
    [Par] in any interleaving, in the order in which they were started. *)
Inductive interleaving : list op → list op → list op → Prop :=
  | il_nil : interleaving [] [] []
  | il_left o l1 l2 l : interleaving l1 l2 l → interleaving (o :: l1) l2 (o :: l)
  | il_right o l1 l2 l : interleaving l1 l2 l → interleaving l1 (o :: l2) (o :: l).

Inductive runs : prog → list op → outcome → Prop :=
  | runs_done r : runs (Done r) [] r
  | runs_op o k a l r : runs (k a) l r → runs (Op o k) (o :: l) r
  | runs_par ps k l rs l' r : runs_all ps l rs → runs (k rs) l' r → runs (Par ps k) (l ++ l') r
with runs_all : list prog → list op → list outcome → Prop :=
  | runs_none : runs_all [] [] []
  | runs_more p ps l1 r1 l2 rs l :
      runs p l1 r1 → runs_all ps l2 rs → interleaving l1 l2 l → runs_all (p :: ps) l (r1 :: rs).

Scheme runs_mut := Induction for runs Sort Prop
  with runs_all_mut := Induction for runs_all Sort Prop.

(** ** Operations a program is confined to *)

Section Confined.
Variable allowed : op → Prop.

Inductive confined : prog → Prop :=
  | cf_done r : confined (Done r)
  | cf_op o k : allowed o → (∀ a, confined (k a)) → confined (Op o k)
  | cf_par ps k : confined_all ps → (∀ rs, confined (k rs)) → confined (Par ps k)
with confined_all : list prog → Prop :=
  | cf_none : confined_all []
  | cf_more p ps : confined p → confined_all ps → confined_all (p :: ps).

Lemma interleaving_allowed l1 l2 l :
  interleaving l1 l2 l → Forall allowed l1 → Forall allowed l2 → Forall allowed l.
Proof. induction 1; intros H1 H2; [done|inversion_clear H1; auto|inversion_clear H2; auto]. Qed.

Lemma confined_runs p l r : runs p l r → confined p → Forall allowed l.
Proof.
  intros Hr. induction Hr using runs_mut
    with (P0 := λ ps l rs _, confined_all ps → Forall allowed l); intros Hc; inversion_clear Hc; auto.
  - apply list.Forall_app. auto.
  - eapply interleaving_allowed; eauto.
Qed.

(** A computation that is confined as far as it goes. *)
Definition keeps_to {A} (m : P A) : Prop := ∀ k, (∀ a, confined (k a)) → confined (m k).

Lemma stays_ret {A} (a : A) : keeps_to (mret a).
Proof. intros k Hk. apply Hk. Qed.
Lemma stays_bind {A B} (m : P A) (f : A → P B) :
  keeps_to m → (∀ a, keeps_to (f a)) → keeps_to (m ≫= f).
Proof. intros Hm Hf k Hk. apply Hm. intros a. by apply Hf. Qed.
Lemma stays_raise {A} e : keeps_to (raise (A := A) e).
Proof. intros k Hk. constructor. Qed.
Lemma stays_lift {A} (r : result A) : keeps_to (lift r).
Proof. intros k Hk. destruct r; [apply Hk|constructor]. Qed.
Lemma stays_call o : allowed o → keeps_to (call o).
Proof. intros Ho k Hk. constructor; [done|]. intros [a|e]; [apply Hk|constructor]. Qed.
Lemma stays_last o : allowed o → keeps_to (call_last o).
Proof. intros Ho k Hk. by constructor. Qed.
Lemma stays_fork threads : Forall keeps_to threads → keeps_to (fork_join threads).
Proof.
  intros Ht k Hk. constructor; [|done]. induction Ht as [|m ms Hm _ IH]; cbn; constructor; [|done].
  apply Hm. intros a. constructor.
Qed.
Lemma stays_if {A} (b : bool) (m n : P A) : keeps_to m → keeps_to n → keeps_to (if b then m else n).
Proof. by destruct b. Qed.

Lemma stays_program m l r : keeps_to m → runs (program_of m) l r → Forall allowed l.
Proof. intros Hm Hr. apply (confined_runs _ _ _ Hr). apply Hm. intros a. constructor. Qed.
End Confined.

(** Splits a computation into its operations, by its syntax. *)
Ltac keeps :=
  repeat match goal with
  | |- keeps_to _ (_ ≫= _) => apply stays_bind; [|intros ?]
  | |- keeps_to _ (mret _) => apply stays_ret
  | |- keeps_to _ (raise _) => apply stays_raise
  | |- keeps_to _ (lift _) => apply stays_lift
  | H : keeps_to _ ?m |- keeps_to _ ?m => exact H
  | H : ∀ _, keeps_to _ _ |- keeps_to _ _ => apply H
  | |- keeps_to _ (call _) => apply stays_call; try exact I
  | |- keeps_to _ (call_last _) => apply stays_last; try exact I
  | |- keeps_to _ (if _ then _ else _) => apply stays_if
  | |- keeps_to _ (match ?x with _ => _ end) => destruct x
  | |- keeps_to _ ((λ _, _) _) => cbv beta
  | |- _ => solve [trivial with keeps]
  end.
Create HintDb keeps discriminated.

Section KeepLoops.
Variable allowed : op → Prop.
Hypothesis allowed_time : allowed Time.

Lemma stays_time : keeps_to allowed time.
Proof. unfold time. keeps. Qed.
#[local] Hint Resolve stays_time : keeps.
Lemma stays_ploop {A} fuel going (body : A → P A) a :
  (∀ a, keeps_to allowed (body a)) → keeps_to allowed (ploop fuel going body a).
Proof. intros Hb. revert a. induction fuel as [|fuel IH]; intros a; cbn [ploop]; keeps. Qed.
Lemma stays_pfor {A} n (body : A → P A) a :
  (∀ a, keeps_to allowed (body a)) → keeps_to allowed (pfor n body a).
Proof. intros Hb. revert a. induction n as [|n IH]; intros a; cbn [pfor]; keeps. Qed.
Lemma stays_peach {A} (body : A → P unit) l :
  (∀ a, keeps_to allowed (body a)) → keeps_to allowed (peach body l).
Proof. intros Hb. induction l as [|x l IH]; cbn [peach]; keeps. Qed.
End KeepLoops.

(** * The probes are read-only *)

(** The requests of a probe that measures [group]. *)
Definition harmless (group : pystr) (o : op) : Prop :=
  match o with
  | Request _ method path _ =>
      method = s! "GET" ∧ path ∈ [meters_path group; s! "/datastore"; s! "/datastore/uid"]
  | _ => True
  end.

Section Harmless.
Variable group : pystr.
#[local] Abbreviation ok := (keeps_to (harmless group)).

Lemma ok_exchange c path hs :
  path ∈ [meters_path group; s! "/datastore"; s! "/datastore/uid"] → ok (exchange c path hs).
Proof. intros Hp. unfold exchange. keeps; done. Qed.
Lemma ok_time : ok time.
Proof. by apply stays_time. Qed.
Lemma ok_puts l : ok (puts l).
Proof. unfold puts. keeps; done. Qed.
Lemma ok_cpu : ok cpu.
Proof. unfold cpu. keeps; done. Qed.
Lemma ok_call o : harmless group o → ok (call o).
Proof. apply stays_call. Qed.
Lemma ok_meters c hs : ok (exchange c (meters_path group) hs).
Proof. apply ok_exchange, list_elem_of_here. Qed.
#[local] Hint Resolve ok_time ok_puts ok_cpu ok_meters : keeps.
#[local] Hint Extern 2 (ok (call _)) => apply ok_call; exact I : keeps.

Lemma ok_conns : ok conn ∧ ok connect5 ∧ ok conn25.
Proof. unfold conn, connect5, conn25. repeat split; keeps. Qed.
Lemma ok_get c etag : ok (cadence_get group c etag).
Proof. unfold cadence_get. keeps. Qed.
#[local] Hint Resolve ok_get : keeps.

(** Loops and the statements around them. *)
#[local] Ltac ok_body :=
  repeat (keeps; first [apply stays_ploop; [exact I|intros ?] | apply stays_pfor; intros ?
                       | apply stays_peach; intros ?]).

Lemma ok_meter_cadence show fuel : ok (meter_cadence show fuel group).
Proof.
  destruct ok_conns as (? & _ & _). unfold meter_cadence.
  apply stays_bind; [unfold part_a; ok_body|intros ?].
  apply stays_bind; [unfold part_b, b_once; ok_body|intros ?].
  unfold sweep_line. cbv zeta. ok_body.
Qed.

Lemma ok_bench show n : ok (http_meters_bench show group n).
Proof.
  destruct ok_conns as (_ & ? & _). unfold http_meters_bench.
  apply stays_bind; [unfold bench_keepalive; cbv zeta; ok_body|intros ?].
  apply stays_bind; [unfold bench_newconn; cbv zeta; ok_body|intros ?].
  assert (ok (worker group 150)) by (unfold worker; ok_body).
  assert (∀ n, ok (fork_join (replicate n (worker group 150)))) by (intros; by apply stays_fork, Forall_replicate).
  unfold bench_concurrent. cbv zeta. keeps.
Qed.
End Harmless.

Lemma ok_decouple show : keeps_to (harmless (s! "ext/input")) (decouple_test show).
Proof.
  pose proof (ok_conns (s! "ext/input")) as (_ & _ & ?).
  pose proof (ok_time (s! "ext/input")). pose proof (ok_puts (s! "ext/input")).
  pose proof (ok_exchange (s! "ext/input")) as Hx.
  assert (∀ c, keeps_to (harmless (s! "ext/input")) (call (CloseConn c))) by (intros; by apply stays_call).
  assert (∀ e, keeps_to (harmless (s! "ext/input")) (held_longpoll e)).
  { intros e. unfold held_longpoll. keeps. apply Hx. apply list_elem_of_further, list_elem_of_here. }
  assert (keeps_to (harmless (s! "ext/input")) meanwhile).
  { unfold meanwhile. keeps. apply stays_pfor. intros acc. keeps. apply Hx, list_elem_of_here. }
  assert (∀ e, keeps_to (harmless (s! "ext/input")) (fork_join [held_longpoll e; meanwhile]))
    by (intros e; apply stays_fork; auto).
  unfold decouple_test. keeps. apply Hx. do 2 apply list_elem_of_further. apply list_elem_of_here.
Qed.

(** The probes, with the group they measure. *)
Inductive http_probe :=
  | MeterCadence (group : pystr)
  | MetersBench (group : pystr) (n : Z)
  | DecoupleTest.

Definition probe_group (p : http_probe) : pystr :=
  match p with MeterCadence g | MetersBench g _ => g | DecoupleTest => s! "ext/input" end.

Definition http_probe_main (show : pystr → Z * Z → pystr) (fuel : nat) (p : http_probe) : P unit :=
  match p with
  | MeterCadence g => meter_cadence show fuel g
  | MetersBench g n => http_meters_bench show g n
  | DecoupleTest => decouple_test show
  end.

(** In every run of a probe over HTTP, with any answers and any interleaving of its
    threads, every request is a GET, of the meters of its group, the datastore or
    its uid. *)
Theorem http_probes_read_only show fuel p l r :
  runs (program_of (http_probe_main show fuel p)) l r → Forall (harmless (probe_group p)) l.
Proof.
  apply stays_program. destruct p; [apply ok_meter_cadence|apply ok_bench|apply ok_decouple].
Qed.

(** * The concurrent measurement counts what it did *)

Definition responses (l : list op) : Z :=
  zlen (List.filter (λ o, match o with GetResponse _ => true | _ => false end) l).

Lemma responses_cons o l :
  responses (o :: l) = (match o with GetResponse _ => 1 | _ => 0 end) + responses l.
Proof. unfold responses, zlen. destruct o; cbn [List.filter length]; lia. Qed.

Lemma responses_interleaving l1 l2 l : interleaving l1 l2 l → responses l = responses l1 + responses l2.
Proof. induction 1; rewrite ?responses_cons; [done|lia|lia]. Qed.

(** A run that goes through a call: its answer, and the rest. *)
Lemma runs_call o (k : answer → prog) l v :
  runs (call o k) l (Ok v) → ∃ a l', l = o :: l' ∧ runs (k a) l' (Ok v).
Proof.
  unfold call. inversion 1 as [|o' k' a l' r Hr|]; subst. destruct a as [a|e]; [eauto|]. inversion Hr.
Qed.

Lemma runs_polls group c per k l v :
  runs (pfor per (λ _, _ ← exchange c (meters_path group) []; mret tt) tt k) l (Ok v) →
  ∃ l', runs (k tt) l' (Ok v) ∧ responses l = Z.of_nat per + responses l'.
Proof.
  revert l. induction per as [|per IH]; intros l Hr; [by exists l|].
  cbn [pfor] in Hr. unfold exchange in Hr.
  apply (runs_call (Request c (s! "GET") (meters_path group) [])) in Hr as (a1 & l1 & -> & Hr).
  apply (runs_call (GetResponse c)) in Hr as (a2 & l2 & -> & Hr).
  apply IH in Hr as (l' & Hr & Hl). exists l'. split; [done|]. rewrite !responses_cons, Hl. lia.
Qed.

(** A worker that ends regularly waited for as many responses as it reports. *)
Lemma worker_counts group per l v :
  0 <= per → runs (worker group per (λ v, Done (Ok v))) l (Ok v) → v = [per] ∧ responses l = per.
Proof.
  intros Hper Hr. unfold worker, connect5 in Hr.
  apply (runs_call (Connect 5)) in Hr as (a1 & l1 & -> & Hr).
  apply runs_polls in Hr as (l2 & Hr & Hl). rewrite responses_cons, Hl.
  apply (runs_call (CloseConn (a_num a1))) in Hr as (a3 & l3 & -> & Hr).
  inversion Hr; subst. split; [done|]. rewrite responses_cons. change (responses []) with 0. lia.
Qed.

Lemma workers_count group per n l rs :
  0 <= per →
  runs_all ((λ m : P (list Z), m (λ v, Done (Ok v))) <$> replicate n (worker group per)) l rs →
  Forall (λ r, is_ok r = true) rs → results_sum rs = responses l ∧ results_sum rs = Z.of_nat n * per.
Proof.
  intros Hper. revert l rs. induction n as [|n IH]; intros l rs Hr Hok; cbn [replicate fmap list_fmap] in Hr;
    inversion Hr as [|p ps l1 r1 l2 rs' l' H1 H2 Hi]; subst; [done|].
  inversion_clear Hok as [|? ? Ho1 Ho2]. destruct r1 as [v|e]; [|done].
  apply worker_counts in H1 as [-> Hl1]; [|done]. destruct (IH _ _ H2 Ho2) as [Hs Hn].
  rewrite (responses_interleaving _ _ _ Hi), Hl1, <- Hs. 
  change (results_sum (Ok [per] :: rs')) with (per + results_sum rs'). lia.
Qed.

(** The total of [bench_concurrent]: when no thread failed, it is the number of
    responses its threads waited for, [threads * per]. *)
Theorem concurrent_total group threads per l rs :
  0 <= per → 0 <= threads →
  runs_all ((λ m : P (list Z), m (λ v, Done (Ok v))) <$> replicate (Z.to_nat threads) (worker group per)) l rs →
  Forall (λ r, is_ok r = true) rs →
  results_sum rs = responses l ∧ results_sum rs = threads * per.
Proof.
  intros Hper Hth Hr Hok. destruct (workers_count _ _ _ _ _ Hper Hr Hok) as [H1 H2]. split; [done|]. lia.
Qed.

(** A run of the decoupling test whose first connection fails. *)
Example decouple_refused show :
  runs (program_of (decouple_test show)) [Connect 25] (Err (OSError 111)).
Proof. apply (runs_op _ _ (Err (OSError 111))). constructor. Qed.
